(** * Montage: the persistent lock-free hash table and the transient graph

    A shallow embedding of [PLockfreeHashTable] (PLockfreeHashTable.hpp)
    and of [TGraph] (TGraph.hpp), with the properties their specification
    states about them.

    The hash table's nodes live in a heap of persistent memory addressed
    by 64-bit integers; a [MarkPtr] holds such an address with the
    logical-deletion mark in bit 0.  Every operation is a program of the
    monad [PHT.M]: it threads the memory, the allocator, the list of
    retired nodes and a trace of the memory events (loads, stores, CAS,
    cacheline writebacks, fences) of the running thread.  The writes of
    the other threads are an input of the run ([PHT.env]): one batch of
    writes is applied before each atomic access of the running thread.
    A run without interference ([env = nil]) is the sequential
    execution.

    The graph is a table with, for every vertex index, the vertex (its
    adjacency list and its set of incoming relations), a lock and a
    32-bit sequence number.  Every operation is a program of the monad
    [TGraph.M], which threads the table, the events of the running
    thread (locks taken and released, relations built and deleted), the
    tables at every release of a lock, and the writes of the other
    threads, applied when the running thread takes a lock.

    The modules [PHT] and [TGraph] hold the two models and the
    predicates the properties are stated with; the modules [PHT_proofs]
    and [TGraph_proofs] hold the lemmas and the theorems.  After the
    properties of the specification (C1 to C10) come further properties
    of the code (X1 to X22): the tagged pointers, the bindings of a
    quiescent table, what a traversal finds, the discipline of [retire],
    the construction of a node that fails half-way and the fate of the
    node an operation has built for the hash table; the constructor, the statistics, the edge and vertex
    operations alone and among other threads, and the order of the
    locks for the graph. *)

From Stdlib Require Import ZArith String Ascii List Lia Bool.
From Stdlib Require Import OrderedTypeEx Sorted Permutation.
From stdpp Require Import base option list gmap sorting.

Local Open Scope Z_scope.

Module PHT.

(** ** Tagged pointers *)

(** [const uint64_t MARK_MASK = ~0x1;] *)
Definition MARK_MASK : Z := 2 ^ 64 - 2.

Definition getPtr (mptr : Z) : Z := Z.land mptr MARK_MASK.

Definition getMark (mptr : Z) : bool := negb (Z.land mptr 1 =? 0).

Definition mixPtrMark (ptr : Z) (mk : bool) : Z := Z.lor ptr (Z.b2z mk).

Definition setMark (mptr : Z) : Z := mixPtrMark mptr true.

(** [const int idxSize=1000000;] *)
Definition idxSize : Z := 1000000.

(** ** Persistent nodes *)

(** [std::basic_string<char,char_traits<char>,my_alloc<char>>]: the
    characters, and the buffer [my_alloc] gave for them ([0] when the
    characters are stored inside the string object). *)
Record pstring := mkPstring { chars : string; data : Z }.

Record Node := mkNode { key : pstring; val : pstring; next : Z }.

(** A [MarkPtr*]: the head of a bucket or the [next] field of a node. *)
Inductive Slot :=
| Bucket (idx : Z)
| NextOf (n : Z).

Definition Slot_eqb (a b : Slot) : bool :=
  match a, b with
  | Bucket i, Bucket j => i =? j
  | NextOf n, NextOf m => n =? m
  | _, _ => false
  end.

(** What a cacheline writeback is asked to write back: [clwb(node)],
    [clwb(prev)], or the characters of a string of a node. *)
Inductive Target :=
| TNode (n : Z)
| TSlot (s : Slot)
| TChars (buf : Z) (len : Z).

Inductive Event :=
| EMalloc (size : Z) (p : Z)
| EFree (p : Z)
| EConstruct (n : Z)
| ELoad (s : Slot) (v : Z)
| EStore (s : Slot) (v : Z)
| ECas (s : Slot) (expected desired : Z) (ok : bool)
| EClwb (t : Target)
| ESfence
| EStartOp (tid : Z)
| EEndOp (tid : Z)
| ERetire (n : Z) (tid : Z).

(** ** The state a thread runs in *)

Record World := mkWorld {
  heap : gmap Z Node;            (* persistent nodes, by address *)
  buckets : gmap Z Z;            (* bucket heads; an absent entry is nullptr *)
  brk : Z;                       (* allocator: first address never handed out *)
  limit : Z;                     (* allocator: end of the persistent region *)
  retired : list Z;              (* tracker.retire *)
  trace : list Event;            (* events of this thread, oldest first *)
  hist : list (gmap Z Node * gmap Z Z);  (* memory after each write of this thread *)
  env : list (list (Slot * Z))   (* writes of the other threads, one batch per access *)
}.

Definition set_heap (h : gmap Z Node) (w : World) : World :=
  mkWorld h (buckets w) (brk w) (limit w) (retired w) (trace w) (hist w) (env w).
Definition set_buckets (b : gmap Z Z) (w : World) : World :=
  mkWorld (heap w) b (brk w) (limit w) (retired w) (trace w) (hist w) (env w).
Definition set_brk (x : Z) (w : World) : World :=
  mkWorld (heap w) (buckets w) x (limit w) (retired w) (trace w) (hist w) (env w).
Definition set_retired (r : list Z) (w : World) : World :=
  mkWorld (heap w) (buckets w) (brk w) (limit w) r (trace w) (hist w) (env w).
Definition set_trace (t : list Event) (w : World) : World :=
  mkWorld (heap w) (buckets w) (brk w) (limit w) (retired w) t (hist w) (env w).
Definition set_hist (hs : list (gmap Z Node * gmap Z Z)) (w : World) : World :=
  mkWorld (heap w) (buckets w) (brk w) (limit w) (retired w) (trace w) hs (env w).
Definition set_env (e : list (list (Slot * Z))) (w : World) : World :=
  mkWorld (heap w) (buckets w) (brk w) (limit w) (retired w) (trace w) (hist w) e.

(** How a call ends. *)
Inductive Res (A : Type) :=
| Ret (a : A) (w : World)     (* returns to the caller *)
| Exit (code : Z) (w : World) (* exit(code): the process ends *)
| Throw (w : World)           (* std::bad_alloc leaves the call *)
| Fault                       (* a pointer to no node is dereferenced *)
| Timeout.                    (* the fuel of a loop is used up *)
Arguments Ret {A} a w.
Arguments Exit {A} code w.
Arguments Throw {A} w.
Arguments Fault {A}.
Arguments Timeout {A}.

Definition M (A : Type) : Type := World -> Res A.

Definition ret {A} (a : A) : M A := fun w => Ret a w.

Definition bind {A B} (m : M A) (k : A -> M B) : M B :=
  fun w =>
    match m w with
    | Ret a w' => k a w'
    | Exit c w' => Exit c w'
    | Throw w' => Throw w'
    | Fault => Fault
    | Timeout => Timeout
    end.

Declare Scope pht_scope.
Delimit Scope pht_scope with pht.
Notation "x <- m ;; k" := (bind m (fun x => k))
  (at level 100, m at next level, k at level 200, right associativity) : pht_scope.
Notation "m ;; k" := (bind m (fun _ => k))
  (at level 100, k at level 200, right associativity) : pht_scope.
Local Open Scope pht_scope.

Definition timeout {A} : M A := fun _ => Timeout.
Definition fault {A} : M A := fun _ => Fault.
Definition exit {A} (code : Z) : M A := fun w => Exit code w.
Definition throw_bad_alloc {A} : M A := fun w => Throw w.

Definition advance (n : Z) (w : World) : World := set_brk (brk w + n) w.

Definition add_retired (n : Z) (w : World) : World := set_retired (retired w ++ [n]) w.

(** The event [e] is added to the trace. *)
Definition log (e : Event) (w : World) : World := set_trace (trace w ++ [e]) w.

Definition emit (e : Event) : M unit := fun w => Ret tt (log e w).

(** ** Memory *)

Definition read_slot (s : Slot) (w : World) : option Z :=
  match s with
  | Bucket i => Some (default 0 (buckets w !! i))
  | NextOf n => next <$> heap w !! n
  end.

Definition heap_write (s : Slot) (v : Z) (h : gmap Z Node) : gmap Z Node :=
  match s with
  | Bucket _ => h
  | NextOf n =>
      match h !! n with
      | Some nd => <[n := mkNode (key nd) (val nd) v]> h
      | None => h
      end
  end.

Definition buckets_write (s : Slot) (v : Z) (b : gmap Z Z) : gmap Z Z :=
  match s with
  | Bucket i => <[i := v]> b
  | NextOf _ => b
  end.

Definition write_slot (s : Slot) (v : Z) (w : World) : World :=
  set_buckets (buckets_write s v (buckets w)) (set_heap (heap_write s v (heap w)) w).

Definition put_node (p : Z) (nd : Node) (w : World) : World :=
  set_heap (<[p := nd]> (heap w)) w.

Definition drop_node (p : Z) (w : World) : World := set_heap (delete p (heap w)) w.

Definition snapshot (w : World) : World :=
  set_hist (hist w ++ [(heap w, buckets w)]) w.

(** One batch of the other threads' writes takes effect. *)
Definition interfere : M unit :=
  fun w =>
    match env w with
    | [] => Ret tt w
    | ws :: e =>
        Ret tt (fold_left (fun w' sv => write_slot (fst sv) (snd sv) w') ws (set_env e w))
    end.

(** [s->ptr.load()] *)
Definition load (s : Slot) : M Z :=
  interfere ;;
  fun w =>
    match read_slot s w with
    | Some v => Ret v (log (ELoad s v) w)
    | None => Fault
    end.

(** [s->ptr.store(v)] *)
Definition store (s : Slot) (v : Z) : M unit :=
  interfere ;;
  fun w =>
    match read_slot s w with
    | Some _ => Ret tt (snapshot (write_slot s v (log (EStore s v) w)))
    | None => Fault
    end.

(** [s->ptr.compare_exchange_strong(expected, desired)]: the result, and
    [expected] as the call leaves it. *)
Definition cas (s : Slot) (expected desired : Z) : M (bool * Z) :=
  interfere ;;
  fun w =>
    match read_slot s w with
    | Some v =>
        if v =? expected
        then Ret (true, expected)
               (snapshot (write_slot s desired
                  (log (ECas s expected desired true) w)))
        else Ret (false, v) (log (ECas s expected desired false) w)
    | None => Fault
    end.

(** Modelled from the spec: [clwb] of PersistFunc.hpp, which is not
    among the sources: the cacheline writeback of the object at an
    address, an event of the trace. *)
Definition clwb (t : Target) : M unit := emit (EClwb t).

(** Modelled from the spec: [clwb_range_nofence] of PersistFunc.hpp,
    which is not among the sources: the writeback of [len] bytes from
    [buf], without a fence. *)
Definition clwb_range_nofence (buf len : Z) : M unit := emit (EClwb (TChars buf len)).

(** Modelled from the spec: [sfence] of PersistFunc.hpp, which is not
    among the sources: the store fence. *)
Definition sfence : M unit := emit ESfence.

(** ** The persistent allocator and the tracker *)

Definition align16 (n : Z) : Z := (n + 15) / 16 * 16.

(** Modelled from the spec: [RP_malloc] of the persistent allocator,
    which is not among the sources and whose internals the
    specification leaves open: it gives a block or returns null.  Here
    blocks are handed out in address order, 16-byte aligned, and null is
    returned once the region is used up. *)
Definition RP_malloc (size : Z) : M Z :=
  fun w =>
    if brk w + size <=? limit w
    then Ret (brk w)
           (advance (align16 size) (log (EMalloc size (brk w)) w))
    else Ret 0 (log (EMalloc size 0) w).

(** Modelled from the spec: [RP_free] of the persistent allocator, which
    is not among the sources: the block at [p] is given back. *)
Definition RP_free (p : Z) : M unit :=
  fun w => Ret tt (snapshot (drop_node p (log (EFree p) w))).

(** Modelled from the spec: [start_op], [end_op] and [retire] of
    [RCUTracker], which is not among the sources: the first two bracket
    an operation, the third hands an unlinked node over for
    reclamation. *)
Definition start_op (tid : Z) : M unit := emit (EStartOp tid).

(** Modelled from the spec: see [start_op]. *)
Definition end_op (tid : Z) : M unit := emit (EEndOp tid).

(** Modelled from the spec: see [start_op]. *)
Definition retire (n : Z) (tid : Z) : M unit :=
  fun w => Ret tt (add_retired n (log (ERetire n tid) w)).

Section Table.

(** [std::hash<std::string> hash_fn], the size of a [Node], and the
    number of characters a persistent string asks [my_alloc] for when it
    is built from a given string ([0]: the characters fit into the string
    object): all three are fixed by the C++ library the table is built
    with. *)
Variable hash_fn : string -> Z.
Variable sizeof_Node : Z.
Variable string_request : string -> Z.

(** [my_alloc<char>::allocate(n)] *)
Definition my_alloc_allocate (n : Z) : M Z :=
  p <- RP_malloc (n * 1) ;;
  if negb (p =? 0) then ret p else throw_bad_alloc.

(** [my_alloc<char>::deallocate(ptr, n)] *)
Definition my_alloc_deallocate (ptr : Z) : M unit := RP_free ptr.

(** Copy of a [std::string] into a persistent string. *)
Definition pstring_copy (s : string) : M pstring :=
  if string_request s =? 0 then ret (mkPstring s 0)
  else (p <- my_alloc_allocate (string_request s) ;; ret (mkPstring s p)).

Definition pstring_destroy (s : pstring) : M unit :=
  if data s =? 0 then ret tt else my_alloc_deallocate (data s).

(** [Node::operator new(size)] *)
Definition Node_operator_new (size : Z) : M Z :=
  r <- RP_malloc size ;;
  if r =? 0 then exit 1 else ret r.

(** [Node::operator delete(p)] *)
Definition Node_operator_delete (p : Z) : M unit := RP_free p.

(** What a new-expression does when the constructor throws: the memory
    [operator new] gave is handed to [operator delete]. *)
Definition on_throw {A} (m : M A) (cleanup : M unit) : M A :=
  fun w =>
    match m w with
    | Throw w' =>
        match cleanup w' with
        | Ret _ w'' => Throw w''
        | _ => Throw w'
        end
    | r => r
    end.

(** [new Node(k, v, n)] *)
Definition new_Node (k v : string) (n : Z) : M Z :=
  p <- Node_operator_new sizeof_Node ;;
  on_throw
    (pk <- pstring_copy k ;;
     pv <- on_throw (pstring_copy v) (pstring_destroy pk) ;;
     (fun w => Ret tt (snapshot (put_node p (mkNode pk pv n) (log (EConstruct p) w)))) ;;
     clwb_range_nofence (data pk) (Z.of_nat (String.length k)) ;;
     clwb_range_nofence (data pv) (Z.of_nat (String.length v)) ;;
     ret p)
    (Node_operator_delete p).

(** [delete node] *)
Definition delete_Node (p : Z) : M unit :=
  fun w =>
    match heap w !! p with
    | Some nd => (pstring_destroy (val nd) ;; pstring_destroy (key nd) ;; Node_operator_delete p) w
    | None => Fault
    end.

(** [curr->key.compare(key)] *)
Definition key_compare (curr : Z) (k : string) : M comparison :=
  fun w =>
    match heap w !! curr with
    | Some nd => Ret (String.compare (chars (key nd)) k) w
    | None => Fault
    end.

(** [curr->val], converted to [std::string] *)
Definition read_val (curr : Z) : M string :=
  fun w =>
    match heap w !! curr with
    | Some nd => Ret (chars (val nd)) w
    | None => Fault
    end.

(** ** findNode *)

(** The inner loop of [findNode].  The first component of the result is
    [None] when the loop is left by [break] (the caller starts over from
    the bucket), and the value [findNode] returns otherwise; the others
    are [prev], [curr] and [next] as the loop leaves them. *)
Fixpoint findNode_scan (fuel : nat) (k : string) (tid : Z)
    (prev : Slot) (curr next : Z) : M (option bool * Slot * Z * Z) :=
  match fuel with
  | O => timeout
  | S fuel' =>
      if curr =? 0 then ret (Some false, prev, curr, next)
      else
        nx <- load (NextOf curr) ;;
        clwb (TNode curr) ;;
        let cmark := getMark nx in
        let next := getPtr nx in
        cmp <- key_compare curr k ;;
        p <- load prev ;;
        if negb (p =? curr) then ret (None, prev, curr, next)
        else
          clwb (TSlot prev) ;;
          if negb cmark then
            match cmp with
            | Eq => sfence ;; ret (Some true, prev, curr, next)
            | Gt => ret (Some false, prev, curr, next)
            | Lt => findNode_scan fuel' k tid (NextOf curr) next next
            end
          else
            sfence ;;
            c <- cas prev curr next ;;
            if fst c then
              clwb (TSlot prev) ;;
              sfence ;;
              retire curr tid ;;
              findNode_scan fuel' k tid prev next next
            else ret (None, prev, snd c, next)
  end.

Fixpoint findNode_retry (n fuel : nat) (k : string) (tid : Z) (next : Z)
    : M (bool * Slot * Z * Z) :=
  match n with
  | O => timeout
  | S n' =>
      let idx := hash_fn k mod idxSize in
      let prev := Bucket idx in
      h <- load prev ;;
      let curr := getPtr h in
      clwb (TSlot prev) ;;
      r <- findNode_scan fuel k tid prev curr next ;;
      match r with
      | (Some b, prev, curr, next) => ret (b, prev, curr, next)
      | (None, _, _, next) => findNode_retry n' fuel k tid next
      end
  end.

(** [findNode(prev, curr, next, key, tid)]: the result and the three
    reference arguments as the call leaves them.  [next] is the only one
    the call reads before it writes it. *)
Definition findNode (fuel : nat) (k : string) (tid : Z) (next : Z)
    : M (bool * Slot * Z * Z) :=
  findNode_retry fuel fuel k tid next.

(** ** The operations *)

Definition get (fuel : nat) (k : string) (tid : Z) : M (option string) :=
  start_op tid ;;
  r <- findNode fuel k tid 0 ;;
  let '(found, prev, curr, next) := r in
  res <- (if (found : bool) then (v <- read_val curr ;; ret (Some v)) else ret None) ;;
  end_op tid ;;
  ret res.

(** [while(!curr->next.ptr.compare_exchange_strong(next,setMark(next)));] *)
Fixpoint mark_loop (fuel : nat) (curr next : Z) : M Z :=
  match fuel with
  | O => timeout
  | S fuel' =>
      c <- cas (NextOf curr) next (setMark next) ;;
      if fst c then ret next else mark_loop fuel' curr (snd c)
  end.

(** What [put] and [replace] do once the new node is published in front
    of the node it replaces. *)
Definition retire_replaced (fuel : nat) (k : string) (tid : Z)
    (tmpNode : Z) (prev : Slot) (curr next : Z) : M unit :=
  clwb (TSlot prev) ;;
  sfence ;;
  next <- mark_loop fuel curr next ;;
  clwb (TNode curr) ;;
  sfence ;;
  c <- cas (NextOf tmpNode) curr next ;;
  if fst c then
    clwb (TNode tmpNode) ;;
    sfence ;;
    retire curr tid
  else
    (_ <- findNode fuel k tid next ;; ret tt).

Fixpoint put_loop (n fuel : nat) (k : string) (tid : Z) (tmpNode : Z) (next : Z)
    : M (option string) :=
  match n with
  | O => timeout
  | S n' =>
      r <- findNode fuel k tid next ;;
      let '(found, prev, curr, next) := r in
      if (found : bool) then
        v <- read_val curr ;;
        store (NextOf tmpNode) curr ;;
        clwb (TNode tmpNode) ;;
        sfence ;;
        c <- cas prev curr tmpNode ;;
        if fst c then
          retire_replaced fuel k tid tmpNode prev curr next ;;
          ret (Some v)
        else put_loop n' fuel k tid tmpNode next
      else
        store (NextOf tmpNode) curr ;;
        clwb (TNode tmpNode) ;;
        sfence ;;
        c <- cas prev curr tmpNode ;;
        if fst c then
          clwb (TSlot prev) ;;
          sfence ;;
          ret None
        else put_loop n' fuel k tid tmpNode next
  end.

Definition put (fuel : nat) (k v : string) (tid : Z) : M (option string) :=
  tmpNode <- new_Node k v 0 ;;
  start_op tid ;;
  res <- put_loop fuel fuel k tid tmpNode 0 ;;
  end_op tid ;;
  ret res.

Fixpoint insert_loop (n fuel : nat) (k : string) (tid : Z) (tmpNode : Z) (next : Z)
    : M bool :=
  match n with
  | O => timeout
  | S n' =>
      r <- findNode fuel k tid next ;;
      let '(found, prev, curr, next) := r in
      if (found : bool) then
        delete_Node tmpNode ;;
        ret false
      else
        store (NextOf tmpNode) curr ;;
        clwb (TNode tmpNode) ;;
        sfence ;;
        c <- cas prev curr tmpNode ;;
        if fst c then
          clwb (TSlot prev) ;;
          sfence ;;
          ret true
        else insert_loop n' fuel k tid tmpNode next
  end.

Definition insert (fuel : nat) (k v : string) (tid : Z) : M bool :=
  tmpNode <- new_Node k v 0 ;;
  start_op tid ;;
  res <- insert_loop fuel fuel k tid tmpNode 0 ;;
  end_op tid ;;
  ret res.

Fixpoint remove_loop (n fuel : nat) (k : string) (tid : Z) (next : Z)
    : M (option string) :=
  match n with
  | O => timeout
  | S n' =>
      r <- findNode fuel k tid next ;;
      let '(found, prev, curr, next) := r in
      if negb found then ret None
      else
        v <- read_val curr ;;
        sfence ;;
        c <- cas (NextOf curr) next (setMark next) ;;
        if negb (fst c) then remove_loop n' fuel k tid (snd c)
        else
          clwb (TNode curr) ;;
          sfence ;;
          c2 <- cas prev curr next ;;
          (if fst c2 then
             clwb (TSlot prev) ;;
             sfence ;;
             retire curr tid
           else
             (_ <- findNode fuel k tid next ;; ret tt)) ;;
          ret (Some v)
  end.

Definition remove (fuel : nat) (k : string) (tid : Z) : M (option string) :=
  start_op tid ;;
  res <- remove_loop fuel fuel k tid 0 ;;
  end_op tid ;;
  ret res.

Fixpoint replace_loop (n fuel : nat) (k : string) (tid : Z) (tmpNode : Z) (next : Z)
    : M (option string) :=
  match n with
  | O => timeout
  | S n' =>
      r <- findNode fuel k tid next ;;
      let '(found, prev, curr, next) := r in
      if (found : bool) then
        v <- read_val curr ;;
        store (NextOf tmpNode) curr ;;
        clwb (TNode tmpNode) ;;
        sfence ;;
        c <- cas prev curr tmpNode ;;
        if fst c then
          retire_replaced fuel k tid tmpNode prev curr next ;;
          ret (Some v)
        else replace_loop n' fuel k tid tmpNode next
      else
        delete_Node tmpNode ;;
        ret None
  end.

Definition replace (fuel : nat) (k v : string) (tid : Z) : M (option string) :=
  tmpNode <- new_Node k v 0 ;;
  start_op tid ;;
  res <- replace_loop fuel fuel k tid tmpNode 0 ;;
  end_op tid ;;
  ret res.

End Table.

(** ** The order of writebacks, fences and publishing CASes *)

(** What a thread still owes to persistence: the nodes it has built or
    written since their last writeback ([dirty]), the slots it has
    changed by a CAS and not written back since ([pending]), and the
    slots written back since and not yet fenced ([flushed]). *)
Record Owed := mkOwed { dirty : list Z; pending : list Slot; flushed : list Slot }.

(** [clwb] takes the address of an object: a writeback of a node stands
    for the node with its [next] field, and a writeback of the [next]
    field of a node for the node. *)
Definition covers (t : Target) (s : Slot) : bool :=
  match t, s with
  | TNode n, NextOf m => n =? m
  | TSlot s', _ => Slot_eqb s' s
  | _, _ => false
  end.

Definition cleans (t : Target) (n : Z) : bool :=
  match t with
  | TNode m => m =? n
  | TSlot (NextOf m) => m =? n
  | _ => false
  end.

Definition touch (s : Slot) (d : list Z) : list Z :=
  match s with
  | NextOf n => n :: d
  | Bucket _ => d
  end.

(** One event.  A successful CAS whose new value points to a dirty node
    breaks the order ([None]). *)
Definition owe (o : Owed) (e : Event) : option Owed :=
  match e with
  | EConstruct p => Some (mkOwed (p :: dirty o) (pending o) (flushed o))
  | EStore s _ => Some (mkOwed (touch s (dirty o)) (pending o) (flushed o))
  | ECas s _ d true =>
      if existsb (Z.eqb (getPtr d)) (dirty o) then None
      else Some (mkOwed (touch s (dirty o)) (s :: pending o) (flushed o))
  | EClwb t =>
      Some (mkOwed (List.filter (fun n => negb (cleans t n)) (dirty o))
                   (List.filter (fun s => negb (covers t s)) (pending o))
                   (List.filter (fun s => covers t s) (pending o) ++ flushed o))
  | ESfence => Some (mkOwed (dirty o) (pending o) [])
  | _ => Some o
  end.

Definition owed_after (tr : list Event) : option Owed :=
  fold_left (fun st e => match st with Some o => owe o e | None => None end) tr
    (Some (mkOwed [] [] [])).

(** The trace of a call keeps the order: no CAS publishes a node that is
    dirty, and at the end every slot changed by a CAS has been written
    back and fenced. *)
Definition durable (tr : list Event) : bool :=
  match owed_after tr with
  | Some o =>
      match pending o, flushed o with
      | [], [] => true
      | _, _ => false
      end
  | None => false
  end.

(** The same order, stated on the trace.  [writes_node e n]: the event
    [e] writes to the node [n]: it builds it, or stores to its [next]
    field, or changes its [next] field by a CAS. *)
Definition writes_node (e : Event) (n : Z) : bool :=
  match e with
  | EConstruct p => p =? n
  | EStore (NextOf m) _ => m =? n
  | ECas (NextOf m) _ _ true => m =? n
  | _ => false
  end.

(** [ordered tr]: for every successful CAS of the trace, every earlier
    write of the thread to the node the new value points to is followed,
    before the CAS, by a writeback of that node; and the CAS is
    followed by a writeback of the slot it changed and, later, by a
    fence. *)
Definition ordered (tr : list Event) : Prop :=
  forall pre s x d post,
    tr = pre ++ ECas s x d true :: post ->
    (forall pre1 e pre2,
        pre = pre1 ++ e :: pre2 -> writes_node e (getPtr d) = true ->
        exists t, In (EClwb t) pre2 /\ cleans t (getPtr d) = true) /\
    (exists post1 t post2,
        post = post1 ++ EClwb t :: post2 /\ covers t s = true /\ In ESfence post2).

(** What is owed after the events [tr], from what was owed before. *)
Definition owed_from (st : option Owed) (tr : list Event) : option Owed :=
  fold_left (fun st e => match st with Some o => owe o e | None => None end) tr st.

(** Nothing in memory points to the address [t], and no other thread
    writes a pointer to it. *)
Definition unreferenced (t : Z) (w : World) : Prop :=
  t <> 0 /\
  map_Forall (fun (_ : Z) nd => getPtr (next nd) <> t) (heap w) /\
  map_Forall (fun (_ : Z) v => getPtr v <> t) (buckets w) /\
  Forall (Forall (fun sv : Slot * Z => getPtr (snd sv) <> t)) (env w).

(** ** What a table holds *)

(** A pointer field holds an address or-ed with a mark, as every 64-bit
    value does. *)
Definition tagged (x : Z) : Prop := x = mixPtrMark (getPtr x) (getMark x).

(** A node as a chain shows it: its address, its key and value, and
    whether it is marked (logically deleted). *)
Record Entry := mkEntry { e_addr : Z; e_key : string; e_val : string; e_marked : bool }.

Definition entry_of (a : Z) (nd : Node) : Entry :=
  mkEntry a (chars (key nd)) (chars (val nd)) (getMark (next nd)).

(** [seg h a l b]: in heap [h], following [next] from the address [a]
    visits exactly the nodes [l] and arrives at the address [b]. *)
Inductive seg (h : gmap Z Node) : Z -> list Entry -> Z -> Prop :=
| seg_nil a : seg h a [] a
| seg_cons a nd l b :
    a <> 0 -> getPtr a = a -> h !! a = Some nd -> tagged (next nd) ->
    seg h (getPtr (next nd)) l b ->
    seg h a (entry_of a nd :: l) b.

Definition head (b : gmap Z Z) (i : Z) : Z := default 0 (b !! i).

Definition start (l : list Entry) : Z :=
  match l with
  | [] => 0
  | e :: _ => e_addr e
  end.

(** The slot that points to what follows the nodes [pre] of bucket [i]. *)
Definition slot_at (i : Z) (pre : list Entry) : Slot :=
  match last pre with
  | None => Bucket i
  | Some e => NextOf (e_addr e)
  end.

(** The unmarked nodes of a chain, as key-value pairs in chain order. *)
Fixpoint live (l : list Entry) : list (string * string) :=
  match l with
  | [] => []
  | e :: l' => if e_marked e then live l' else (e_key e, e_val e) :: live l'
  end.

Definition keys (l : list Entry) : list string := (live l).*1.

Fixpoint assoc (k : string) (kvs : list (string * string)) : option string :=
  match kvs with
  | [] => None
  | (k', v) :: kvs' => if String.eqb k' k then Some v else assoc k kvs'
  end.

(** Byte-lexicographic order, as [std::string::compare] decides it. *)
Definition str_lt (a b : string) : Prop := String.compare a b = Lt.

(** The chains of a table, bucket by bucket. *)
Definition Chains : Type := Z -> list Entry.

Definition set_chain (i : Z) (l : list Entry) (ls : Chains) : Chains :=
  fun j => if j =? i then l else ls j.

Definition mark_entry (e : Entry) : Entry := mkEntry (e_addr e) (e_key e) (e_val e) true.

(** What a traversal for [k] does to a chain: the nodes it walks past
    and keeps (unmarked, with a key below [k]), and the chain from the
    node it stops at; the marked nodes it walks past are unlinked. *)
Fixpoint scan_keep (k : string) (l : list Entry) : list Entry :=
  match l with
  | [] => []
  | e :: l' =>
      if e_marked e then scan_keep k l'
      else match String.compare (e_key e) k with
           | Lt => e :: scan_keep k l'
           | _ => []
           end
  end.

Fixpoint scan_rest (k : string) (l : list Entry) : list Entry :=
  match l with
  | [] => []
  | e :: l' =>
      if e_marked e then scan_rest k l'
      else match String.compare (e_key e) k with
           | Lt => scan_rest k l'
           | _ => e :: l'
           end
  end.

(** Whether the traversal for [k] stops at a node with key [k]. *)
Definition scan_found (k : string) (l : list Entry) : bool :=
  match scan_rest k l with
  | e :: _ => match String.compare (e_key e) k with Eq => true | _ => false end
  | [] => false
  end.

Section Abstraction.

Variable hash_fn : string -> Z.

Definition bucket_of (k : string) : Z := hash_fn k mod idxSize.

(** The chain of bucket [i] is [l], its nodes are distinct, were
    allocated below [B] and hash to [i]. *)
Record bucket_str (B : Z) (h : gmap Z Node) (b : gmap Z Z) (i : Z) (l : list Entry) : Prop := {
  bs_head : getPtr (head b i) = head b i;
  bs_seg : seg h (head b i) l 0;
  bs_nodup : NoDup (e_addr <$> l);
  bs_below : Forall (fun e => e_addr e < B) l;
  bs_hash : Forall (fun e => bucket_of (e_key e) = i) l
}.

Definition mem_str (B : Z) (h : gmap Z Node) (b : gmap Z Z) (ls : Chains) : Prop :=
  forall i, bucket_str B h b i (ls i).

(** The order invariant: in every chain the keys of the unmarked nodes
    ascend strictly. *)
Definition ascending (ls : Chains) : Prop :=
  forall i, StronglySorted str_lt (keys (ls i)).

(** The replacement window of key [k]: the chain of the bucket of [k]
    holds [k] twice, next to each other, and is strictly ascending once
    one of the two is taken away; the other chains ascend strictly. *)
Definition window (k : string) (ls : Chains) : Prop :=
  (exists l1 l2, keys (ls (bucket_of k)) = l1 ++ k :: k :: l2 /\
                 StronglySorted str_lt (l1 ++ k :: l2)) /\
  forall i, i <> bucket_of k -> StronglySorted str_lt (keys (ls i)).

(** A memory whose chains are in order, and one that is in order up to
    the replacement window of [k]. *)
Definition mem_ascending (m : gmap Z Node * gmap Z Z) : Prop :=
  exists B ls, mem_str B (fst m) (snd m) ls /\ ascending ls.

Definition mem_window (k : string) (m : gmap Z Node * gmap Z Z) : Prop :=
  exists B ls, mem_str B (fst m) (snd m) ls /\ window k ls.

(** [hist_ext P w w']: the memories that [w'] has recorded since [w]
    all satisfy [P]. *)
Definition hist_ext (P : gmap Z Node * gmap Z Z -> Prop) (w w' : World) : Prop :=
  exists hs, hist w' = hist w ++ hs /\ Forall P hs.

Definition asc_or_window (k : string) (m : gmap Z Node * gmap Z Z) : Prop :=
  mem_ascending m \/ mem_window k m.

(** [Rep w ls]: the world [w] is a quiescent table whose chains are [ls]:
    no other thread writes, the chains are in order, and the allocator
    has handed out addresses below [brk w] only. *)
Record Rep (w : World) (ls : Chains) : Prop := {
  rep_env : env w = [];
  rep_str : mem_str (brk w) (heap w) (buckets w) ls;
  rep_asc : ascending ls;
  rep_dom : forall a, is_Some (heap w !! a) -> a < brk w;
  rep_brk : 0 < brk w /\ brk w mod 16 = 0 /\ limit w <= 2 ^ 64
}.

(** The value the table binds to [k]. *)
Definition bound (ls : Chains) (k : string) : option string :=
  assoc k (live (ls (bucket_of k))).

Variable sizeof_Node : Z.
Variable string_request : string -> Z.

(** The memory [new Node(k, v, _)] takes. *)
Definition node_bytes (k v : string) : Z :=
  align16 sizeof_Node + align16 (string_request k) + align16 (string_request v).

End Abstraction.

(** ** How a run changes a table *)

Definition opt_list (k : string) (o : option string) : list (string * string) :=
  match o with
  | Some v => [(k, v)]
  | None => []
  end.

(** [updates k ox oy l l']: the chains [l] and [l'] bind the same
    values to the keys other than [k]; [l] binds [oy] to [k] and [l']
    binds [ox]. *)
Definition updates (k : string) (ox oy : option string) (l l' : list Entry) : Prop :=
  exists A C, live l = A ++ opt_list k oy ++ C /\ live l' = A ++ opt_list k ox ++ C /\
              Forall (fun kv => fst kv <> k) A /\ Forall (fun kv => fst kv <> k) C.

Section Frames.

Variable hash_fn : string -> Z.

(** What a traversal keeps of the world it starts in: nobody else
    writes, the allocator is as it was, the memory from [B] on is
    untouched, no node appears or disappears, and the memories gone
    through have ascending chains. *)
Record steady (B : Z) (w w' : World) : Prop := {
  st_env : env w' = [];
  st_brk : brk w' = brk w;
  st_limit : limit w' = limit w;
  st_fresh : forall a, B <= a -> heap w' !! a = heap w !! a;
  st_dom : forall a, is_Some (heap w' !! a) <-> is_Some (heap w !! a);
  st_hist : hist_ext (mem_ascending hash_fn) w w'
}.

(** What stays as it is while a node is allocated or given back. *)
Record alloc_only (w w' : World) : Prop := {
  ao_buckets : buckets w' = buckets w;
  ao_env : env w' = env w;
  ao_limit : limit w' = limit w;
  ao_retired : retired w' = retired w
}.

(** The state of an operation that has allocated its node [t] and not
    yet published it. *)
Record mid (k v : string) (t : Z) (w : World) (ls : Chains) : Prop := {
  mid_env : env w = [];
  mid_str : mem_str hash_fn t (heap w) (buckets w) ls;
  mid_asc : ascending ls;
  mid_dom : forall a, is_Some (heap w !! a) -> a <= t;
  mid_node : exists nd, heap w !! t = Some nd /\ chars (key nd) = k /\ chars (val nd) = v /\
                        (data (key nd) = 0 \/ t < data (key nd)) /\
                        (data (val nd) = 0 \/ t < data (val nd));
  mid_ptr : getPtr t = t /\ 0 < t /\ t < brk w /\ brk w mod 16 = 0 /\ limit w <= 2 ^ 64
}.

End Frames.

(** ** What a thread owes while it runs among others *)

(** The value [v] points to none of the nodes [D]. *)
Definition fresh (D : list Z) (v : Z) : Prop := forall d, d ∈ D -> getPtr v <> d.

(** Nothing in the world [w] points to a node of [D]. *)
Definition priv (D : list Z) (w : World) : Prop := forall d, d ∈ D -> unreferenced d w.

(** The thread owes [o], and nobody else knows the nodes [D]. *)
Definition at_ (o : Owed) (D : list Z) (w : World) : Prop :=
  owed_after (trace w) = Some o /\ priv D w.

(** At the points where a thread owes no writeback and no fence. *)
Definition sync (D : list Z) (w : World) : Prop :=
  exists dd, at_ (mkOwed dd [] []) D w /\ dd ⊆ D.

(** Nothing is owed but, possibly, writebacks of nodes no CAS has
    published. *)
Definition quiet (w : World) : Prop :=
  exists dd, owed_after (trace w) = Some (mkOwed dd [] []).

(** ** Tables and libraries of the examples *)

(** A table that holds nothing, whose allocator starts at [b]. *)
Definition empty_table (b lim : Z) (e : list (list (Slot * Z))) : World :=
  mkWorld ∅ ∅ b lim [] [] [] e.

Definition no_chains : Chains := fun _ => [].

(** The world a call ends in. *)
Definition world_of {A} (r : Res A) (w0 : World) : World :=
  match r with
  | Ret _ w => w
  | Exit _ w => w
  | Throw w => w
  | _ => w0
  end.

(** A hash function and a string library: strings of up to fifteen
    characters are stored in the string object. *)
Definition hash_len (s : string) : Z := Z.of_nat (String.length s).

Definition sso_request (s : string) : Z :=
  if (String.length s <=? 15)%nat then 0 else Z.of_nat (String.length s) + 1.


(** ** Retired nodes *)






(** ** The node of an operation *)









(** ** More tables of the examples *)

(** A table whose bucket 1 holds a node that is marked as removed, with
    a live node behind it. *)
Definition marked_table : World :=
  mkWorld {[ 16 := mkNode (mkPstring "a" 0) (mkPstring "1" 0) 33;
             32 := mkNode (mkPstring "b" 0) (mkPstring "2" 0) 0 ]}
          {[ 1 := 16 ]} 48 4096 [] [] [] [].

(** A string that the string object does not hold in place. *)
Definition long_string : string := "a string of more than fifteen characters".

End PHT.

Module TGraph.

(** ** Relations, vertices and the vertex table *)

(** A [Relation*]: the address of the object and its three fields.  The
    graph never writes a field of a relation it has linked, so the
    object travels with its address. *)
Record Relation := mkRelation {
  addr : Z;
  src : Z;
  dest : Z;
  weight : Z
}.

#[export] Instance Relation_eq_dec : EqDecision Relation.
Proof. solve_decision. Defined.

(** [RelationHash] and [RelationEqual] look at [src] and [dest] only:
    a [Set] holds at most one relation per pair. *)
Definition rkey (r : Relation) : Z * Z := (src r, dest r).

Abbreviation RelSet := (gmap (Z * Z) Relation).

Record Vertex := mkVertex {
  adjacency_list : RelSet;
  dest_list : RelSet;
  id : Z;
  lbl : Z
}.

#[export] Instance Vertex_eq_dec : EqDecision Vertex.
Proof. solve_decision. Defined.

(** [vertexSeqs] is a [uint32_t]. *)
Record VertexMeta := mkVertexMeta {
  idxToVertex : option Vertex;
  vertexLocks : bool;
  vertexSeqs : Z
}.

#[export] Instance VertexMeta_eq_dec : EqDecision VertexMeta.
Proof. solve_decision. Defined.

Inductive Event :=
| ELock (idx : Z)
| EUnlock (idx : Z)
| ENew (a : Z)
| EDelete (a : Z).

(** What another thread writes into the slot [w_idx] while it holds the
    slot's lock: a vertex pointer and a sequence number. *)
Record Write := mkWrite {
  w_idx : Z;
  w_vertex : option Vertex;
  w_seq : Z
}.

(** [vMeta] is the array of [numVertices] slots; [hist] keeps the table
    as it was at each release of a lock by the running thread; [env] is
    the input of the run that stands for the other threads: one batch of
    writes is applied each time the running thread is about to take a
    lock. *)
Record Graph := mkGraph {
  vMeta : list VertexMeta;
  next_addr : Z;
  trace : list Event;
  hist : list (list VertexMeta);
  env : list (list Write)
}.

Definition set_vMeta (t : list VertexMeta) (g : Graph) : Graph :=
  mkGraph t (next_addr g) (trace g) (hist g) (env g).

Definition set_env (e : list (list Write)) (g : Graph) : Graph :=
  mkGraph (vMeta g) (next_addr g) (trace g) (hist g) e.

Definition log (e : Event) (g : Graph) : Graph :=
  mkGraph (vMeta g) (next_addr g) (trace g ++ [e]) (hist g) (env g).

Definition snapshot (g : Graph) : Graph :=
  mkGraph (vMeta g) (next_addr g) (trace g) (hist g ++ [vMeta g]) (env g).

Definition fresh_addr (g : Graph) : Graph :=
  mkGraph (vMeta g) (next_addr g + 1) (trace g) (hist g) (env g).

(** ** The monad of graph operations *)

(** [Abort] is [std::abort] or a failed [assert]; [Fault] is an access
    outside the table or through a null vertex pointer; [Deadlock] is
    the running thread locking a mutex it holds. *)
Inductive Res (A : Type) :=
| Ret (a : A) (g : Graph)
| Abort
| Fault
| Deadlock
| Timeout.
Arguments Ret {A} a g.
Arguments Abort {A}.
Arguments Fault {A}.
Arguments Deadlock {A}.
Arguments Timeout {A}.

Definition M (A : Type) : Type := Graph -> Res A.

Definition ret {A} (a : A) : M A := fun g => Ret a g.

Definition bind {A B} (m : M A) (k : A -> M B) : M B :=
  fun g =>
    match m g with
    | Ret a g' => k a g'
    | Abort => Abort
    | Fault => Fault
    | Deadlock => Deadlock
    | Timeout => Timeout
    end.

Declare Scope tg_scope.
Delimit Scope tg_scope with tg.
Notation "x <- m ;; k" := (bind m (fun x => k))
  (at level 100, m at next level, k at level 200, right associativity) : tg_scope.
Notation "m ;; k" := (bind m (fun _ => k))
  (at level 100, k at level 200, right associativity) : tg_scope.
Local Open Scope tg_scope.

Definition abort {A} : M A := fun _ => Abort.
Definition fault {A} : M A := fun _ => Fault.
Definition deadlock {A} : M A := fun _ => Deadlock.
Definition timeout {A} : M A := fun _ => Timeout.

(** [assert(c)] of a build without [NDEBUG]. *)
Definition assert (c : bool) : M unit := if c then ret tt else abort.

Definition emit (e : Event) : M unit := fun g => Ret tt (log e g).

Fixpoint for_each {A} (l : list A) (body : A -> M unit) : M unit :=
  match l with
  | [] => ret tt
  | x :: l' => body x ;; for_each l' body
  end.

(** ** The slots of the table *)

(** [vMeta[idx]] with [idx] a [size_t]: an [int] below zero converts to
    an index beyond every table. *)
Definition slot (idx : Z) (t : list VertexMeta) : option VertexMeta :=
  if idx <? 0 then None else t !! Z.to_nat idx.

Definition read_meta (idx : Z) : M VertexMeta :=
  fun g =>
    match slot idx (vMeta g) with
    | Some m => Ret m g
    | None => Fault
    end.

Definition modify (idx : Z) (f : VertexMeta -> VertexMeta) : M unit :=
  fun g =>
    match slot idx (vMeta g) with
    | Some m => Ret tt (set_vMeta (<[Z.to_nat idx := f m]> (vMeta g)) g)
    | None => Fault
    end.

Definition with_vertex (v : option Vertex) (m : VertexMeta) : VertexMeta :=
  mkVertexMeta v (vertexLocks m) (vertexSeqs m).

Definition with_lock (b : bool) (m : VertexMeta) : VertexMeta :=
  mkVertexMeta (idxToVertex m) b (vertexSeqs m).

Definition with_seq (s : Z) (m : VertexMeta) : VertexMeta :=
  mkVertexMeta (idxToVertex m) (vertexLocks m) s.

(** A write of another thread lands only in a slot whose lock the
    running thread does not hold. *)
Definition apply_write (t : list VertexMeta) (x : Write) : list VertexMeta :=
  match slot (w_idx x) t with
  | Some m =>
      if vertexLocks m then t
      else <[Z.to_nat (w_idx x) := mkVertexMeta (w_vertex x) false (w_seq x)]> t
  | None => t
  end.

Definition interfere : M unit :=
  fun g =>
    match env g with
    | [] => Ret tt g
    | b :: rest => Ret tt (set_env rest (set_vMeta (foldl apply_write (vMeta g) b) g))
    end.

(** [Vertex *& vertex(size_t idx)], read and assigned. *)
Definition vertex (idx : Z) : M (option Vertex) :=
  m <- read_meta idx ;; ret (idxToVertex m).

Definition set_vertex (idx : Z) (v : option Vertex) : M unit :=
  modify idx (with_vertex v).

Definition lock (idx : Z) : M unit :=
  interfere ;;
  m <- read_meta idx ;;
  if vertexLocks m then deadlock
  else (modify idx (with_lock true) ;; emit (ELock idx)).

Definition unlock (idx : Z) : M unit :=
  m <- read_meta idx ;;
  if vertexLocks m
  then ((fun g => Ret tt (snapshot g)) ;;
        modify idx (with_lock false) ;; emit (EUnlock idx))
  else fault.

(** [vMeta[idx].vertexSeqs++] on a [uint32_t]. *)
Definition inc_seq (idx : Z) : M unit :=
  modify idx (fun m => with_seq ((vertexSeqs m + 1) mod 2 ^ 32) m).

Definition get_seq (idx : Z) : M Z :=
  m <- read_meta idx ;; ret (vertexSeqs m).

Definition destroy (idx : Z) : M unit :=
  v <- vertex idx ;;
  assert (bool_decide (is_Some v)) ;;
  set_vertex idx None.

(** ** The two sets of a vertex *)

(** [Set& source(int idx)] and [Set& destination(int idx)]: a reference
    to a set of the vertex at [idx].  Forming the reference computes an
    address; the vertex pointer is followed when the set is used. *)
Inductive SetRef :=
| source (idx : Z)
| destination (idx : Z).

Definition owner (s : SetRef) : Z :=
  match s with source i => i | destination i => i end.

Definition get_set (s : SetRef) (v : Vertex) : RelSet :=
  match s with
  | source _ => adjacency_list v
  | destination _ => dest_list v
  end.

Definition put_set (s : SetRef) (x : RelSet) (v : Vertex) : Vertex :=
  match s with
  | source _ => mkVertex x (dest_list v) (id v) (lbl v)
  | destination _ => mkVertex (adjacency_list v) x (id v) (lbl v)
  end.

Definition read_set (s : SetRef) : M RelSet :=
  v <- vertex (owner s) ;;
  match v with
  | Some v => ret (get_set s v)
  | None => fault
  end.

Definition write_set (s : SetRef) (x : RelSet) : M unit :=
  v <- vertex (owner s) ;;
  match v with
  | Some v => set_vertex (owner s) (Some (put_set s x v))
  | None => fault
  end.

Definition has_relation (s : SetRef) (r : Relation) : M bool :=
  x <- read_set s ;; ret (bool_decide (is_Some (x !! rkey r))).

(** [set.insert(r).second] *)
Definition set_insert (s : SetRef) (r : Relation) : M bool :=
  x <- read_set s ;;
  match x !! rkey r with
  | Some _ => ret false
  | None => write_set s (<[rkey r := r]> x) ;; ret true
  end.

Definition remove_relation (s : SetRef) (r : Relation) : M (option Relation) :=
  x <- read_set s ;;
  match x !! rkey r with
  | Some tmp => write_set s (delete (rkey r) x) ;; ret (Some tmp)
  | None => ret None
  end.

(** [for (auto r : set)]: the elements in the order of the iteration. *)
Definition elements (s : SetRef) : M (list Relation) :=
  x <- read_set s ;; ret (map_to_list x).*2.

Definition set_clear (s : SetRef) : M unit :=
  x <- read_set s ;; write_set s ∅.

(** [new Relation(src, dest, weight)] and [delete r]. *)
Definition new_Relation (s d w : Z) : M Relation :=
  fun g => Ret (mkRelation (next_addr g) s d w) (log (ENew (next_addr g)) (fresh_addr g)).

Definition delete_Relation (r : Relation) : M unit := emit (EDelete (addr r)).

(** A [Relation] on the stack, used as a key. *)
Definition local_Relation (s d w : Z) : Relation := mkRelation 0 s d w.

(** [std::sort] followed by [std::unique] and [erase]. *)
Fixpoint unique (l : list Z) : list Z :=
  match l with
  | [] => []
  | x :: l' =>
      match l' with
      | [] => [x]
      | y :: _ => if x =? y then unique l' else x :: unique l'
      end
  end.

Definition sort_unique (l : list Z) : list Z := unique (merge_sort Z.le l).

(** ** The operations *)

Definition lock_pair (s d : Z) : M unit :=
  if s >? d then (lock d ;; lock s) else (lock s ;; lock d).

Definition unlock_pair (s d : Z) : M unit :=
  if s >? d then (unlock s ;; unlock d) else (unlock d ;; unlock s).

Definition is_null {A} (p : option A) : bool :=
  match p with Some _ => false | None => true end.

Definition add_edge (s d w : Z) : M bool :=
  if s =? d then ret false
  else
    r <- new_Relation s d w ;;
    lock_pair s d ;;
    let srcSet := source s in
    let destSet := destination d in
    vs <- vertex s ;;
    vd <- (if is_null vs then ret None else vertex d) ;;
    retval <-
      (if is_null vs || is_null vd then ret false
       else
         h <- has_relation srcSet r ;;
         if h then (h' <- has_relation destSet r ;; assert h' ;; ret false)
         else
           ret1 <- set_insert srcSet r ;;
           ret2 <- set_insert destSet r ;;
           assert (eqb ret1 ret2) ;;
           if ret1 then (inc_seq s ;; inc_seq d ;; ret true)
           else ret false) ;;
    (if retval then ret tt else delete_Relation r) ;;
    unlock_pair s d ;;
    ret retval.

Definition has_edge (s d : Z) : M bool :=
  lock s ;;
  v <- vertex s ;;
  if is_null v then (unlock s ;; ret false)
  else
    retval <- has_relation (source s) (local_Relation s d (-1)) ;;
    unlock s ;;
    ret retval.

Definition remove_edge (s d : Z) : M bool :=
  if s =? d then ret false
  else
    lock_pair s d ;;
    vs <- vertex s ;;
    vd <- (if is_null vs then ret None else vertex d) ;;
    retval <-
      (if is_null vs || is_null vd then ret false
       else
         let r := local_Relation s d (-1) in
         ret1 <- remove_relation (source s) r ;;
         ret2 <- remove_relation (destination d) r ;;
         assert (bool_decide (addr <$> ret1 = addr <$> ret2)) ;;
         match ret1 with
         | Some r1 => delete_Relation r1 ;; inc_seq s ;; inc_seq d ;; ret true
         | None => ret false
         end) ;;
    unlock_pair s d ;;
    ret retval.

(** The body of the second loop of [add_vertex]: an edge from the new
    vertex to a sampled vertex that exists. *)
Definition link (vid u : Z) : M unit :=
  vu <- vertex u ;;
  if is_null vu then ret tt
  else if u =? vid then ret tt
  else
    r <- new_Relation vid u (-1) ;;
    set_insert (source vid) r ;;
    set_insert (destination u) r ;;
    ret tt.

(** The conditional [inc_seq] of the last loop of [add_vertex]: the
    sequence number of [u] moves when there is a vertex at [vid] and one
    at [u]. *)
Definition bump_linked (vid u : Z) : M unit :=
  vv <- vertex vid ;;
  vu <- (if is_null vv then ret None else vertex u) ;;
  if negb (is_null vv) && negb (is_null vu) then inc_seq u else ret tt.

Section Sampling.

(** The template parameters [meanEdgesPerVertex] and [vertexLoad]
    ([numVertices] is the length of [vMeta]), both [size_t]. *)
Variable meanEdgesPerVertex : Z.
Variable vertexLoad : Z.

Definition sample_count : nat :=
  Z.to_nat (((meanEdgesPerVertex * 100) mod 2 ^ 64) / vertexLoad).

(** The sampling loop of [add_vertex]; [rng i] is the draw of round [i]
    ([uniformVertex(vertexGen)]), compared with the counter of the loop
    as a [size_t]. *)
Definition sample (rng : nat -> Z) : list Z :=
  omap (fun i => let u := rng i in
                 if u mod 2 ^ 64 =? Z.of_nat i then None else Some u)
       (seq 0 sample_count).

Definition add_vertex (rng : nat -> Z) (vid : Z) : M bool :=
  let vec := sort_unique (sample rng ++ [vid]) in
  let new_v := mkVertex ∅ ∅ vid vid in
  for_each vec lock ;;
  v <- vertex vid ;;
  retval <-
    (if is_null v then
       set_vertex vid (Some new_v) ;;
       for_each vec (link vid) ;;
       ret true
     else ret false) ;;
  for_each (reverse vec) (fun u => bump_linked vid u ;; unlock u) ;;
  ret retval.

End Sampling.

(** Step 2 of [remove_vertex] for one vertex of the sorted list. *)
Definition acquire (vid seq _vid : Z) : M unit :=
  lock _vid ;;
  v <- vertex _vid ;;
  if is_null v then
    (s <- get_seq vid ;; if s =? seq then abort else ret tt)
  else ret tt.

(** Step 3 of [remove_vertex] for one vertex of the sorted list. *)
Definition detach (vid other : Z) : M unit :=
  if other =? vid then ret tt
  else
    let src_r := local_Relation other vid (-1) in
    let dest_r := local_Relation vid other (-1) in
    hs <- has_relation (source other) src_r ;;
    hd <- (if hs then ret true else has_relation (destination other) dest_r) ;;
    (if negb hs && negb hd then abort else ret tt) ;;
    ret1 <- remove_relation (source other) src_r ;;
    ret2 <- remove_relation (destination other) dest_r ;;
    match ret1 with Some r1 => delete_Relation r1 | None => ret tt end ;;
    a1 <- has_relation (source other) src_r ;;
    a2 <- (if a1 then ret true else has_relation (destination other) dest_r) ;;
    assert (negb a1 && negb a2).

(** Step 1 of [remove_vertex]: the sequence number of [vid] and its
    neighbours, read under the lock of [vid] alone; [None] when there
    is no vertex at [vid]. *)
Definition scan (vid : Z) : M (option (Z * list Z)) :=
  lock vid ;;
  v <- vertex vid ;;
  if is_null v then (unlock vid ;; ret None)
  else
    seq <- get_seq vid ;;
    out <- elements (source vid) ;;
    inc <- elements (destination vid) ;;
    unlock vid ;;
    ret (Some (seq, sort_unique ((dest <$> out) ++ (src <$> inc) ++ [vid]))).

(** Steps 3 and 4 of [remove_vertex], with every lock of [vertices]
    held. *)
Definition commit (vid : Z) (vertices : list Z) : M unit :=
  for_each vertices (detach vid) ;;
  toDelete <- elements (source vid) ;;
  set_clear (source vid) ;;
  set_clear (destination vid) ;;
  destroy vid ;;
  for_each toDelete delete_Relation ;;
  for_each (reverse vertices) (fun _vid => inc_seq _vid ;; unlock _vid).

(** [goto startOver] is a call with one unit of [fuel] less. *)
Fixpoint remove_vertex (fuel : nat) (vid : Z) : M bool :=
  match fuel with
  | O => timeout
  | S fuel' =>
      found <- scan vid ;;
      match found with
      | None => ret false
      | Some (seq, vertices) =>
          for_each vertices (acquire vid seq) ;;
          s <- get_seq vid ;;
          if negb (s =? seq) then
            (for_each (reverse vertices) unlock ;; remove_vertex fuel' vid)
          else (commit vid vertices ;; ret true)
      end
  end.

(** ** The constructor *)

(** A [VertexMeta] as [new VertexMeta[numVertices]] builds it: no
    vertex, a free lock, the sequence number 0. *)
Definition blank_meta : VertexMeta := mkVertexMeta None false 0.

(** [this->vMeta = new VertexMeta[numVertices]] *)
Definition new_vMeta (numVertices : nat) : M unit :=
  fun g => Ret tt (set_vMeta (replicate numVertices blank_meta) g).

(** The body of the first loop of the constructor.  [coin i] is the
    draw [coinflipRNG(gen)] for the index [i], an [int] that is compared
    with [vertexLoad] as a [size_t]. *)
Definition fill_vertex (vertexLoad : Z) (coin : Z -> Z) (i : Z) : M unit :=
  (if coin i mod 2 ^ 64 <=? vertexLoad
   then set_vertex i (Some (mkVertex ∅ ∅ i i))
   else set_vertex i None) ;;
  modify i (with_seq 0).

(** One round of the inner loop of the constructor for the vertex [i],
    with [k] the draw [verticesRNG(gen)] of the round. *)
Definition preload_edge (i k : Z) : M unit :=
  if k =? i then ret tt
  else
    vk <- vertex k ;;
    if is_null vk then ret tt
    else
      r <- new_Relation i k (-1) ;;
      ret1 <- set_insert (source i) r ;;
      ret2 <- set_insert (destination k) r ;;
      assert (eqb ret1 ret2) ;;
      if ret1 then ret tt else delete_Relation r.

(** The body of the second loop of the constructor; [pick i j] is the
    draw of the round [j] for the vertex [i]. *)
Definition preload_vertex (meanEdgesPerVertex vertexLoad : Z) (pick : Z -> nat -> Z)
    (i : Z) : M unit :=
  vi <- vertex i ;;
  if is_null vi then ret tt
  else for_each (seq 0 (sample_count meanEdgesPerVertex vertexLoad))
                (fun j => preload_edge i (pick i j)).

(** [TGraph(GlobalTestConfig* gtc)], without the messages it prints
    when [gtc->verbose] is set.  The draws of the generator are given by
    the position in the loops at which they are made.  The counters of
    the loops are [int]s: [numVertices] is below [2 ^ 31]. *)
Definition TGraph_ctor (numVertices : nat) (meanEdgesPerVertex vertexLoad : Z)
    (coin : Z -> Z) (pick : Z -> nat -> Z) : M unit :=
  new_vMeta numVertices ;;
  for_each (seqZ 0 (Z.of_nat numVertices)) (fill_vertex vertexLoad coin) ;;
  for_each (seqZ 0 (Z.of_nat numVertices))
           (preload_vertex meanEdgesPerVertex vertexLoad pick).

(** ** Statistics *)

(** The conversion of an integer to [int]. *)
Definition to_int (x : Z) : Z := (x + 2 ^ 31) mod 2 ^ 32 - 2 ^ 31.

(** [set.size()] *)
Definition set_size (s : SetRef) : M Z :=
  x <- read_set s ;; ret (Z.of_nat (size x)).

(** The body of the loop of [grab_stats], on the counters [numV] and
    [numE] and the array [degrees].  The sizes are [size_t]s, and the
    sums are converted to [int] when they are stored. *)
Definition stats_step (i : Z) (acc : Z * Z * list Z) : M (Z * Z * list Z) :=
  let '(numV, numE, degrees) := acc in
  v <- vertex i ;;
  if negb (is_null v) then
    n1 <- set_size (source i) ;;
    n2 <- set_size (source i) ;;
    n3 <- set_size (destination i) ;;
    ret (numV + 1, to_int (numE + n1), <[Z.to_nat i := to_int (n2 + n3)]> degrees)
  else ret (numV, numE, <[Z.to_nat i := 0]> degrees).

Fixpoint stats_loop (l : list Z) (acc : Z * Z * list Z) : M (Z * Z * list Z) :=
  match l with
  | [] => ret acc
  | i :: l' => acc' <- stats_step i acc ;; stats_loop l' acc'
  end.

(** [grab_stats()], which takes no lock.  [fdiv numE numV] is the
    quotient [numE / ((double) numV)] of the floating-point unit; the
    array [degrees] is allocated with [numVertices] entries, each of
    which the loop assigns. *)
Definition grab_stats {double : Type} (fdiv : Z -> Z -> double) (numVertices : nat)
    : M (Z * Z * double * list Z * Z) :=
  r <- stats_loop (seqZ 0 (Z.of_nat numVertices)) (0, 0, replicate numVertices 0) ;;
  let '(numV, numE, degrees) := r in
  ret (numV, numE, fdiv numE numV, degrees, to_int (Z.of_nat numVertices)).

(** ** The graph a vertex table holds *)

(** The table [t] with [m] at the index [idx]. *)
Definition upd (idx : Z) (m : VertexMeta) (t : list VertexMeta) : list VertexMeta :=
  <[Z.to_nat idx := m]> t.

Definition in_table (i : Z) (t : list VertexMeta) : Prop :=
  0 <= i < Z.of_nat (length t).

(** The vertex at [u], its adjacency list ([source(u)]), its incoming
    set ([destination(u)]), its sequence number and its lock; the sets
    of an index without a vertex are empty. *)
Definition vtx (t : list VertexMeta) (u : Z) : option Vertex :=
  slot u t ≫= idxToVertex.

Definition adj (t : list VertexMeta) (u : Z) : RelSet :=
  from_option adjacency_list ∅ (vtx t u).

Definition inc (t : list VertexMeta) (u : Z) : RelSet :=
  from_option dest_list ∅ (vtx t u).

Definition seq_of (t : list VertexMeta) (u : Z) : Z :=
  from_option vertexSeqs 0 (slot u t).

Definition lock_of (t : list VertexMeta) (u : Z) : bool :=
  from_option vertexLocks false (slot u t).

(** The adjacency list of [u] holds an edge to [v] exactly when the
    incoming set of [v] holds it. *)
Definition symmetric (t : list VertexMeta) : Prop :=
  forall u v, is_Some (adj t u !! (u, v)) <-> is_Some (inc t v !! (u, v)).

(** A relation [r] found under the key [k] in the adjacency list of
    [u] starts at [u], is no loop, and is the relation the incoming set
    of its destination holds under [k]; and the same for a relation
    found in the incoming set of [u]. *)
Definition out_ok (t : list VertexMeta) (u : Z) (k : Z * Z) (r : Relation) : Prop :=
  k = rkey r /\ src r = u /\ dest r <> u /\ inc t (dest r) !! k = Some r.

Definition in_ok (t : list VertexMeta) (u : Z) (k : Z * Z) (r : Relation) : Prop :=
  k = rkey r /\ dest r = u /\ src r <> u /\ adj t (src r) !! k = Some r.

Definition slot_ok (t : list VertexMeta) (i : Z) (m : VertexMeta) : Prop :=
  0 <= vertexSeqs m < 2 ^ 32 /\ vertexLocks m = false /\
  match idxToVertex m with
  | Some v => map_Forall (out_ok t i) (adjacency_list v) /\
              map_Forall (in_ok t i) (dest_list v)
  | None => True
  end.

(** The invariant of a table between two operations: no lock is held,
    every sequence number is a [uint32_t], and the two sets of every
    vertex agree with the sets of its neighbours. *)
Definition wf (t : list VertexMeta) : Prop :=
  Forall (fun p => slot_ok t (Z.of_nat p.1) p.2) (imap pair t).

(** A graph between two operations, with no other thread at work. *)
Definition GWF (g : Graph) : Prop := env g = [] /\ wf (vMeta g).

#[global] Instance slot_ok_dec t i m : Decision (slot_ok t i m).
Proof.
  unfold slot_ok, out_ok, in_ok. destruct (idxToVertex m); apply _.
Defined.

#[global] Instance wf_dec t : Decision (wf t).
Proof. unfold wf. apply _. Defined.

#[global] Instance in_table_dec i t : Decision (in_table i t).
Proof. unfold in_table. apply _. Defined.

(** The two tables hold the same vertices with the same sets. *)
Definition same_vtx (t t' : list VertexMeta) : Prop :=
  forall u, vtx t u = vtx t' u.

(** [grows P g g']: the tables a thread has released a lock on between
    [g] and [g'], which is when another thread can look at them, all
    satisfy [P]. *)
Definition grows (P : list VertexMeta -> Prop) (g g' : Graph) : Prop :=
  exists h, hist g' = hist g ++ h /\ Forall P h.

Definition released_symmetric (g g' : Graph) : Prop := grows symmetric g g'.

(** ** What the operations do to a slot *)

(** [vertexSeqs[idx]++] on a [uint32_t]. *)
Definition bump (m : VertexMeta) : VertexMeta :=
  with_seq ((vertexSeqs m + 1) mod 2 ^ 32) m.

(** The bump of the last loop of [add_vertex]: of a slot with a vertex. *)
Definition cond_bump (m : VertexMeta) : VertexMeta :=
  if is_null (idxToVertex m) then m else bump m.

Definition link_out (r : Relation) (v : Vertex) : Vertex :=
  mkVertex (<[rkey r := r]> (adjacency_list v)) (dest_list v) (id v) (lbl v).

Definition link_in (r : Relation) (v : Vertex) : Vertex :=
  mkVertex (adjacency_list v) (<[rkey r := r]> (dest_list v)) (id v) (lbl v).

Definition link_in_m (r : Relation) (m : VertexMeta) : VertexMeta :=
  with_vertex (link_in r <$> idxToVertex m) m.

Definition unlink_out (k : Z * Z) (v : Vertex) : Vertex :=
  mkVertex (delete k (adjacency_list v)) (dest_list v) (id v) (lbl v).

Definition unlink_in (k : Z * Z) (v : Vertex) : Vertex :=
  mkVertex (adjacency_list v) (delete k (dest_list v)) (id v) (lbl v).

(** Whether [add_edge] adds the edge [k] between the slots of its two
    ends, and whether [remove_edge] removes it. *)
Definition can_link (ms md : VertexMeta) (k : Z * Z) : bool :=
  match idxToVertex ms, idxToVertex md with
  | Some vs, Some vd => bool_decide (adjacency_list vs !! k = None)
  | _, _ => false
  end.

Definition can_unlink (ms md : VertexMeta) (k : Z * Z) : bool :=
  match idxToVertex ms, idxToVertex md with
  | Some vs, Some vd => bool_decide (is_Some (adjacency_list vs !! k))
  | _, _ => false
  end.

(** Whether [add_edge(s, d, _)] adds an edge to the table [t]. *)
Definition addable (t : list VertexMeta) (s d : Z) : bool :=
  negb (s =? d) && bool_decide (is_Some (vtx t s)) &&
  bool_decide (is_Some (vtx t d)) && bool_decide (adj t s !! (s, d) = None).

(** ** What [remove_vertex] does to a table *)

(** The vertex [v] at [j] without its edges to and from [vid]. *)
Definition strip (vid j : Z) (v : Vertex) : Vertex :=
  mkVertex (delete (j, vid) (adjacency_list v)) (delete (vid, j) (dest_list v))
           (id v) (lbl v).

Definition stripm (vid j : Z) (m : VertexMeta) : VertexMeta :=
  with_vertex (strip vid j <$> idxToVertex m) m.

(** The vertices the scan of [remove_vertex(vid)] collects: the ends of
    the edges of [vid], and [vid], in ascending order. *)
Definition neighbours (vid : Z) (v0 : Vertex) : list Z :=
  sort_unique ((dest <$> (map_to_list (adjacency_list v0)).*2) ++
               (src <$> (map_to_list (dest_list v0)).*2) ++ [vid]).

(** What the scan returns on the slot [m0] of [vid]. *)
Definition scanned (vid : Z) (m0 : VertexMeta) : option (Z * list Z) :=
  match idxToVertex m0 with
  | Some v0 => Some (vertexSeqs m0, neighbours vid v0)
  | None => None
  end.

(** The slot [j] of the table once [remove_vertex(vid)] has returned,
    where [m0] was the slot of [vid]. *)
Definition removed (vid : Z) (m0 : VertexMeta) (t : list VertexMeta) (j : Z)
  : option VertexMeta :=
  match idxToVertex m0 with
  | None => slot j t
  | Some v0 =>
      if decide (j = vid) then Some (bump (with_vertex None m0))
      else if decide (j ∈ neighbours vid v0)
           then (fun m => bump (stripm vid j m)) <$> slot j t
           else slot j t
  end.

(** No set of the table holds a relation from or to [vid]. *)
Definition clean_of (vid : Z) (t : list VertexMeta) : Prop :=
  forall u k r, adj t u !! k = Some r \/ inc t u !! k = Some r ->
                src r <> vid /\ dest r <> vid.

(** ** What [add_vertex] does to a table *)

(** The vertices [add_vertex(vid)] locks: its draws and [vid], in
    ascending order. *)
Definition sampled (meanEdgesPerVertex vertexLoad : Z) (rng : nat -> Z) (vid : Z)
    : list Z :=
  sort_unique (sample meanEdgesPerVertex vertexLoad rng ++ [vid]).

(** [A] is the adjacency list of the new vertex [vid]: the relation
    [rho u] for every vertex [u] of [l] that exists and is not [vid]. *)
Definition links_of (vid : Z) (l : list Z) (t : list VertexMeta)
    (rho : Z -> Relation) (A : RelSet) : Prop :=
  forall k r, A !! k = Some r <->
    exists u, u ∈ l /\ u <> vid /\ is_Some (vtx t u) /\ k = (vid, u) /\ r = rho u.

(** The slot [j] of the table once [add_vertex(vid)] has returned true,
    where [m0] was the slot of [vid] and [vec] the vertices locked. *)
Definition added (vid : Z) (m0 : VertexMeta) (vec : list Z) (t : list VertexMeta)
    (A : RelSet) (rho : Z -> Relation) (j : Z) : option VertexMeta :=
  if decide (j = vid)
  then Some (bump (with_vertex (Some (mkVertex A ∅ vid vid)) m0))
  else if decide (j ∈ vec)
       then (fun m => cond_bump (link_in_m (rho j) m)) <$> slot j t
       else slot j t.

(** ** Sequence numbers and changes *)

(** The edge [k] starts or ends at [v]. *)
Definition touches (v : Z) (k : Z * Z) : Prop := k.1 = v \/ k.2 = v.

(** Between [t] and [t'] the vertex [v] has not appeared or
    disappeared, and no edge from or to [v] has. *)
Definition unchanged (t t' : list VertexMeta) (v : Z) : Prop :=
  (is_Some (vtx t v) <-> is_Some (vtx t' v)) /\
  forall u k, touches v k ->
    adj t u !! k = adj t' u !! k /\ inc t u !! k = inc t' u !! k.

(** Every sequence number has moved by one step exactly where the
    vertex or its edges have changed. *)
Definition tracks (t t' : list VertexMeta) : Prop :=
  forall v,
    (unchanged t t' v /\ seq_of t' v = seq_of t v) \/
    (~ unchanged t t' v /\ seq_of t' v = (seq_of t v + 1) mod 2 ^ 32).

(** ** Graphs of the examples *)

Definition edge01 : Relation := mkRelation 5 0 1 7.

(** Three vertices and a free slot, with one edge from 0 to 1. *)
Definition g_line : Graph :=
  mkGraph
    [ mkVertexMeta (Some (mkVertex {[ (0, 1) := edge01 ]} ∅ 0 0)) false 3;
      mkVertexMeta (Some (mkVertex ∅ {[ (0, 1) := edge01 ]} 1 1)) false 4;
      mkVertexMeta (Some (mkVertex ∅ ∅ 2 2)) false 0;
      mkVertexMeta None false 0 ]
    100 [] [] [].

(** [g_line] with another thread that bumps [seq[0]] between the scan
    and the first lock of the commit phase. *)
Definition g_raced : Graph :=
  mkGraph (vMeta g_line) 100 [] []
    [ []; [mkWrite 0 (Some (mkVertex {[ (0, 1) := edge01 ]} ∅ 0 0)) 4] ].

(** [g_line] with [seq[1]] at the last value of a [uint32_t]. *)
Definition g_wrap : Graph :=
  mkGraph
    [ mkVertexMeta (Some (mkVertex {[ (0, 1) := edge01 ]} ∅ 0 0)) false 3;
      mkVertexMeta (Some (mkVertex ∅ {[ (0, 1) := edge01 ]} 1 1)) false 4294967295;
      mkVertexMeta (Some (mkVertex ∅ ∅ 2 2)) false 0;
      mkVertexMeta None false 0 ]
    100 [] [] [].

(** The graph a call ends in. *)
Definition state_of {A} (r : Res A) (d : Graph) : Graph :=
  match r with Ret _ g => g | _ => d end.

(** The draws of the random number generator, by position. *)
Definition draws (i : nat) : Z := Z.of_nat ((i * 3 + 1) mod 4).

(** ** Edges, locks and events *)

(** Whether [remove_edge(s, d)] removes an edge from the table [t]. *)
Definition removable (t : list VertexMeta) (s d : Z) : bool :=
  negb (s =? d) && bool_decide (is_Some (vtx t s)) &&
  bool_decide (is_Some (vtx t d)) && bool_decide (is_Some (adj t s !! (s, d))).

(** A program that takes no lock, releases none, and builds or deletes
    no relation: it adds nothing to the events of the thread. *)
Definition silent {A} (m : M A) : Prop :=
  forall g a g', m g = Ret a g' -> trace g' = trace g.

(** The event is the construction of a relation. *)
Definition is_new (e : Event) : Prop :=
  match e with ENew _ => True | _ => False end.

(** ** What the constructor builds *)

(** The slot [i] after the first loop of the constructor. *)
Definition filled (vertexLoad : Z) (coin : Z -> Z) (i : Z) : VertexMeta :=
  mkVertexMeta (if coin i mod 2 ^ 64 <=? vertexLoad
                then Some (mkVertex ∅ ∅ i i) else None) false 0.

(** The identifier and the label of the vertex at [u], if there is one. *)
Definition name_of (t : list VertexMeta) (u : Z) : option (Z * Z) :=
  (fun v => (id v, lbl v)) <$> vtx t u.

(** The tables the second loop of the constructor goes through, from
    the table [t1] the first loop has built: the vertices of [t1] with
    sets that agree, sequence numbers at 0, and relations of weight -1. *)
Definition preloaded (t1 t : list VertexMeta) : Prop :=
  wf t /\ length t = length t1 /\
  (forall u, seq_of t u = 0) /\
  (forall u, name_of t u = name_of t1 u) /\
  (forall u k r, adj t u !! k = Some r -> weight r = -1).

(** The constructor draws an edge from [a] to [b]. *)
Definition drawn (meanEdgesPerVertex vertexLoad : Z) (pick : Z -> nat -> Z)
    (a b : Z) : Prop :=
  exists j, (j < sample_count meanEdgesPerVertex vertexLoad)%nat /\ pick a j = b.

(** ** What [grab_stats] counts *)

(** The edges of the graph a table holds: the keys of the adjacency
    lists of its vertices. *)
Definition edge_set (t : list VertexMeta) : gset (Z * Z) :=
  ⋃ ((fun i => dom (adj t i)) <$> seqZ 0 (Z.of_nat (length t))).

(** The number of indices of the table that hold a vertex. *)
Definition vertex_count (t : list VertexMeta) : nat :=
  length (filter (fun i => is_Some (vtx t i)) (seqZ 0 (Z.of_nat (length t)))).

(** The sum of a list of integers. *)
Definition sumZ (l : list Z) : Z := foldr Z.add 0 l.

(** ** More graphs of the examples *)

(** [g_line] with another thread that adds an edge from 0 to 2 before
    the running thread takes its first lock. *)
Definition g_late : Graph :=
  mkGraph (vMeta g_line) 100 [] []
    [ [mkWrite 0 (Some (mkVertex {[ (0, 1) := edge01; (0, 2) := mkRelation 7 0 2 5 ]} ∅ 0 0)) 4] ].

(** [g_line] with another thread that removes the vertex 2 before the
    running thread takes its first lock. *)
Definition g_gone : Graph :=
  mkGraph (vMeta g_line) 100 [] [] [ [mkWrite 2 None 1] ].

End TGraph.

(** * The hash table: proofs *)

Module PHT_proofs.

Import PHT.
Local Open Scope pht_scope.

(** ** Tagged pointers *)

Lemma getPtr_0 : getPtr 0 = 0.
Proof. reflexivity. Qed.

Lemma getPtr_idem x : getPtr (getPtr x) = getPtr x.
Proof. unfold getPtr. rewrite <- Z.land_assoc. f_equal. Qed.

Lemma getMark_getPtr x : getMark (getPtr x) = false.
Proof.
  unfold getMark, getPtr. rewrite <- Z.land_assoc.
  replace (Z.land MARK_MASK 1) with 0 by reflexivity. rewrite Z.land_0_r. reflexivity.
Qed.

Lemma getPtr_setMark x : getPtr (setMark x) = getPtr x.
Proof.
  unfold getPtr, setMark, mixPtrMark. simpl Z.b2z.
  rewrite Z.land_lor_distr_l. replace (Z.land 1 MARK_MASK) with 0 by reflexivity.
  apply Z.lor_0_r.
Qed.

Lemma getMark_setMark x : getMark (setMark x) = true.
Proof.
  unfold getMark, setMark, mixPtrMark. simpl Z.b2z.
  rewrite Z.land_lor_distr_l. replace (Z.land 1 1) with 1 by reflexivity.
  destruct (Z.eqb_spec (Z.lor (Z.land x 1) 1) 0) as [E|]; [|reflexivity].
  apply Z.lor_eq_0_iff in E. lia.
Qed.

Lemma tagged_unmarked x : tagged x -> getMark x = false -> getPtr x = x.
Proof.
  unfold tagged, mixPtrMark. intros Ht Hm. rewrite Hm in Ht. simpl in Ht.
  rewrite Z.lor_0_r in Ht. congruence.
Qed.

Lemma tagged_getPtr x : tagged (getPtr x).
Proof.
  unfold tagged, mixPtrMark. rewrite getPtr_idem, getMark_getPtr. simpl.
  symmetry. apply Z.lor_0_r.
Qed.

Lemma tagged_ptr a : getPtr a = a -> tagged a.
Proof. intros H. rewrite <- H. apply tagged_getPtr. Qed.

Lemma tagged_setMark a : getPtr a = a -> tagged (setMark a).
Proof.
  intros H. unfold tagged. rewrite getPtr_setMark, getMark_setMark, H. reflexivity.
Qed.

Lemma ptr_unmarked a : getPtr a = a -> getMark a = false.
Proof. intros H. rewrite <- H. apply getMark_getPtr. Qed.

Lemma setMark_neq a : getPtr a = a -> setMark a <> a.
Proof.
  intros H E. pose proof (getMark_setMark a) as H1. rewrite E in H1.
  rewrite (ptr_unmarked a H) in H1. discriminate.
Qed.

Lemma MARK_MASK_bits i : 0 <= i -> Z.testbit MARK_MASK i = (1 <=? i) && (i <? 64).
Proof.
  intros Hi. unfold MARK_MASK.
  replace (2 ^ 64 - 2) with (Z.shiftl (Z.ones 63) 1) by reflexivity.
  rewrite Z.shiftl_spec by lia.
  destruct (Z.leb_spec 1 i); simpl.
  - destruct (Z.ltb_spec i 64).
    + apply Z.ones_spec_low. lia.
    + apply Z.ones_spec_high. lia.
  - apply Z.testbit_neg_r. lia.
Qed.

Lemma getPtr_aligned a : 0 <= a < 2 ^ 64 -> a mod 16 = 0 -> getPtr a = a.
Proof.
  intros [H0 H1] Hm. unfold getPtr. apply Z.bits_inj'. intros i Hi.
  rewrite Z.land_spec, MARK_MASK_bits by lia.
  destruct (Z.leb_spec 1 i); simpl.
  - destruct (Z.ltb_spec i 64); simpl; [apply andb_true_r|].
    rewrite andb_false_r. symmetry.
    destruct (Z.eq_dec a 0) as [->|]; [apply Z.bits_0|].
    apply Z.bits_above_log2; [lia|].
    assert (Z.log2 a < 64) by (apply Z.log2_lt_pow2; lia). lia.
  - rewrite andb_false_r. assert (i = 0) as -> by lia.
    rewrite Z.bit0_odd. rewrite (Z.div_mod a 16), Hm by lia.
    replace (16 * (a / 16) + 0) with (2 * (8 * (a / 16))) by lia.
    symmetry. rewrite Z.odd_mul. reflexivity.
Qed.

(** ** Chains *)

Lemma seg_nil_inv h a b : seg h a [] b -> a = b.
Proof. inversion 1; reflexivity. Qed.

Lemma seg_cons_inv h a e l b :
  seg h a (e :: l) b ->
  exists nd, e = entry_of a nd /\ a <> 0 /\ getPtr a = a /\ h !! a = Some nd /\
             tagged (next nd) /\ seg h (getPtr (next nd)) l b.
Proof. inversion 1; subst. exists nd. auto 10. Qed.

Lemma seg_start h a l : seg h a l 0 -> a = start l.
Proof. inversion 1; subst; reflexivity. Qed.

Lemma seg_app h a l1 b l2 c : seg h a l1 b -> seg h b l2 c -> seg h a (l1 ++ l2) c.
Proof.
  intros S1 S2. induction S1; simpl; [exact S2|].
  econstructor; eauto.
Qed.

Lemma seg_app_inv h l1 : forall a l2 c,
  seg h a (l1 ++ l2) c -> exists b, seg h a l1 b /\ seg h b l2 c.
Proof.
  induction l1 as [|e l1 IH]; intros a l2 c S; simpl in S.
  - exists a. split; [constructor | exact S].
  - apply seg_cons_inv in S. destruct S as (nd & -> & ? & ? & ? & ? & S).
    destruct (IH _ _ _ S) as (b & S1 & S2).
    exists b. split; [econstructor; eauto | exact S2].
Qed.

Lemma seg_frame h h' a l b :
  seg h a l b -> (forall e, e ∈ l -> h' !! e_addr e = h !! e_addr e) -> seg h' a l b.
Proof.
  intros S. induction S as [|a nd l b ? ? ? ? S IH]; intros Hf; [constructor|].
  econstructor; eauto.
  - pose proof (Hf (entry_of a nd) (list_elem_of_here _ _)) as E. simpl in E. congruence.
  - apply IH. intros e He. apply Hf. right. exact He.
Qed.

Lemma seg_lookup h a l b e :
  seg h a l b -> e ∈ l ->
  exists nd, h !! e_addr e = Some nd /\ e = entry_of (e_addr e) nd /\
             tagged (next nd) /\ e_addr e <> 0 /\ getPtr (e_addr e) = e_addr e.
Proof.
  intros S. induction S as [|a nd l b ? ? ? ? S IH]; intros Hin.
  - apply elem_of_nil in Hin. destruct Hin.
  - apply elem_of_cons in Hin. destruct Hin as [->|Hin]; [|auto].
    exists nd. simpl. auto.
Qed.

(** The last node of a segment points to where the segment arrives. *)
Lemma seg_last h a l e b :
  seg h a (l ++ [e]) b ->
  exists nd, h !! e_addr e = Some nd /\ e = entry_of (e_addr e) nd /\
             tagged (next nd) /\ getPtr (next nd) = b.
Proof.
  intros S. apply seg_app_inv in S. destruct S as (m & _ & S).
  apply seg_cons_inv in S. destruct S as (nd & -> & ? & ? & ? & ? & S).
  apply seg_nil_inv in S. exists nd. simpl. auto.
Qed.

Lemma seg_one h a nd e :
  h !! a = Some nd -> a <> 0 -> getPtr a = a -> tagged (next nd) -> e = entry_of a nd ->
  seg h a [e] (getPtr (next nd)).
Proof. intros ? ? ? ? ->. econstructor; eauto. constructor. Qed.

Lemma seg_det h a l1 : forall l2, seg h a l1 0 -> seg h a l2 0 -> l1 = l2.
Proof.
  revert a. induction l1 as [|e l1 IH]; intros a l2 S1 S2.
  - apply seg_nil_inv in S1. subst. destruct l2; [reflexivity|].
    apply seg_cons_inv in S2. destruct S2 as (? & ? & ? & _). congruence.
  - apply seg_cons_inv in S1. destruct S1 as (nd & -> & ? & ? & ? & ? & S1).
    destruct l2 as [|e2 l2].
    + apply seg_nil_inv in S2. congruence.
    + apply seg_cons_inv in S2. destruct S2 as (nd2 & -> & ? & ? & ? & ? & S2).
      assert (nd2 = nd) by congruence. subst. f_equal. eauto.
Qed.

(** ** Worlds *)

Ltac wsimpl :=
  cbn [heap buckets brk limit retired trace hist env
       set_heap set_buckets set_brk set_retired set_trace set_hist set_env snapshot
       write_slot log advance add_retired put_node drop_node] in *.

Lemma heap_write_next n v h nd :
  h !! n = Some nd -> heap_write (NextOf n) v h = <[n := mkNode (key nd) (val nd) v]> h.
Proof. intros H. simpl. rewrite H. reflexivity. Qed.

Lemma bind_ret_eq {A B} (m : M A) (k : A -> M B) w a w' :
  m w = Ret a w' -> bind m k w = k a w'.
Proof. unfold bind. intros ->. reflexivity. Qed.

Lemma bind_assoc {A B C} (m : M A) (f : A -> M B) (g : B -> M C) w :
  bind (bind m f) g w = bind m (fun x => bind (f x) g) w.
Proof. unfold bind. destruct (m w); reflexivity. Qed.

Lemma on_throw_ret {A} (m : M A) c w a w' : m w = Ret a w' -> on_throw m c w = Ret a w'.
Proof. unfold on_throw. intros ->. reflexivity. Qed.

Lemma interfere_seq w : env w = [] -> interfere w = Ret tt w.
Proof. unfold interfere. intros ->. reflexivity. Qed.

Lemma load_seq s w v :
  env w = [] -> read_slot s w = Some v ->
  load s w = Ret v (log (ELoad s v) w).
Proof.
  intros He Hr. unfold load. rewrite (bind_ret_eq _ _ _ _ _ (interfere_seq w He)).
  rewrite Hr. reflexivity.
Qed.

Lemma store_seq s w v v0 :
  env w = [] -> read_slot s w = Some v0 ->
  store s v w = Ret tt (snapshot (write_slot s v (log (EStore s v) w))).
Proof.
  intros He Hr. unfold store. rewrite (bind_ret_eq _ _ _ _ _ (interfere_seq w He)).
  rewrite Hr. reflexivity.
Qed.

Lemma cas_seq_ok s e d w :
  env w = [] -> read_slot s w = Some e ->
  cas s e d w = Ret (true, e)
    (snapshot (write_slot s d (log (ECas s e d true) w))).
Proof.
  intros He Hr. unfold cas. rewrite (bind_ret_eq _ _ _ _ _ (interfere_seq w He)).
  rewrite Hr, Z.eqb_refl. reflexivity.
Qed.

Lemma list_last_cases {A} (l : list A) : l = [] \/ exists l' x, l = l' ++ [x].
Proof.
  destruct l as [|a l]; [left; reflexivity | right].
  destruct (exists_last (l := a :: l)) as (l' & x & E); [discriminate|]. eauto.
Qed.

Lemma slot_at_nil i : slot_at i [] = Bucket i.
Proof. reflexivity. Qed.

Lemma slot_at_snoc i l e : slot_at i (l ++ [e]) = NextOf (e_addr e).
Proof. unfold slot_at. rewrite last_snoc. reflexivity. Qed.

Lemma heap_write_other s v h a :
  (forall n, s = NextOf n -> n <> a) -> heap_write s v h !! a = h !! a.
Proof.
  intros H. destruct s as [i|n]; simpl; [reflexivity|].
  destruct (h !! n) eqn:E; [|reflexivity].
  apply lookup_insert_ne. apply H. reflexivity.
Qed.

Lemma heap_write_dom s v h a :
  is_Some (heap_write s v h !! a) <-> is_Some (h !! a).
Proof.
  destruct s as [i|n]; simpl; [reflexivity|].
  destruct (h !! n) eqn:E; [|reflexivity].
  destruct (Z.eq_dec n a) as [->|Hn].
  - rewrite lookup_insert_eq, E. split; eauto.
  - rewrite lookup_insert_ne by exact Hn. reflexivity.
Qed.

Lemma clwb_bind {B} t (k : unit -> M B) w :
  bind (clwb t) k w = k tt (log (EClwb t) w).
Proof. reflexivity. Qed.

Lemma sfence_bind {B} (k : unit -> M B) w :
  bind sfence k w = k tt (log (ESfence) w).
Proof. reflexivity. Qed.

Lemma start_op_bind {B} tid (k : unit -> M B) w :
  bind (start_op tid) k w = k tt (log (EStartOp tid) w).
Proof. reflexivity. Qed.

Lemma end_op_bind {B} tid (k : unit -> M B) w :
  bind (end_op tid) k w = k tt (log (EEndOp tid) w).
Proof. reflexivity. Qed.

Lemma retire_bind {B} n tid (k : unit -> M B) w :
  bind (retire n tid) k w =
  k tt (add_retired n (log (ERetire n tid) w)).
Proof. reflexivity. Qed.

Lemma ret_bind {A B} (a : A) (k : A -> M B) w : bind (ret a) k w = k a w.
Proof. reflexivity. Qed.

Lemma key_compare_bind {B} curr k nd (c : comparison -> M B) w :
  heap w !! curr = Some nd ->
  bind (key_compare curr k) c w = c (String.compare (chars (key nd)) k) w.
Proof. intros H. unfold bind, key_compare. rewrite H. reflexivity. Qed.

Lemma read_val_bind {B} curr nd (c : string -> M B) w :
  heap w !! curr = Some nd ->
  bind (read_val curr) c w = c (chars (val nd)) w.
Proof. intros H. unfold bind, read_val. rewrite H. reflexivity. Qed.

Lemma live_app l1 l2 : live (l1 ++ l2) = live l1 ++ live l2.
Proof.
  induction l1 as [|e l1 IH]; simpl; [reflexivity|].
  destruct (e_marked e); simpl; congruence.
Qed.

Lemma keys_app l1 l2 : keys (l1 ++ l2) = keys l1 ++ keys l2.
Proof. unfold keys. rewrite live_app. apply fmap_app. Qed.

Lemma scan_live k l : live (scan_keep k l ++ scan_rest k l) = live l.
Proof.
  induction l as [|e l IH]; simpl; [reflexivity|].
  destruct (e_marked e) eqn:Em; simpl; [exact IH|].
  destruct (String.compare (e_key e) k); simpl; rewrite Em; simpl; congruence.
Qed.

Lemma scan_keep_unmarked k l : Forall (fun e => e_marked e = false) (scan_keep k l).
Proof.
  induction l as [|e l IH]; simpl; [constructor|].
  destruct (e_marked e) eqn:Em; [exact IH|].
  destruct (String.compare (e_key e) k); constructor; assumption.
Qed.

Lemma scan_keep_lt k l : Forall (fun e => str_lt (e_key e) k) (scan_keep k l).
Proof.
  induction l as [|e l IH]; simpl; [constructor|].
  destruct (e_marked e) eqn:Em; [exact IH|].
  destruct (String.compare (e_key e) k) eqn:Ec; constructor; assumption.
Qed.

(** The traversal stops at the end of the chain or at an unmarked node
    whose key is not below [k]. *)
Lemma scan_rest_head k l e l' :
  scan_rest k l = e :: l' -> e_marked e = false /\ String.compare (e_key e) k <> Lt.
Proof.
  induction l as [|e0 l IH]; simpl; [discriminate|].
  destruct (e_marked e0) eqn:Em; [exact IH|].
  destruct (String.compare (e_key e0) k) eqn:Ec; [| exact IH |];
    intros [= <- <-]; split; congruence.
Qed.

(** ** The order of keys *)

Lemma str_lt_trans a b c : str_lt a b -> str_lt b c -> str_lt a c.
Proof.
  unfold str_lt. intros H1 H2.
  apply String_as_OT.cmp_lt. apply String_as_OT.cmp_lt in H1, H2.
  eapply String_as_OT.lt_trans; eauto.
Qed.

Lemma str_lt_irrefl a : ~ str_lt a a.
Proof.
  unfold str_lt. intros H.
  assert (String.compare a a = Eq) by (apply String_as_OT.cmp_eq; reflexivity).
  congruence.
Qed.

Lemma compare_gt_lt a b : String.compare a b = Gt -> str_lt b a.
Proof. unfold str_lt. intros H. rewrite String.compare_antisym, H. reflexivity. Qed.

Lemma str_lt_neq a b : str_lt a b -> a <> b.
Proof. intros H ->. exact (str_lt_irrefl _ H). Qed.

Lemma sorted_app_inv (A C : list string) :
  StronglySorted str_lt (A ++ C) ->
  StronglySorted str_lt A /\ StronglySorted str_lt C /\
  (forall x y, x ∈ A -> y ∈ C -> str_lt x y).
Proof.
  induction A as [|a A IH]; simpl; intros H.
  - split; [constructor|]. split; [exact H|]. intros x y Hx. apply elem_of_nil in Hx. destruct Hx.
  - inversion H as [|? ? Hs Hf]; subst. destruct (IH Hs) as (S1 & S2 & S3).
    apply Forall_app in Hf as [F1 F2]. split; [constructor; assumption|]. split; [exact S2|].
    intros x y Hx Hy. apply elem_of_cons in Hx as [->|Hx]; [|auto].
    apply (proj1 (Forall_forall _ _) F2 y Hy).
Qed.

Lemma sorted_app (A C : list string) :
  StronglySorted str_lt A -> StronglySorted str_lt C ->
  (forall x y, x ∈ A -> y ∈ C -> str_lt x y) -> StronglySorted str_lt (A ++ C).
Proof.
  induction A as [|a A IH]; simpl; intros S1 S2 S3; [exact S2|].
  inversion S1 as [|? ? Hs Hf]; subst. constructor.
  - apply IH; auto. intros x y Hx Hy. apply S3; [right; exact Hx | exact Hy].
  - apply Forall_app. split; [exact Hf|]. apply Forall_forall. intros y Hy.
    apply S3; [left | exact Hy].
Qed.

(** A key strictly between the two parts of a sorted list can be put
    between them. *)
Lemma sorted_insert_mid (A C : list string) k :
  StronglySorted str_lt (A ++ C) -> Forall (fun x => str_lt x k) A ->
  Forall (fun y => str_lt k y) C -> StronglySorted str_lt (A ++ k :: C).
Proof.
  intros H FA FC. destruct (sorted_app_inv _ _ H) as (S1 & S2 & S3).
  apply sorted_app; auto.
  - constructor; assumption.
  - intros x y Hx Hy. apply elem_of_cons in Hy as [->|Hy]; [|auto].
    apply (proj1 (Forall_forall _ _) FA x Hx).
Qed.

Lemma sorted_remove_mid (A C : list string) k :
  StronglySorted str_lt (A ++ k :: C) -> StronglySorted str_lt (A ++ C).
Proof.
  intros H. destruct (sorted_app_inv _ _ H) as (S1 & S2 & S3).
  inversion S2; subst. apply sorted_app; auto.
  intros x y Hx Hy. apply S3; [exact Hx | right; exact Hy].
Qed.

Lemma assoc_none k kvs : Forall (fun kv => fst kv <> k) kvs -> assoc k kvs = None.
Proof.
  induction 1 as [|[k' v] kvs Hk _ IH]; simpl; [reflexivity|].
  simpl in Hk. destruct (String.eqb_spec k' k); [contradiction | exact IH].
Qed.

Lemma assoc_app_none k A C : Forall (fun kv => fst kv <> k) A -> assoc k (A ++ C) = assoc k C.
Proof.
  induction 1 as [|[k' v] kvs Hk _ IH]; simpl; [reflexivity|].
  simpl in Hk. destruct (String.eqb_spec k' k); [contradiction | exact IH].
Qed.

Lemma assoc_app_skip k k' v A C : k' <> k -> assoc k (A ++ (k', v) :: C) = assoc k (A ++ C).
Proof.
  intros Hk. induction A as [|[k0 v0] A IH]; simpl.
  - destruct (String.eqb_spec k' k); [contradiction | reflexivity].
  - destruct (String.eqb_spec k0 k); [reflexivity | exact IH].
Qed.

Lemma live_keys_lt k (K : list Entry) :
  Forall (fun e => str_lt (e_key e) k) K -> Forall (fun x => str_lt x k) (keys K).
Proof.
  unfold keys. induction 1 as [|e K He _ IH]; simpl; [constructor|].
  destruct (e_marked e); simpl; [exact IH | constructor; assumption].
Qed.

Lemma live_fst_keys l P : Forall P (keys l) -> Forall (fun kv => P (fst kv)) (live l).
Proof.
  unfold keys. induction (live l) as [|kv kvs IH]; simpl; intros H; [constructor|].
  inversion H; subst. constructor; auto.
Qed.

Lemma assoc_opt_list k o C :
  Forall (fun kv => fst kv <> k) C -> assoc k (opt_list k o ++ C) = o.
Proof.
  intros H. destruct o as [v|]; simpl.
  - rewrite String.eqb_refl. reflexivity.
  - apply assoc_none. exact H.
Qed.

Lemma updates_old k ox oy l l' : updates k ox oy l l' -> assoc k (live l) = oy.
Proof.
  intros (A & C & E1 & E2 & FA & FC). rewrite E1, assoc_app_none by exact FA.
  apply assoc_opt_list. exact FC.
Qed.

Lemma updates_new k ox oy l l' : updates k ox oy l l' -> assoc k (live l') = ox.
Proof.
  intros (A & C & E1 & E2 & FA & FC). rewrite E2, assoc_app_none by exact FA.
  apply assoc_opt_list. exact FC.
Qed.

Lemma updates_other k ox oy l l' k' :
  updates k ox oy l l' -> k' <> k -> assoc k' (live l') = assoc k' (live l).
Proof.
  intros (A & C & E1 & E2 & FA & FC) Hk. rewrite E1, E2.
  assert (G : forall o, assoc k' (A ++ opt_list k o ++ C) = assoc k' (A ++ C)).
  { intros [x|]; simpl; [|reflexivity]. apply assoc_app_skip. congruence. }
  rewrite !G. reflexivity.
Qed.

Lemma sorted_keys_gt (c : string) (l : list string) k :
  StronglySorted str_lt (c :: l) -> str_lt k c \/ k = c -> Forall (fun y => str_lt k y) l.
Proof.
  intros H Hk. inversion H as [|? ? _ Hf]; subst.
  eapply Forall_impl; [exact Hf|]. simpl. intros y Hy.
  destruct Hk as [Hk| ->]; [eapply str_lt_trans; eauto | exact Hy].
Qed.

Lemma keys_ne_lt k (l : list Entry) :
  Forall (fun x => str_lt x k) (keys l) -> Forall (fun kv => fst kv <> k) (live l).
Proof.
  intros H. apply (live_fst_keys l (fun x => x <> k)).
  eapply Forall_impl; [exact H|]. simpl. intros x Hx. apply str_lt_neq. exact Hx.
Qed.

Lemma keys_ne_gt k (l : list Entry) :
  Forall (fun x => str_lt k x) (keys l) -> Forall (fun kv => fst kv <> k) (live l).
Proof.
  intros H. apply (live_fst_keys l (fun x => x <> k)).
  eapply Forall_impl; [exact H|]. simpl. intros x Hx E. subst. exact (str_lt_irrefl _ Hx).
Qed.

(** What the traversal for [k] finds in a sorted chain. *)
Lemma scan_shape k l :
  StronglySorted str_lt (keys l) ->
  Forall (fun x => str_lt x k) (keys (scan_keep k l)) /\
  ((scan_found k l = true /\
    exists c R', scan_rest k l = c :: R' /\ e_marked c = false /\ e_key c = k /\
                 Forall (fun y => str_lt k y) (keys R'))
   \/
   (scan_found k l = false /\ Forall (fun y => str_lt k y) (keys (scan_rest k l)))).
Proof.
  intros Hs. split; [apply live_keys_lt, scan_keep_lt|].
  assert (Hk : StronglySorted str_lt (keys (scan_rest k l))).
  { unfold keys in *. rewrite <- (scan_live k l), live_app, fmap_app in Hs.
    apply sorted_app_inv in Hs. tauto. }
  unfold scan_found. destruct (scan_rest k l) as [|c R'] eqn:Er.
  - right. split; [reflexivity | constructor].
  - destruct (scan_rest_head _ _ _ _ Er) as [Hc Hlt].
    unfold keys in Hk. simpl in Hk. rewrite Hc in Hk. simpl in Hk.
    destruct (String.compare (e_key c) k) eqn:Ec; [left | contradiction | right].
    + apply String.compare_eq_iff in Ec. split; [reflexivity|].
      exists c, R'. split; [reflexivity|]. split; [exact Hc|]. split; [exact Ec|].
      eapply sorted_keys_gt; [exact Hk | right; congruence].
    + split; [reflexivity|]. unfold keys. simpl. rewrite Hc. simpl.
      constructor; [apply compare_gt_lt; exact Ec|].
      eapply sorted_keys_gt; [exact Hk | left; apply compare_gt_lt; exact Ec].
Qed.

Lemma scan_subset k l e : e ∈ scan_keep k l ++ scan_rest k l -> e ∈ l.
Proof.
  induction l as [|e0 l IH]; simpl; [auto|].
  destruct (e_marked e0); [intros H; right; auto|].
  destruct (String.compare (e_key e0) k); simpl; auto.
  intros H. apply elem_of_cons in H as [->|H]; [left | right; auto].
Qed.

(** ** Allocation *)

Lemma align16_ge n : n <= align16 n.
Proof.
  unfold align16. pose proof (Z.div_mod (n + 15) 16 ltac:(lia)).
  pose proof (Z.mod_pos_bound (n + 15) 16 ltac:(lia)). lia.
Qed.

Lemma align16_mod n : align16 n mod 16 = 0.
Proof. unfold align16. apply Z.mod_mul. lia. Qed.

Lemma align16_add_mod a n : a mod 16 = 0 -> (a + align16 n) mod 16 = 0.
Proof.
  intros H. rewrite Z.add_mod, H, align16_mod by lia. reflexivity.
Qed.

Lemma RP_malloc_ok size w :
  brk w + size <= limit w ->
  RP_malloc size w =
  Ret (brk w) (advance (align16 size) (log (EMalloc size (brk w)) w)).
Proof.
  intros H. unfold RP_malloc. destruct (Z.leb_spec (brk w + size) (limit w)); [reflexivity|lia].
Qed.

Lemma RP_malloc_null size w :
  limit w < brk w + size ->
  RP_malloc size w = Ret 0 (log (EMalloc size 0) w).
Proof.
  intros H. unfold RP_malloc. destruct (Z.leb_spec (brk w + size) (limit w)); [lia|reflexivity].
Qed.

Section Seq.

Variable hash_fn : string -> Z.

Local Abbreviation mem_str := (mem_str hash_fn).
Local Abbreviation bucket_of := (bucket_of hash_fn).
Local Abbreviation steady := (PHT.steady hash_fn).
Local Abbreviation mid := (PHT.mid hash_fn).

Lemma mem_str_ext B h b ls ls' :
  (forall j, ls' j = ls j) -> mem_str B h b ls -> mem_str B h b ls'.
Proof. intros E H j. rewrite E. apply H. Qed.

Lemma set_chain_eq i l ls : set_chain i l ls i = l.
Proof. unfold set_chain. rewrite Z.eqb_refl. reflexivity. Qed.

Lemma set_chain_ne i j l ls : j <> i -> set_chain i l ls j = ls j.
Proof. unfold set_chain. intros H. destruct (Z.eqb_spec j i); congruence. Qed.

(** A node of one bucket is not a node of another. *)
Lemma chains_disjoint B h b ls i j e1 e2 :
  mem_str B h b ls -> i <> j -> e1 ∈ ls i -> e2 ∈ ls j -> e_addr e1 <> e_addr e2.
Proof.
  intros H Hij H1 H2 E.
  destruct (seg_lookup _ _ _ _ _ (bs_seg _ _ _ _ _ _ (H i)) H1) as (n1 & L1 & E1 & _).
  destruct (seg_lookup _ _ _ _ _ (bs_seg _ _ _ _ _ _ (H j)) H2) as (n2 & L2 & E2 & _).
  pose proof (proj1 (Forall_forall _ _) (bs_hash _ _ _ _ _ _ (H i)) _ H1) as K1.
  pose proof (proj1 (Forall_forall _ _) (bs_hash _ _ _ _ _ _ (H j)) _ H2) as K2.
  simpl in K1, K2. rewrite E in L1. assert (n1 = n2) by congruence. subst n2.
  rewrite E1 in K1. rewrite E2 in K2. simpl in K1, K2. congruence.
Qed.

(** What the slot in front of the rest of a chain holds. *)
Lemma slot_read B w ls i pre rest :
  mem_str B (heap w) (buckets w) ls -> ls i = pre ++ rest ->
  Forall (fun e => e_marked e = false) pre ->
  read_slot (slot_at i pre) w = Some (start rest).
Proof.
  intros H E Hu. pose proof (bs_seg _ _ _ _ _ _ (H i)) as S. rewrite E in S.
  destruct (list_last_cases pre) as [->|(pre' & p & ->)].
  - simpl in *. f_equal. apply (seg_start _ _ _ S).
  - rewrite slot_at_snoc. simpl.
    apply seg_app_inv in S. destruct S as (m & S1 & S2).
    apply seg_start in S2. subst m.
    destruct (seg_last _ _ _ _ _ S1) as (nd & L & Ep & Ht & Hn).
    rewrite L. simpl. f_equal.
    apply Forall_app in Hu. destruct Hu as [_ Hu]. inversion Hu as [|? ? Hp _]; subst.
    rewrite Ep in Hp. simpl in Hp. rewrite <- Hn. symmetry. apply tagged_unmarked; assumption.
Qed.

Lemma addr_app_ne (l1 l2 : list Entry) e1 e2 :
  NoDup (e_addr <$> (l1 ++ l2)) -> e1 ∈ l1 -> e2 ∈ l2 -> e_addr e1 <> e_addr e2.
Proof.
  rewrite fmap_app. intros H H1 H2 E. apply NoDup_app in H. destruct H as (_ & H & _).
  apply (H (e_addr e1)).
  - apply list_elem_of_fmap. eauto.
  - apply list_elem_of_fmap. eauto.
Qed.

Lemma bucket_str_mono B B' h b i l :
  B <= B' -> bucket_str hash_fn B h b i l -> bucket_str hash_fn B' h b i l.
Proof.
  intros HB [H1 H2 H3 H4 H5]. split; auto.
  eapply Forall_impl; [exact H4|]. simpl. intros. lia.
Qed.

(** Writing the unmarked address [x] into the slot after [pre] makes the
    chain of the bucket [pre] followed by the chain from [x]. *)
Lemma write_prev B B' h b ls i pre old new x :
  mem_str B h b ls -> B <= B' -> ls i = pre ++ old ->
  Forall (fun e => e_marked e = false) pre ->
  getPtr x = x -> seg h x new 0 ->
  NoDup (e_addr <$> (pre ++ new)) ->
  Forall (fun e => e_addr e < B') new ->
  Forall (fun e => bucket_of (e_key e) = i) new ->
  mem_str B' (heap_write (slot_at i pre) x h) (buckets_write (slot_at i pre) x b)
    (set_chain i (pre ++ new) ls).
Proof.
  intros H HB E Hu Hx Sx Hnd Hlt Hh j.
  pose proof (bs_seg _ _ _ _ _ _ (H i)) as S. rewrite E in S.
  pose proof (H i) as Hi. rewrite E in Hi.
  destruct (Z.eq_dec j i) as [->|Hji].
  - rewrite set_chain_eq.
    destruct (list_last_cases pre) as [->|(pre' & p & ->)].
    + rewrite slot_at_nil. cbn [heap_write buckets_write].
      assert (Hhd : head (<[i:=x]> b) i = x).
      { unfold head. rewrite lookup_insert_eq. reflexivity. }
      simpl in *. split; try rewrite Hhd; auto.
    + rewrite slot_at_snoc. cbn [buckets_write].
      apply seg_app_inv in S. destruct S as (m & S1 & _).
      destruct (seg_last _ _ _ _ _ S1) as (nd & L & Ep & Ht & Hn).
      rewrite (heap_write_next _ _ _ _ L).
      apply seg_app_inv in S1. destruct S1 as (m' & S0 & S1).
      apply seg_cons_inv in S1. destruct S1 as (nd' & Ep' & Hp0 & Hpp & L' & _).
      assert (m' = e_addr p) as -> by (rewrite Ep'; reflexivity).
      assert (Hmk : e_marked p = false).
      { apply Forall_app in Hu. destruct Hu as [_ Hu].
        inversion Hu; assumption. }
      split.
      * apply (bs_head _ _ _ _ _ _ (H i)).
      * rewrite <- app_assoc. eapply seg_app; [|eapply seg_app].
        -- eapply seg_frame; [exact S0|]. intros e He.
           rewrite lookup_insert_ne; [reflexivity|].
           intros Ea. rewrite <- app_assoc in Hnd.
           apply (addr_app_ne _ _ e p Hnd He); [|congruence].
           apply elem_of_app. left. apply list_elem_of_here.
        -- assert (Ee : p = entry_of (e_addr p) (mkNode (key nd) (val nd) x)).
           { rewrite Ep at 1. unfold entry_of. simpl. f_equal.
             rewrite (ptr_unmarked _ Hx). rewrite Ep in Hmk. exact Hmk. }
           replace x with (getPtr (next (mkNode (key nd) (val nd) x))) at 2
             by exact Hx.
           apply seg_one; auto.
           ++ apply lookup_insert_eq.
           ++ simpl. apply tagged_ptr. exact Hx.
           ++ exact Ee.
        -- simpl. rewrite Hx. eapply seg_frame; [exact Sx|]. intros e He.
           rewrite lookup_insert_ne; [reflexivity|].
           intros Ea. apply (addr_app_ne _ _ p e Hnd); [|exact He|congruence].
           apply elem_of_app. right. apply list_elem_of_here.
      * exact Hnd.
      * apply Forall_app. split; [|exact Hlt].
        pose proof (bs_below _ _ _ _ _ _ Hi) as Hb. apply Forall_app in Hb as [Hb _].
        eapply Forall_impl; [exact Hb|]. simpl. intros. lia.
      * apply Forall_app. split; [|exact Hh].
        pose proof (bs_hash _ _ _ _ _ _ Hi) as Hb. apply Forall_app in Hb as [Hb _].
        exact Hb.
  - rewrite (set_chain_ne _ _ _ _ Hji). apply (bucket_str_mono B); [exact HB|].
    destruct (H j) as [J1 J2 J3 J4 J5].
    destruct (list_last_cases pre) as [->|(pre' & p & ->)].
    + rewrite slot_at_nil. cbn [heap_write buckets_write].
      split; auto; unfold head; rewrite lookup_insert_ne by congruence; assumption.
    + rewrite slot_at_snoc. cbn [buckets_write].
      apply seg_app_inv in S. destruct S as (m & S1 & _).
      destruct (seg_last _ _ _ _ _ S1) as (nd & L & _).
      rewrite (heap_write_next _ _ _ _ L).
      split; auto. eapply seg_frame; [exact J2|]. intros e He.
      rewrite lookup_insert_ne; [reflexivity|].
      intros Ea. eapply (chains_disjoint _ _ _ _ i j p e H); eauto.
      rewrite E. apply elem_of_app. left. apply elem_of_app. right. apply list_elem_of_here.
Qed.

Lemma hist_ext_refl P w w' : hist w' = hist w -> hist_ext P w w'.
Proof. intros E. exists []. rewrite app_nil_r. split; [exact E | constructor]. Qed.

Lemma hist_ext_trans P w1 w2 w3 : hist_ext P w1 w2 -> hist_ext P w2 w3 -> hist_ext P w1 w3.
Proof.
  intros (h1 & E1 & F1) (h2 & E2 & F2). exists (h1 ++ h2).
  rewrite E2, E1, app_assoc. split; [reflexivity | apply Forall_app; auto].
Qed.

Lemma hist_ext_one (P : gmap Z Node * gmap Z Z -> Prop) w w' m :
  hist w' = hist w ++ [m] -> P m -> hist_ext P w w'.
Proof. intros E F. exists [m]. split; [exact E | repeat constructor; exact F]. Qed.

Lemma steady_trans B w1 w2 w3 : steady B w1 w2 -> steady B w2 w3 -> steady B w1 w3.
Proof.
  intros [a1 a2 a3 a4 a5 a6] [b1 b2 b3 b4 b5 b6]. split; try congruence.
  - intros a Ha. rewrite b4, a4 by exact Ha. reflexivity.
  - intros a. rewrite b5. apply a5.
  - eapply hist_ext_trans; eauto.
Qed.

Lemma slot_at_below B h b i pre rest n :
  bucket_str hash_fn B h b i (pre ++ rest) -> slot_at i pre = NextOf n -> n < B.
Proof.
  intros H. destruct (list_last_cases pre) as [->|(pre' & p & ->)].
  - discriminate.
  - rewrite slot_at_snoc. intros [= <-].
    pose proof (bs_below _ _ _ _ _ _ H) as Hb.
    apply Forall_app in Hb as [Hb _]. apply Forall_app in Hb as [_ Hb].
    inversion Hb; assumption.
Qed.

Lemma ascending_ext ls ls' :
  (forall j, keys (ls' j) = keys (ls j)) -> ascending ls -> ascending ls'.
Proof. intros E H j. rewrite E. apply H. Qed.

Lemma chain_split B h b ls i pre e rest :
  mem_str B h b ls -> ls i = pre ++ e :: rest ->
  exists nd, h !! e_addr e = Some nd /\ e = entry_of (e_addr e) nd /\ tagged (next nd) /\
             getPtr (next nd) = start rest /\ seg h (start rest) rest 0 /\
             e_addr e <> 0 /\ getPtr (e_addr e) = e_addr e.
Proof.
  intros H E. pose proof (bs_seg _ _ _ _ _ _ (H i)) as S. rewrite E in S.
  apply seg_app_inv in S. destruct S as (m & _ & S).
  apply seg_cons_inv in S. destruct S as (nd & -> & ? & ? & ? & ? & S).
  pose proof (seg_start _ _ _ S) as Es. rewrite Es in S.
  exists nd. simpl. auto 10.
Qed.

Lemma findNode_scan_seq k tid B rem :
  forall done w ls fuel next0,
  env w = [] -> mem_str B (heap w) (buckets w) ls -> ascending ls ->
  ls (bucket_of k) = done ++ rem -> Forall (fun e => e_marked e = false) done ->
  (length rem < fuel)%nat ->
  exists w' nx,
    findNode_scan fuel k tid (slot_at (bucket_of k) done) (start rem) next0 w
    = Ret (Some (scan_found k rem), slot_at (bucket_of k) (done ++ scan_keep k rem),
           start (scan_rest k rem), nx) w' /\
    (forall e rest', scan_rest k rem = e :: rest' -> nx = start rest') /\
    mem_str B (heap w') (buckets w')
      (set_chain (bucket_of k) (done ++ scan_keep k rem ++ scan_rest k rem) ls) /\
    steady B w w'.
Proof.
  induction rem as [|e rem IH]; intros done w ls fuel next0 He Hm Ha El Hu Hf.
  - destruct fuel as [|fuel]; [simpl in Hf; lia|].
    exists w, next0. simpl. split; [|split; [|split]].
    + rewrite app_nil_r. reflexivity.
    + discriminate.
    + eapply mem_str_ext; [|exact Hm]. intros j. unfold set_chain.
      destruct (Z.eqb_spec j (bucket_of k)) as [->|]; [|reflexivity].
      rewrite El. reflexivity.
    + split; auto. apply hist_ext_refl. reflexivity.
  - destruct fuel as [|fuel]; [simpl in Hf; lia|]. simpl in Hf.
    destruct (chain_split _ _ _ _ _ _ _ _ Hm El) as (nd & L & Ee & Ht & Hn & Sr & Hnz & Hp).
    pose proof (slot_read _ _ _ _ _ _ Hm El Hu) as Hr. simpl in Hr.
    cbn [findNode_scan start].
    destruct (Z.eqb_spec (e_addr e) 0) as [|_]; [contradiction|].
    set (w1 := log (ELoad (NextOf (e_addr e)) (next nd)) w).
    rewrite (bind_ret_eq _ _ _ _ _ (load_seq (NextOf (e_addr e)) w (next nd) He
               ltac:(simpl; rewrite L; reflexivity))).
    fold w1. rewrite clwb_bind.
    set (w2 := log _ w1).
    rewrite (key_compare_bind _ _ nd) by exact L.
    rewrite (bind_ret_eq _ _ _ _ _ (load_seq (slot_at (bucket_of k) done) w2 (e_addr e) He Hr)).
    set (w3 := log _ w2).
    rewrite Z.eqb_refl. cbn [negb]. rewrite clwb_bind. set (w4 := log _ w3).
    assert (Emk : getMark (next nd) = e_marked e) by (rewrite Ee; reflexivity).
    assert (Eky : chars (key nd) = e_key e) by (rewrite Ee; reflexivity).
    rewrite Emk, Eky, Hn.
    unfold scan_found. cbn [scan_keep scan_rest].
    destruct (e_marked e) eqn:Hmk; cbn [negb].
    + (* a marked node: unlink it *)
      rewrite sfence_bind. set (w5 := log _ w4).
      rewrite (bind_ret_eq _ _ _ _ _
                 (cas_seq_ok (slot_at (bucket_of k) done) (e_addr e) (start rem) w5 He Hr)).
      cbn [fst]. set (w6 := snapshot _).
      rewrite clwb_bind, sfence_bind, retire_bind. set (w7 := add_retired _ _).
      assert (Hm6 : mem_str B (heap w6) (buckets w6) (set_chain (bucket_of k) (done ++ rem) ls)).
      { subst w6. wsimpl.
        apply (write_prev B B (heap w) (buckets w) ls (bucket_of k) done (e :: rem) rem (start rem)); auto.
        - lia.
        - rewrite <- Hn. apply getPtr_idem.
        - pose proof (bs_nodup _ _ _ _ _ _ (Hm (bucket_of k))) as Hnd. rewrite El in Hnd.
          rewrite fmap_app in *. rewrite fmap_cons in Hnd.
          apply NoDup_app in Hnd. destruct Hnd as (N1 & N2 & N3).
          apply NoDup_cons in N3. destruct N3 as [_ N3].
          apply NoDup_app. split; [exact N1|]. split; [|exact N3].
          intros x Hx Hx'. apply (N2 x Hx). right. exact Hx'.
        - pose proof (bs_below _ _ _ _ _ _ (Hm (bucket_of k))) as Hb. rewrite El in Hb.
          apply Forall_app in Hb as [_ Hb]. inversion Hb; assumption.
        - pose proof (bs_hash _ _ _ _ _ _ (Hm (bucket_of k))) as Hb. rewrite El in Hb.
          apply Forall_app in Hb as [_ Hb]. inversion Hb; assumption. }
      assert (Ha6 : ascending (set_chain (bucket_of k) (done ++ rem) ls)).
      { eapply ascending_ext; [|exact Ha]. intros j. unfold set_chain.
        destruct (Z.eqb_spec j (bucket_of k)) as [->|]; [|reflexivity].
        rewrite El, !keys_app. f_equal. unfold keys. simpl. rewrite Hmk. reflexivity. }
      destruct (IH done w7 (set_chain (bucket_of k) (done ++ rem) ls) fuel (start rem))
        as (w' & nx & Er & Hnx & Hm' & Hs'); auto.
      { apply set_chain_eq. }
      { lia. }
      exists w', nx. split; [exact Er|]. split; [exact Hnx|]. split.
      * eapply mem_str_ext; [|exact Hm']. intros j. unfold set_chain.
        destruct (Z.eqb_spec j (bucket_of k)); reflexivity.
      * eapply steady_trans; [|exact Hs'].
        split; auto.
        -- intros a Ha'. subst w7 w6. wsimpl. apply heap_write_other.
           intros n En. pose proof (Hm (bucket_of k)) as Hb. rewrite El in Hb.
           pose proof (slot_at_below _ _ _ _ _ _ _ Hb En). lia.
        -- intros a. subst w7 w6. wsimpl. apply heap_write_dom.
        -- apply (hist_ext_one _ w w7 (heap w6, buckets w6)).
           ++ subst w7 w6. wsimpl. reflexivity.
           ++ exists B, (set_chain (bucket_of k) (done ++ rem) ls). split; assumption.
    + (* an unmarked node *)
      destruct (String.compare (e_key e) k) eqn:Ec.
      * rewrite sfence_bind. set (w5 := log _ w4).
        exists w5, (start rem). rewrite Ec. split; [rewrite app_nil_r; reflexivity|].
        split; [intros e' r' [= <- <-]; reflexivity|]. split.
        -- eapply mem_str_ext; [|exact Hm]. intros j. unfold set_chain.
           destruct (Z.eqb_spec j (bucket_of k)) as [->|]; [|reflexivity].
           rewrite El. reflexivity.
        -- split; auto. apply hist_ext_refl. reflexivity.
      * destruct (IH (done ++ [e]) w4 ls fuel (start rem)) as (w' & nx & Er & Hnx & Hm' & Hs'); auto.
        { rewrite <- app_assoc. exact El. }
        { apply Forall_app. split; [exact Hu|]. repeat constructor. exact Hmk. }
        { lia. }
        rewrite slot_at_snoc in Er.
        exists w', nx. split; [|split; [exact Hnx|split]].
        -- rewrite Er. rewrite <- !app_assoc. reflexivity.
        -- eapply mem_str_ext; [|exact Hm']. intros j. unfold set_chain.
           destruct (Z.eqb_spec j (bucket_of k)) as [->|]; [|reflexivity].
           rewrite <- !app_assoc. reflexivity.
        -- eapply steady_trans; [|exact Hs']. split; auto. apply hist_ext_refl. reflexivity.
      * exists w4, (start rem). rewrite Ec. split; [rewrite app_nil_r; reflexivity|].
        split; [intros e' r' [= <- <-]; reflexivity|]. split.
        -- eapply mem_str_ext; [|exact Hm]. intros j. unfold set_chain.
           destruct (Z.eqb_spec j (bucket_of k)) as [->|]; [|reflexivity].
           rewrite El. reflexivity.
        -- split; auto. apply hist_ext_refl. reflexivity.
Qed.

Lemma findNode_seq k tid B w ls fuel next0 :
  env w = [] -> mem_str B (heap w) (buckets w) ls -> ascending ls ->
  (length (ls (bucket_of k)) < fuel)%nat ->
  exists w' nx,
    findNode hash_fn fuel k tid next0 w
    = Ret (scan_found k (ls (bucket_of k)),
           slot_at (bucket_of k) (scan_keep k (ls (bucket_of k))),
           start (scan_rest k (ls (bucket_of k))), nx) w' /\
    (forall e rest', scan_rest k (ls (bucket_of k)) = e :: rest' -> nx = start rest') /\
    mem_str B (heap w') (buckets w')
      (set_chain (bucket_of k)
         (scan_keep k (ls (bucket_of k)) ++ scan_rest k (ls (bucket_of k))) ls) /\
    steady B w w'.
Proof.
  intros He Hm Ha Hf. unfold findNode.
  destruct fuel as [|n]; [lia|]. cbn [findNode_retry].
  pose proof (slot_read B w ls (bucket_of k) [] _ Hm eq_refl ltac:(constructor)) as Hr.
  rewrite slot_at_nil in Hr.
  rewrite (bind_ret_eq _ _ _ _ _ (load_seq _ w _ He Hr)).
  rewrite clwb_bind. set (w2 := log _ (log _ w)).
  pose proof (bs_head _ _ _ _ _ _ (Hm (bucket_of k))) as Hh.
  pose proof (seg_start _ _ _ (bs_seg _ _ _ _ _ _ (Hm (bucket_of k)))) as Hs.
  rewrite <- Hs, Hh, Hs.
  destruct (findNode_scan_seq k tid B (ls (bucket_of k)) [] w2 ls (S n) next0)
    as (w' & nx & Er & Hnx & Hm' & Hs'); auto.
  change (Bucket (hash_fn k mod idxSize)) with (slot_at (bucket_of k) []).
  rewrite (bind_ret_eq _ _ _ _ _ Er).
  exists w', nx. split; [reflexivity|]. split; [exact Hnx|]. split; [exact Hm'|].
  eapply steady_trans; [|exact Hs']. split; auto. apply hist_ext_refl. reflexivity.
Qed.

Lemma mem_frame B h h' b ls :
  mem_str B h b ls -> (forall a, a < B -> h' !! a = h !! a) -> mem_str B h' b ls.
Proof.
  intros H Hf j. destruct (H j) as [J1 J2 J3 J4 J5]. split; auto.
  eapply seg_frame; [exact J2|]. intros e He. apply Hf.
  apply (proj1 (Forall_forall _ _) J4 e He).
Qed.

(** Marking a node of a chain. *)
Lemma mark_node B h b ls i pre c rest :
  mem_str B h b ls -> ls i = pre ++ c :: rest ->
  mem_str B (heap_write (NextOf (e_addr c)) (setMark (start rest)) h) b
    (set_chain i (pre ++ mark_entry c :: rest) ls).
Proof.
  intros H E.
  destruct (chain_split _ _ _ _ _ _ _ _ H E) as (nd & L & Ee & Ht & Hn & Sr & Hnz & Hp).
  rewrite (heap_write_next _ _ _ _ L).
  pose proof (H i) as Hi. rewrite E in Hi. destruct Hi as [I1 I2 I3 I4 I5].
  intros j. destruct (Z.eq_dec j i) as [->|Hji].
  - rewrite set_chain_eq. split; auto.
    + apply seg_app_inv in I2. destruct I2 as (m & S1 & S2).
      apply seg_cons_inv in S2. destruct S2 as (nd' & Ec & _).
      assert (m = e_addr c) as -> by (rewrite Ec; reflexivity).
      eapply seg_app.
      * eapply seg_frame; [exact S1|]. intros e He.
        rewrite lookup_insert_ne; [reflexivity|]. intros Ea.
        apply (addr_app_ne _ _ e c I3 He); [|congruence]. apply list_elem_of_here.
      * change (mark_entry c :: rest) with ([mark_entry c] ++ rest).
        assert (Hsr : getPtr (start rest) = start rest) by (rewrite <- Hn; apply getPtr_idem).
        eapply seg_app.
        -- apply (seg_one _ (e_addr c) (mkNode (key nd) (val nd) (setMark (start rest)))); auto.
           ++ apply lookup_insert_eq.
           ++ simpl. apply tagged_setMark. exact Hsr.
           ++ unfold mark_entry, entry_of. simpl. rewrite getMark_setMark.
              rewrite Ee. reflexivity.
        -- simpl. rewrite getPtr_setMark, Hsr.
           eapply seg_frame; [exact Sr|]. intros e He.
           rewrite lookup_insert_ne; [reflexivity|]. intros Ea.
           rewrite fmap_app, fmap_cons in I3. apply NoDup_app in I3 as (_ & _ & I3).
           apply NoDup_cons in I3 as [I3 _]. apply I3.
           apply list_elem_of_fmap. exists e. split; [congruence | exact He].
    + rewrite fmap_app, fmap_cons in *. exact I3.
    + apply Forall_app in I4 as [A1 A2]. apply Forall_app. split; [exact A1|].
      inversion A2 as [|? ? X Y]. constructor; [exact X | exact Y].
    + apply Forall_app in I5 as [A1 A2]. apply Forall_app. split; [exact A1|].
      inversion A2 as [|? ? X Y]. constructor; [exact X | exact Y].
  - rewrite (set_chain_ne _ _ _ _ Hji). destruct (H j) as [J1 J2 J3 J4 J5]. split; auto.
    eapply seg_frame; [exact J2|]. intros e He.
    rewrite lookup_insert_ne; [reflexivity|]. intros Ea.
    eapply (chains_disjoint _ _ _ _ i j c e H); eauto.
    rewrite E. apply elem_of_app. right. apply list_elem_of_here.
Qed.

Variable sizeof_Node : Z.
Variable string_request : string -> Z.
Hypothesis sizeof_Node_pos : 0 < sizeof_Node.
Hypothesis string_request_nonneg : forall s, 0 <= string_request s.

Local Abbreviation node_bytes := (PHT.node_bytes sizeof_Node string_request).

Lemma pstring_copy_ok s w :
  0 < brk w -> brk w + align16 (string_request s) <= limit w ->
  exists w' p,
    pstring_copy string_request s w = Ret (mkPstring s p) w' /\
    (p = 0 \/ brk w <= p) /\
    heap w' = heap w /\ hist w' = hist w /\ alloc_only w w' /\
    brk w' = brk w + align16 (string_request s).
Proof.
  intros Hb Hl. unfold pstring_copy.
  destruct (Z.eqb_spec (string_request s) 0) as [E|E].
  - exists w, 0. rewrite E. change (align16 0) with 0. rewrite Z.add_0_r.
    repeat split; auto.
  - unfold my_alloc_allocate. rewrite Z.mul_1_r, bind_assoc.
    pose proof (align16_ge (string_request s)).
    rewrite (bind_ret_eq _ _ _ _ _ (RP_malloc_ok (string_request s) w ltac:(lia))).
    destruct (Z.eqb_spec (brk w) 0); [lia|]. cbn [negb]. rewrite ret_bind.
    eexists _, (brk w). split; [reflexivity|]. wsimpl.
    repeat split; auto. right. lia.
Qed.

Lemma new_Node_seq k v w :
  0 < brk w -> brk w mod 16 = 0 -> brk w + node_bytes k v <= limit w ->
  exists w' nd,
    new_Node sizeof_Node string_request k v 0 w = Ret (brk w) w' /\
    heap w' = <[brk w := nd]> (heap w) /\
    chars (key nd) = k /\ chars (val nd) = v /\ next nd = 0 /\
    (data (key nd) = 0 \/ brk w < data (key nd)) /\
    (data (val nd) = 0 \/ brk w < data (val nd)) /\
    hist w' = hist w ++ [(heap w', buckets w')] /\ alloc_only w w' /\
    brk w' = brk w + node_bytes k v.
Proof.
  intros Hb Hm Hl. unfold node_bytes in *.
  pose proof (align16_ge sizeof_Node). pose proof (align16_ge (string_request k)).
  pose proof (align16_ge (string_request v)).
  pose proof (string_request_nonneg k). pose proof (string_request_nonneg v).
  unfold new_Node, Node_operator_new.
  rewrite bind_assoc.
  rewrite (bind_ret_eq _ _ _ _ _ (RP_malloc_ok sizeof_Node w ltac:(lia))).
  destruct (Z.eqb_spec (brk w) 0); [lia|].
  rewrite ret_bind. set (w1 := advance _ _).
  destruct (pstring_copy_ok k w1) as (w2 & pk & E2 & Hpk & Hh2 & Hi2 & [A1 A2 A3 A4] & Hb2).
  { subst w1. wsimpl. lia. }
  { subst w1. wsimpl. lia. }
  destruct (pstring_copy_ok v w2) as (w3 & pv & E3 & Hpv & Hh3 & Hi3 & [C1 C2 C3 C4] & Hb3).
  { rewrite Hb2. subst w1. wsimpl. lia. }
  { rewrite Hb2, A3. subst w1. wsimpl. lia. }
  eexists _, (mkNode (mkPstring k pk) (mkPstring v pv) 0). split.
  { apply on_throw_ret. rewrite (bind_ret_eq _ _ _ _ _ E2).
    rewrite (bind_ret_eq _ _ _ _ _ (on_throw_ret _ _ _ _ _ E3)).
    reflexivity. }
  repeat split; wsimpl;
    rewrite ?Hh3, ?Hh2, ?Hi3, ?Hi2, ?C1, ?A1, ?C2, ?A2, ?C3, ?A3, ?C4, ?A4, ?Hb3, ?Hb2;
    subst w1; wsimpl; auto; try lia.
  - simpl. destruct Hpk; [left; assumption | right; lia].
  - simpl. destruct Hpv as [|Hpv]; [left; assumption | right]. rewrite Hb2 in Hpv. wsimpl. lia.
Qed.

Lemma start_ptr B h b ls i K R :
  mem_str B h b ls -> ls i = K ++ R -> getPtr (start R) = start R.
Proof.
  intros H E. destruct R as [|c R]; [reflexivity|].
  destruct (chain_split _ _ _ _ _ _ _ _ H E) as (nd & _ & _ & _ & _ & _ & _ & Hp). exact Hp.
Qed.

Lemma chain_rest B h b ls i K R :
  mem_str B h b ls -> ls i = K ++ R -> seg h (start R) R 0.
Proof.
  intros H E. pose proof (bs_seg _ _ _ _ _ _ (H i)) as S. rewrite E in S.
  apply seg_app_inv in S. destruct S as (m & _ & S).
  pose proof (seg_start _ _ _ S) as Es. rewrite Es in S. exact S.
Qed.

Lemma nodup_insert_mid (K R : list Entry) te B :
  NoDup (e_addr <$> K ++ R) -> Forall (fun e => e_addr e < B) (K ++ R) -> B <= e_addr te ->
  NoDup (e_addr <$> K ++ te :: R).
Proof.
  intros Hn Hb Ht. rewrite fmap_app in *. rewrite fmap_cons.
  apply NoDup_app in Hn as (N1 & N2 & N3).
  assert (Hfresh : forall e, e ∈ K ++ R -> e_addr e <> e_addr te).
  { intros e He. pose proof (proj1 (Forall_forall _ _) Hb e He). simpl in *. lia. }
  apply NoDup_app. split; [exact N1|]. split.
  - intros x Hx Hx'. apply elem_of_cons in Hx' as [->|Hx']; [|exact (N2 x Hx Hx')].
    apply list_elem_of_fmap in Hx as (e & Ee & He).
    apply (Hfresh e); [apply elem_of_app; left; exact He | congruence].
  - apply NoDup_cons. split; [|exact N3].
    intros Hx. apply list_elem_of_fmap in Hx as (e & Ee & He).
    apply (Hfresh e); [apply elem_of_app; right; exact He | congruence].
Qed.

(** The new node [t] is pointed at the rest of the chain, written back,
    and published in the slot after [K]. *)
Lemma publish_seq k v t B' w ls K R nd :
  env w = [] -> mem_str t (heap w) (buckets w) ls -> ls (bucket_of k) = K ++ R ->
  Forall (fun e => e_marked e = false) K ->
  heap w !! t = Some nd -> chars (key nd) = k -> chars (val nd) = v ->
  getPtr t = t -> t <> 0 -> t < B' ->
  exists w',
    (forall A (kont : bool * Z -> M A),
       bind (store (NextOf t) (start R)) (fun _ =>
         bind (clwb (TNode t)) (fun _ =>
           bind sfence (fun _ =>
             bind (cas (slot_at (bucket_of k) K) (start R) t) kont))) w
       = kont (true, start R) w') /\
    mem_str B' (heap w') (buckets w')
      (set_chain (bucket_of k) (K ++ mkEntry t k v false :: R) ls) /\
    env w' = [] /\ brk w' = brk w /\ limit w' = limit w /\
    (forall a, is_Some (heap w' !! a) <-> is_Some (heap w !! a)) /\
    exists m1, hist w' = hist w ++ [m1; (heap w', buckets w')] /\
               mem_str t (fst m1) (snd m1) ls.
Proof.
  intros He Hm El Hu L Hk Hv Hpt Ht0 HB.
  pose proof (start_ptr _ _ _ _ _ _ _ Hm El) as Hsp.
  set (nd' := mkNode (key nd) (val nd) (start R)).
  set (w1 := log (EStore (NextOf t) (start R)) w).
  set (w2 := snapshot (write_slot (NextOf t) (start R) w1)).
  set (w3 := log ESfence (log (EClwb (TNode t)) w2)).
  assert (Hh2 : heap w2 = <[t := nd']> (heap w)).
  { subst w2 w1. wsimpl. apply heap_write_next. exact L. }
  assert (Hm2 : mem_str t (heap w2) (buckets w2) ls).
  { rewrite Hh2. apply (mem_frame t (heap w)); [exact Hm|].
    intros a Ha. apply lookup_insert_ne. lia. }
  assert (Hr3 : read_slot (slot_at (bucket_of k) K) w3 = Some (start R)).
  { apply (slot_read t w3 ls (bucket_of k) K R Hm2 El Hu). }
  set (w4 := snapshot (write_slot (slot_at (bucket_of k) K) t
                 (log (ECas (slot_at (bucket_of k) K) (start R) t true) w3))).
  exists w4. split; [|split; [|split; [|split; [|split; [|split]]]]].
  - intros A kont.
    rewrite (bind_ret_eq _ _ _ _ _ (store_seq (NextOf t) w (start R) (next nd) He
               ltac:(simpl; rewrite L; reflexivity))).
    fold w1 w2. rewrite clwb_bind, sfence_bind. fold w3.
    rewrite (bind_ret_eq _ _ _ _ _ (cas_seq_ok _ _ t w3 He Hr3)). reflexivity.
  - subst w4. wsimpl. fold w1. fold w2.
    pose proof (Hm2 (bucket_of k)) as Hb. rewrite El in Hb. destruct Hb as [b1 b2 b3 b4 b5].
    eapply (write_prev t B' (heap w2) (buckets w2) ls (bucket_of k) K R); eauto.
    + lia.
    + assert (Et : mkEntry t k v false = entry_of t nd').
      { unfold entry_of, nd'. simpl. rewrite Hk, Hv, (ptr_unmarked _ Hsp). reflexivity. }
      rewrite Et. econstructor; eauto.
      * rewrite Hh2. apply lookup_insert_eq.
      * simpl. apply tagged_ptr. exact Hsp.
      * simpl. rewrite Hsp. apply (chain_rest _ _ _ _ _ _ _ Hm2 El).
    + apply (nodup_insert_mid K R _ t); auto. simpl. lia.
    + constructor; [simpl; lia|]. apply Forall_app in b4 as [_ b4].
      eapply Forall_impl; [exact b4|]. simpl. intros. lia.
    + constructor; [reflexivity|]. apply Forall_app in b5 as [_ b5]. exact b5.
  - exact He.
  - reflexivity.
  - reflexivity.
  - intros a. subst w4. wsimpl. rewrite heap_write_dom.
    change (is_Some (heap w2 !! a) <-> is_Some (heap w !! a)).
    rewrite Hh2. destruct (Z.eq_dec t a) as [->|Hn].
    + rewrite lookup_insert_eq, L. split; eauto.
    + rewrite lookup_insert_ne by exact Hn. reflexivity.
  - exists (heap w2, buckets w2). split; [|exact Hm2].
    subst w4 w3 w2 w1. wsimpl. rewrite <- app_assoc. reflexivity.
Qed.

Lemma read_next_unmarked B w ls i P c R' :
  mem_str B (heap w) (buckets w) ls -> ls i = P ++ c :: R' -> e_marked c = false ->
  read_slot (NextOf (e_addr c)) w = Some (start R').
Proof.
  intros Hm El Hc.
  destruct (chain_split _ _ _ _ _ _ _ _ Hm El) as (nd & L & Ee & Ht & Hn & _).
  simpl. rewrite L. simpl. f_equal. rewrite <- Hn. symmetry.
  apply tagged_unmarked; [exact Ht|]. rewrite Ee in Hc. exact Hc.
Qed.

Lemma nodup_remove_mid (P R : list Entry) c :
  NoDup (e_addr <$> P ++ c :: R) -> NoDup (e_addr <$> P ++ R).
Proof.
  rewrite !fmap_app, fmap_cons. intros Hn.
  apply NoDup_app in Hn as (N1 & N2 & N3). apply NoDup_cons in N3 as [_ N3].
  apply NoDup_app. split; [exact N1|]. split; [|exact N3].
  intros x Hx Hx'. apply (N2 x Hx). right. exact Hx'.
Qed.

(** The node [c] after the unmarked nodes [P] is marked and then
    unlinked by a CAS on the slot after [P]. *)
Lemma mark_unlink B w ls i P c R' :
  mem_str B (heap w) (buckets w) ls -> ls i = P ++ c :: R' ->
  Forall (fun e => e_marked e = false) P -> e_marked c = false ->
  let h1 := heap_write (NextOf (e_addr c)) (setMark (start R')) (heap w) in
  let l1 := set_chain i (P ++ mark_entry c :: R') ls in
  read_slot (NextOf (e_addr c)) w = Some (start R') /\
  mem_str B h1 (buckets w) l1 /\
  (forall w1, heap w1 = h1 -> buckets w1 = buckets w ->
     read_slot (slot_at i P) w1 = Some (e_addr c) /\
     mem_str B (heap_write (slot_at i P) (start R') (heap w1))
       (buckets_write (slot_at i P) (start R') (buckets w1))
       (set_chain i (P ++ R') ls)).
Proof.
  intros Hm El Hu Hc h1 l1.
  pose proof (mark_node B _ _ _ _ _ _ _ Hm El) as Hm1. fold h1 l1 in Hm1.
  split; [eapply read_next_unmarked; eauto|]. split; [exact Hm1|].
  intros w1 Eh Eb. rewrite <- Eh, <- Eb in Hm1.
  assert (El1 : l1 i = P ++ mark_entry c :: R') by apply set_chain_eq.
  split.
  - apply (slot_read B w1 l1 i P _ Hm1 El1 Hu).
  - eapply mem_str_ext;
      [|apply (write_prev B B (heap w1) (buckets w1) l1 i P (mark_entry c :: R') R' (start R'));
        auto].
    + intros j. unfold l1, set_chain. destruct (Z.eqb_spec j i); reflexivity.
    + lia.
    + change (start R') with (start (snd (P ++ [mark_entry c], R'))).
      eapply (start_ptr B _ _ l1 i (P ++ [mark_entry c])); [exact Hm1|].
      rewrite El1, <- app_assoc. reflexivity.
    + eapply (chain_rest B _ _ l1 i (P ++ [mark_entry c])); [exact Hm1|].
      rewrite El1, <- app_assoc. reflexivity.
    + pose proof (bs_nodup _ _ _ _ _ _ (Hm1 i)) as Hn. rewrite El1 in Hn.
      eapply nodup_remove_mid; exact Hn.
    + pose proof (bs_below _ _ _ _ _ _ (Hm1 i)) as Hb. rewrite El1 in Hb.
      apply Forall_app in Hb as [_ Hb]. inversion Hb; assumption.
    + pose proof (bs_hash _ _ _ _ _ _ (Hm1 i)) as Hb. rewrite El1 in Hb.
      apply Forall_app in Hb as [_ Hb]. inversion Hb; assumption.
Qed.

Lemma node_bytes_mod k v : node_bytes k v mod 16 = 0.
Proof.
  unfold node_bytes, align16.
  replace ((sizeof_Node + 15) / 16 * 16 + (string_request k + 15) / 16 * 16 +
           (string_request v + 15) / 16 * 16)
    with (((sizeof_Node + 15) / 16 + (string_request k + 15) / 16 +
           (string_request v + 15) / 16) * 16) by lia.
  apply Z.mod_mul. lia.
Qed.

Lemma node_bytes_pos k v : 0 < node_bytes k v.
Proof.
  unfold node_bytes. pose proof (align16_ge sizeof_Node).
  pose proof (align16_ge (string_request k)). pose proof (align16_ge (string_request v)).
  pose proof (string_request_nonneg k). pose proof (string_request_nonneg v). lia.
Qed.

Lemma mem_ascending_intro B h b ls :
  mem_str B h b ls -> ascending ls -> PHT.mem_ascending hash_fn (h, b).
Proof. intros H1 H2. exists B, ls. split; assumption. Qed.

Lemma prologue k v w ls :
  Rep hash_fn w ls -> brk w + node_bytes k v <= limit w ->
  exists wa,
    new_Node sizeof_Node string_request k v 0 w = Ret (brk w) wa /\
    mid k v (brk w) wa ls /\ retired wa = retired w /\
    hist_ext (PHT.mem_ascending hash_fn) w wa /\
    brk wa = brk w + node_bytes k v /\ limit wa = limit w.
Proof.
  intros [He Hs Ha Hd (Hb0 & Hbm & Hl)] Hmem.
  destruct (new_Node_seq k v w Hb0 Hbm Hmem)
    as (wa & nd & E & Hh & Hk & Hv & Hn & Hdk & Hdv & Hhist & [A1 A2 A3 A4] & Hbrk).
  pose proof (node_bytes_pos k v) as Hpos. pose proof (node_bytes_mod k v) as Hmod.
  assert (Hstr : mem_str (brk w) (heap wa) (buckets wa) ls).
  { rewrite Hh, A1. apply (mem_frame _ (heap w)); [exact Hs|].
    intros a Ha'. apply lookup_insert_ne. lia. }
  exists wa. split; [exact E|]. split; [|split; [exact A4|split; [|split; [exact Hbrk|exact A3]]]].
  - split; auto.
    + congruence.
    + intros a. rewrite Hh. destruct (Z.eq_dec (brk w) a) as [->|Hne]; [lia|].
      rewrite lookup_insert_ne by exact Hne. intros Hx. pose proof (Hd a Hx). lia.
    + exists nd. rewrite Hh, lookup_insert_eq. auto 10.
    + split; [apply getPtr_aligned; [lia | exact Hbm]|].
      split; [exact Hb0|]. split; [lia|]. split; [|lia].
      rewrite Hbrk, Z.add_mod, Hbm, Hmod by lia. reflexivity.
  - eapply hist_ext_one; [exact Hhist|]. eapply mem_ascending_intro; eauto.
Qed.

Lemma RP_free_heap p w :
  RP_free p w = Ret tt (snapshot (drop_node p (log (EFree p) w))).
Proof. reflexivity. Qed.

Lemma pstring_destroy_seq s t w :
  (forall a, is_Some (heap w !! a) -> a <= t) -> data s = 0 \/ t < data s ->
  exists w', pstring_destroy s w = Ret tt w' /\ heap w' = heap w /\ buckets w' = buckets w /\
             env w' = env w /\ brk w' = brk w /\ limit w' = limit w /\
             exists hs, hist w' = hist w ++ hs /\ Forall (fun m => m = (heap w, buckets w)) hs.
Proof.
  intros Hd Hs. unfold pstring_destroy.
  destruct (Z.eqb_spec (data s) 0) as [E|E].
  - exists w. repeat split; auto. exists []. rewrite app_nil_r. split; [reflexivity|constructor].
  - unfold my_alloc_deallocate. rewrite RP_free_heap. eexists. split; [reflexivity|].
    assert (Hh : delete (data s) (heap w) = heap w).
    { apply delete_id. destruct (heap w !! data s) eqn:El; [|reflexivity].
      pose proof (Hd (data s) ltac:(rewrite El; eauto)). lia. }
    wsimpl. rewrite Hh. repeat split; auto.
    eexists [_]. split; [reflexivity|]. repeat constructor.
Qed.

Lemma delete_Node_seq t w nd :
  heap w !! t = Some nd -> (forall a, is_Some (heap w !! a) -> a <= t) ->
  data (key nd) = 0 \/ t < data (key nd) -> data (val nd) = 0 \/ t < data (val nd) ->
  exists w', delete_Node t w = Ret tt w' /\
             heap w' = delete t (heap w) /\ buckets w' = buckets w /\
             env w' = env w /\ brk w' = brk w /\ limit w' = limit w /\
             exists hs, hist w' = hist w ++ hs /\
                        Forall (fun m => snd m = buckets w /\
                                         forall a, a < t -> fst m !! a = heap w !! a) hs.
Proof.
  intros L Hd Hk Hv. unfold delete_Node. rewrite L.
  destruct (pstring_destroy_seq (val nd) t w Hd Hv)
    as (w1 & E1 & h1 & b1 & e1 & k1 & l1 & hs1 & i1 & f1).
  rewrite (bind_ret_eq _ _ _ _ _ E1).
  destruct (pstring_destroy_seq (key nd) t w1 ltac:(rewrite h1; exact Hd) Hk)
    as (w2 & E2 & h2 & b2 & e2 & k2 & l2 & hs2 & i2 & f2).
  rewrite (bind_ret_eq _ _ _ _ _ E2).
  unfold Node_operator_delete. rewrite RP_free_heap. eexists. split; [reflexivity|].
  wsimpl. rewrite h2, h1, b2, b1, e2, e1, k2, k1, l2, l1, i2, i1.
  repeat split; auto.
  exists (hs1 ++ hs2 ++ [(delete t (heap w), buckets w)]).
  split; [rewrite <- !app_assoc; reflexivity|].
  apply Forall_app. split; [|apply Forall_app; split].
  - eapply Forall_impl; [exact f1|]. simpl. intros m ->. simpl. auto.
  - eapply Forall_impl; [exact f2|]. simpl. intros m ->. simpl. rewrite h1, b1. auto.
  - repeat constructor. simpl. intros a Ha. apply lookup_delete_ne. lia.
Qed.

Lemma mem_str_mono B B' h b ls : B <= B' -> mem_str B h b ls -> mem_str B' h b ls.
Proof. intros HB H j. eapply bucket_str_mono; [exact HB | apply H]. Qed.

Lemma ascending_set_chain i l ls :
  ascending ls -> StronglySorted str_lt (keys l) -> ascending (set_chain i l ls).
Proof.
  intros Ha Hl j. unfold set_chain. destruct (Z.eqb_spec j i); [exact Hl | apply Ha].
Qed.

Lemma keys_scan k l : keys (scan_keep k l ++ scan_rest k l) = keys l.
Proof. unfold keys. rewrite scan_live. reflexivity. Qed.

Lemma set_chain_twice i l l' ls j : set_chain i l (set_chain i l' ls) j = set_chain i l ls j.
Proof. unfold set_chain. destruct (Z.eqb_spec j i); reflexivity. Qed.

Lemma keys_cons_unmarked e l : e_marked e = false -> keys (e :: l) = e_key e :: keys l.
Proof. unfold keys. simpl. intros ->. reflexivity. Qed.

Lemma keys_cons_marked e l : e_marked e = true -> keys (e :: l) = keys l.
Proof. unfold keys. simpl. intros ->. reflexivity. Qed.

Lemma live_cons_unmarked e l : e_marked e = false -> live (e :: l) = (e_key e, e_val e) :: live l.
Proof. simpl. intros ->. reflexivity. Qed.

Lemma scan_length k l : (length (scan_keep k l ++ scan_rest k l) <= length l)%nat.
Proof.
  induction l as [|e l IH]; simpl; [lia|].
  destruct (e_marked e); [lia|].
  destruct (String.compare (e_key e) k); simpl; rewrite ?length_app in *; simpl; lia.
Qed.

Lemma insert_loop_seq k v tid t w ls n fuel next0 :
  mid k v t w ls -> (length (ls (bucket_of k)) < fuel)%nat ->
  exists w' ls' oy,
    insert_loop hash_fn (S n) fuel k tid t next0 w = Ret (match oy with Some _ => false | None => true end) w' /\
    (forall j, (length (ls' j) <= length (ls j) + 1)%nat) /\
    Rep hash_fn w' ls' /\
    updates k (Some (default v oy)) oy (ls (bucket_of k)) (ls' (bucket_of k)) /\
    (forall j, j <> bucket_of k -> ls' j = ls j) /\
    hist_ext (PHT.mem_ascending hash_fn) w w' /\
    (is_Some oy -> heap w' !! t = None /\ forall j e, e ∈ ls' j -> e ∈ ls j) /\
    brk w' = brk w /\ limit w' = limit w.
Proof.
  intros [He Hm Ha Hd (nd & L & Hk & Hv & Hdk & Hdv) (Hpt & Ht0 & Htb & Hbm & Hl)] Hf.
  destruct (findNode_seq k tid t w ls fuel next0 He Hm Ha Hf)
    as (w1 & nx & Ef & Hnx & Hm1 & [S1 S2 S3 S4 S5 S6]).
  set (l := ls (bucket_of k)) in *. set (K := scan_keep k l) in *. set (R := scan_rest k l) in *.
  set (ls1 := set_chain (bucket_of k) (K ++ R) ls) in *.
  assert (Hlen : (length (K ++ R) <= length l)%nat) by apply scan_length.
  assert (Ha1 : ascending ls1).
  { apply ascending_set_chain; [exact Ha|]. unfold K, R. rewrite keys_scan. apply Ha. }
  assert (L1 : heap w1 !! t = Some nd) by (rewrite S4 by lia; exact L).
  assert (Hd1 : forall a, is_Some (heap w1 !! a) -> a <= t).
  { intros a Hx. apply Hd. apply S5. exact Hx. }
  cbn [insert_loop]. rewrite (bind_ret_eq _ _ _ _ _ Ef). cbv beta iota.
  destruct (scan_shape k l (Ha (bucket_of k))) as [HK [(Hfound & c & R' & ER & Hc & Hck & HR')|(Hfound & HR)]];
    rewrite Hfound; change (scan_keep k l) with K in HK.
  - (* the key is present *)
    change (scan_rest k l) with R in ER.
    destruct (delete_Node_seq t w1 nd L1 Hd1 Hdk Hdv)
      as (w2 & E2 & h2 & b2 & e2 & k2 & l2 & hs & i2 & f2).
    rewrite (bind_ret_eq _ _ _ _ _ E2).
    exists w2, ls1, (Some (e_val c)). split; [reflexivity|].
    split; [intros j; unfold ls1, set_chain; destruct (Z.eqb_spec j (bucket_of k)) as [->|]; [fold l; rewrite ?length_app in *; simpl in *; lia | lia]|].
    assert (Hm2 : mem_str t (heap w2) (buckets w2) ls1).
    { rewrite h2, b2. apply (mem_frame _ (heap w1)); [exact Hm1|].
      intros a Ha'. apply lookup_delete_ne. lia. }
    split; [|split; [|split; [|split; [|split]]]].
    + split.
      * congruence.
      * apply (mem_str_mono t); [lia | exact Hm2].
      * exact Ha1.
      * intros a Hx. rewrite h2 in Hx. rewrite k2, S2.
        destruct (Z.eq_dec t a) as [->|Hne]; [exact Htb|].
        rewrite lookup_delete_ne in Hx by exact Hne. pose proof (Hd1 a Hx). lia.
      * rewrite k2, l2, S2, S3. split; [lia | split; assumption].
    + exists (live K), (live R'). unfold ls1. rewrite set_chain_eq. simpl.
      assert (El : live l = live K ++ (k, e_val c) :: live R').
      { rewrite <- (scan_live k l), live_app. fold K R. rewrite ER.
        rewrite (live_cons_unmarked _ _ Hc), Hck. reflexivity. }
      split; [exact El|]. split.
      * rewrite live_app, ER, (live_cons_unmarked _ _ Hc), Hck. reflexivity.
      * split; [apply keys_ne_lt; exact HK | apply keys_ne_gt; exact HR'].
    + intros j Hj. unfold ls1. apply set_chain_ne. exact Hj.
    + eapply hist_ext_trans; [exact S6|]. exists hs. split; [exact i2|].
      eapply Forall_impl; [exact f2|]. intros [mh mb] [Eb Eh]. simpl in *.
      apply (mem_ascending_intro t _ _ ls1); [|exact Ha1]. subst mb.
      apply (mem_frame _ (heap w1)); [exact Hm1 | exact Eh].
    + intros _. split; [rewrite h2; apply lookup_delete_eq|].
      intros j e. unfold ls1, set_chain. destruct (Z.eqb_spec j (bucket_of k)) as [->|]; [|auto].
      apply scan_subset.
    + split; congruence.
  - (* the key is absent *)
    change (scan_rest k l) with R in HR.
    destruct (publish_seq k v t (brk w1) w1 ls1 K R nd S1 Hm1) as (w2 & E2 & Hm2 & e2 & k2 & l2 & d2 & m1 & i2 & f2); auto.
    { apply set_chain_eq. }
    { apply scan_keep_unmarked. }
    { lia. }
    { rewrite S2. exact Htb. }
    rewrite E2. cbn [fst]. rewrite clwb_bind, sfence_bind. unfold ret.
    set (ls2 := set_chain (bucket_of k) (K ++ mkEntry t k v false :: R) ls).
    assert (Hm2' : mem_str (brk w1) (heap w2) (buckets w2) ls2).
    { eapply mem_str_ext; [|exact Hm2]. intros j. unfold ls2, ls1. symmetry. apply set_chain_twice. }
    assert (Ha2 : ascending ls2).
    { apply ascending_set_chain; [exact Ha|]. rewrite keys_app, keys_cons_unmarked by reflexivity.
      simpl. apply sorted_insert_mid; auto. rewrite <- keys_app. unfold K, R. rewrite keys_scan. apply Ha. }
    eexists _, ls2, None. split; [reflexivity|].
    split; [intros j; unfold ls2, set_chain; destruct (Z.eqb_spec j (bucket_of k)) as [->|]; [fold l; rewrite ?length_app in *; simpl in *; lia | lia]|]. wsimpl.
    split; [|split; [|split; [|split; [|split]]]].
    + split; wsimpl; auto.
      * rewrite k2. exact Hm2'.
      * intros a Hx. rewrite k2, S2. apply d2 in Hx. pose proof (Hd1 a Hx). lia.
      * rewrite k2, l2, S2, S3. split; [lia | split; assumption].
    + exists (live K), (live R). unfold ls2. rewrite set_chain_eq. simpl.
      split; [unfold K, R; rewrite <- live_app, scan_live; reflexivity|].
      split; [rewrite live_app; reflexivity|].
      split; [apply keys_ne_lt; exact HK | apply keys_ne_gt; exact HR].
    + intros j Hj. unfold ls2. apply set_chain_ne. exact Hj.
    + eapply hist_ext_trans; [exact S6|]. exists [m1; (heap w2, buckets w2)].
      split; [exact i2|]. constructor; [|constructor; [|constructor]].
      * destruct m1 as [mh mb]. apply (mem_ascending_intro t _ _ ls1); assumption.
      * apply (mem_ascending_intro (brk w1) _ _ ls2); assumption.
    + intros [x Hx]. discriminate.
    + wsimpl. split; congruence.
Qed.

Lemma mem_window_intro k B h b ls K c R' te :
  mem_str B h b ls -> ls (bucket_of k) = K ++ te :: c :: R' ->
  e_marked te = false -> e_key te = k -> e_marked c = false -> e_key c = k ->
  StronglySorted str_lt (keys (K ++ c :: R')) ->
  (forall j, j <> bucket_of k -> StronglySorted str_lt (keys (ls j))) ->
  PHT.mem_window hash_fn k (h, b).
Proof.
  intros Hm El Ht Htk Hc Hck Hs Ho. exists B, ls. split; [exact Hm|]. split; [|exact Ho].
  exists (keys K), (keys R'). rewrite El.
  rewrite keys_app, (keys_cons_unmarked _ _ Ht), (keys_cons_unmarked _ _ Hc), Htk, Hck.
  split; [reflexivity|].
  rewrite keys_app, (keys_cons_unmarked _ _ Hc), Hck in Hs. exact Hs.
Qed.

(** The replaced node [c] is marked and spliced out behind the new node. *)
Lemma retire_replaced_seq k tid t B w ls K te c R' fuel :
  env w = [] -> mem_str B (heap w) (buckets w) ls ->
  ls (bucket_of k) = K ++ te :: c :: R' ->
  Forall (fun e => e_marked e = false) K -> e_marked te = false -> e_addr te = t ->
  e_marked c = false -> (0 < fuel)%nat ->
  exists w',
    retire_replaced hash_fn fuel k tid t (slot_at (bucket_of k) K) (e_addr c) (start R') w
    = Ret tt w' /\
    mem_str B (heap w') (buckets w') (set_chain (bucket_of k) (K ++ te :: R') ls) /\
    env w' = [] /\ brk w' = brk w /\ limit w' = limit w /\
    (forall a, is_Some (heap w' !! a) <-> is_Some (heap w !! a)) /\
    exists m1, hist w' = hist w ++ [m1; (heap w', buckets w')] /\
               mem_str B (fst m1) (snd m1)
                 (set_chain (bucket_of k) (K ++ te :: mark_entry c :: R') ls).
Proof.
  intros He Hm El Hu Ht Hta Hc Hf.
  assert (El' : ls (bucket_of k) = (K ++ [te]) ++ c :: R') by (rewrite <- app_assoc; exact El).
  assert (Hu' : Forall (fun e => e_marked e = false) (K ++ [te])).
  { apply Forall_app. split; [exact Hu | repeat constructor; exact Ht]. }
  destruct (mark_unlink B w ls (bucket_of k) (K ++ [te]) c R' Hm El' Hu' Hc) as (Hr1 & Hm1 & Hnext).
  unfold retire_replaced. rewrite clwb_bind, sfence_bind.
  destruct fuel as [|fuel]; [lia|]. cbn [mark_loop]. rewrite bind_assoc.
  set (w0 := log ESfence _).
  rewrite (bind_ret_eq _ _ _ _ _ (cas_seq_ok (NextOf (e_addr c)) (start R') (setMark (start R')) w0 He Hr1)).
  cbn [fst]. rewrite ret_bind, clwb_bind, sfence_bind.
  set (w1 := snapshot _). set (w2 := log ESfence _).
  destruct (Hnext w2 eq_refl eq_refl) as (Hr2 & Hm2).
  rewrite slot_at_snoc, Hta in Hr2, Hm2.
  rewrite (bind_ret_eq _ _ _ _ _ (cas_seq_ok (NextOf t) (e_addr c) (start R') w2 He Hr2)).
  cbn [fst]. rewrite clwb_bind, sfence_bind. unfold retire.
  eexists. split; [reflexivity|]. wsimpl.
  split; [|split; [|split; [|split; [|split]]]]; auto.
  - eapply mem_str_ext; [|exact Hm2]. intros j. rewrite <- app_assoc. reflexivity.
  - intros a. subst w2 w1 w0. wsimpl. rewrite !heap_write_dom. reflexivity.
  - exists (heap w1, buckets w1). split.
    + subst w2 w1 w0. wsimpl. rewrite <- app_assoc. reflexivity.
    + eapply mem_str_ext; [|exact Hm1]. intros j. rewrite <- app_assoc. reflexivity.
Qed.

Local Abbreviation asc_or_window := (PHT.asc_or_window hash_fn).
Lemma hist_ext_weaken (P Q : gmap Z Node * gmap Z Z -> Prop) w w' :
  (forall m, P m -> Q m) -> hist_ext P w w' -> hist_ext Q w w'.
Proof.
  intros H (hs & E & F). exists hs. split; [exact E|].
  eapply Forall_impl; [exact F | exact H].
Qed.

(** The new node is linked in front of the rest [R] of the chain, none
    of whose keys is [k]. *)
Lemma link_path_seq {A} (X : A) (kelse : M A) k v t w1 ls1 K R nd :
  env w1 = [] -> mem_str t (heap w1) (buckets w1) ls1 -> ascending ls1 ->
  ls1 (bucket_of k) = K ++ R -> Forall (fun e => e_marked e = false) K ->
  heap w1 !! t = Some nd -> chars (key nd) = k -> chars (val nd) = v ->
  getPtr t = t -> 0 < t -> t < brk w1 ->
  Forall (fun x => str_lt x k) (keys K) -> Forall (fun y => str_lt k y) (keys R) ->
  exists w',
    bind (store (NextOf t) (start R)) (fun _ =>
      bind (clwb (TNode t)) (fun _ =>
        bind sfence (fun _ =>
          bind (cas (slot_at (bucket_of k) K) (start R) t) (fun c =>
            if fst c then
              bind (clwb (TSlot (slot_at (bucket_of k) K))) (fun _ =>
                bind sfence (fun _ => ret X))
            else kelse)))) w1
    = Ret X w' /\
    mem_str (brk w1) (heap w') (buckets w')
      (set_chain (bucket_of k) (K ++ mkEntry t k v false :: R) ls1) /\
    ascending (set_chain (bucket_of k) (K ++ mkEntry t k v false :: R) ls1) /\
    env w' = [] /\ brk w' = brk w1 /\ limit w' = limit w1 /\
    (forall a, is_Some (heap w' !! a) <-> is_Some (heap w1 !! a)) /\
    hist_ext (PHT.mem_ascending hash_fn) w1 w'.
Proof.
  intros He Hm Ha El Hu L Hk Hv Hpt Ht0 Htb HK HR.
  destruct (publish_seq k v t (brk w1) w1 ls1 K R nd He Hm El Hu L Hk Hv Hpt ltac:(lia) Htb)
    as (w2 & E2 & Hm2 & e2 & k2 & l2 & d2 & m1 & i2 & f2).
  rewrite E2. cbn [fst]. rewrite clwb_bind, sfence_bind. unfold ret.
  assert (Ha2 : ascending (set_chain (bucket_of k) (K ++ mkEntry t k v false :: R) ls1)).
  { apply ascending_set_chain; [exact Ha|]. rewrite keys_app, keys_cons_unmarked by reflexivity.
    simpl. apply sorted_insert_mid; auto. rewrite <- keys_app, <- El. apply Ha. }
  eexists. split; [reflexivity|]. wsimpl.
  split; [exact Hm2|]. split; [exact Ha2|]. repeat (split; [assumption|]).
  exists [m1; (heap w2, buckets w2)]. split; [exact i2|].
  constructor; [|constructor; [|constructor]].
  - destruct m1 as [mh mb]. apply (mem_ascending_intro t _ _ ls1); assumption.
  - eapply (mem_ascending_intro (brk w1)); eassumption.
Qed.

(** The new node is published in front of the node [c] with the same
    key, and [c] is retired. *)
Lemma replace_path_seq (x : string) (kelse : M (option string)) k v tid t w1 ls1 K c R' nd fuel :
  env w1 = [] -> mem_str t (heap w1) (buckets w1) ls1 -> ascending ls1 ->
  ls1 (bucket_of k) = K ++ c :: R' -> Forall (fun e => e_marked e = false) K ->
  e_marked c = false -> e_key c = k ->
  heap w1 !! t = Some nd -> chars (key nd) = k -> chars (val nd) = v ->
  getPtr t = t -> 0 < t -> t < brk w1 -> (0 < fuel)%nat ->
  exists w',
    bind (store (NextOf t) (e_addr c)) (fun _ =>
      bind (clwb (TNode t)) (fun _ =>
        bind sfence (fun _ =>
          bind (cas (slot_at (bucket_of k) K) (e_addr c) t) (fun cr =>
            if fst cr then
              bind (retire_replaced hash_fn fuel k tid t (slot_at (bucket_of k) K)
                      (e_addr c) (start R'))
                   (fun _ => ret (Some x))
            else kelse)))) w1
    = Ret (Some x) w' /\
    mem_str (brk w1) (heap w') (buckets w')
      (set_chain (bucket_of k) (K ++ mkEntry t k v false :: R') ls1) /\
    ascending (set_chain (bucket_of k) (K ++ mkEntry t k v false :: R') ls1) /\
    env w' = [] /\ brk w' = brk w1 /\ limit w' = limit w1 /\
    (forall a, is_Some (heap w' !! a) <-> is_Some (heap w1 !! a)) /\
    hist_ext (asc_or_window k) w1 w'.
Proof.
  intros He Hm Ha El Hu Hc Hck L Hk Hv Hpt Ht0 Htb Hf.
  set (te := mkEntry t k v false).
  destruct (publish_seq k v t (brk w1) w1 ls1 K (c :: R') nd He Hm El Hu L Hk Hv Hpt ltac:(lia) Htb)
    as (w2 & E2 & Hm2 & e2 & k2 & l2 & d2 & m1 & i2 & f2).
  cbn [start] in E2. rewrite E2. cbn [fst]. fold te in Hm2.
  set (ls2 := set_chain (bucket_of k) (K ++ te :: c :: R') ls1) in *.
  destruct (retire_replaced_seq k tid t (brk w1) w2 ls2 K te c R' fuel e2 Hm2)
    as (w3 & E3 & Hm3 & e3 & k3 & l3 & d3 & m3 & i3 & f3); auto.
  { apply set_chain_eq. }
  rewrite (bind_ret_eq _ _ _ _ _ E3). unfold ret.
  pose proof (Ha (bucket_of k)) as Hs. rewrite El in Hs.
  assert (Hkeys : keys (K ++ te :: R') = keys (K ++ c :: R')).
  { rewrite !keys_app, (keys_cons_unmarked te) by reflexivity.
    rewrite (keys_cons_unmarked c) by exact Hc. rewrite Hck. reflexivity. }
  assert (Ha3 : ascending (set_chain (bucket_of k) (K ++ te :: R') ls1)).
  { apply ascending_set_chain; [exact Ha|]. rewrite Hkeys. exact Hs. }
  exists w3. split; [reflexivity|]. split.
  { eapply mem_str_ext; [|exact Hm3]. intros j. unfold ls2. symmetry. apply set_chain_twice. }
  split; [exact Ha3|]. split; [exact e3|]. split; [congruence|]. split; [congruence|].
  split; [intros a; rewrite d3; apply d2|].
  exists ([m1; (heap w2, buckets w2)] ++ [m3; (heap w3, buckets w3)]). split.
  { rewrite i3, i2, <- app_assoc. reflexivity. }
  assert (Hm3' : mem_str (brk w1) (heap w3) (buckets w3)
                   (set_chain (bucket_of k) (K ++ te :: R') ls1)).
  { eapply mem_str_ext; [|exact Hm3]. intros j. unfold ls2. symmetry. apply set_chain_twice. }
  apply Forall_cons_2; [|apply Forall_cons_2; [|apply Forall_cons_2; [|apply Forall_cons_2;
    [|apply Forall_nil_2]]]].
  - left. destruct m1 as [mh mb]. apply (mem_ascending_intro t _ _ ls1); assumption.
  - right. apply (mem_window_intro k (brk w1) _ _ ls2 K c R' te); auto.
    + apply set_chain_eq.
    + intros j Hj. unfold ls2. rewrite set_chain_ne by exact Hj. apply Ha.
  - left. destruct m3 as [mh mb]. eapply (mem_ascending_intro (brk w1)); [exact f3|].
    intros j. unfold ls2. rewrite set_chain_twice. apply ascending_set_chain; [exact Ha|].
    rewrite keys_app, (keys_cons_unmarked te), keys_cons_marked by reflexivity.
    rewrite keys_app, (keys_cons_unmarked c), Hck in Hs by exact Hc. exact Hs.
  - left. eapply (mem_ascending_intro (brk w1)); [exact Hm3' | exact Ha3].
Qed.

Lemma asc_in_window k m : PHT.mem_ascending hash_fn m -> asc_or_window k m.
Proof. intros H. left. exact H. Qed.

Lemma updates_found k ox (l K R' : list Entry) c X :
  live l = live K ++ (k, e_val c) :: live R' -> X = live K ++ opt_list k ox ++ live R' ->
  Forall (fun x => str_lt x k) (keys K) -> Forall (fun y => str_lt k y) (keys R') ->
  exists A C, live l = A ++ opt_list k (Some (e_val c)) ++ C /\ X = A ++ opt_list k ox ++ C /\
              Forall (fun kv => fst kv <> k) A /\ Forall (fun kv => fst kv <> k) C.
Proof.
  intros El EX HK HR. exists (live K), (live R'). split; [exact El|]. split; [exact EX|].
  split; [apply keys_ne_lt; exact HK | apply keys_ne_gt; exact HR].
Qed.

Lemma live_found k (l : list Entry) c R' :
  scan_rest k l = c :: R' -> e_marked c = false -> e_key c = k ->
  live l = live (scan_keep k l) ++ (k, e_val c) :: live R'.
Proof.
  intros ER Hc Hck. rewrite <- (scan_live k l), live_app, ER.
  rewrite (live_cons_unmarked _ _ Hc), Hck. reflexivity.
Qed.

Lemma put_loop_seq k v tid t w ls n fuel next0 :
  mid k v t w ls -> (length (ls (bucket_of k)) < fuel)%nat ->
  exists w' ls' oy,
    put_loop hash_fn (S n) fuel k tid t next0 w = Ret oy w' /\
    (forall j, (length (ls' j) <= length (ls j) + 1)%nat) /\
    Rep hash_fn w' ls' /\
    updates k (Some v) oy (ls (bucket_of k)) (ls' (bucket_of k)) /\
    (forall j, j <> bucket_of k -> ls' j = ls j) /\
    hist_ext (asc_or_window k) w w' /\
    brk w' = brk w /\ limit w' = limit w.
Proof.
  intros [He Hm Ha Hd (nd & L & Hk & Hv & Hdk & Hdv) (Hpt & Ht0 & Htb & Hbm & Hl)] Hf.
  destruct (findNode_seq k tid t w ls fuel next0 He Hm Ha Hf)
    as (w1 & nx & Ef & Hnx & Hm1 & [S1 S2 S3 S4 S5 S6]).
  set (l := ls (bucket_of k)) in *. set (K := scan_keep k l) in *. set (R := scan_rest k l) in *.
  set (ls1 := set_chain (bucket_of k) (K ++ R) ls) in *.
  assert (Hlen : (length (K ++ R) <= length l)%nat) by apply scan_length.
  assert (Ha1 : ascending ls1).
  { apply ascending_set_chain; [exact Ha|]. unfold K, R. rewrite keys_scan. apply Ha. }
  assert (L1 : heap w1 !! t = Some nd) by (rewrite S4 by lia; exact L).
  assert (Hd1 : forall a, is_Some (heap w1 !! a) -> a <= t).
  { intros a Hx. apply Hd. apply S5. exact Hx. }
  assert (El1 : ls1 (bucket_of k) = K ++ R) by apply set_chain_eq.
  assert (Htb1 : t < brk w1) by (rewrite S2; exact Htb).
  cbn [put_loop]. rewrite (bind_ret_eq _ _ _ _ _ Ef). cbv beta iota.
  destruct (scan_shape k l (Ha (bucket_of k))) as [HK [(Hfound & c & R' & ER & Hc & Hck & HR')|(Hfound & HR)]];
    rewrite Hfound; change (scan_keep k l) with K in HK.
  - (* the key is present: replace *)
    pose proof (live_found k l c R' ER Hc Hck) as Elive.
    change (scan_rest k l) with R in ER. rewrite ER in *. cbn [start].
    destruct (chain_split _ _ _ _ _ _ _ _ Hm1 El1) as (ndc & Lc & Eec & _).
    rewrite (read_val_bind _ ndc) by exact Lc.
    rewrite (Hnx c R' eq_refl).
    destruct (replace_path_seq (chars (val ndc))
                (put_loop hash_fn n fuel k tid t (start R')) k v tid t w1 ls1 K c R' nd fuel)
      as (w2 & E2 & Hm2 & Ha2 & e2 & k2 & l2 & d2 & h2); auto;
      [apply scan_keep_unmarked | lia |].
    rewrite E2.
    exists w2, (set_chain (bucket_of k) (K ++ mkEntry t k v false :: R') ls), (Some (e_val c)).
    split; [rewrite Eec; reflexivity|].
    split; [intros j; unfold ls1, set_chain; destruct (Z.eqb_spec j (bucket_of k)) as [->|]; [fold l; rewrite ?length_app in *; simpl in *; lia | lia]|].
    split; [|split; [|split; [|split]]].
    + split; auto.
      * rewrite k2. eapply mem_str_ext; [|exact Hm2]. intros j. unfold ls1. symmetry. apply set_chain_twice.
      * eapply ascending_ext; [|exact Ha2]. intros j. unfold ls1. rewrite set_chain_twice. reflexivity.
      * intros a Hx. rewrite k2. apply d2 in Hx. pose proof (Hd1 a Hx). lia.
      * rewrite k2, l2, S2, S3. split; [lia | split; assumption].
    + rewrite set_chain_eq. apply (updates_found k (Some v) l K R' c); auto.
      rewrite live_app. reflexivity.
    + intros j Hj. apply set_chain_ne. exact Hj.
    + eapply hist_ext_trans; [|exact h2]. eapply hist_ext_weaken; [|exact S6]. apply asc_in_window.
    + split; congruence.
  - (* the key is absent: insert *)
    change (scan_rest k l) with R in HR.
    destruct (link_path_seq (@None string) (put_loop hash_fn n fuel k tid t nx) k v t w1 ls1 K R nd)
      as (w2 & E2 & Hm2 & Ha2 & e2 & k2 & l2 & d2 & h2); auto.
    { apply scan_keep_unmarked. }
    rewrite E2.
    exists w2, (set_chain (bucket_of k) (K ++ mkEntry t k v false :: R) ls), None.
    split; [reflexivity|].
    split; [intros j; unfold ls1, set_chain; destruct (Z.eqb_spec j (bucket_of k)) as [->|]; [fold l; rewrite ?length_app in *; simpl in *; lia | lia]|]. split; [|split; [|split; [|split]]].
    + split; auto.
      * rewrite k2. eapply mem_str_ext; [|exact Hm2]. intros j. unfold ls1. symmetry. apply set_chain_twice.
      * eapply ascending_ext; [|exact Ha2]. intros j. unfold ls1. rewrite set_chain_twice. reflexivity.
      * intros a Hx. rewrite k2. apply d2 in Hx. pose proof (Hd1 a Hx). lia.
      * rewrite k2, l2, S2, S3. split; [lia | split; assumption].
    + exists (live K), (live R). rewrite set_chain_eq. simpl.
      split; [unfold K, R; rewrite <- live_app, scan_live; reflexivity|].
      split; [rewrite live_app; reflexivity|].
      split; [apply keys_ne_lt; exact HK | apply keys_ne_gt; exact HR].
    + intros j Hj. apply set_chain_ne. exact Hj.
    + eapply hist_ext_weaken; [apply asc_in_window|].
      eapply hist_ext_trans; [exact S6 | exact h2].
    + split; congruence.
Qed.

Lemma replace_loop_seq k v tid t w ls n fuel next0 :
  mid k v t w ls -> (length (ls (bucket_of k)) < fuel)%nat ->
  exists w' ls' oy,
    replace_loop hash_fn (S n) fuel k tid t next0 w = Ret oy w' /\
    (forall j, (length (ls' j) <= length (ls j) + 1)%nat) /\
    Rep hash_fn w' ls' /\
    updates k (match oy with Some _ => Some v | None => None end) oy
      (ls (bucket_of k)) (ls' (bucket_of k)) /\
    (forall j, j <> bucket_of k -> ls' j = ls j) /\
    hist_ext (asc_or_window k) w w' /\
    (oy = None -> heap w' !! t = None /\ forall j e, e ∈ ls' j -> e ∈ ls j) /\
    brk w' = brk w /\ limit w' = limit w.
Proof.
  intros [He Hm Ha Hd (nd & L & Hk & Hv & Hdk & Hdv) (Hpt & Ht0 & Htb & Hbm & Hl)] Hf.
  destruct (findNode_seq k tid t w ls fuel next0 He Hm Ha Hf)
    as (w1 & nx & Ef & Hnx & Hm1 & [S1 S2 S3 S4 S5 S6]).
  set (l := ls (bucket_of k)) in *. set (K := scan_keep k l) in *. set (R := scan_rest k l) in *.
  set (ls1 := set_chain (bucket_of k) (K ++ R) ls) in *.
  assert (Hlen : (length (K ++ R) <= length l)%nat) by apply scan_length.
  assert (Ha1 : ascending ls1).
  { apply ascending_set_chain; [exact Ha|]. unfold K, R. rewrite keys_scan. apply Ha. }
  assert (L1 : heap w1 !! t = Some nd) by (rewrite S4 by lia; exact L).
  assert (Hd1 : forall a, is_Some (heap w1 !! a) -> a <= t).
  { intros a Hx. apply Hd. apply S5. exact Hx. }
  assert (El1 : ls1 (bucket_of k) = K ++ R) by apply set_chain_eq.
  assert (Htb1 : t < brk w1) by (rewrite S2; exact Htb).
  cbn [replace_loop]. rewrite (bind_ret_eq _ _ _ _ _ Ef). cbv beta iota.
  destruct (scan_shape k l (Ha (bucket_of k))) as [HK [(Hfound & c & R' & ER & Hc & Hck & HR')|(Hfound & HR)]];
    rewrite Hfound; change (scan_keep k l) with K in HK.
  - (* the key is present: replace *)
    pose proof (live_found k l c R' ER Hc Hck) as Elive.
    change (scan_rest k l) with R in ER. rewrite ER in *. cbn [start].
    destruct (chain_split _ _ _ _ _ _ _ _ Hm1 El1) as (ndc & Lc & Eec & _).
    rewrite (read_val_bind _ ndc) by exact Lc.
    rewrite (Hnx c R' eq_refl).
    destruct (replace_path_seq (chars (val ndc))
                (replace_loop hash_fn n fuel k tid t (start R')) k v tid t w1 ls1 K c R' nd fuel)
      as (w2 & E2 & Hm2 & Ha2 & e2 & k2 & l2 & d2 & h2); auto;
      [apply scan_keep_unmarked | lia |].
    rewrite E2.
    exists w2, (set_chain (bucket_of k) (K ++ mkEntry t k v false :: R') ls), (Some (e_val c)).
    split; [rewrite Eec; reflexivity|].
    split; [intros j; unfold ls1, set_chain; destruct (Z.eqb_spec j (bucket_of k)) as [->|]; [fold l; rewrite ?length_app in *; simpl in *; lia | lia]|].
    split; [|split; [|split; [|split; [|split]]]].
    + split; auto.
      * rewrite k2. eapply mem_str_ext; [|exact Hm2]. intros j. unfold ls1. symmetry. apply set_chain_twice.
      * eapply ascending_ext; [|exact Ha2]. intros j. unfold ls1. rewrite set_chain_twice. reflexivity.
      * intros a Hx. rewrite k2. apply d2 in Hx. pose proof (Hd1 a Hx). lia.
      * rewrite k2, l2, S2, S3. split; [lia | split; assumption].
    + rewrite set_chain_eq. apply (updates_found k (Some v) l K R' c); auto.
      rewrite live_app. reflexivity.
    + intros j Hj. apply set_chain_ne. exact Hj.
    + eapply hist_ext_trans; [|exact h2]. eapply hist_ext_weaken; [|exact S6]. apply asc_in_window.
    + discriminate.
    + split; congruence.
  - (* the key is absent *)
    change (scan_rest k l) with R in HR.
    destruct (delete_Node_seq t w1 nd L1 Hd1 Hdk Hdv)
      as (w2 & E2 & h2 & b2 & e2 & k2 & l2 & hs & i2 & f2).
    rewrite (bind_ret_eq _ _ _ _ _ E2).
    exists w2, ls1, None. split; [reflexivity|].
    split; [intros j; unfold ls1, set_chain; destruct (Z.eqb_spec j (bucket_of k)) as [->|]; [fold l; rewrite ?length_app in *; simpl in *; lia | lia]|].
    assert (Hm2 : mem_str t (heap w2) (buckets w2) ls1).
    { rewrite h2, b2. apply (mem_frame _ (heap w1)); [exact Hm1|].
      intros a Ha'. apply lookup_delete_ne. lia. }
    split; [|split; [|split; [|split; [|split]]]].
    + split.
      * congruence.
      * apply (mem_str_mono t); [lia | exact Hm2].
      * exact Ha1.
      * intros a Hx. rewrite h2 in Hx. rewrite k2, S2.
        destruct (Z.eq_dec t a) as [->|Hne]; [exact Htb|].
        rewrite lookup_delete_ne in Hx by exact Hne. pose proof (Hd1 a Hx). lia.
      * rewrite k2, l2, S2, S3. split; [lia | split; assumption].
    + exists (live K), (live R). rewrite El1. simpl.
      split; [unfold K, R; rewrite <- live_app, scan_live; reflexivity|].
      split; [rewrite live_app; reflexivity|].
      split; [apply keys_ne_lt; exact HK | apply keys_ne_gt; exact HR].
    + intros j Hj. unfold ls1. apply set_chain_ne. exact Hj.
    + eapply hist_ext_weaken; [apply asc_in_window|].
      eapply hist_ext_trans; [exact S6|]. exists hs. split; [exact i2|].
      eapply Forall_impl; [exact f2|]. intros [mh mb] [Eb Eh]. simpl in *.
      apply (mem_ascending_intro t _ _ ls1); [|exact Ha1]. subst mb.
      apply (mem_frame _ (heap w1)); [exact Hm1 | exact Eh].
    + intros _. split; [rewrite h2; apply lookup_delete_eq|].
      intros j e. unfold ls1, set_chain. destruct (Z.eqb_spec j (bucket_of k)) as [->|]; [|auto].
      apply scan_subset.
    + split; congruence.
Qed.

Lemma remove_loop_seq k tid w ls n fuel next0 :
  Rep hash_fn w ls -> (length (ls (bucket_of k)) < fuel)%nat ->
  exists w' ls' oy,
    remove_loop hash_fn (S n) fuel k tid next0 w = Ret oy w' /\
    (forall j, (length (ls' j) <= length (ls j) + 0)%nat) /\
    Rep hash_fn w' ls' /\
    updates k None oy (ls (bucket_of k)) (ls' (bucket_of k)) /\
    (forall j, j <> bucket_of k -> ls' j = ls j) /\
    hist_ext (PHT.mem_ascending hash_fn) w w' /\
    brk w' = brk w /\ limit w' = limit w.
Proof.
  intros [He Hm Ha Hd Hb] Hf.
  destruct (findNode_seq k tid (brk w) w ls fuel next0 He Hm Ha Hf)
    as (w1 & nx & Ef & Hnx & Hm1 & [S1 S2 S3 S4 S5 S6]).
  set (l := ls (bucket_of k)) in *. set (K := scan_keep k l) in *. set (R := scan_rest k l) in *.
  set (ls1 := set_chain (bucket_of k) (K ++ R) ls) in *.
  assert (Hlen : (length (K ++ R) <= length l)%nat) by apply scan_length.
  assert (Ha1 : ascending ls1).
  { apply ascending_set_chain; [exact Ha|]. unfold K, R. rewrite keys_scan. apply Ha. }
  assert (El1 : ls1 (bucket_of k) = K ++ R) by apply set_chain_eq.
  assert (Hd1 : forall a, is_Some (heap w1 !! a) -> a < brk w1).
  { intros a Hx. rewrite S2. apply Hd. apply S5. exact Hx. }
  cbn [remove_loop]. rewrite (bind_ret_eq _ _ _ _ _ Ef). cbv beta iota.
  destruct (scan_shape k l (Ha (bucket_of k))) as [HK [(Hfound & c & R' & ER & Hc & Hck & HR')|(Hfound & HR)]];
    rewrite Hfound; change (scan_keep k l) with K in HK; cbn [negb].
  - pose proof (live_found k l c R' ER Hc Hck) as Elive.
    change (scan_rest k l) with R in ER. rewrite ER in *. cbn [start].
    destruct (chain_split _ _ _ _ _ _ _ _ Hm1 El1) as (ndc & Lc & Eec & _).
    rewrite (read_val_bind _ ndc) by exact Lc.
    rewrite (Hnx c R' eq_refl). rewrite sfence_bind. set (w2 := log ESfence w1).
    destruct (mark_unlink (brk w) w2 ls1 (bucket_of k) K c R' Hm1 El1 (scan_keep_unmarked _ _) Hc)
      as (Hr1 & Hmk & Hnext).
    rewrite (bind_ret_eq _ _ _ _ _
               (cas_seq_ok (NextOf (e_addr c)) (start R') (setMark (start R')) w2 S1 Hr1)).
    cbn [fst negb]. rewrite clwb_bind, sfence_bind.
    set (w3 := snapshot _). set (w4 := log ESfence _).
    destruct (Hnext w4 eq_refl eq_refl) as (Hr2 & Hm2).
    rewrite (bind_ret_eq _ _ _ _ _
               (cas_seq_ok (slot_at (bucket_of k) K) (e_addr c) (start R') w4 S1 Hr2)).
    cbn [fst]. rewrite bind_assoc, clwb_bind, bind_assoc, sfence_bind. rewrite retire_bind. unfold ret.
    assert (Hval : e_val c = chars (val ndc)) by (rewrite Eec; reflexivity).
    eexists _, (set_chain (bucket_of k) (K ++ R') ls), (Some (e_val c)).
    split; [rewrite Hval; reflexivity|].
    split; [intros j; unfold ls1, set_chain; destruct (Z.eqb_spec j (bucket_of k)) as [->|]; [fold l; rewrite ?length_app in *; simpl in *; lia | lia]|].
    assert (Hm2' : mem_str (brk w)
                     (heap_write (slot_at (bucket_of k) K) (start R') (heap w4))
                     (buckets_write (slot_at (bucket_of k) K) (start R') (buckets w4))
                     (set_chain (bucket_of k) (K ++ R') ls)).
    { eapply mem_str_ext; [|exact Hm2]. intros j. unfold ls1. symmetry. apply set_chain_twice. }
    assert (Ha2 : ascending (set_chain (bucket_of k) (K ++ R') ls)).
    { apply ascending_set_chain; [exact Ha|].
      pose proof (Ha1 (bucket_of k)) as Hs. rewrite El1 in Hs.
      rewrite keys_app, (keys_cons_unmarked _ _ Hc) in Hs. rewrite keys_app.
      eapply sorted_remove_mid; exact Hs. }
    split; [|split; [|split; [|split]]].
    + split; subst w4 w3 w2; wsimpl; auto.
      * rewrite S2. exact Hm2'.
      * intros a Hx. apply heap_write_dom in Hx.
        apply heap_write_dom in Hx. apply Hd1. exact Hx.
      * rewrite S2, S3. exact Hb.
    + rewrite set_chain_eq. apply (updates_found k None l K R' c); auto.
      rewrite live_app. reflexivity.
    + intros j Hj. apply set_chain_ne. exact Hj.
    + eapply hist_ext_trans; [exact S6|].
      exists [(heap w3, buckets w3);
              (heap_write (slot_at (bucket_of k) K) (start R') (heap w4),
               buckets_write (slot_at (bucket_of k) K) (start R') (buckets w4))].
      split; [subst w4 w3 w2; wsimpl; rewrite <- app_assoc; reflexivity|].
      apply Forall_cons_2; [|apply Forall_cons_2; [|apply Forall_nil_2]].
      * eapply (mem_ascending_intro (brk w)); [exact Hmk|].
        intros j. unfold ls1. rewrite set_chain_twice. apply ascending_set_chain; [exact Ha|].
        rewrite keys_app, keys_cons_marked by reflexivity. rewrite <- keys_app. apply Ha2 || idtac.
        pose proof (Ha2 (bucket_of k)) as H2. rewrite set_chain_eq in H2. exact H2.
      * eapply (mem_ascending_intro (brk w)); [exact Hm2' | exact Ha2].
    + subst w4 w3 w2; wsimpl. split; [exact S2 | exact S3].
  - change (scan_rest k l) with R in HR. unfold ret.
    exists w1, ls1, None. split; [reflexivity|].
    split; [intros j; unfold ls1, set_chain; destruct (Z.eqb_spec j (bucket_of k)) as [->|]; [fold l; rewrite ?length_app in *; simpl in *; lia | lia]|]. split; [|split; [|split; [|split]]].
    + split; auto.
      * rewrite S2. exact Hm1.
      * rewrite S2, S3. exact Hb.
    + exists (live K), (live R). rewrite El1. simpl.
      split; [unfold K, R; rewrite <- live_app, scan_live; reflexivity|].
      split; [rewrite live_app; reflexivity|].
      split; [apply keys_ne_lt; exact HK | apply keys_ne_gt; exact HR].
    + intros j Hj. unfold ls1. apply set_chain_ne. exact Hj.
    + exact S6.
    + split; [exact S2 | exact S3].
Qed.

Lemma Rep_log e w ls : Rep hash_fn w ls -> Rep hash_fn (log e w) ls.
Proof. intros [H1 H2 H3 H4 H5]. split; assumption. Qed.

Lemma mid_log e k v t w ls : mid k v t w ls -> mid k v t (log e w) ls.
Proof. intros [H1 H2 H3 H4 H5 H6]. split; assumption. Qed.

Lemma hist_ext_log_l P e w w' : hist_ext P (log e w) w' -> hist_ext P w w'.
Proof. intros H. exact H. Qed.

Lemma hist_ext_log_r P e w w' : hist_ext P w w' -> hist_ext P w (log e w').
Proof. intros H. exact H. Qed.

Lemma bound_updates k ox oy ls ls' :
  updates k ox oy (ls (bucket_of k)) (ls' (bucket_of k)) ->
  (forall j, j <> bucket_of k -> ls' j = ls j) ->
  bound hash_fn ls k = oy /\
  forall k', bound hash_fn ls' k' = if String.eqb k' k then ox else bound hash_fn ls k'.
Proof.
  intros Hu Ho. unfold bound. split; [eapply updates_old; exact Hu|].
  intros k'. destruct (String.eqb_spec k' k) as [->|Hne].
  - eapply updates_new; exact Hu.
  - destruct (Z.eq_dec (bucket_of k') (bucket_of k)) as [E|E].
    + rewrite E. eapply updates_other; eauto.
    + rewrite (Ho _ E). reflexivity.
Qed.

Theorem get_sequential k tid w ls fuel :
  Rep hash_fn w ls -> (length (ls (bucket_of k)) < fuel)%nat ->
  exists w' ls',
    get hash_fn fuel k tid w = Ret (bound hash_fn ls k) w' /\
    (forall j, (length (ls' j) <= length (ls j) + 0)%nat) /\
    Rep hash_fn w' ls' /\
    (forall j, live (ls' j) = live (ls j)) /\
    (forall j e, e ∈ ls' j -> e ∈ ls j) /\
    hist_ext (PHT.mem_ascending hash_fn) w w' /\
    brk w' = brk w /\ limit w' = limit w.
Proof.
  intros HR Hf. pose proof (Rep_log (EStartOp tid) w ls HR) as [He Hm Ha Hd Hb].
  unfold get. rewrite start_op_bind.
  destruct (findNode_seq k tid _ _ ls fuel 0 He Hm Ha Hf)
    as (w1 & nx & Ef & Hnx & Hm1 & [S1 S2 S3 S4 S5 S6]).
  set (l := ls (bucket_of k)) in *. set (K := scan_keep k l) in *. set (R := scan_rest k l) in *.
  set (ls1 := set_chain (bucket_of k) (K ++ R) ls) in *.
  assert (El1 : ls1 (bucket_of k) = K ++ R) by apply set_chain_eq.
  assert (Hlen : forall j, (length (ls1 j) <= length (ls j) + 0)%nat).
  { intros j. unfold ls1, set_chain. destruct (Z.eqb_spec j (bucket_of k)) as [->|]; [|lia].
    fold l. pose proof (scan_length k l). fold K R in H. lia. }
  assert (Hlive : forall j, live (ls1 j) = live (ls j)).
  { intros j. unfold ls1, set_chain. destruct (Z.eqb_spec j (bucket_of k)) as [->|]; [|reflexivity].
    apply scan_live. }
  assert (HR1 : Rep hash_fn w1 ls1).
  { split; auto.
    - rewrite S2. exact Hm1.
    - intros j. unfold keys. rewrite Hlive. apply Ha.
    - intros a Hx. rewrite S2. apply Hd. apply S5. exact Hx.
    - rewrite S2, S3. exact Hb. }
  rewrite (bind_ret_eq _ _ _ _ _ Ef). cbv beta iota.
  assert (Hsub : forall j e, e ∈ ls1 j -> e ∈ ls j).
  { intros j e. unfold ls1, set_chain. destruct (Z.eqb_spec j (bucket_of k)) as [->|]; [|auto].
    apply scan_subset. }
  destruct (scan_shape k l (Ha (bucket_of k))) as [HK [(Hfound & c & R' & ER & Hc & Hck & HR')|(Hfound & HR0)]];
    rewrite Hfound; change (scan_keep k l) with K in HK.
  - pose proof (live_found k l c R' ER Hc Hck) as Elive.
    change (scan_rest k l) with R in ER. rewrite ER in *. cbn [start].
    destruct (chain_split _ _ _ _ _ _ _ _ Hm1 El1) as (ndc & Lc & Eec & _).
    rewrite bind_assoc, (read_val_bind _ ndc) by exact Lc.
    rewrite ret_bind, end_op_bind. unfold ret.
    assert (Hval : e_val c = chars (val ndc)) by (rewrite Eec; reflexivity).
    assert (Hb' : bound hash_fn ls k = Some (e_val c)).
    { unfold bound. fold l. rewrite Elive. rewrite assoc_app_none by (apply keys_ne_lt; exact HK).
      simpl. rewrite String.eqb_refl. reflexivity. }
    eexists _, ls1. split; [rewrite Hb', Hval; reflexivity|].
    split; [exact Hlen|]. split; [apply Rep_log; exact HR1|]. split; [exact Hlive|]. split; [exact Hsub |]. split; [exact S6|]. wsimpl. split; [exact S2 | exact S3].
  - change (scan_rest k l) with R in HR0. rewrite ret_bind, end_op_bind. unfold ret.
    assert (Hb' : bound hash_fn ls k = None).
    { unfold bound. fold l. rewrite <- (scan_live k l), live_app. fold K R.
      rewrite assoc_app_none by (apply keys_ne_lt; exact HK).
      apply assoc_none. apply keys_ne_gt. exact HR0. }
    eexists _, ls1. split; [rewrite Hb'; reflexivity|].
    split; [exact Hlen|]. split; [apply Rep_log; exact HR1|]. split; [exact Hlive|]. split; [exact Hsub |]. split; [exact S6|]. wsimpl. split; [exact S2 | exact S3].
Qed.

Theorem put_sequential k v tid w ls fuel :
  Rep hash_fn w ls -> (length (ls (bucket_of k)) < fuel)%nat ->
  brk w + node_bytes k v <= limit w ->
  exists w' ls',
    put hash_fn sizeof_Node string_request fuel k v tid w = Ret (bound hash_fn ls k) w' /\
    (forall j, (length (ls' j) <= length (ls j) + 1)%nat) /\
    Rep hash_fn w' ls' /\
    (forall k', bound hash_fn ls' k' = if String.eqb k' k then Some v else bound hash_fn ls k') /\
    hist_ext (asc_or_window k) w w' /\
    brk w' = brk w + node_bytes k v /\ limit w' = limit w.
Proof.
  intros HR Hf Hmem. destruct (prologue k v w ls HR Hmem) as (wa & Ea & Hmid & _ & Hha & Hba & Hla).
  unfold put. rewrite (bind_ret_eq _ _ _ _ _ Ea), start_op_bind.
  destruct fuel as [|n]; [lia|].
  destruct (put_loop_seq k v tid (brk w) _ ls n (S n) 0 (mid_log (EStartOp tid) _ _ _ _ _ Hmid) Hf)
    as (w' & ls' & oy & El & Hlen & HR' & Hu & Ho & Hh & Hb' & Hl').
  rewrite (bind_ret_eq _ _ _ _ _ El), end_op_bind. unfold ret.
  destruct (bound_updates k _ _ ls ls' Hu Ho) as [Hb1 Hb2].
  eexists _, ls'. split; [rewrite Hb1; reflexivity|].
  split; [exact Hlen|]. split; [apply Rep_log; exact HR'|]. split; [exact Hb2|].
  split; [eapply hist_ext_trans; [eapply hist_ext_weaken; [apply asc_in_window | exact Hha]|]; exact Hh|].
  wsimpl. split; congruence.
Qed.

Theorem insert_sequential k v tid w ls fuel :
  Rep hash_fn w ls -> (length (ls (bucket_of k)) < fuel)%nat ->
  brk w + node_bytes k v <= limit w ->
  exists w' ls',
    insert hash_fn sizeof_Node string_request fuel k v tid w
    = Ret (match bound hash_fn ls k with Some _ => false | None => true end) w' /\
    (forall j, (length (ls' j) <= length (ls j) + 1)%nat) /\
    Rep hash_fn w' ls' /\
    (forall k', bound hash_fn ls' k' =
                if String.eqb k' k then Some (default v (bound hash_fn ls k))
                else bound hash_fn ls k') /\
    hist_ext (PHT.mem_ascending hash_fn) w w' /\
    (is_Some (bound hash_fn ls k) ->
     heap w' !! brk w = None /\ forall j e, e ∈ ls' j -> e ∈ ls j) /\
    brk w' = brk w + node_bytes k v /\ limit w' = limit w.
Proof.
  intros HR Hf Hmem. destruct (prologue k v w ls HR Hmem) as (wa & Ea & Hmid & _ & Hha & Hba & Hla).
  unfold insert. rewrite (bind_ret_eq _ _ _ _ _ Ea), start_op_bind.
  destruct fuel as [|n]; [lia|].
  destruct (insert_loop_seq k v tid (brk w) _ ls n (S n) 0 (mid_log (EStartOp tid) _ _ _ _ _ Hmid) Hf)
    as (w' & ls' & oy & El & Hlen & HR' & Hu & Ho & Hh & Hfree & Hb' & Hl').
  rewrite (bind_ret_eq _ _ _ _ _ El), end_op_bind. unfold ret.
  destruct (bound_updates k _ _ ls ls' Hu Ho) as [Hb1 Hb2].
  eexists _, ls'. split; [rewrite Hb1; reflexivity|].
  split; [exact Hlen|]. split; [apply Rep_log; exact HR'|]. split; [rewrite Hb1; exact Hb2|].
  split; [eapply hist_ext_trans; [exact Hha | exact Hh]|].
  split; [rewrite Hb1; exact Hfree|]. wsimpl. split; congruence.
Qed.

Theorem replace_sequential k v tid w ls fuel :
  Rep hash_fn w ls -> (length (ls (bucket_of k)) < fuel)%nat ->
  brk w + node_bytes k v <= limit w ->
  exists w' ls',
    replace hash_fn sizeof_Node string_request fuel k v tid w = Ret (bound hash_fn ls k) w' /\
    (forall j, (length (ls' j) <= length (ls j) + 1)%nat) /\
    Rep hash_fn w' ls' /\
    (forall k', bound hash_fn ls' k' =
                if String.eqb k' k
                then match bound hash_fn ls k with Some _ => Some v | None => None end
                else bound hash_fn ls k') /\
    hist_ext (asc_or_window k) w w' /\
    (bound hash_fn ls k = None ->
     heap w' !! brk w = None /\ forall j e, e ∈ ls' j -> e ∈ ls j) /\
    brk w' = brk w + node_bytes k v /\ limit w' = limit w.
Proof.
  intros HR Hf Hmem. destruct (prologue k v w ls HR Hmem) as (wa & Ea & Hmid & _ & Hha & Hba & Hla).
  unfold replace. rewrite (bind_ret_eq _ _ _ _ _ Ea), start_op_bind.
  destruct fuel as [|n]; [lia|].
  destruct (replace_loop_seq k v tid (brk w) _ ls n (S n) 0 (mid_log (EStartOp tid) _ _ _ _ _ Hmid) Hf)
    as (w' & ls' & oy & El & Hlen & HR' & Hu & Ho & Hh & Hfree & Hb' & Hl').
  rewrite (bind_ret_eq _ _ _ _ _ El), end_op_bind. unfold ret.
  destruct (bound_updates k _ _ ls ls' Hu Ho) as [Hb1 Hb2].
  eexists _, ls'. split; [rewrite Hb1; reflexivity|].
  split; [exact Hlen|]. split; [apply Rep_log; exact HR'|]. split; [rewrite Hb1; exact Hb2|].
  split; [eapply hist_ext_trans; [eapply hist_ext_weaken; [apply asc_in_window | exact Hha]|]; exact Hh|].
  split; [rewrite Hb1; exact Hfree|]. wsimpl. split; congruence.
Qed.

Theorem remove_sequential k tid w ls fuel :
  Rep hash_fn w ls -> (length (ls (bucket_of k)) < fuel)%nat ->
  exists w' ls',
    remove hash_fn fuel k tid w = Ret (bound hash_fn ls k) w' /\
    (forall j, (length (ls' j) <= length (ls j) + 0)%nat) /\
    Rep hash_fn w' ls' /\
    (forall k', bound hash_fn ls' k' = if String.eqb k' k then None else bound hash_fn ls k') /\
    hist_ext (PHT.mem_ascending hash_fn) w w' /\
    brk w' = brk w /\ limit w' = limit w.
Proof.
  intros HR Hf. unfold remove. rewrite start_op_bind.
  destruct fuel as [|n]; [lia|].
  destruct (remove_loop_seq k tid _ ls n (S n) 0 (Rep_log (EStartOp tid) _ _ HR) Hf)
    as (w' & ls' & oy & El & Hlen & HR' & Hu & Ho & Hh & Hb' & Hl').
  rewrite (bind_ret_eq _ _ _ _ _ El), end_op_bind. unfold ret.
  destruct (bound_updates k _ _ ls ls' Hu Ho) as [Hb1 Hb2].
  eexists _, ls'. split; [rewrite Hb1; reflexivity|].
  split; [exact Hlen|]. split; [apply Rep_log; exact HR'|]. split; [exact Hb2 |]. split; [exact Hh|]. wsimpl. split; [exact Hb' | exact Hl'].
Qed.

End Seq.

(** ** The order of writebacks under interference *)

Lemma bind_inv {A B} (m : M A) (k : A -> M B) w b w' :
  bind m k w = Ret b w' -> exists a w1, m w = Ret a w1 /\ k a w1 = Ret b w'.
Proof. unfold bind. destruct (m w) as [a w1| | | |]; try discriminate. eauto. Qed.

Lemma owed_after_snoc tr e :
  owed_after (tr ++ [e]) = match owed_after tr with Some o => owe o e | None => None end.
Proof. unfold owed_after. rewrite fold_left_app. reflexivity. Qed.

Lemma unreferenced_read t w s v : unreferenced t w -> read_slot s w = Some v -> getPtr v <> t.
Proof.
  intros (Ht & Hh & Hb & _) Hr. destruct s as [i|n]; simpl in Hr.
  - injection Hr as <-. destruct (buckets w !! i) as [x|] eqn:E; simpl.
    + apply (Hb i x E).
    + rewrite getPtr_0. congruence.
  - destruct (heap w !! n) as [nd|] eqn:E; [|discriminate]. injection Hr as <-.
    apply (Hh n nd E).
Qed.

Lemma unreferenced_write t w s v :
  unreferenced t w -> getPtr v <> t -> unreferenced t (write_slot s v w).
Proof.
  intros (Ht & Hh & Hb & He) Hv. split; [exact Ht|]. unfold write_slot. wsimpl.
  split; [|split; [|exact He]].
  - destruct s as [i|n]; simpl; [exact Hh|].
    destruct (heap w !! n) as [nd|] eqn:E; [|exact Hh].
    apply map_Forall_insert_2; [exact Hv | exact Hh].
  - destruct s as [i|n]; simpl; [|exact Hb].
    apply map_Forall_insert_2; [exact Hv | exact Hb].
Qed.

Lemma unreferenced_writes t ws : forall w,
  Forall (fun sv : Slot * Z => getPtr (snd sv) <> t) ws -> unreferenced t w ->
  unreferenced t (fold_left (fun w' sv => write_slot (fst sv) (snd sv) w') ws w) /\
  trace (fold_left (fun w' sv => write_slot (fst sv) (snd sv) w') ws w) = trace w.
Proof.
  induction ws as [|[s v] ws IH]; intros w Hf Hu; simpl; [auto|].
  inversion Hf as [|? ? Hv Hf']; subst. simpl in Hv.
  destruct (IH (write_slot s v w) Hf' (unreferenced_write _ _ _ _ Hu Hv)) as [H1 H2].
  split; [exact H1 | rewrite H2; reflexivity].
Qed.

Lemma trace_writes ws : forall w,
  trace (fold_left (fun w' sv => write_slot (fst sv) (snd sv) w') ws w) = trace w.
Proof. induction ws as [|[s v] ws IH]; intros w; simpl; [reflexivity|]. rewrite IH. reflexivity. Qed.

Lemma at_interfere o D w w1 : at_ o D w -> interfere w = Ret tt w1 -> at_ o D w1.
Proof.
  intros [Ho Hp] Hi. unfold interfere in Hi. destruct (env w) as [|ws e] eqn:Ee.
  - injection Hi as <-. split; assumption.
  - injection Hi as <-. split.
    + rewrite trace_writes. exact Ho.
    + intros d Hd. pose proof (Hp d Hd) as Hu.
      assert (Hu' : unreferenced d (set_env e w)).
      { destruct Hu as (H1 & H2 & H3 & H4). rewrite Ee in H4. inversion H4; subst.
        split; [exact H1|]. split; [exact H2|]. split; [exact H3|]. assumption. }
      destruct Hu as (_ & _ & _ & H4). rewrite Ee in H4. inversion H4; subst.
      apply (unreferenced_writes d ws (set_env e w)); assumption.
Qed.

Lemma at_log o o' D e w : at_ o D w -> owe o e = Some o' -> at_ o' D (log e w).
Proof.
  intros [Ho Hp] He. split; [|exact Hp].
  unfold log. wsimpl. rewrite owed_after_snoc, Ho. exact He.
Qed.


Lemma load_inv s w v w' :
  load s w = Ret v w' ->
  exists w1, interfere w = Ret tt w1 /\ read_slot s w1 = Some v /\ w' = log (ELoad s v) w1.
Proof.
  unfold load. intros H. apply bind_inv in H as ([] & w1 & Hi & H).
  destruct (read_slot s w1) as [x|] eqn:Er; [|discriminate].
  injection H as <- <-. eauto.
Qed.

Lemma at_load o D s w v w' :
  at_ o D w -> load s w = Ret v w' -> at_ o D w' /\ fresh D v.
Proof.
  intros Ha H. apply load_inv in H as (w1 & Hi & Hr & ->).
  pose proof (at_interfere _ _ _ _ Ha Hi) as Ha1. split.
  - eapply at_log; [exact Ha1 | reflexivity].
  - intros d Hd. eapply unreferenced_read; [apply (proj2 Ha1 d Hd) | exact Hr].
Qed.

Lemma priv_write D s v w : priv D w -> fresh D v -> priv D (snapshot (write_slot s v w)).
Proof.
  intros Hp Hf d Hd. pose proof (unreferenced_write d w s v (Hp d Hd) (Hf d Hd)) as Hu.
  exact Hu.
Qed.


(** A CAS either fails and leaves what is owed as it is, or succeeds
    and is recorded. *)
Lemma at_cas o D s e d w b e' w' :
  at_ o D w -> cas s e d w = Ret (b, e') w' ->
  (b = false /\ at_ o D w' /\ fresh D e') \/
  (b = true /\ e' = e /\ owed_after (trace w') = owe o (ECas s e d true) /\
   (fresh D d -> priv D w') /\ fresh D e).
Proof.
  intros Ha H. unfold cas in H. apply bind_inv in H as ([] & w1 & Hi & H).
  destruct (read_slot s w1) as [x|] eqn:Er; [|discriminate].
  pose proof (at_interfere _ _ _ _ Ha Hi) as Ha1.
  assert (Hx : fresh D x).
  { intros d0 Hd. eapply unreferenced_read; [apply (proj2 Ha1 d0 Hd) | exact Er]. }
  destruct (Z.eqb_spec x e) as [->|Hne].
  - injection H as <- <- <-. right. split; [reflexivity|]. split; [reflexivity|].
    split; [|split; [|exact Hx]].
    + wsimpl. rewrite owed_after_snoc, (proj1 Ha1). reflexivity.
    + intros Hf. apply priv_write; [exact (proj2 Ha1) | exact Hf].
  - injection H as <- <- <-. left. split; [reflexivity|]. split; [|exact Hx].
    eapply at_log; [exact Ha1 | reflexivity].
Qed.

Lemma filter_subseteq {A} (f : A -> bool) (l D : list A) :
  l ⊆ D -> List.filter f l ⊆ D.
Proof.
  intros H x Hx. apply H. apply list_elem_of_In in Hx. apply filter_In in Hx as [Hx _].
  apply list_elem_of_In. exact Hx.
Qed.

Lemma sync_log D w e :
  sync D w ->
  match e with
  | EClwb _ | ESfence | ELoad _ _ | EStartOp _ | EEndOp _ | ERetire _ _ | EMalloc _ _
  | EFree _ | ECas _ _ _ false => True
  | _ => False
  end ->
  sync D (log e w).
Proof.
  intros (dd & Ha & Hs) He.
  destruct e as [| | | | |? ? ? []|t| | | |]; try contradiction;
    try (exists dd; split; [eapply at_log; [exact Ha | reflexivity] | exact Hs]).
  exists (List.filter (fun n => negb (cleans t n)) dd). split.
  - eapply at_log; [exact Ha | reflexivity].
  - apply filter_subseteq. exact Hs.
Qed.

Lemma clwb_inv t w a w1 : clwb t w = Ret a w1 -> w1 = log (EClwb t) w.
Proof. intros [= _ <-]. reflexivity. Qed.

Lemma sfence_inv w a w1 : sfence w = Ret a w1 -> w1 = log ESfence w.
Proof. intros [= _ <-]. reflexivity. Qed.

Lemma retire_inv n tid w a w1 :
  retire n tid w = Ret a w1 -> w1 = add_retired n (log (ERetire n tid) w).
Proof. intros [= _ <-]. reflexivity. Qed.

Lemma key_compare_inv c k w a w1 : key_compare c k w = Ret a w1 -> w1 = w.
Proof. unfold key_compare. destruct (heap w !! c); [|discriminate]. intros [= _ <-]. reflexivity. Qed.

Lemma read_val_inv c w a w1 : read_val c w = Ret a w1 -> w1 = w.
Proof. unfold read_val. destruct (heap w !! c); [|discriminate]. intros [= _ <-]. reflexivity. Qed.

Lemma sync_retired D w n : sync D w -> sync D (add_retired n w).
Proof. intros H. exact H. Qed.

Lemma sync_load D s w v w' : sync D w -> load s w = Ret v w' -> sync D w' /\ fresh D v.
Proof.
  intros (dd & Ha & Hs) H. destruct (at_load _ _ _ _ _ _ Ha H) as [Ha' Hf].
  split; [exists dd; auto | exact Hf].
Qed.

Lemma fresh_getPtr D v : fresh D v -> fresh D (getPtr v).
Proof. intros H d Hd. rewrite getPtr_idem. apply H. exact Hd. Qed.

Lemma fresh_setMark D v : fresh D v -> fresh D (setMark v).
Proof. intros H d Hd. rewrite getPtr_setMark. apply H. exact Hd. Qed.


Lemma existsb_fresh (dd D : list Z) v :
  dd ⊆ D -> fresh D v -> existsb (Z.eqb (getPtr v)) dd = false.
Proof.
  intros Hs Hf. destruct (existsb (Z.eqb (getPtr v)) dd) eqn:E; [|reflexivity].
  apply existsb_exists in E as (x & Hx & Ex). apply Z.eqb_eq in Ex.
  exfalso. apply (Hf x); [apply Hs, list_elem_of_In; exact Hx | exact Ex].
Qed.

Lemma Slot_eqb_refl s : Slot_eqb s s = true.
Proof. destruct s; simpl; apply Z.eqb_refl. Qed.

(** A CAS on [s] that publishes a pointer nobody holds dirty, followed
    by a writeback of [s] (or of the node of [s]) and a fence. *)
Lemma sync_cas_flushed D s e d w b e' w' t :
  sync D w -> fresh D d -> covers t s = true ->
  (forall n, s = NextOf n -> cleans t n = true) ->
  cas s e d w = Ret (b, e') w' ->
  (b = false /\ sync D w' /\ fresh D e') \/
  (b = true /\ e' = e /\ sync D (log ESfence (log (EClwb t) w')) /\ fresh D e).
Proof.
  intros (dd & Ha & Hs) Hf Hc Hn H.
  destruct (at_cas _ _ _ _ _ _ _ _ _ Ha H) as [(-> & Ha' & Hf')|(-> & -> & Ho & Hp & Hfe)].
  - left. split; [reflexivity|]. split; [exists dd; auto | exact Hf'].
  - right. split; [reflexivity|]. split; [reflexivity|]. split; [|exact Hfe].
    simpl in Ho. rewrite (existsb_fresh dd D d Hs Hf) in Ho.
    exists (List.filter (fun n => negb (cleans t n)) (touch s dd)). split.
    + split; [|exact (Hp Hf)].
      unfold log. wsimpl. rewrite !owed_after_snoc, Ho. simpl. rewrite Hc. reflexivity.
    + intros x Hx. apply list_elem_of_In in Hx. apply filter_In in Hx as [Hx Hcl].
      destruct s as [i|n]; simpl in Hx.
      * apply Hs, list_elem_of_In. exact Hx.
      * destruct Hx as [<-|Hx]; [|apply Hs, list_elem_of_In; exact Hx].
        rewrite (Hn n eq_refl) in Hcl. discriminate.
Qed.

Lemma cleans_slot s n : s = NextOf n -> cleans (TSlot s) n = true.
Proof. intros ->. simpl. apply Z.eqb_refl. Qed.

Lemma covers_slot s : covers (TSlot s) s = true.
Proof. simpl. apply Slot_eqb_refl. Qed.

Section Order.

Variable hash_fn : string -> Z.

Lemma findNode_scan_sync k tid D fuel :
  forall prev curr next w r w',
  sync D w -> findNode_scan fuel k tid prev curr next w = Ret r w' -> sync D w'.
Proof.
  induction fuel as [|fuel IH]; intros prev curr next w r w' Hs H; [discriminate|].
  cbn [findNode_scan] in H.
  destruct (curr =? 0); [injection H as <- <-; exact Hs|].
  apply bind_inv in H as (nx & w1 & H1 & H). destruct (sync_load _ _ _ _ _ Hs H1) as [Hs1 Hf1].
  apply bind_inv in H as (? & w2 & H2 & H). apply clwb_inv in H2. subst w2.
  apply bind_inv in H as (cmp & w3 & H3 & H). apply key_compare_inv in H3. subst w3.
  apply bind_inv in H as (p & w4 & H4 & H).
  assert (Hs2 : sync D (log (EClwb (TNode curr)) w1)) by (apply sync_log; [exact Hs1 | exact I]).
  destruct (sync_load _ _ _ _ _ Hs2 H4) as [Hs4 _].
  destruct (negb (p =? curr)); [injection H as <- <-; exact Hs4|].
  apply bind_inv in H as (? & w5 & H5 & H). apply clwb_inv in H5. subst w5.
  assert (Hs5 : sync D (log (EClwb (TSlot prev)) w4)) by (apply sync_log; [exact Hs4 | exact I]).
  destruct (negb (getMark nx)).
  - destruct cmp.
    + apply bind_inv in H as (? & w6 & H6 & H). apply sfence_inv in H6. subst w6.
      injection H as <- <-. apply sync_log; [exact Hs5 | exact I].
    + eapply IH; [exact Hs5 | exact H].
    + injection H as <- <-. exact Hs5.
  - apply bind_inv in H as (? & w6 & H6 & H). apply sfence_inv in H6. subst w6.
    assert (Hs6 : sync D (log ESfence (log (EClwb (TSlot prev)) w4)))
      by (apply sync_log; [exact Hs5 | exact I]).
    apply bind_inv in H as ([b e'] & w7 & H7 & H).
    destruct (sync_cas_flushed D prev curr (getPtr nx) _ b e' w7 (TSlot prev) Hs6
                (fresh_getPtr _ _ Hf1) (covers_slot _) (cleans_slot _) H7)
      as [(-> & Hs7 & _)|(-> & -> & Hs7 & _)]; cbn [fst snd] in H.
    + injection H as <- <-. exact Hs7.
    + apply bind_inv in H as (? & w8 & H8 & H). apply clwb_inv in H8. subst w8.
      apply bind_inv in H as (? & w9 & H9 & H). apply sfence_inv in H9. subst w9.
      apply bind_inv in H as (? & w10 & H10 & H). apply retire_inv in H10. subst w10.
      eapply IH; [|exact H]. apply sync_retired. apply sync_log; [exact Hs7 | exact I].
Qed.

Lemma findNode_sync k tid D fuel next w r w' :
  sync D w -> findNode hash_fn fuel k tid next w = Ret r w' -> sync D w'.
Proof.
  unfold findNode. generalize fuel at 1. intros n. revert next w.
  induction n as [|n IH]; intros next w Hs H; [discriminate|].
  cbn [findNode_retry] in H.
  apply bind_inv in H as (h & w1 & H1 & H). destruct (sync_load _ _ _ _ _ Hs H1) as [Hs1 _].
  apply bind_inv in H as (? & w2 & H2 & H). apply clwb_inv in H2. subst w2.
  apply bind_inv in H as ([[[ob pv] cu] nx] & w3 & H3 & H).
  assert (Hs3 : sync D w3).
  { eapply findNode_scan_sync; [|exact H3]. apply sync_log; [exact Hs1 | exact I]. }
  destruct ob as [b|].
  - injection H as <- <-. exact Hs3.
  - eapply IH; [exact Hs3 | exact H].
Qed.

Lemma sync_quiet D w : sync D w -> quiet w.
Proof. intros (dd & [Ho _] & _). exists dd. exact Ho. Qed.

Lemma quiet_durable w : quiet w -> durable (trace w) = true.
Proof. intros (dd & Ho). unfold durable. rewrite Ho. reflexivity. Qed.

Lemma quiet_log w e :
  quiet w ->
  match e with
  | EClwb _ | ESfence | ELoad _ _ | EStartOp _ | EEndOp _ | ERetire _ _ | EMalloc _ _
  | EFree _ | ECas _ _ _ false => True
  | _ => False
  end ->
  quiet (log e w).
Proof.
  intros (dd & Ho) He. unfold quiet, log. wsimpl. rewrite owed_after_snoc, Ho.
  destruct e as [| | | | |? ? ? []|t| | | |]; try contradiction; simpl; eauto.
Qed.


Lemma cleans_node n s : s = NextOf n -> cleans (TNode n) n = true.
Proof. intros _. simpl. apply Z.eqb_refl. Qed.










Variable sizeof_Node : Z.
Variable string_request : string -> Z.






Lemma quiet_end_op w tid : quiet w -> quiet (log (EEndOp tid) w).
Proof. intros H. apply (quiet_log w (EEndOp tid) H I). Qed.





End Order.

(** ** The empty table *)

Lemma Rep_empty_table hash_fn b lim :
  0 < b -> b mod 16 = 0 -> lim <= 2 ^ 64 ->
  Rep hash_fn (empty_table b lim []) no_chains.
Proof.
  intros Hb Hm Hl. split; simpl; auto.
  - intros i. split; simpl.
    + unfold head. rewrite lookup_empty. reflexivity.
    + unfold head. rewrite lookup_empty. apply seg_nil.
    + apply NoDup_nil_2.
    + apply Forall_nil_2.
    + apply Forall_nil_2.
  - intros i. apply SSorted_nil.
  - intros a [x Hx]. rewrite lookup_empty in Hx. discriminate.
Qed.

Lemma sso_request_nonneg s : 0 <= sso_request s.
Proof. unfold sso_request. destruct (_ <=? _)%nat; lia. Qed.

(** ** The order of a trace, from what is owed along it *)

Lemma owed_from_None tr : owed_from None tr = None.
Proof. induction tr as [|e tr IH]; [reflexivity|exact IH]. Qed.

Lemma owed_from_app st a b : owed_from st (a ++ b) = owed_from (owed_from st a) b.
Proof. apply fold_left_app. Qed.

Lemma owed_from_step o e tr o' :
  owed_from (Some o) (e :: tr) = Some o' ->
  exists o1, owe o e = Some o1 /\ owed_from (Some o1) tr = Some o'.
Proof.
  cbn [owed_from fold_left]. fold (owed_from (owe o e) tr).
  destruct (owe o e) as [o1|]; [eauto|]. rewrite owed_from_None. discriminate.
Qed.

Lemma owed_from_split st a b o' :
  owed_from st (a ++ b) = Some o' ->
  exists o1, owed_from st a = Some o1 /\ owed_from (Some o1) b = Some o'.
Proof.
  rewrite owed_from_app. destruct (owed_from st a) as [o1|]; [eauto|].
  rewrite owed_from_None. discriminate.
Qed.

Lemma In_touch s n d : In n d -> In n (touch s d).
Proof. destruct s; simpl; auto. Qed.

Lemma owe_dirty_kept o e o1 n :
  owe o e = Some o1 -> In n (dirty o) ->
  (exists t, e = EClwb t /\ cleans t n = true) \/ In n (dirty o1).
Proof.
  intros H Hn. destruct e; simpl in H; try (injection H as <-; right; exact Hn).
  - injection H as <-. right. simpl. auto.
  - injection H as <-. right. simpl. apply In_touch, Hn.
  - destruct ok; [|injection H as <-; right; exact Hn].
    destruct (existsb _ _); [discriminate|]. injection H as <-. right. simpl.
    apply In_touch, Hn.
  - injection H as <-. simpl. destruct (cleans t n) eqn:Ec; [left; eauto|].
    right. apply filter_In. rewrite Ec. auto.
Qed.

Lemma dirty_kept tr : forall o o' n,
  owed_from (Some o) tr = Some o' -> In n (dirty o) ->
  (exists t, In (EClwb t) tr /\ cleans t n = true) \/ In n (dirty o').
Proof.
  induction tr as [|e tr IH]; intros o o' n H Hn.
  - injection H as <-. right. exact Hn.
  - destruct (owed_from_step _ _ _ _ H) as (o1 & He & Hr).
    destruct (owe_dirty_kept _ _ _ n He Hn) as [(t & -> & Hc)|Hn1].
    + left. exists t. split; [left; reflexivity|exact Hc].
    + destruct (IH _ _ _ Hr Hn1) as [(t & Ht & Hc)|Hd]; [left|right; exact Hd].
      exists t. split; [right; exact Ht|exact Hc].
Qed.

Lemma writes_dirty o e o1 n :
  owe o e = Some o1 -> writes_node e n = true -> In n (dirty o1).
Proof.
  intros H Hw. destruct e; simpl in Hw; try discriminate.
  - injection H as <-. simpl. left. apply Z.eqb_eq, Hw.
  - destruct s; [discriminate|]. injection H as <-. simpl. left. apply Z.eqb_eq, Hw.
  - destruct s; [discriminate|]. destruct ok; [|discriminate]. simpl in H.
    destruct (existsb _ _); [discriminate|]. injection H as <-. simpl. left.
    apply Z.eqb_eq, Hw.
Qed.

Lemma cas_not_dirty o s x d o1 :
  owe o (ECas s x d true) = Some o1 -> ~ In (getPtr d) (dirty o) /\ In s (pending o1).
Proof.
  simpl. destruct (existsb _ _) eqn:E; [discriminate|]. intros H. injection H as <-.
  split; [|simpl; auto]. intros Hin.
  assert (existsb (Z.eqb (getPtr d)) (dirty o) = true); [|congruence].
  apply existsb_exists. exists (getPtr d). split; [exact Hin|apply Z.eqb_refl].
Qed.

Lemma owe_pending_kept o e o1 s :
  owe o e = Some o1 -> In s (pending o) ->
  In s (pending o1) \/ (exists t, e = EClwb t /\ covers t s = true /\ In s (flushed o1)).
Proof.
  intros H Hs. destruct e; simpl in H; try (injection H as <-; left; exact Hs).
  - destruct ok; [|injection H as <-; left; exact Hs].
    destruct (existsb _ _); [discriminate|]. injection H as <-. left. simpl. auto.
  - injection H as <-. simpl. destruct (covers t s) eqn:Ec.
    + right. exists t. split; [reflexivity|]. split; [exact Ec|].
      apply in_or_app. left. apply filter_In. auto.
    + left. apply filter_In. rewrite Ec. auto.
Qed.

Lemma owe_flushed_kept o e o1 s :
  owe o e = Some o1 -> In s (flushed o) -> In s (flushed o1) \/ e = ESfence.
Proof.
  intros H Hs. destruct e; simpl in H; try (injection H as <-; left; exact Hs).
  - destruct ok; [|injection H as <-; left; exact Hs].
    destruct (existsb _ _); [discriminate|]. injection H as <-. left. exact Hs.
  - injection H as <-. left. simpl. apply in_or_app. auto.
  - right. reflexivity.
Qed.

Lemma flushed_kept tr : forall o o' s,
  owed_from (Some o) tr = Some o' -> In s (flushed o) ->
  In s (flushed o') \/ In ESfence tr.
Proof.
  induction tr as [|e tr IH]; intros o o' s H Hs.
  - injection H as <-. left. exact Hs.
  - destruct (owed_from_step _ _ _ _ H) as (o1 & He & Hr).
    destruct (owe_flushed_kept _ _ _ s He Hs) as [Hs1| ->]; [|right; left; reflexivity].
    destruct (IH _ _ _ Hr Hs1) as [Hf|Hf]; [left; exact Hf|right; right; exact Hf].
Qed.

Lemma pending_kept tr : forall o o' s,
  owed_from (Some o) tr = Some o' -> In s (pending o) ->
  In s (pending o') \/
  exists post1 t post2 o1,
    tr = post1 ++ EClwb t :: post2 /\ covers t s = true /\
    owed_from (Some o1) post2 = Some o' /\ In s (flushed o1).
Proof.
  induction tr as [|e tr IH]; intros o o' s H Hs.
  - injection H as <-. left. exact Hs.
  - destruct (owed_from_step _ _ _ _ H) as (o1 & He & Hr).
    destruct (owe_pending_kept _ _ _ s He Hs) as [Hs1|(t & -> & Hc & Hf)].
    + destruct (IH _ _ _ Hr Hs1) as [Hp|(post1 & t & post2 & o2 & -> & Hc & Hr2 & Hf)];
        [left; exact Hp|right].
      exists (e :: post1), t, post2, o2. auto.
    + right. exists [], t, tr, o1. auto.
Qed.

(** A trace the checker accepts keeps the order. *)
Lemma durable_ordered tr : durable tr = true -> ordered tr.
Proof.
  unfold durable. change (owed_after tr) with (owed_from (Some (mkOwed [] [] [])) tr).
  destruct (owed_from _ tr) as [oe|] eqn:E; [|discriminate].
  destruct (pending oe) eqn:Ep; [|discriminate].
  destruct (flushed oe) eqn:Ef; [|discriminate]. intros _.
  intros pre s x d post ->.
  destruct (owed_from_split _ _ _ _ E) as (oc & Epre & Erest).
  destruct (owed_from_step _ _ _ _ Erest) as (od & Hcas & Epost).
  destruct (cas_not_dirty _ _ _ _ _ Hcas) as [Hclean Hpend].
  split.
  - intros pre1 e pre2 -> Hw.
    destruct (owed_from_split _ _ _ _ Epre) as (oa & _ & E2).
    destruct (owed_from_step _ _ _ _ E2) as (ob & He & E3).
    destruct (dirty_kept _ _ _ _ E3 (writes_dirty _ _ _ _ He Hw)) as [Hc|Hd];
      [exact Hc|contradiction].
  - destruct (pending_kept _ _ _ _ Epost Hpend)
      as [Hp|(post1 & t & post2 & o1 & -> & Hc & E2 & Hf)].
    + rewrite Ep in Hp. destruct Hp.
    + exists post1, t, post2. split; [reflexivity|]. split; [exact Hc|].
      destruct (flushed_kept _ _ _ _ E2 Hf) as [Hx|Hx]; [|exact Hx].
      rewrite Ef in Hx. destruct Hx.
Qed.

(** ** The properties of the specification *)

Section Properties.

Variable hash_fn : string -> Z.
Variable sizeof_Node : Z.
Variable string_request : string -> Z.
Hypothesis sizeof_Node_pos : 0 < sizeof_Node.
Hypothesis string_request_nonneg : forall s, 0 <= string_request s.

Local Abbreviation bucket_of := (PHT.bucket_of hash_fn).
Local Abbreviation Rep := (PHT.Rep hash_fn).
Local Abbreviation bound := (PHT.bound hash_fn).
Local Abbreviation node_bytes := (PHT.node_bytes sizeof_Node string_request).
Local Abbreviation mem_ascending := (PHT.mem_ascending hash_fn).
Local Abbreviation asc_or_window := (PHT.asc_or_window hash_fn).
Local Abbreviation get := (PHT.get hash_fn).
Local Abbreviation findNode := (PHT.findNode hash_fn).
Local Abbreviation remove := (PHT.remove hash_fn).
Local Abbreviation put := (PHT.put hash_fn sizeof_Node string_request).
Local Abbreviation insert := (PHT.insert hash_fn sizeof_Node string_request).
Local Abbreviation replace := (PHT.replace hash_fn sizeof_Node string_request).
Local Abbreviation new_Node := (PHT.new_Node sizeof_Node string_request).


Lemma node_bytes_nonneg k v : 0 < node_bytes k v.
Proof. apply node_bytes_pos; auto. Qed.

(** C2.  On a quiescent table with room for the nodes, [put(k, v1)]
    returns the value the table bound to [k], or none, and leaves [k]
    bound to [v1] and every other key as it was; the sequence
    [put(k, v1); put(k, v2); get(k)] returns the old binding, then
    [v1], then [v2], and leaves [k] bound to [v2]. *)
Theorem put_installs k v1 v2 tid w ls fuel :
  Rep w ls -> (length (ls (bucket_of k)) + 2 < fuel)%nat ->
  brk w + node_bytes k v1 + node_bytes k v2 <= limit w ->
  (exists w1 ls1,
      put fuel k v1 tid w = Ret (bound ls k) w1 /\ Rep w1 ls1 /\
      forall k', bound ls1 k' = if String.eqb k' k then Some v1 else bound ls k') /\
  (exists w3 ls3,
      (r1 <- put fuel k v1 tid ;; r2 <- put fuel k v2 tid ;; r3 <- get fuel k tid ;;
       ret (r1, r2, r3)) w = Ret (bound ls k, Some v1, Some v2) w3 /\
      Rep w3 ls3 /\
      forall k', bound ls3 k' = if String.eqb k' k then Some v2 else bound ls k').
Proof.
  intros HR Hf Hmem.
  pose proof (node_bytes_nonneg k v2) as Hp2.
  destruct (put_sequential hash_fn sizeof_Node string_request sizeof_Node_pos string_request_nonneg
              k v1 tid w ls fuel HR ltac:(lia) ltac:(lia))
    as (w1 & ls1 & E1 & L1 & R1 & B1 & _ & K1 & M1).
  split; [exists w1, ls1; auto|].
  destruct (put_sequential hash_fn sizeof_Node string_request sizeof_Node_pos string_request_nonneg
              k v2 tid w1 ls1 fuel R1 ltac:(specialize (L1 (bucket_of k)); lia) ltac:(lia))
    as (w2 & ls2 & E2 & L2 & R2 & B2 & _ & K2 & M2).
  destruct (get_sequential hash_fn k tid w2 ls2 fuel R2
              ltac:(specialize (L1 (bucket_of k)); specialize (L2 (bucket_of k)); lia))
    as (w3 & ls3 & E3 & L3 & R3 & V3 & _).
  exists w3, ls3. split; [|split; [exact R3|]].
  - rewrite (bind_ret_eq _ _ _ _ _ E1). cbv beta.
    rewrite (bind_ret_eq _ _ _ _ _ E2). cbv beta.
    rewrite (bind_ret_eq _ _ _ _ _ E3). cbv beta. unfold ret.
    rewrite B2, B1, !String.eqb_refl. reflexivity.
  - intros k'. unfold PHT.bound. rewrite V3. fold (bound ls2 k'). rewrite B2.
    destruct (String.eqb k' k) eqn:E; [reflexivity|]. rewrite B1, E. reflexivity.
Qed.

(** C3.  On a quiescent table, absence is a result and no error: on
    a key the table does not bind, [get] and [remove] (and [replace])
    return none; on a key it binds, [insert] returns false.  Starting
    without [k], [insert(k, v1); insert(k, v2)] returns [(true, false)]
    and leaves [k] bound to [v1]; starting with [k] bound to [v0],
    [remove(k); remove(k)] returns [(some v0, none)]. *)
Theorem absence_is_a_value k v1 v2 tid w ls fuel :
  Rep w ls -> (length (ls (bucket_of k)) + 2 < fuel)%nat ->
  brk w + node_bytes k v1 + node_bytes k v2 <= limit w ->
  (bound ls k = None ->
     (exists w', get fuel k tid w = Ret None w') /\
     (exists w', remove fuel k tid w = Ret None w') /\
     (exists w', replace fuel k v1 tid w = Ret None w')) /\
  (is_Some (bound ls k) -> exists w', insert fuel k v1 tid w = Ret false w') /\
  (bound ls k = None ->
     exists w' ls',
       (r1 <- insert fuel k v1 tid ;; r2 <- insert fuel k v2 tid ;; ret (r1, r2)) w
         = Ret (true, false) w' /\
       Rep w' ls' /\ bound ls' k = Some v1 /\
       forall j, (length (ls' j) <= length (ls j) + 2)%nat) /\
  (forall v0, bound ls k = Some v0 ->
     exists w' ls',
       (r1 <- remove fuel k tid ;; r2 <- remove fuel k tid ;; ret (r1, r2)) w
         = Ret (Some v0, None) w' /\
       Rep w' ls' /\ bound ls' k = None).
Proof.
  intros HR Hf Hmem.
  pose proof (node_bytes_nonneg k v2) as Hp2.
  pose proof (node_bytes_nonneg k v1) as Hp1.
  split; [|split; [|split]].
  - intros Hn. split; [|split].
    + destruct (get_sequential hash_fn k tid w ls fuel HR ltac:(lia)) as (w' & ls' & E & _).
      exists w'. rewrite E, Hn. reflexivity.
    + destruct (remove_sequential hash_fn k tid w ls fuel HR ltac:(lia)) as (w' & ls' & E & _).
      exists w'. rewrite E, Hn. reflexivity.
    + destruct (replace_sequential hash_fn sizeof_Node string_request sizeof_Node_pos
                  string_request_nonneg k v1 tid w ls fuel HR ltac:(lia) ltac:(lia))
        as (w' & ls' & E & _).
      exists w'. rewrite E, Hn. reflexivity.
  - intros [v0 Hs].
    destruct (insert_sequential hash_fn sizeof_Node string_request sizeof_Node_pos
                string_request_nonneg k v1 tid w ls fuel HR ltac:(lia) ltac:(lia))
      as (w' & ls' & E & _).
    exists w'. rewrite E, Hs. reflexivity.
  - intros Hn.
    destruct (insert_sequential hash_fn sizeof_Node string_request sizeof_Node_pos
                string_request_nonneg k v1 tid w ls fuel HR ltac:(lia) ltac:(lia))
      as (w1 & ls1 & E1 & L1 & R1 & B1 & _ & _ & K1 & M1).
    destruct (insert_sequential hash_fn sizeof_Node string_request sizeof_Node_pos
                string_request_nonneg k v2 tid w1 ls1 fuel R1
                ltac:(specialize (L1 (bucket_of k)); lia) ltac:(lia))
      as (w2 & ls2 & E2 & L2 & R2 & B2 & _).
    assert (Hb1 : bound ls1 k = Some v1).
    { rewrite B1, String.eqb_refl, Hn. reflexivity. }
    exists w2, ls2. split; [|split; [exact R2|split]].
    + rewrite (bind_ret_eq _ _ _ _ _ E1). cbv beta.
      rewrite (bind_ret_eq _ _ _ _ _ E2). cbv beta. unfold ret.
      rewrite Hn, Hb1. reflexivity.
    + rewrite B2, String.eqb_refl, Hb1. reflexivity.
    + intros j. specialize (L1 j). specialize (L2 j). lia.
  - intros v0 Hs.
    destruct (remove_sequential hash_fn k tid w ls fuel HR ltac:(lia))
      as (w1 & ls1 & E1 & L1 & R1 & B1 & _).
    destruct (remove_sequential hash_fn k tid w1 ls1 fuel R1 ltac:(specialize (L1 (bucket_of k)); lia))
      as (w2 & ls2 & E2 & L2 & R2 & B2 & _).
    assert (Hb1 : bound ls1 k = None).
    { rewrite B1, String.eqb_refl. reflexivity. }
    exists w2, ls2. split; [|split; [exact R2|]].
    + rewrite (bind_ret_eq _ _ _ _ _ E1). cbv beta.
      rewrite (bind_ret_eq _ _ _ _ _ E2). cbv beta. unfold ret.
      rewrite Hs, Hb1. reflexivity.
    + rewrite B2, String.eqb_refl. reflexivity.
Qed.


(** C10.  The node that [insert] and [replace] build before they look
    for the key is at the address [brk w].  When [insert(k, v)] finds
    [k] bound and returns false, and when [replace(k, v)] finds [k]
    unbound and returns none, every key is bound as before, no chain
    holds a node it did not hold before, and the node at [brk w] has
    been given back to the allocator. *)
Theorem refused_mutation_leaves_table k v tid w ls fuel :
  Rep w ls -> (length (ls (bucket_of k)) < fuel)%nat ->
  brk w + node_bytes k v <= limit w ->
  (exists wa, new_Node k v 0 w = Ret (brk w) wa /\ is_Some (heap wa !! brk w)) /\
  (is_Some (bound ls k) ->
     exists w' ls',
       insert fuel k v tid w = Ret false w' /\ Rep w' ls' /\
       (forall k', bound ls' k' = bound ls k') /\
       (forall j e, e ∈ ls' j -> e ∈ ls j) /\
       heap w' !! brk w = None) /\
  (bound ls k = None ->
     exists w' ls',
       replace fuel k v tid w = Ret None w' /\ Rep w' ls' /\
       (forall k', bound ls' k' = bound ls k') /\
       (forall j e, e ∈ ls' j -> e ∈ ls j) /\
       heap w' !! brk w = None).
Proof.
  intros HR Hf Hmem. split; [|split].
  - destruct (prologue hash_fn sizeof_Node string_request sizeof_Node_pos
                string_request_nonneg k v w ls HR Hmem) as (wa & E & Hmid & _).
    exists wa. split; [exact E|]. destruct Hmid as [_ _ _ _ (nd & Hnd & _) _].
    rewrite Hnd. eauto.
  - intros [v0 Hs].
    destruct (insert_sequential hash_fn sizeof_Node string_request sizeof_Node_pos
                string_request_nonneg k v tid w ls fuel HR Hf Hmem)
      as (w' & ls' & E & _ & R' & B' & _ & Hfree & _).
    destruct (Hfree ltac:(eauto)) as [Hgone Hsub].
    exists w', ls'. rewrite E, Hs. split; [reflexivity|]. split; [exact R'|].
    split; [|split; [exact Hsub|exact Hgone]].
    intros k'. rewrite B'. destruct (String.eqb_spec k' k) as [->|]; [|reflexivity].
    rewrite Hs. reflexivity.
  - intros Hn.
    destruct (replace_sequential hash_fn sizeof_Node string_request sizeof_Node_pos
                string_request_nonneg k v tid w ls fuel HR Hf Hmem)
      as (w' & ls' & E & _ & R' & B' & _ & Hfree & _).
    destruct (Hfree Hn) as [Hgone Hsub].
    exists w', ls'. rewrite E, Hn. split; [reflexivity|]. split; [exact R'|].
    split; [|split; [exact Hsub|exact Hgone]].
    intros k'. rewrite B'. destruct (String.eqb_spec k' k) as [->|]; [|reflexivity].
    rewrite Hn. reflexivity.
Qed.

Lemma new_Node_exit k v n w :
  limit w < brk w + sizeof_Node ->
  new_Node k v n w = Exit 1 (log (EMalloc sizeof_Node 0) w).
Proof.
  intros H. unfold PHT.new_Node, Node_operator_new, bind, RP_malloc.
  destruct (Z.leb_spec (brk w + sizeof_Node) (limit w)); [lia|]. reflexivity.
Qed.

Lemma new_Node_throw k v n w :
  brk w + sizeof_Node <= limit w -> 0 < brk w ->
  string_request k <> 0 ->
  limit w < brk w + align16 sizeof_Node + string_request k ->
  exists w', new_Node k v n w = Throw w' /\
    heap w' = delete (brk w) (heap w) /\ buckets w' = buckets w /\
    EFree (brk w) ∈ trace w'.
Proof.
  intros H1 Hb H2 H3. unfold PHT.new_Node, Node_operator_new.
  unfold bind at 1. unfold bind at 1. unfold RP_malloc at 1.
  destruct (Z.leb_spec (brk w + sizeof_Node) (limit w)); [|lia].
  destruct (Z.eqb_spec (brk w) 0); [lia|]. unfold ret at 1.
  unfold on_throw, bind at 1, pstring_copy at 1.
  destruct (Z.eqb_spec (string_request k) 0); [lia|].
  unfold bind at 1, my_alloc_allocate, bind at 1, RP_malloc.
  cbn [brk limit advance set_brk log set_trace].
  destruct (Z.leb_spec (brk w + align16 sizeof_Node + string_request k * 1) (limit w)); [lia|].
  cbn. eexists. split; [reflexivity|]. cbn. split; [reflexivity|]. split; [reflexivity|].
  rewrite !elem_of_app. right. apply list_elem_of_singleton. reflexivity.
Qed.

(** C9, as the code has it.  When the allocator returns null for the
    node, [Node::operator new] calls [exit(1)]: [put], [insert] and
    [replace] end the process and return nothing to their caller.  When
    the allocator gives the node and returns null for the characters of
    the key, [my_alloc::allocate] throws [std::bad_alloc], which leaves
    the operation after the memory of the node has been given back; the
    buckets are untouched. *)
Theorem allocation_failure fuel k v tid w :
  (limit w < brk w + sizeof_Node ->
     put fuel k v tid w = Exit 1 (log (EMalloc sizeof_Node 0) w) /\
     insert fuel k v tid w = Exit 1 (log (EMalloc sizeof_Node 0) w) /\
     replace fuel k v tid w = Exit 1 (log (EMalloc sizeof_Node 0) w)) /\
  (brk w + sizeof_Node <= limit w -> 0 < brk w -> string_request k <> 0 ->
   limit w < brk w + align16 sizeof_Node + string_request k ->
     exists w',
       put fuel k v tid w = Throw w' /\
       insert fuel k v tid w = Throw w' /\
       replace fuel k v tid w = Throw w' /\
       heap w' = delete (brk w) (heap w) /\ buckets w' = buckets w /\
       EFree (brk w) ∈ trace w').
Proof.
  split.
  - intros H. unfold PHT.put, PHT.insert, PHT.replace, bind.
    rewrite (new_Node_exit k v 0 w H). repeat split.
  - intros H1 Hb H2 H3.
    destruct (new_Node_throw k v 0 w H1 Hb H2 H3) as (w' & E & Hh & Hbk & Ht).
    exists w'. unfold PHT.put, PHT.insert, PHT.replace, bind. rewrite E. repeat split; assumption.
Qed.


End Properties.

(** ** The properties on the tables of the examples *)

Lemma empty_table_Rep : Rep hash_len (empty_table 16 4096 []) no_chains.
Proof. apply Rep_empty_table; [lia|reflexivity|lia]. Qed.



Lemma put_installs_witness :
  exists w3 ls3,
    (r1 <- put hash_len 72 sso_request 3 "a" "1" 0 ;;
     r2 <- put hash_len 72 sso_request 3 "a" "2" 0 ;;
     r3 <- get hash_len 3 "a" 0 ;;
     ret (r1, r2, r3)) (empty_table 16 4096 []) = Ret (None, Some "1"%string, Some "2"%string) w3 /\
    Rep hash_len w3 ls3 /\ bound hash_len ls3 "a" = Some "2"%string.
Proof.
  destruct (put_installs hash_len 72 sso_request ltac:(lia) sso_request_nonneg
              "a" "1" "2" 0 (empty_table 16 4096 []) no_chains 3 empty_table_Rep
              ltac:(simpl; lia) ltac:(vm_compute; congruence))
    as (_ & w3 & ls3 & E & R3 & B3).
  exists w3, ls3. split; [exact E|]. split; [exact R3|]. rewrite B3. reflexivity.
Defined.

Lemma absence_is_a_value_witness :
  (exists w', get hash_len 3 "a" 0 (empty_table 16 4096 []) = Ret None w') /\
  (exists w', remove hash_len 3 "a" 0 (empty_table 16 4096 []) = Ret None w') /\
  (exists w' ls',
     (r1 <- insert hash_len 72 sso_request 3 "a" "1" 0 ;;
      r2 <- insert hash_len 72 sso_request 3 "a" "1" 0 ;;
      ret (r1, r2)) (empty_table 16 4096 []) = Ret (true, false) w' /\
     Rep hash_len w' ls' /\ bound hash_len ls' "a" = Some "1"%string /\
     exists w'' ls'',
       (r1 <- remove hash_len 5 "a" 0 ;; r2 <- remove hash_len 5 "a" 0 ;; ret (r1, r2)) w'
         = Ret (Some "1"%string, None) w'' /\
       Rep hash_len w'' ls'' /\ bound hash_len ls'' "a" = None).
Proof.
  destruct (absence_is_a_value hash_len 72 sso_request ltac:(lia) sso_request_nonneg
              "a" "1" "1" 0 (empty_table 16 4096 []) no_chains 3 empty_table_Rep
              ltac:(simpl; lia) ltac:(vm_compute; congruence))
    as (H1 & _ & H3 & _).
  destruct (H1 eq_refl) as (Hg & Hr & _).
  split; [exact Hg|]. split; [exact Hr|].
  destruct (H3 eq_refl) as (w' & ls' & E & R' & B' & L').
  exists w', ls'. split; [exact E|]. split; [exact R'|]. split; [exact B'|].
  assert (Ew : w' = world_of ((r1 <- insert hash_len 72 sso_request 3 "a" "1" 0 ;;
      r2 <- insert hash_len 72 sso_request 3 "a" "1" 0 ;;
      ret (r1, r2)) (empty_table 16 4096 [])) (empty_table 16 4096 [])).
  { rewrite E. reflexivity. }
  assert (Hlen : (length (ls' (bucket_of hash_len "a")) <= 2)%nat) by apply (L' _).
  destruct (absence_is_a_value hash_len 72 sso_request ltac:(lia) sso_request_nonneg
              "a" "1" "1" 0 w' ls' 5 R' ltac:(lia)
              ltac:(rewrite Ew; vm_compute; congruence))
    as (_ & _ & _ & H4).
  exact (H4 "1"%string B').
Defined.


Lemma refused_mutation_leaves_table_witness :
  (exists w' ls', replace hash_len 72 sso_request 1 "a" "1" 0 (empty_table 16 4096 []) = Ret None w' /\
     Rep hash_len w' ls' /\ heap w' !! 16 = None) /\
  (exists w1 w2 ls2,
     insert hash_len 72 sso_request 1 "a" "1" 0 (empty_table 16 4096 []) = Ret true w1 /\
     insert hash_len 72 sso_request 2 "a" "2" 0 w1 = Ret false w2 /\
     Rep hash_len w2 ls2 /\ bound hash_len ls2 "a" = Some "1"%string /\
     heap w2 !! brk w1 = None).
Proof.
  split.
  - destruct (refused_mutation_leaves_table hash_len 72 sso_request ltac:(lia) sso_request_nonneg
                "a" "1" 0 (empty_table 16 4096 []) no_chains 1 empty_table_Rep
                ltac:(simpl; lia) ltac:(vm_compute; congruence))
      as (_ & _ & H).
    destruct (H eq_refl) as (w' & ls' & E & R' & _ & _ & Hg).
    exists w', ls'. split; [exact E|]. split; [exact R'|exact Hg].
  - destruct (insert_sequential hash_len 72 sso_request ltac:(lia) sso_request_nonneg
                "a" "1" 0 (empty_table 16 4096 []) no_chains 1 empty_table_Rep
                ltac:(simpl; lia) ltac:(vm_compute; congruence))
      as (w1 & ls1 & E1 & L1 & R1 & B1 & _ & _ & K1 & M1).
    assert (Hb : bound hash_len ls1 "a" = Some "1"%string) by (rewrite B1; reflexivity).
    destruct (refused_mutation_leaves_table hash_len 72 sso_request ltac:(lia) sso_request_nonneg
                "a" "2" 0 w1 ls1 2 R1 ltac:(specialize (L1 (bucket_of hash_len "a")); simpl in L1; lia)
                ltac:(rewrite K1, M1; vm_compute; congruence))
      as (_ & H & _).
    destruct (H ltac:(rewrite Hb; eauto)) as (w2 & ls2 & E2 & R2 & B2 & _ & Hg).
    exists w1, w2, ls2. split; [exact E1|]. split; [exact E2|]. split; [exact R2|].
    split; [rewrite B2; exact Hb|exact Hg].
Defined.

Lemma allocation_failure_witness :
  insert hash_len 72 sso_request 4 "a" "1" 0 (empty_table 16 16 [])
    = Exit 1 (log (EMalloc 72 0) (empty_table 16 16 [])) /\
  exists w',
    insert hash_len 72 sso_request 4 "a string of more than fifteen characters" "1" 0
      (empty_table 16 100 []) = Throw w' /\
    heap w' = ∅ /\ buckets w' = ∅ /\ EFree 16 ∈ trace w'.
Proof.
  split.
  - destruct (allocation_failure hash_len 72 sso_request 4 "a" "1" 0 (empty_table 16 16 []))
      as (H & _).
    apply H. vm_compute. reflexivity.
  - destruct (allocation_failure hash_len 72 sso_request 4
                "a string of more than fifteen characters" "1" 0 (empty_table 16 100 []))
      as (_ & H).
    destruct H as (w' & _ & E & _ & Hh & Hb & Ht).
    + vm_compute. congruence.
    + vm_compute. reflexivity.
    + vm_compute. congruence.
    + vm_compute. reflexivity.
    + exists w'. split; [exact E|]. split; [rewrite Hh; apply delete_empty|]. split; [exact Hb|exact Ht].
Defined.

Lemma allocator_null_ends_process :
  RP_malloc 72 (empty_table 16 16 []) = Ret 0 (log (EMalloc 72 0) (empty_table 16 16 [])) /\
  put hash_len 72 sso_request 4 "a" "1" 0 (empty_table 16 16 [])
    = Exit 1 (log (EMalloc 72 0) (empty_table 16 16 [])) /\
  insert hash_len 72 sso_request 4 "a" "1" 0 (empty_table 16 16 [])
    = Exit 1 (log (EMalloc 72 0) (empty_table 16 16 [])) /\
  replace hash_len 72 sso_request 4 "a" "1" 0 (empty_table 16 16 [])
    = Exit 1 (log (EMalloc 72 0) (empty_table 16 16 [])).
Proof. repeat split; vm_compute; reflexivity. Qed.

(** ** More of the hash table: tagged pointers *)

Lemma tagged_uint64 p : 0 <= p < 2 ^ 64 -> tagged p.
Proof.
  intros [H0 H1]. unfold tagged, mixPtrMark, getPtr, getMark.
  apply Z.bits_inj'. intros i Hi.
  rewrite Z.lor_spec, Z.land_spec, MARK_MASK_bits by lia.
  destruct (Z.leb_spec 1 i); simpl.
  - assert (Z.testbit (Z.b2z (negb (Z.land p 1 =? 0))) i = false) as ->.
    { destruct (negb _); simpl; [|apply Z.bits_0].
      replace 1 with (Z.ones 1) by reflexivity. apply Z.ones_spec_high. lia. }
    rewrite orb_false_r. destruct (Z.ltb_spec i 64); simpl; [symmetry; apply andb_true_r|].
    rewrite andb_false_r.
    destruct (Z.eq_dec p 0) as [->|]; [apply Z.bits_0|].
    apply Z.bits_above_log2; [lia|].
    assert (Z.log2 p < 64) by (apply Z.log2_lt_pow2; lia). lia.
  - rewrite andb_false_r. simpl. assert (i = 0) as -> by lia.
    replace (Z.land p 1) with (Z.b2z (Z.testbit p 0)).
    + destruct (Z.testbit p 0); reflexivity.
    + replace 1 with (Z.ones 1) by reflexivity. rewrite Z.land_ones by lia.
      rewrite Z.bit0_mod. reflexivity.
Qed.

(** X2.  The tag of a pointer round-trips: a 64-bit value is its pointer
    part or-ed with its mark; [setMark] sets the mark and keeps the
    pointer part, also of a value that is marked already; the pointer
    part carries no mark, and a value is its own pointer part exactly
    when it is unmarked. *)
Theorem mark_round_trip p :
  0 <= p < 2 ^ 64 ->
  mixPtrMark (getPtr p) (getMark p) = p /\
  getMark (setMark p) = true /\
  getPtr (setMark p) = getPtr p /\
  setMark (setMark p) = setMark p /\
  getMark (getPtr p) = false /\
  getPtr (getPtr p) = getPtr p /\
  (getPtr p = p <-> getMark p = false) /\
  0 <= setMark p < 2 ^ 64.
Proof.
  intros Hp. pose proof (tagged_uint64 p Hp) as Ht.
  split; [symmetry; exact Ht|]. split; [apply getMark_setMark|].
  split; [apply getPtr_setMark|]. split; [|split; [apply getMark_getPtr|]].
  - unfold setMark, mixPtrMark. simpl. rewrite <- Z.lor_assoc. reflexivity.
  - split; [apply getPtr_idem|]. split.
    + split; [apply ptr_unmarked|apply tagged_unmarked, Ht].
    + unfold setMark, mixPtrMark. simpl. split.
      * apply Z.lor_nonneg. lia.
      * destruct (Z.eq_dec p 0) as [->|]; [reflexivity|].
        apply Z.log2_lt_cancel. rewrite Z.log2_lor by lia.
        rewrite Z.log2_pow2 by lia.
        assert (Z.log2 p < 64) by (apply Z.log2_lt_pow2; lia).
        simpl (Z.log2 1). lia.
Qed.

Lemma mark_round_trip_witness :
  mixPtrMark (getPtr 4097) (getMark 4097) = 4097 /\ getPtr 4097 = 4096 /\
  getMark 4097 = true /\ setMark 4096 = 4097.
Proof.
  destruct (mark_round_trip 4097 ltac:(lia)) as (H & _).
  split; [exact H|]. repeat split.
Defined.

Section More.

Variable hash_fn : string -> Z.
Variable sizeof_Node : Z.
Variable string_request : string -> Z.
Hypothesis sizeof_Node_pos : 0 < sizeof_Node.
Hypothesis string_request_nonneg : forall s, 0 <= string_request s.

Local Abbreviation bucket_of := (PHT.bucket_of hash_fn).
Local Abbreviation Rep := (PHT.Rep hash_fn).
Local Abbreviation bound := (PHT.bound hash_fn).
Local Abbreviation node_bytes := (PHT.node_bytes sizeof_Node string_request).
Local Abbreviation mem_ascending := (PHT.mem_ascending hash_fn).
Local Abbreviation asc_or_window := (PHT.asc_or_window hash_fn).
Local Abbreviation get := (PHT.get hash_fn).
Local Abbreviation findNode := (PHT.findNode hash_fn).
Local Abbreviation remove := (PHT.remove hash_fn).
Local Abbreviation put := (PHT.put hash_fn sizeof_Node string_request).
Local Abbreviation insert := (PHT.insert hash_fn sizeof_Node string_request).
Local Abbreviation replace := (PHT.replace hash_fn sizeof_Node string_request).
Local Abbreviation new_Node := (PHT.new_Node sizeof_Node string_request).

Lemma bound_live ls ls' :
  (forall j, live (ls' j) = live (ls j)) -> forall k', bound ls' k' = bound ls k'.
Proof. intros H k'. unfold PHT.bound. rewrite H. reflexivity. Qed.

(** X3.  On a quiescent table [get(k)] returns the value bound to [k],
    or none; it allocates nothing and leaves every key bound as it was,
    so that a second [get(k)] returns the same. *)
Theorem get_reads k tid w ls fuel :
  Rep w ls -> (length (ls (bucket_of k)) < fuel)%nat ->
  exists w' ls',
    get fuel k tid w = Ret (bound ls k) w' /\ Rep w' ls' /\
    (forall k', bound ls' k' = bound ls k') /\
    brk w' = brk w /\
    exists w'', get fuel k tid w' = Ret (bound ls k) w''.
Proof.
  intros HR Hf.
  destruct (get_sequential hash_fn k tid w ls fuel HR Hf)
    as (w1 & ls1 & E1 & L1 & R1 & V1 & _ & _ & K1 & _).
  destruct (get_sequential hash_fn k tid w1 ls1 fuel R1
              ltac:(specialize (L1 (bucket_of k)); lia))
    as (w2 & ls2 & E2 & _).
  exists w1, ls1. split; [exact E1|]. split; [exact R1|].
  split; [apply bound_live, V1|]. split; [exact K1|].
  exists w2. rewrite E2, (bound_live _ _ V1). reflexivity.
Qed.

(** X4.  On a quiescent table that does not bind [k], with room for a
    node, [insert(k, v)] returns true and binds [k] to [v]; every other
    key stays bound as it was, and [get(k)] then returns [v]. *)
Theorem insert_binds k v tid w ls fuel :
  Rep w ls -> (length (ls (bucket_of k)) + 1 < fuel)%nat ->
  brk w + node_bytes k v <= limit w ->
  bound ls k = None ->
  exists w' ls',
    insert fuel k v tid w = Ret true w' /\ Rep w' ls' /\
    (forall k', bound ls' k' = if String.eqb k' k then Some v else bound ls k') /\
    exists w'', get fuel k tid w' = Ret (Some v) w''.
Proof.
  intros HR Hf Hmem Hn.
  destruct (insert_sequential hash_fn sizeof_Node string_request sizeof_Node_pos
              string_request_nonneg k v tid w ls fuel HR ltac:(lia) Hmem)
    as (w1 & ls1 & E1 & L1 & R1 & B1 & _).
  destruct (get_sequential hash_fn k tid w1 ls1 fuel R1
              ltac:(specialize (L1 (bucket_of k)); lia))
    as (w2 & ls2 & E2 & _).
  exists w1, ls1. rewrite E1, Hn. split; [reflexivity|]. split; [exact R1|]. split.
  - intros k'. rewrite B1, Hn. reflexivity.
  - exists w2. rewrite E2, B1, String.eqb_refl, Hn. reflexivity.
Qed.

(** X5.  On a quiescent table [remove(k)] returns the value bound to
    [k], or none, allocates nothing and leaves [k] unbound and every
    other key bound as it was; [get(k)] then returns none. *)
Theorem remove_unbinds k tid w ls fuel :
  Rep w ls -> (length (ls (bucket_of k)) < fuel)%nat ->
  exists w' ls',
    remove fuel k tid w = Ret (bound ls k) w' /\ Rep w' ls' /\
    (forall k', bound ls' k' = if String.eqb k' k then None else bound ls k') /\
    brk w' = brk w /\
    exists w'', get fuel k tid w' = Ret None w''.
Proof.
  intros HR Hf.
  destruct (remove_sequential hash_fn k tid w ls fuel HR Hf)
    as (w1 & ls1 & E1 & L1 & R1 & B1 & _ & K1 & _).
  destruct (get_sequential hash_fn k tid w1 ls1 fuel R1
              ltac:(specialize (L1 (bucket_of k)); lia))
    as (w2 & ls2 & E2 & _).
  exists w1, ls1. split; [exact E1|]. split; [exact R1|]. split; [exact B1|].
  split; [exact K1|]. exists w2. rewrite E2, B1, String.eqb_refl. reflexivity.
Qed.

(** X6.  On a quiescent table that binds [k] to [v0], with room for a
    node, [replace(k, v)] returns [v0] and binds [k] to [v]; every other
    key stays bound as it was, and [get(k)] then returns [v]. *)
Theorem replace_rebinds k v v0 tid w ls fuel :
  Rep w ls -> (length (ls (bucket_of k)) + 1 < fuel)%nat ->
  brk w + node_bytes k v <= limit w ->
  bound ls k = Some v0 ->
  exists w' ls',
    replace fuel k v tid w = Ret (Some v0) w' /\ Rep w' ls' /\
    (forall k', bound ls' k' = if String.eqb k' k then Some v else bound ls k') /\
    exists w'', get fuel k tid w' = Ret (Some v) w''.
Proof.
  intros HR Hf Hmem Hs.
  destruct (replace_sequential hash_fn sizeof_Node string_request sizeof_Node_pos
              string_request_nonneg k v tid w ls fuel HR ltac:(lia) Hmem)
    as (w1 & ls1 & E1 & L1 & R1 & B1 & _).
  destruct (get_sequential hash_fn k tid w1 ls1 fuel R1
              ltac:(specialize (L1 (bucket_of k)); lia))
    as (w2 & ls2 & E2 & _).
  exists w1, ls1. rewrite E1, Hs. split; [reflexivity|]. split; [exact R1|]. split.
  - intros k'. rewrite B1, Hs. reflexivity.
  - exists w2. rewrite E2, B1, String.eqb_refl, Hs. reflexivity.
Qed.

(** X7.  On a quiescent table [findNode] for [k] returns true exactly
    when [k] is bound.  It leaves every key bound as it was; [prev] holds
    the unmarked pointer [curr]; and [curr] is null, or an unmarked node
    whose key is not below [k], with [next] its successor.  When the
    result is true, the key of [curr] is [k] and its value the value
    bound to [k]; when it is false, the key of [curr] is above [k]. *)
Theorem findNode_finds k tid w ls fuel next0 :
  Rep w ls -> (length (ls (bucket_of k)) < fuel)%nat ->
  exists prev curr next w' ls',
    findNode fuel k tid next0 w
      = Ret (bool_decide (is_Some (bound ls k)), prev, curr, next) w' /\
    Rep w' ls' /\ (forall k', bound ls' k' = bound ls k') /\
    read_slot prev w' = Some curr /\
    (curr = 0 /\ bound ls k = None \/
     exists nd, heap w' !! curr = Some nd /\ getMark (PHT.next nd) = false /\
       next = getPtr (PHT.next nd) /\
       match bound ls k with
       | Some v => chars (key nd) = k /\ chars (val nd) = v
       | None => str_lt k (chars (key nd))
       end).
Proof.
  intros [He Hm Ha Hd Hb] Hf.
  destruct (findNode_seq hash_fn k tid _ _ ls fuel next0 He Hm Ha Hf)
    as (w1 & nx & Ef & Hnx & Hm1 & [S1 S2 S3 S4 S5 S6]).
  set (l := ls (bucket_of k)) in *. set (K := scan_keep k l) in *.
  set (R := scan_rest k l) in *.
  set (ls1 := set_chain (bucket_of k) (K ++ R) ls) in *.
  assert (El1 : ls1 (bucket_of k) = K ++ R) by apply set_chain_eq.
  assert (Hlive : forall j, live (ls1 j) = live (ls j)).
  { intros j. unfold ls1, set_chain. destruct (Z.eqb_spec j (bucket_of k)) as [->|]; [|reflexivity].
    apply scan_live. }
  assert (HR1 : Rep w1 ls1).
  { split; auto.
    - rewrite S2. exact Hm1.
    - intros j. unfold keys. rewrite Hlive. apply Ha.
    - intros a Hx. rewrite S2. apply Hd. apply S5. exact Hx.
    - rewrite S2, S3. exact Hb. }
  assert (Hprev : read_slot (slot_at (bucket_of k) K) w1 = Some (start R)).
  { apply (slot_read hash_fn (brk w) w1 ls1 (bucket_of k) K R Hm1 El1).
    apply scan_keep_unmarked. }
  exists (slot_at (bucket_of k) K), (start R), nx, w1, ls1.
  destruct (scan_shape k l (Ha (bucket_of k)))
    as [HK [(Hfound & c & R' & ER & Hc & Hck & HR')|(Hfound & HR0)]];
    change (scan_keep k l) with K in HK.
  - pose proof (live_found k l c R' ER Hc Hck) as Elive.
    change (scan_rest k l) with R in ER.
    assert (Hb' : bound ls k = Some (e_val c)).
    { unfold PHT.bound. fold l. rewrite Elive. rewrite assoc_app_none by (apply keys_ne_lt; exact HK).
      simpl. rewrite String.eqb_refl. reflexivity. }
    rewrite Ef, Hfound, Hb'.
    rewrite (bool_decide_eq_true_2 (is_Some (Some (e_val c)))) by eauto.
    split; [reflexivity|]. split; [exact HR1|]. split; [apply bound_live, Hlive|].
    split; [exact Hprev|]. right.
    rewrite ER in El1.
    destruct (chain_split _ _ _ _ _ _ _ _ _ Hm1 El1) as (nd & Lc & Eec & _ & Hn & _).
    exists nd. rewrite ER. cbn [start]. split; [exact Lc|].
    assert (Hmk : getMark (PHT.next nd) = false).
    { rewrite Eec in Hc. exact Hc. }
    split; [exact Hmk|]. split; [rewrite (Hnx _ _ ER); symmetry; exact Hn|].
    rewrite Eec in Hck. rewrite Eec. split; [exact Hck|reflexivity].
  - change (scan_rest k l) with R in HR0.
    assert (Hb' : bound ls k = None).
    { unfold PHT.bound. fold l. rewrite <- (scan_live k l), live_app. fold K R.
      rewrite assoc_app_none by (apply keys_ne_lt; exact HK).
      apply assoc_none. apply keys_ne_gt. exact HR0. }
    rewrite Ef, Hfound, Hb'.
    rewrite (bool_decide_eq_false_2 (is_Some None)) by (intros [? ?]; discriminate).
    split; [reflexivity|]. split; [exact HR1|]. split; [apply bound_live, Hlive|].
    split; [exact Hprev|].
    destruct R as [|c R'] eqn:ER; [left; split; reflexivity|right].
    destruct (scan_rest_head k l c R' ER) as [Hc Hcmp].
    destruct (chain_split _ _ _ _ _ _ _ _ _ Hm1 El1) as (nd & Lc & Eec & _ & Hn & _).
    exists nd. cbn [start]. split; [exact Lc|].
    assert (Hmk : getMark (PHT.next nd) = false).
    { rewrite Eec in Hc. exact Hc. }
    split; [exact Hmk|]. split; [rewrite (Hnx _ _ eq_refl); symmetry; exact Hn|].
    unfold keys in HR0. cbn [live] in HR0. rewrite Hc in HR0.
    cbn [fmap list_fmap fst] in HR0. apply Forall_cons in HR0 as [Hlt _].
    rewrite Eec in Hlt. exact Hlt.
Qed.

Lemma sync_fresh_trace w : trace w = [] -> sync [] w.
Proof.
  intros Ht. exists []. split; [|intros y Hy; exact Hy].
  split; [rewrite Ht; reflexivity|]. intros d Hd. apply elem_of_nil in Hd. destruct Hd.
Qed.

Lemma sync_start tid w : trace w = [] -> sync [] (log (EStartOp tid) w).
Proof. intros Ht. apply sync_log; [apply sync_fresh_trace, Ht|exact I]. Qed.

(** X8.  Whatever the other threads write in between, a [findNode] or a
    [get] that returns has written back and fenced every slot it
    changed by a CAS: a traversal that unlinks a marked node persists
    the unlinking before it goes on, so that a read never returns from
    a table whose last change it made is not durable. *)
Theorem reads_durable fuel k tid next w :
  trace w = [] ->
  (forall r w', findNode fuel k tid next w = Ret r w' ->
     durable (trace w') = true /\ ordered (trace w')) /\
  (forall r w', get fuel k tid w = Ret r w' ->
     durable (trace w') = true /\ ordered (trace w')).
Proof.
  intros Ht.
  assert (Hboth : forall tr, durable tr = true -> durable tr = true /\ ordered tr).
  { intros tr H. split; [exact H|apply durable_ordered, H]. }
  split; intros r w' H; apply Hboth.
  - apply quiet_durable. apply (sync_quiet []).
    eapply findNode_sync; [|exact H]. apply sync_fresh_trace, Ht.
  - unfold PHT.get in H.
    apply bind_inv in H as (? & w2 & H2 & H). injection H2 as _ <-.
    apply bind_inv in H as ([[[found prev] curr] nx] & w3 & H3 & H).
    apply bind_inv in H as (res & w4 & H4 & H).
    apply bind_inv in H as (? & w5 & H5 & H). injection H5 as _ <-. injection H as <- <-.
    apply quiet_durable, quiet_end_op. apply (sync_quiet []).
    assert (Hs3 : sync [] w3).
    { eapply findNode_sync; [|exact H3]. apply sync_start, Ht. }
    destruct found.
    + apply bind_inv in H4 as (v & w6 & H6 & H4). injection H4 as _ <-.
      apply read_val_inv in H6. subst w6. exact Hs3.
    + injection H4 as _ <-. exact Hs3.
Qed.

(** X9.  When the allocator gives the node and the characters of the
    key and returns null for the characters of the value, the
    constructor of the node throws [std::bad_alloc]; before the
    exception leaves [put], [insert] or [replace], the characters of the
    key and then the node are given back to the allocator, and no
    bucket and no other node is touched. *)
Theorem construction_gives_back fuel k v tid w :
  0 < brk w -> brk w + sizeof_Node <= limit w ->
  string_request k <> 0 ->
  brk w + align16 sizeof_Node + string_request k <= limit w ->
  string_request v <> 0 ->
  limit w < brk w + align16 sizeof_Node + align16 (string_request k) + string_request v ->
  exists w',
    put fuel k v tid w = Throw w' /\
    insert fuel k v tid w = Throw w' /\
    replace fuel k v tid w = Throw w' /\
    trace w' = trace w ++
      [ EMalloc sizeof_Node (brk w);
        EMalloc (string_request k) (brk w + align16 sizeof_Node);
        EMalloc (string_request v) 0;
        EFree (brk w + align16 sizeof_Node);
        EFree (brk w) ] /\
    heap w' = delete (brk w) (delete (brk w + align16 sizeof_Node) (heap w)) /\
    buckets w' = buckets w.
Proof.
  intros Hb H1 Hk Hk2 Hv Hv2.
  assert (Ha : 0 <= align16 sizeof_Node) by (pose proof (align16_ge sizeof_Node); lia).
  assert (E : exists w', new_Node k v 0 w = Throw w' /\
    trace w' = trace w ++
      [ EMalloc sizeof_Node (brk w);
        EMalloc (string_request k) (brk w + align16 sizeof_Node);
        EMalloc (string_request v) 0;
        EFree (brk w + align16 sizeof_Node);
        EFree (brk w) ] /\
    heap w' = delete (brk w) (delete (brk w + align16 sizeof_Node) (heap w)) /\
    buckets w' = buckets w).
  { unfold PHT.new_Node, Node_operator_new.
    unfold bind at 1. unfold bind at 1. unfold RP_malloc at 1.
    destruct (Z.leb_spec (brk w + sizeof_Node) (limit w)); [|lia].
    destruct (Z.eqb_spec (brk w) 0); [lia|]. unfold ret at 1.
    unfold on_throw at 1, bind at 1, pstring_copy at 1.
    destruct (Z.eqb_spec (string_request k) 0); [lia|].
    unfold bind at 1, my_alloc_allocate at 1, bind at 1, RP_malloc at 1.
    cbn [brk limit advance set_brk log set_trace].
    rewrite Z.mul_1_r.
    destruct (Z.leb_spec (brk w + align16 sizeof_Node + string_request k) (limit w)); [|lia].
    destruct (Z.eqb_spec (brk w + align16 sizeof_Node) 0); [lia|]. cbn [negb].
    unfold ret at 1. unfold ret at 1.
    unfold bind at 1, on_throw at 1, pstring_copy at 1.
    destruct (Z.eqb_spec (string_request v) 0); [lia|].
    unfold bind at 1, my_alloc_allocate at 1, bind at 1, RP_malloc at 1.
    cbn [brk limit advance set_brk log set_trace].
    rewrite Z.mul_1_r.
    destruct (Z.leb_spec (brk w + align16 sizeof_Node + align16 (string_request k)
                          + string_request v) (limit w)); [lia|].
    cbn [Z.eqb negb]. unfold throw_bad_alloc at 1.
    unfold pstring_destroy at 1. cbn [data].
    destruct (Z.eqb_spec (brk w + align16 sizeof_Node) 0); [lia|].
    cbn. eexists. split; [reflexivity|]. cbn. rewrite <- !app_assoc. cbn.
    split; [reflexivity|]. split; reflexivity. }
  destruct E as (w' & E & Ht & Hh & Hbk).
  exists w'. unfold PHT.put, PHT.insert, PHT.replace, bind. rewrite E.
  repeat split; assumption.
Qed.

End More.

(** ** Examples *)

Lemma one_key_table :
  exists w1 ls1,
    insert hash_len 72 sso_request 1 "a" "1" 0 (empty_table 16 4096 []) = Ret true w1 /\
    Rep hash_len w1 ls1 /\ bound hash_len ls1 "a" = Some "1"%string /\
    (forall j, (length (ls1 j) <= 1)%nat) /\ brk w1 + 80 <= limit w1.
Proof.
  destruct (insert_sequential hash_len 72 sso_request ltac:(lia) sso_request_nonneg
              "a" "1" 0 (empty_table 16 4096 []) no_chains 1 empty_table_Rep
              ltac:(simpl; lia) ltac:(vm_compute; congruence))
    as (w1 & ls1 & E1 & L1 & R1 & B1 & _ & _ & K1 & M1).
  exists w1, ls1. split; [exact E1|]. split; [exact R1|].
  split; [rewrite B1; reflexivity|]. split; [intros j; apply (L1 j)|].
  rewrite K1, M1. vm_compute. congruence.
Qed.

Lemma get_reads_witness :
  exists w1 w2 w3,
    insert hash_len 72 sso_request 1 "a" "1" 0 (empty_table 16 4096 []) = Ret true w1 /\
    get hash_len 2 "a" 0 w1 = Ret (Some "1"%string) w2 /\ brk w2 = brk w1 /\
    get hash_len 2 "a" 0 w2 = Ret (Some "1"%string) w3.
Proof.
  destruct one_key_table as (w1 & ls1 & E1 & R1 & B1 & L1 & M1).
  destruct (get_reads hash_len "a" 0 w1 ls1 2 R1
              ltac:(specialize (L1 (bucket_of hash_len "a")); lia))
    as (w2 & ls2 & E2 & _ & _ & K2 & w3 & E3).
  exists w1, w2, w3. rewrite B1 in E2, E3. repeat split; assumption.
Defined.

Lemma insert_binds_witness :
  exists w1 w2,
    insert hash_len 72 sso_request 2 "a" "1" 0 (empty_table 16 4096 []) = Ret true w1 /\
    get hash_len 2 "a" 0 w1 = Ret (Some "1"%string) w2.
Proof.
  destruct (insert_binds hash_len 72 sso_request ltac:(lia) sso_request_nonneg
              "a" "1" 0 (empty_table 16 4096 []) no_chains 2 empty_table_Rep
              ltac:(simpl; lia) ltac:(vm_compute; congruence) eq_refl)
    as (w1 & ls1 & E1 & _ & _ & w2 & E2).
  exists w1, w2. split; assumption.
Defined.

Lemma remove_unbinds_witness :
  exists w1 w2 w3,
    insert hash_len 72 sso_request 1 "a" "1" 0 (empty_table 16 4096 []) = Ret true w1 /\
    remove hash_len 2 "a" 0 w1 = Ret (Some "1"%string) w2 /\
    get hash_len 2 "a" 0 w2 = Ret None w3.
Proof.
  destruct one_key_table as (w1 & ls1 & E1 & R1 & B1 & L1 & M1).
  destruct (remove_unbinds hash_len "a" 0 w1 ls1 2 R1
              ltac:(specialize (L1 (bucket_of hash_len "a")); lia))
    as (w2 & ls2 & E2 & _ & _ & _ & w3 & E3).
  exists w1, w2, w3. rewrite B1 in E2. repeat split; assumption.
Defined.

Lemma replace_rebinds_witness :
  exists w1 w2 w3,
    insert hash_len 72 sso_request 1 "a" "1" 0 (empty_table 16 4096 []) = Ret true w1 /\
    replace hash_len 72 sso_request 3 "a" "2" 0 w1 = Ret (Some "1"%string) w2 /\
    get hash_len 3 "a" 0 w2 = Ret (Some "2"%string) w3.
Proof.
  destruct one_key_table as (w1 & ls1 & E1 & R1 & B1 & L1 & M1).
  destruct (replace_rebinds hash_len 72 sso_request ltac:(lia) sso_request_nonneg
              "a" "2" "1" 0 w1 ls1 3 R1
              ltac:(specialize (L1 (bucket_of hash_len "a")); lia)
              ltac:(exact M1) B1)
    as (w2 & ls2 & E2 & _ & _ & w3 & E3).
  exists w1, w2, w3. repeat split; assumption.
Defined.

Lemma findNode_finds_witness :
  exists w1 prev curr next w2 nd,
    insert hash_len 72 sso_request 1 "a" "1" 0 (empty_table 16 4096 []) = Ret true w1 /\
    findNode hash_len 2 "a" 0 0 w1 = Ret (true, prev, curr, next) w2 /\
    read_slot prev w2 = Some curr /\ heap w2 !! curr = Some nd /\
    chars (key nd) = "a"%string /\ chars (val nd) = "1"%string.
Proof.
  destruct one_key_table as (w1 & ls1 & E1 & R1 & B1 & L1 & M1).
  destruct (findNode_finds hash_len "a" 0 w1 ls1 2 0 R1
              ltac:(specialize (L1 (bucket_of hash_len "a")); lia))
    as (prev & curr & next & w2 & ls2 & E2 & _ & _ & Hp & H).
  rewrite B1 in E2, H.
  destruct H as [[_ H]|(nd & Hn & _ & _ & Hk & Hv)]; [discriminate|].
  exists w1, prev, curr, next, w2, nd. repeat split; assumption.
Defined.

Lemma reads_durable_witness :
  exists w', get hash_len 3 "b" 0 marked_table = Ret (Some "2"%string) w' /\
    In (ECas (Bucket 1) 16 32 true) (trace w') /\
    durable (trace w') = true /\ ordered (trace w').
Proof.
  exists (world_of (get hash_len 3 "b" 0 marked_table) marked_table).
  assert (E : get hash_len 3 "b" 0 marked_table =
              Ret (Some "2"%string) (world_of (get hash_len 3 "b" 0 marked_table) marked_table))
    by (vm_compute; reflexivity).
  split; [exact E|]. split.
  - vm_compute. do 8 right. left. reflexivity.
  - exact (proj2 (reads_durable hash_len 3 "b" 0 0 marked_table eq_refl) _ _ E).
Defined.

Lemma construction_gives_back_witness :
  exists w',
    insert hash_len 72 sso_request 1 long_string long_string 0 (empty_table 16 150 [])
      = Throw w' /\
    trace w' = [EMalloc 72 16; EMalloc 41 96; EMalloc 41 0; EFree 96; EFree 16] /\
    heap w' = ∅ /\ buckets w' = ∅.
Proof.
  destruct (construction_gives_back hash_len 72 sso_request ltac:(lia) 1 long_string long_string 0
              (empty_table 16 150 []))
    as (w' & _ & E & _ & Ht & Hh & Hb).
  - vm_compute. reflexivity.
  - vm_compute. congruence.
  - vm_compute. congruence.
  - vm_compute. congruence.
  - vm_compute. congruence.
  - vm_compute. reflexivity.
  - exists w'. split; [exact E|]. split; [exact Ht|]. split; [|exact Hb].
    rewrite Hh. vm_compute. reflexivity.
Defined.

(** ** Retired nodes *)




























Section Retire.

Variable hash_fn : string -> Z.
Variable sizeof_Node : Z.
Variable string_request : string -> Z.

Local Abbreviation get := (PHT.get hash_fn).
Local Abbreviation findNode := (PHT.findNode hash_fn).
Local Abbreviation remove := (PHT.remove hash_fn).
Local Abbreviation put := (PHT.put hash_fn sizeof_Node string_request).
Local Abbreviation insert := (PHT.insert hash_fn sizeof_Node string_request).
Local Abbreviation replace := (PHT.replace hash_fn sizeof_Node string_request).
Local Abbreviation new_Node := (PHT.new_Node sizeof_Node string_request).
















End Retire.


(** ** The node of an operation: published or given back *)










Section Ownership.

Variable hash_fn : string -> Z.
Variable sizeof_Node : Z.
Variable string_request : string -> Z.

Local Abbreviation get := (PHT.get hash_fn).
Local Abbreviation findNode := (PHT.findNode hash_fn).
Local Abbreviation remove := (PHT.remove hash_fn).
Local Abbreviation put := (PHT.put hash_fn sizeof_Node string_request).
Local Abbreviation insert := (PHT.insert hash_fn sizeof_Node string_request).
Local Abbreviation replace := (PHT.replace hash_fn sizeof_Node string_request).
Local Abbreviation new_Node := (PHT.new_Node sizeof_Node string_request).

(** *** Programs that free nothing *)






(** *** While the node is the thread's own *)



















End Ownership.


End PHT_proofs.

(** * The graph: proofs *)

Module TGraph_proofs.

Import TGraph.
Local Open Scope tg_scope.

(** ** Slots *)

Lemma slot_Some u t m :
  slot u t = Some m <-> 0 <= u /\ t !! Z.to_nat u = Some m.
Proof.
  unfold slot. destruct (Z.ltb_spec u 0); split.
  - discriminate.
  - intros [? _]. lia.
  - auto.
  - tauto.
Qed.

Lemma slot_of_nat i t : slot (Z.of_nat i) t = t !! i.
Proof.
  unfold slot. destruct (Z.ltb_spec (Z.of_nat i) 0); [lia|].
  by rewrite Nat2Z.id.
Qed.

Lemma slot_upd i j m t :
  is_Some (slot i t) ->
  slot j (upd i m t) = if decide (j = i) then Some m else slot j t.
Proof.
  intros [m0 H]. apply slot_Some in H as [Hi H].
  unfold slot, upd. destruct (decide (j = i)) as [->|Hne].
  - destruct (Z.ltb_spec i 0); [lia|].
    apply list_lookup_insert_eq. by eapply lookup_lt_Some.
  - destruct (Z.ltb_spec j 0); [done|].
    apply list_lookup_insert_ne. lia.
Qed.

Lemma upd_id i m t : slot i t = Some m -> upd i m t = t.
Proof.
  intros H. apply slot_Some in H as [_ H]. by apply list_insert_id.
Qed.

Lemma upd_upd i m m' t : upd i m (upd i m' t) = upd i m t.
Proof. apply list_insert_insert_eq. Qed.

Lemma wf_lookup t :
  wf t <-> forall u m, slot u t = Some m -> slot_ok t u m.
Proof.
  unfold wf. rewrite Forall_lookup. split.
  - intros H u m Hs. apply slot_Some in Hs as [Hu Hs].
    specialize (H (Z.to_nat u) (Z.to_nat u, m)).
    rewrite list_lookup_imap, Hs in H. specialize (H eq_refl).
    simpl in H. by rewrite Z2Nat.id in H.
  - intros H i [j m] Hi. rewrite list_lookup_imap in Hi.
    destruct (t !! i) as [m'|] eqn:E; simplify_eq/=.
    apply H. by rewrite slot_of_nat.
Qed.

(** ** Sort and unique *)

Lemma unique_cons2 x y l :
  unique (x :: y :: l) = if x =? y then unique (y :: l) else x :: unique (y :: l).
Proof. reflexivity. Qed.

Lemma elem_of_unique l x : x ∈ unique l <-> x ∈ l.
Proof.
  induction l as [|a l IH]; [done|]. destruct l as [|b l]; [done|].
  rewrite unique_cons2. destruct (Z.eqb_spec a b) as [->|Hne].
  - rewrite IH, !elem_of_cons. tauto.
  - rewrite (elem_of_cons _ x a), IH. by rewrite (elem_of_cons _ x a).
Qed.

Lemma unique_sorted l :
  StronglySorted Z.le l -> StronglySorted Z.lt (unique l).
Proof.
  induction l as [|a l IH]; intros H; [constructor|].
  destruct l as [|b l].
  - repeat constructor.
  - rewrite unique_cons2. apply StronglySorted_inv in H as [H1 H2].
    destruct (Z.eqb_spec a b) as [->|Hne]; [by apply IH|].
    constructor; [by apply IH|].
    apply Forall_forall. intros z Hz. rewrite elem_of_unique in Hz.
    apply StronglySorted_inv in H1 as [_ H1].
    rewrite Forall_forall in H1, H2.
    assert (a <= b) by (apply H2; left).
    apply elem_of_cons in Hz as [->|Hz]; [lia|].
    specialize (H1 _ Hz). lia.
Qed.

Lemma sort_unique_sorted l : StronglySorted Z.lt (sort_unique l).
Proof.
  unfold sort_unique. apply unique_sorted.
  apply Sorted_StronglySorted; [apply _|]. apply Sorted_merge_sort. apply _.
Qed.

Lemma elem_of_sort_unique l x : x ∈ sort_unique l <-> x ∈ l.
Proof.
  unfold sort_unique. rewrite elem_of_unique.
  by rewrite merge_sort_Permutation.
Qed.

Lemma sorted_lt_NoDup l : StronglySorted Z.lt l -> NoDup l.
Proof.
  induction 1 as [|a l H IH Hall]; constructor; [|done].
  intros Hin. rewrite Forall_forall in Hall. specialize (Hall _ Hin). lia.
Qed.

Lemma sort_unique_NoDup l : NoDup (sort_unique l).
Proof. apply sorted_lt_NoDup, sort_unique_sorted. Qed.

(** ** Running the monad *)

Lemma bindG_ret_eq {A B} (m : M A) (k : A -> M B) g a g' :
  m g = Ret a g' -> bind m k g = k a g'.
Proof. unfold bind. by intros ->. Qed.

Lemma bindG_assoc {A B C} (m : M A) (k : A -> M B) (h : B -> M C) g :
  bind (bind m k) h g = bind m (fun a => bind (k a) h) g.
Proof. unfold bind. by destruct (m g). Qed.

Lemma retG_bind {A B} (a : A) (k : A -> M B) g : bind (ret a) k g = k a g.
Proof. reflexivity. Qed.

Ltac gsimpl :=
  cbn [vMeta next_addr trace hist env set_vMeta set_env log snapshot fresh_addr
       owner] in *.

Lemma read_meta_ok idx m g :
  slot idx (vMeta g) = Some m -> read_meta idx g = Ret m g.
Proof. unfold read_meta. by intros ->. Qed.

Lemma modify_ok idx f m g :
  slot idx (vMeta g) = Some m ->
  modify idx f g = Ret tt (set_vMeta (upd idx (f m) (vMeta g)) g).
Proof. unfold modify. by intros ->. Qed.

Lemma vertex_ok idx m g :
  slot idx (vMeta g) = Some m -> vertex idx g = Ret (idxToVertex m) g.
Proof.
  intros H. unfold vertex. by rewrite (bindG_ret_eq _ _ _ _ _ (read_meta_ok _ _ _ H)).
Qed.

Lemma get_seq_ok idx m g :
  slot idx (vMeta g) = Some m -> get_seq idx g = Ret (vertexSeqs m) g.
Proof.
  intros H. unfold get_seq. by rewrite (bindG_ret_eq _ _ _ _ _ (read_meta_ok _ _ _ H)).
Qed.

Lemma inc_seq_ok idx m g :
  slot idx (vMeta g) = Some m ->
  inc_seq idx g =
  Ret tt (set_vMeta (upd idx (with_seq ((vertexSeqs m + 1) mod 2 ^ 32) m) (vMeta g)) g).
Proof. intros H. unfold inc_seq. by rewrite (modify_ok _ _ _ _ H). Qed.

Lemma lock_ok idx m g :
  env g = [] -> slot idx (vMeta g) = Some m -> vertexLocks m = false ->
  lock idx g =
  Ret tt (log (ELock idx) (set_vMeta (upd idx (with_lock true m) (vMeta g)) g)).
Proof.
  intros He H Hl. unfold lock.
  assert (interfere g = Ret tt g) as Hi by (unfold interfere; by rewrite He).
  rewrite (bindG_ret_eq _ _ _ _ _ Hi).
  rewrite (bindG_ret_eq _ _ _ _ _ (read_meta_ok _ _ _ H)), Hl.
  by rewrite (bindG_ret_eq _ _ _ _ _ (modify_ok _ _ _ _ H)).
Qed.

Lemma unlock_ok idx m g :
  slot idx (vMeta g) = Some m -> vertexLocks m = true ->
  unlock idx g =
  Ret tt (log (EUnlock idx)
            (set_vMeta (upd idx (with_lock false m) (vMeta g)) (snapshot g))).
Proof.
  intros H Hl. unfold unlock.
  rewrite (bindG_ret_eq _ _ _ _ _ (read_meta_ok _ _ _ H)), Hl.
  unfold bind at 1.
  assert (slot idx (vMeta (snapshot g)) = Some m) as H' by done.
  by rewrite (bindG_ret_eq _ _ _ _ _ (modify_ok _ _ _ _ H')).
Qed.

Lemma read_set_ok s m v g :
  slot (owner s) (vMeta g) = Some m -> idxToVertex m = Some v ->
  read_set s g = Ret (get_set s v) g.
Proof.
  intros H Hv. unfold read_set.
  by rewrite (bindG_ret_eq _ _ _ _ _ (vertex_ok _ _ _ H)), Hv.
Qed.

Lemma write_set_ok s x m v g :
  slot (owner s) (vMeta g) = Some m -> idxToVertex m = Some v ->
  write_set s x g =
  Ret tt (set_vMeta (upd (owner s) (with_vertex (Some (put_set s x v)) m) (vMeta g)) g).
Proof.
  intros H Hv. unfold write_set.
  rewrite (bindG_ret_eq _ _ _ _ _ (vertex_ok _ _ _ H)), Hv.
  unfold set_vertex. by rewrite (modify_ok _ _ _ _ H).
Qed.

Lemma has_relation_ok s r m v g :
  slot (owner s) (vMeta g) = Some m -> idxToVertex m = Some v ->
  has_relation s r g = Ret (bool_decide (is_Some (get_set s v !! rkey r))) g.
Proof.
  intros H Hv. unfold has_relation.
  by rewrite (bindG_ret_eq _ _ _ _ _ (read_set_ok _ _ _ _ H Hv)).
Qed.

Lemma put_get_set s v : put_set s (get_set s v) v = v.
Proof. by destruct s, v. Qed.

Lemma with_vertex_id m v : idxToVertex m = v -> with_vertex v m = m.
Proof. destruct m. simpl. by intros ->. Qed.

Lemma remove_relation_ok s r m v g :
  slot (owner s) (vMeta g) = Some m -> idxToVertex m = Some v ->
  remove_relation s r g =
  Ret (get_set s v !! rkey r)
      (set_vMeta (upd (owner s)
         (with_vertex (Some (put_set s (delete (rkey r) (get_set s v)) v)) m)
         (vMeta g)) g).
Proof.
  intros H Hv. unfold remove_relation.
  rewrite (bindG_ret_eq _ _ _ _ _ (read_set_ok _ _ _ _ H Hv)).
  destruct (get_set s v !! rkey r) as [tmp|] eqn:E.
  - by rewrite (bindG_ret_eq _ _ _ _ _ (write_set_ok _ _ _ _ _ H Hv)).
  - rewrite (delete_id (get_set s v) (rkey r)) by done. rewrite put_get_set.
    rewrite with_vertex_id by done. rewrite upd_id by done.
    unfold ret. f_equal. by destruct g.
Qed.

Lemma set_insert_ok s r m v g :
  slot (owner s) (vMeta g) = Some m -> idxToVertex m = Some v ->
  get_set s v !! rkey r = None ->
  set_insert s r g =
  Ret true
      (set_vMeta (upd (owner s)
         (with_vertex (Some (put_set s (<[rkey r := r]> (get_set s v)) v)) m)
         (vMeta g)) g).
Proof.
  intros H Hv Hn. unfold set_insert.
  rewrite (bindG_ret_eq _ _ _ _ _ (read_set_ok _ _ _ _ H Hv)), Hn.
  by rewrite (bindG_ret_eq _ _ _ _ _ (write_set_ok _ _ _ _ _ H Hv)).
Qed.

Lemma elements_ok s m v g :
  slot (owner s) (vMeta g) = Some m -> idxToVertex m = Some v ->
  elements s g = Ret (map_to_list (get_set s v)).*2 g.
Proof.
  intros H Hv. unfold elements.
  by rewrite (bindG_ret_eq _ _ _ _ _ (read_set_ok _ _ _ _ H Hv)).
Qed.

Lemma set_clear_ok s m v g :
  slot (owner s) (vMeta g) = Some m -> idxToVertex m = Some v ->
  set_clear s g =
  Ret tt (set_vMeta (upd (owner s) (with_vertex (Some (put_set s ∅ v)) m) (vMeta g)) g).
Proof.
  intros H Hv. unfold set_clear.
  rewrite (bindG_ret_eq _ _ _ _ _ (read_set_ok _ _ _ _ H Hv)).
  by rewrite (write_set_ok _ _ _ _ _ H Hv).
Qed.

(** The rule of a loop with an invariant over the part of the list
    already visited. *)
Lemma for_each_inv {A} (Inv : list A -> Graph -> Prop) (body : A -> M unit) l g :
  Inv [] g ->
  (forall l1 x l2 g1, l = l1 ++ x :: l2 -> Inv l1 g1 ->
     exists g2, body x g1 = Ret tt g2 /\ Inv (l1 ++ [x]) g2) ->
  exists g', for_each l body g = Ret tt g' /\ Inv l g'.
Proof.
  intros H0 Hstep.
  enough (forall l2 l1 g1, l = l1 ++ l2 -> Inv l1 g1 ->
            exists g', for_each l2 body g1 = Ret tt g' /\ Inv l g') as H
    by (apply (H l [] g); done).
  induction l2 as [|x l2 IH]; intros l1 g1 El HI.
  - rewrite app_nil_r in El. subst l1. by exists g1.
  - destruct (Hstep l1 x l2 g1 El HI) as (g2 & E2 & HI2).
    destruct (IH (l1 ++ [x]) g2) as (g' & E' & HI'); [by rewrite <- app_assoc|done|].
    exists g'. split; [|done]. simpl. by rewrite (bindG_ret_eq _ _ _ _ _ E2).
Qed.

(** ** Tables described slot by slot *)

Lemma slot_in_table i t m : slot i t = Some m -> in_table i t.
Proof.
  intros H. apply slot_Some in H as [H0 H]. apply lookup_lt_Some in H.
  unfold in_table. lia.
Qed.

Lemma in_table_slot i t : in_table i t -> is_Some (slot i t).
Proof.
  intros [H0 H]. unfold slot. destruct (Z.ltb_spec i 0); [lia|].
  apply lookup_lt_is_Some. lia.
Qed.

Lemma in_table_upd i j m t : in_table i (upd j m t) <-> in_table i t.
Proof. unfold in_table, upd. by rewrite length_insert. Qed.

Lemma slot_upd' i j m t :
  in_table i t ->
  slot j (upd i m t) = if decide (j = i) then Some m else slot j t.
Proof. intros H. apply slot_upd. by apply in_table_slot. Qed.

Lemma slot_ext t t' : (forall j, slot j t = slot j t') -> t = t'.
Proof.
  intros H. apply list_eq. intros i. specialize (H (Z.of_nat i)).
  by rewrite !slot_of_nat in H.
Qed.

Lemma new_Relation_ok s d w g :
  new_Relation s d w g =
  Ret (mkRelation (next_addr g) s d w) (log (ENew (next_addr g)) (fresh_addr g)).
Proof. reflexivity. Qed.

Lemma delete_Relation_ok r g :
  delete_Relation r g = Ret tt (log (EDelete (addr r)) g).
Proof. reflexivity. Qed.

Ltac in_tab := rewrite ?in_table_upd; eassumption.

Ltac sl :=
  gsimpl;
  repeat (rewrite slot_upd' by in_tab);
  repeat first [ rewrite decide_True by (try done; lia)
               | rewrite decide_False by (try done; lia) ].

Ltac slot_goal := sl; first [reflexivity | eassumption].

(** One step of a run: the first action of the program is rewritten
    with its equation [L]. *)
Ltac step L :=
  rewrite ?bindG_assoc;
  first [ erewrite bindG_ret_eq; [| eapply L; first [slot_goal | done | idtac] ]
        | erewrite L; [| first [slot_goal | done | idtac] ..] ];
  gsimpl.

Ltac retb := repeat first [rewrite bindG_assoc | rewrite retG_bind].

Lemma lock_pair_ok s d ms md g :
  env g = [] -> s <> d ->
  slot s (vMeta g) = Some ms -> slot d (vMeta g) = Some md ->
  vertexLocks ms = false -> vertexLocks md = false ->
  exists g', lock_pair s d g = Ret tt g' /\ env g' = [] /\ hist g' = hist g /\
    next_addr g' = next_addr g /\
    vMeta g' = upd s (with_lock true ms) (upd d (with_lock true md) (vMeta g)).
Proof.
  intros He Hne Hs Hd Ls Ld.
  pose proof (slot_in_table _ _ _ Hs) as Is.
  pose proof (slot_in_table _ _ _ Hd) as Id.
  unfold lock_pair. destruct (s >? d).
  - step lock_ok. step lock_ok.
    eexists. split; [reflexivity|]. by gsimpl.
  - step lock_ok. step lock_ok.
    eexists. split; [reflexivity|]. gsimpl. repeat split; try done.
    apply list_insert_insert_ne. unfold in_table in *. lia.
Qed.

Lemma vtx_upd i j m t :
  in_table i t ->
  vtx (upd i m t) j = if decide (j = i) then idxToVertex m else vtx t j.
Proof.
  intros H. unfold vtx. rewrite slot_upd' by done. by case_decide.
Qed.

Lemma same_vtx_upd i m m' t :
  slot i t = Some m -> idxToVertex m' = idxToVertex m -> same_vtx (upd i m' t) t.
Proof.
  intros H E u. rewrite vtx_upd by by eapply slot_in_table.
  case_decide; [subst|done]. unfold vtx. by rewrite H.
Qed.

Lemma same_vtx_refl t : same_vtx t t.
Proof. done. Qed.

Lemma same_vtx_trans t1 t2 t3 : same_vtx t1 t2 -> same_vtx t2 t3 -> same_vtx t1 t3.
Proof. intros H1 H2 u. by rewrite H1. Qed.

Lemma same_vtx_sym t1 t2 : same_vtx t1 t2 -> same_vtx t2 t1.
Proof. intros H1 u. by rewrite H1. Qed.

Lemma unlock_pair_ok s d ms md g :
  s <> d ->
  slot s (vMeta g) = Some ms -> slot d (vMeta g) = Some md ->
  vertexLocks ms = true -> vertexLocks md = true ->
  exists g', unlock_pair s d g = Ret tt g' /\ env g' = env g /\
    next_addr g' = next_addr g /\
    vMeta g' = upd s (with_lock false ms) (upd d (with_lock false md) (vMeta g)) /\
    grows (fun t => same_vtx t (vMeta g)) g g'.
Proof.
  intros Hne Hs Hd Ls Ld.
  pose proof (slot_in_table _ _ _ Hs) as Is.
  pose proof (slot_in_table _ _ _ Hd) as Id.
  unfold unlock_pair. destruct (s >? d).
  - step unlock_ok. step unlock_ok.
    eexists. split; [reflexivity|]. gsimpl. repeat split; try done.
    + apply list_insert_insert_ne. unfold in_table in *. lia.
    + unfold grows. gsimpl. eexists. split; [by rewrite <- app_assoc|].
      apply Forall_cons_2; [done|]. apply Forall_cons_2; [|done].
      by eapply same_vtx_upd.
  - step unlock_ok. step unlock_ok.
    eexists. split; [reflexivity|]. gsimpl. repeat split; try done.
    unfold grows. gsimpl. eexists. split; [by rewrite <- app_assoc|].
    apply Forall_cons_2; [done|]. apply Forall_cons_2; [|done].
    by eapply same_vtx_upd.
Qed.

Lemma with_lock_twice b b' m : with_lock b (with_lock b' m) = with_lock b m.
Proof. done. Qed.

Lemma with_lock_id m b : vertexLocks m = b -> with_lock b m = m.
Proof. destruct m. simpl. by intros ->. Qed.

Lemma GWF_slot g u m :
  GWF g -> slot u (vMeta g) = Some m -> slot_ok (vMeta g) u m.
Proof. intros [_ H] Hs. by eapply wf_lookup. Qed.

Lemma can_link_true ms md k :
  can_link ms md k = true ->
  exists vs vd, idxToVertex ms = Some vs /\ idxToVertex md = Some vd /\
                adjacency_list vs !! k = None.
Proof.
  unfold can_link. destruct (idxToVertex ms) as [vs|]; [|done].
  destruct (idxToVertex md) as [vd|]; [|done].
  intros H. apply bool_decide_eq_true in H. eauto.
Qed.

(** ** The table seen as a graph *)

Lemma wf_view t :
  wf t <->
  (forall u, 0 <= seq_of t u < 2 ^ 32) /\
  (forall u, lock_of t u = false) /\
  (forall u k r, adj t u !! k = Some r -> out_ok t u k r) /\
  (forall u k r, inc t u !! k = Some r -> in_ok t u k r).
Proof.
  rewrite wf_lookup. split.
  - intros H. split; [|split; [|split]].
    + intros u. unfold seq_of. destruct (slot u t) as [m|] eqn:E; simpl; [|lia].
      apply (H _ _ E).
    + intros u. unfold lock_of. destruct (slot u t) as [m|] eqn:E; simpl; [|done].
      apply (H _ _ E).
    + intros u k r. unfold adj, vtx. destruct (slot u t) as [m|] eqn:E; simpl; [|done].
      destruct (H _ _ E) as (_ & _ & Hm).
      destruct (idxToVertex m) as [v|]; simpl; [|done].
      intros Hr. by apply (proj1 Hm).
    + intros u k r. unfold inc, vtx. destruct (slot u t) as [m|] eqn:E; simpl; [|done].
      destruct (H _ _ E) as (_ & _ & Hm).
      destruct (idxToVertex m) as [v|]; simpl; [|done].
      intros Hr. by apply (proj2 Hm).
  - intros (Hseq & Hlock & Hout & Hin) u m E. split; [|split].
    + specialize (Hseq u). unfold seq_of in Hseq. by rewrite E in Hseq.
    + specialize (Hlock u). unfold lock_of in Hlock. by rewrite E in Hlock.
    + destruct (idxToVertex m) as [v|] eqn:Ev; [|done]. split.
      * intros k r Hr. apply Hout. unfold adj, vtx. rewrite E. simpl. by rewrite Ev.
      * intros k r Hr. apply Hin. unfold inc, vtx. rewrite E. simpl. by rewrite Ev.
Qed.

Lemma wf_symmetric t : wf t -> symmetric t.
Proof.
  intros H. apply wf_view in H as (_ & _ & Hout & Hin). intros u v. split.
  - intros [r Hr]. destruct (Hout _ _ _ Hr) as (Hk & Hs & _ & Hi).
    unfold rkey in Hk. assert (dest r = v) as <- by congruence. eauto.
  - intros [r Hr]. destruct (Hin _ _ _ Hr) as (Hk & Hd & _ & Hi).
    unfold rkey in Hk. assert (src r = u) as <- by congruence. eauto.
Qed.

Lemma symmetric_same_vtx t t' : same_vtx t t' -> symmetric t' -> symmetric t.
Proof.
  intros H Hs u v. unfold adj, inc. rewrite !H. apply Hs.
Qed.

Lemma seq_of_upd i j m t :
  in_table i t ->
  seq_of (upd i m t) j = if decide (j = i) then vertexSeqs m else seq_of t j.
Proof. intros H. unfold seq_of. rewrite slot_upd' by done. by case_decide. Qed.

Lemma lock_of_upd i j m t :
  in_table i t ->
  lock_of (upd i m t) j = if decide (j = i) then vertexLocks m else lock_of t j.
Proof. intros H. unfold lock_of. rewrite slot_upd' by done. by case_decide. Qed.

Lemma adj_upd i j m t :
  in_table i t ->
  adj (upd i m t) j =
  if decide (j = i) then from_option adjacency_list ∅ (idxToVertex m) else adj t j.
Proof. intros H. unfold adj. rewrite vtx_upd by done. by case_decide. Qed.

Lemma inc_upd i j m t :
  in_table i t ->
  inc (upd i m t) j =
  if decide (j = i) then from_option dest_list ∅ (idxToVertex m) else inc t j.
Proof. intros H. unfold inc. rewrite vtx_upd by done. by case_decide. Qed.

Lemma slot_adj u t m v :
  slot u t = Some m -> idxToVertex m = Some v -> adj t u = adjacency_list v.
Proof. intros H E. unfold adj, vtx. rewrite H. simpl. by rewrite E. Qed.

Lemma slot_inc u t m v :
  slot u t = Some m -> idxToVertex m = Some v -> inc t u = dest_list v.
Proof. intros H E. unfold inc, vtx. rewrite H. simpl. by rewrite E. Qed.

Lemma slot_seq u t m : slot u t = Some m -> seq_of t u = vertexSeqs m.
Proof. intros H. unfold seq_of. by rewrite H. Qed.

Lemma slot_vtx u t m : slot u t = Some m -> vtx t u = idxToVertex m.
Proof. intros H. unfold vtx. by rewrite H. Qed.

Lemma bump_range m : 0 <= vertexSeqs (bump m) < 2 ^ 32.
Proof. simpl. apply Z.mod_pos_bound. lia. Qed.

Lemma unlock_pair_exit (b : bool) s d g0 g2 ms2 md2 tfin :
  s <> d ->
  slot s (vMeta g2) = Some ms2 -> slot d (vMeta g2) = Some md2 ->
  vertexLocks ms2 = true -> vertexLocks md2 = true -> env g2 = [] ->
  hist g2 = hist g0 ->
  upd s (with_lock false ms2) (upd d (with_lock false md2) (vMeta g2)) = tfin ->
  exists g', (unlock_pair s d ;; ret b) g2 = Ret b g' /\ env g' = [] /\
    vMeta g' = tfin /\ grows (fun t => same_vtx t (vMeta g')) g0 g'.
Proof.
  intros Hne Hs2 Hd2 Ls2 Ld2 He2 Hh2 Hfin.
  destruct (unlock_pair_ok s d ms2 md2 g2) as (g3 & E3 & He3 & Ha3 & Hv3 & Hg3);
    try done.
  rewrite (bindG_ret_eq _ _ _ _ _ E3). exists g3. split; [done|].
  split; [congruence|]. rewrite Hv3, Hfin. split; [done|].
  destruct Hg3 as (h & Hh & Hall). exists h. split; [congruence|].
  eapply Forall_impl; [exact Hall|]. intros t Ht. simpl in Ht.
  eapply same_vtx_trans; [exact Ht|]. rewrite <- Hfin.
  apply same_vtx_sym.
  eapply same_vtx_trans.
  - eapply (same_vtx_upd _ ms2); [|reflexivity].
    rewrite slot_upd' by by eapply slot_in_table.
    rewrite decide_False by done. exact Hs2.
  - by eapply (same_vtx_upd _ md2).
Qed.

Lemma relock_same s d ms md t :
  s <> d -> slot s t = Some ms -> slot d t = Some md ->
  vertexLocks ms = false -> vertexLocks md = false ->
  upd s (with_lock false (with_lock true ms))
    (upd d (with_lock false (with_lock true md))
       (upd s (with_lock true ms) (upd d (with_lock true md) t))) = t.
Proof.
  intros Hne Hs Hd Ls Ld.
  pose proof (slot_in_table _ _ _ Hs) as Is.
  pose proof (slot_in_table _ _ _ Hd) as Id.
  apply slot_ext. intros j. sl. rewrite !with_lock_twice, !with_lock_id by done.
  repeat case_decide; congruence.
Qed.

Lemma add_edge_spec s d w g ms md :
  GWF g -> s <> d ->
  slot s (vMeta g) = Some ms -> slot d (vMeta g) = Some md ->
  let r := mkRelation (next_addr g) s d w in
  let ok := can_link ms md (s, d) in
  exists g', add_edge s d w g = Ret ok g' /\ env g' = [] /\
    vMeta g' =
      (if ok then
         upd s (bump (with_vertex (link_out r <$> idxToVertex ms) ms))
           (upd d (bump (with_vertex (link_in r <$> idxToVertex md) md)) (vMeta g))
       else vMeta g) /\
    grows (fun t => same_vtx t (vMeta g')) g g'.
Proof.
  intros HG Hne Hs Hd r ok.
  pose proof (slot_in_table _ _ _ Hs) as Is.
  pose proof (slot_in_table _ _ _ Hd) as Id.
  destruct (GWF_slot _ _ _ HG Hs) as (Rs & Ls & Ws).
  destruct (GWF_slot _ _ _ HG Hd) as (Rd & Ld & Wd).
  destruct HG as [He Hwf].
  pose proof (relock_same s d ms md _ Hne Hs Hd Ls Ld) as Hsame.
  unfold add_edge. rewrite (proj2 (Z.eqb_neq s d)) by done.
  step new_Relation_ok. fold r.
  edestruct (lock_pair_ok s d ms md) as (g1 & E1 & He1 & Hh1 & Ha1 & Hv1);
    [..|rewrite (bindG_ret_eq _ _ _ _ _ E1)]; try done.
  destruct g1 as [t1 a1 tr1 h1 e1]. gsimpl. subst t1 a1 h1 e1. clear E1.
  step vertex_ok. cbn [idxToVertex with_lock].
  unfold ok, can_link.
  destruct (idxToVertex ms) as [vs|] eqn:Evs; cbn [is_null orb].
  2:{ retb. cbn [orb]. retb. step delete_Relation_ok.
      eapply (unlock_pair_exit false s d g); gsimpl; try done; slot_goal. }
  step vertex_ok. cbn [idxToVertex with_lock].
  destruct (idxToVertex md) as [vd|] eqn:Evd; cbn [is_null orb].
  2:{ retb. step delete_Relation_ok.
      eapply (unlock_pair_exit false s d g); gsimpl; try done; slot_goal. }
  step has_relation_ok. cbn [get_set]. change (rkey r) with (s, d).
  destruct (adjacency_list vs !! (s, d)) as [r0|] eqn:Er0.
  - rewrite (bool_decide_eq_true_2 (is_Some (Some r0))) by eauto.
    rewrite (bool_decide_eq_false_2 (Some r0 = None)) by done.
    destruct Ws as [Wo _]. pose proof (Wo _ _ Er0) as (Hk & Hsrc & Hdst & Hin).
    assert (dest r0 = d) as Hd0 by (unfold rkey in Hk; congruence).
    rewrite Hd0 in Hin. rewrite (slot_inc _ _ _ _ Hd Evd) in Hin.
    step has_relation_ok. change (rkey r) with (s, d). cbn [get_set]. rewrite Hin.
    rewrite bool_decide_eq_true_2 by eauto. cbn [assert]. retb.
    step delete_Relation_ok.
    eapply (unlock_pair_exit false s d g); gsimpl; try done; slot_goal.
  - rewrite (bool_decide_eq_false_2 (is_Some None)) by (intros [? ?]; done).
    rewrite (bool_decide_eq_true_2 (None = None)) by done.
    assert (dest_list vd !! (s, d) = None) as Hnd.
    { destruct (dest_list vd !! (s, d)) as [r1|] eqn:Er1; [|done].
      destruct Wd as [_ Wi]. pose proof (Wi _ _ Er1) as (Hk & Hdst & Hsrc & Hin).
      assert (src r1 = s) as Hs1 by (unfold rkey in Hk; congruence).
      rewrite Hs1 in Hin. rewrite (slot_adj _ _ _ _ Hs Evs) in Hin. congruence. }
    step set_insert_ok. step set_insert_ok. cbn [eqb assert]. retb.
    step inc_seq_ok. step inc_seq_ok. retb.
    eapply (unlock_pair_exit true s d g); gsimpl; try done; try slot_goal.
    apply slot_ext. intros j. sl.
    repeat case_decide; try congruence; try done;
      destruct ms, md; simpl in *; subst; reflexivity.
Qed.

(** The table after a successful [add_edge]. *)
Lemma add_edge_wf s d r ms md vs vd t :
  wf t -> s <> d -> slot s t = Some ms -> slot d t = Some md ->
  idxToVertex ms = Some vs -> idxToVertex md = Some vd ->
  rkey r = (s, d) ->
  wf (upd s (bump (with_vertex (Some (link_out r vs)) ms))
        (upd d (bump (with_vertex (Some (link_in r vd)) md)) t)).
Proof.
  intros Hwf Hne Hs Hd Evs Evd Hr.
  pose proof (slot_in_table _ _ _ Hs) as Is.
  pose proof (slot_in_table _ _ _ Hd) as Id.
  pose proof (slot_adj _ _ _ _ Hs Evs) as As.
  pose proof (slot_inc _ _ _ _ Hs Evs) as Bs.
  pose proof (slot_adj _ _ _ _ Hd Evd) as Ad.
  pose proof (slot_inc _ _ _ _ Hd Evd) as Bd.
  apply wf_view in Hwf as (Hseq & Hlock & Hout & Hin).
  assert (src r = s /\ dest r = d) as [Hsr Hdr] by (unfold rkey in Hr; split; congruence).
  apply wf_view. split; [|split; [|split]].
  - intros u. rewrite !seq_of_upd by in_tab.
    repeat case_decide; try apply bump_range. apply Hseq.
  - intros u. rewrite !lock_of_upd by in_tab. repeat case_decide; simpl.
    + specialize (Hlock s). unfold lock_of in Hlock. by rewrite Hs in Hlock.
    + specialize (Hlock d). unfold lock_of in Hlock. by rewrite Hd in Hlock.
    + apply Hlock.
  - intros u k r0. rewrite !adj_upd by in_tab. unfold out_ok.
    rewrite !inc_upd by in_tab. simpl. rewrite ?Hr.
    destruct (decide (u = s)) as [->|Hus].
    + destruct (decide (k = (s, d))) as [->|Hk].
      * rewrite lookup_insert_eq. intros [= <-].
        rewrite Hdr. rewrite decide_False by done. rewrite decide_True by done.
        by rewrite lookup_insert_eq.
      * rewrite lookup_insert_ne by congruence. rewrite <- As. intros H0.
        destruct (Hout _ _ _ H0) as (Hk0 & Hs0 & Hd0 & Hi0).
        repeat split; try done. rewrite decide_False by done.
        case_decide as Hc; [|done]. rewrite lookup_insert_ne by congruence.
        by rewrite <- Bd, <- Hc.
    + destruct (decide (u = d)) as [->|Hud].
      * simpl. rewrite <- Ad. intros H0.
        destruct (Hout _ _ _ H0) as (Hk0 & Hs0 & Hd0 & Hi0).
        repeat split; try done.
        case_decide as Hc1; [|by rewrite decide_False by done].
        (* dest r0 = s *) simpl. by rewrite <- Bs, <- Hc1.
      * intros H0. destruct (Hout _ _ _ H0) as (Hk0 & Hs0 & Hd0 & Hi0).
        repeat split; try done.
        case_decide as Hc1; [simpl; by rewrite <- Bs, <- Hc1|].
        case_decide as Hc2; [|done]. simpl.
        rewrite lookup_insert_ne; [by rewrite <- Bd, <- Hc2|].
        rewrite Hk0. unfold rkey. congruence.
  - intros u k r0. rewrite !inc_upd by in_tab. unfold in_ok.
    rewrite !adj_upd by in_tab. simpl. rewrite ?Hr.
    destruct (decide (u = s)) as [->|Hus].
    + rewrite <- Bs. intros H0.
      destruct (Hin _ _ _ H0) as (Hk0 & Hd0 & Hs0 & Hi0).
      repeat split; try done. rewrite decide_False by done.
      case_decide as Hc; [|done]. simpl. by rewrite <- Ad, <- Hc.
    + destruct (decide (u = d)) as [->|Hud].
      * simpl. destruct (decide (k = (s, d))) as [->|Hk].
        -- rewrite lookup_insert_eq. intros [= <-].
           rewrite Hsr. rewrite decide_True by done.
           by rewrite lookup_insert_eq.
        -- rewrite lookup_insert_ne by congruence. rewrite <- Bd. intros H0.
           destruct (Hin _ _ _ H0) as (Hk0 & Hd0 & Hs0 & Hi0).
           repeat split; try done.
           case_decide as Hc; [|by rewrite decide_False by done].
           rewrite lookup_insert_ne by congruence. by rewrite <- As, <- Hc.
      * intros H0. destruct (Hin _ _ _ H0) as (Hk0 & Hd0 & Hs0 & Hi0).
        repeat split; try done.
        case_decide as Hc1.
        -- rewrite lookup_insert_ne; [by rewrite <- As, <- Hc1|].
           rewrite Hk0. unfold rkey. congruence.
        -- case_decide as Hc2; [|done]. simpl. by rewrite <- Ad, <- Hc2.
Qed.

Lemma unlink_out_id k v : adjacency_list v !! k = None -> unlink_out k v = v.
Proof. intros H. unfold unlink_out. rewrite delete_id by done. by destruct v. Qed.

Lemma unlink_in_id k v : dest_list v !! k = None -> unlink_in k v = v.
Proof. intros H. unfold unlink_in. rewrite delete_id by done. by destruct v. Qed.

Lemma remove_edge_spec s d g ms md :
  GWF g -> s <> d ->
  slot s (vMeta g) = Some ms -> slot d (vMeta g) = Some md ->
  let ok := can_unlink ms md (s, d) in
  exists g', remove_edge s d g = Ret ok g' /\ env g' = [] /\
    vMeta g' =
      (if ok then
         upd s (bump (with_vertex (unlink_out (s, d) <$> idxToVertex ms) ms))
           (upd d (bump (with_vertex (unlink_in (s, d) <$> idxToVertex md) md)) (vMeta g))
       else vMeta g) /\
    grows (fun t => same_vtx t (vMeta g')) g g'.
Proof.
  intros HG Hne Hs Hd ok.
  pose proof (slot_in_table _ _ _ Hs) as Is.
  pose proof (slot_in_table _ _ _ Hd) as Id.
  destruct (GWF_slot _ _ _ HG Hs) as (Rs & Ls & Ws).
  destruct (GWF_slot _ _ _ HG Hd) as (Rd & Ld & Wd).
  destruct HG as [He Hwf].
  pose proof (relock_same s d ms md _ Hne Hs Hd Ls Ld) as Hsame.
  unfold remove_edge. rewrite (proj2 (Z.eqb_neq s d)) by done.
  edestruct (lock_pair_ok s d ms md) as (g1 & E1 & He1 & Hh1 & Ha1 & Hv1);
    [..|rewrite (bindG_ret_eq _ _ _ _ _ E1)]; try done.
  destruct g1 as [t1 a1 tr1 h1 e1]. gsimpl. subst t1 a1 h1 e1. clear E1.
  step vertex_ok. cbn [idxToVertex with_lock].
  unfold ok, can_unlink.
  destruct (idxToVertex ms) as [vs|] eqn:Evs; cbn [is_null orb].
  2:{ retb. cbn [orb]. retb.
      eapply (unlock_pair_exit false s d g); gsimpl; try done; slot_goal. }
  step vertex_ok. cbn [idxToVertex with_lock].
  destruct (idxToVertex md) as [vd|] eqn:Evd; cbn [is_null orb].
  2:{ retb. eapply (unlock_pair_exit false s d g); gsimpl; try done; slot_goal. }
  step remove_relation_ok. step remove_relation_ok.
  cbn [get_set]. change (rkey (local_Relation s d (-1))) with (s, d).
  destruct (adjacency_list vs !! (s, d)) as [r0|] eqn:Er0.
  - rewrite (bool_decide_eq_true_2 (is_Some (Some r0))) by eauto.
    destruct Ws as [Wo _]. pose proof (Wo _ _ Er0) as (Hk & Hsrc & Hdst & Hin).
    assert (dest r0 = d) as Hd0 by (unfold rkey in Hk; congruence).
    rewrite Hd0 in Hin. rewrite (slot_inc _ _ _ _ Hd Evd) in Hin. rewrite Hin.
    rewrite bool_decide_eq_true_2 by done. cbn [assert]. retb.
    step delete_Relation_ok. step inc_seq_ok. step inc_seq_ok. retb.
    eapply (unlock_pair_exit true s d g); gsimpl; try done; try slot_goal.
    apply slot_ext. intros j. sl.
    repeat case_decide; try congruence; try done;
      destruct ms, md; simpl in *; subst; reflexivity.
  - rewrite (bool_decide_eq_false_2 (is_Some None)) by (intros [? ?]; done).
    assert (dest_list vd !! (s, d) = None) as Hnd.
    { destruct (dest_list vd !! (s, d)) as [r1|] eqn:Er1; [|done].
      destruct Wd as [_ Wi]. pose proof (Wi _ _ Er1) as (Hk & Hdst & Hsrc & Hin).
      assert (src r1 = s) as Hs1 by (unfold rkey in Hk; congruence).
      rewrite Hs1 in Hin. rewrite (slot_adj _ _ _ _ Hs Evs) in Hin. congruence. }
    rewrite Hnd. rewrite bool_decide_eq_true_2 by done. cbn [assert]. retb.
    eapply (unlock_pair_exit false s d g); gsimpl; try done; try slot_goal.
    apply slot_ext. intros j. sl. cbn [put_set get_set].
    rewrite !delete_id by done.
    repeat case_decide; try congruence; try done; subst; rewrite ?Hs, ?Hd;
      destruct ms, md, vs, vd; simpl in *; simplify_eq; reflexivity.
Qed.

(** The table after a successful [remove_edge]. *)
Lemma remove_edge_wf s d ms md vs vd t :
  wf t -> s <> d -> slot s t = Some ms -> slot d t = Some md ->
  idxToVertex ms = Some vs -> idxToVertex md = Some vd ->
  wf (upd s (bump (with_vertex (Some (unlink_out (s, d) vs)) ms))
        (upd d (bump (with_vertex (Some (unlink_in (s, d) vd)) md)) t)).
Proof.
  intros Hwf Hne Hs Hd Evs Evd.
  pose proof (slot_in_table _ _ _ Hs) as Is.
  pose proof (slot_in_table _ _ _ Hd) as Id.
  pose proof (slot_adj _ _ _ _ Hs Evs) as As.
  pose proof (slot_inc _ _ _ _ Hs Evs) as Bs.
  pose proof (slot_adj _ _ _ _ Hd Evd) as Ad.
  pose proof (slot_inc _ _ _ _ Hd Evd) as Bd.
  apply wf_view in Hwf as (Hseq & Hlock & Hout & Hin).
  apply wf_view. split; [|split; [|split]].
  - intros u. rewrite !seq_of_upd by in_tab.
    repeat case_decide; try apply bump_range. apply Hseq.
  - intros u. rewrite !lock_of_upd by in_tab. repeat case_decide; simpl.
    + specialize (Hlock s). unfold lock_of in Hlock. by rewrite Hs in Hlock.
    + specialize (Hlock d). unfold lock_of in Hlock. by rewrite Hd in Hlock.
    + apply Hlock.
  - intros u k r0. rewrite !adj_upd by in_tab. unfold out_ok.
    rewrite !inc_upd by in_tab. simpl.
    destruct (decide (u = s)) as [->|Hus].
    + rewrite lookup_delete_Some, <- As. intros [Hk H0].
      destruct (Hout _ _ _ H0) as (Hk0 & Hs0 & Hd0 & Hi0).
      repeat split; try done. rewrite decide_False by done.
      case_decide as Hc; [|done]. rewrite lookup_delete_ne by done.
      by rewrite <- Bd, <- Hc.
    + destruct (decide (u = d)) as [->|Hud].
      * simpl. rewrite <- Ad. intros H0.
        destruct (Hout _ _ _ H0) as (Hk0 & Hs0 & Hd0 & Hi0).
        repeat split; try done.
        case_decide as Hc1; [|by rewrite decide_False by done].
        simpl. by rewrite <- Bs, <- Hc1.
      * intros H0. destruct (Hout _ _ _ H0) as (Hk0 & Hs0 & Hd0 & Hi0).
        repeat split; try done.
        case_decide as Hc1; [simpl; by rewrite <- Bs, <- Hc1|].
        case_decide as Hc2; [|done]. simpl.
        rewrite lookup_delete_ne; [by rewrite <- Bd, <- Hc2|].
        rewrite Hk0. unfold rkey. congruence.
  - intros u k r0. rewrite !inc_upd by in_tab. unfold in_ok.
    rewrite !adj_upd by in_tab. simpl.
    destruct (decide (u = s)) as [->|Hus].
    + rewrite <- Bs. intros H0.
      destruct (Hin _ _ _ H0) as (Hk0 & Hd0 & Hs0 & Hi0).
      repeat split; try done. rewrite decide_False by done.
      case_decide as Hc; [|done]. simpl. by rewrite <- Ad, <- Hc.
    + destruct (decide (u = d)) as [->|Hud].
      * simpl. rewrite lookup_delete_Some, <- Bd. intros [Hk H0].
        destruct (Hin _ _ _ H0) as (Hk0 & Hd0 & Hs0 & Hi0).
        repeat split; try done.
        case_decide as Hc; [|by rewrite decide_False by done].
        rewrite lookup_delete_ne by done. by rewrite <- As, <- Hc.
      * intros H0. destruct (Hin _ _ _ H0) as (Hk0 & Hd0 & Hs0 & Hi0).
        repeat split; try done.
        case_decide as Hc1.
        -- rewrite lookup_delete_ne; [by rewrite <- As, <- Hc1|].
           rewrite Hk0. unfold rkey. congruence.
        -- case_decide as Hc2; [|done]. simpl. by rewrite <- Ad, <- Hc2.
Qed.

(** ** Loops over a sorted list of vertices *)

Lemma NoDup_mid {A} (l1 l2 : list A) x : NoDup (l1 ++ x :: l2) -> x ∉ l1.
Proof.
  intros H Hin. apply NoDup_app in H as (_ & H & _).
  apply (H _ Hin). left.
Qed.

Lemma elem_of_mid {A} (l1 l2 : list A) x : x ∈ l1 ++ x :: l2.
Proof. apply elem_of_app. right. left. Qed.

Lemma lock_all_ok (body : Z -> M unit) l t g :
  env g = [] -> vMeta g = t -> NoDup l ->
  (forall x, x ∈ l -> exists m, slot x t = Some m /\ vertexLocks m = false) ->
  (forall x g', x ∈ l -> env g' = [] -> slot x (vMeta g') = slot x t ->
     body x g' = lock x g') ->
  exists g', for_each l body g = Ret tt g' /\ env g' = [] /\ hist g' = hist g /\
    next_addr g' = next_addr g /\
    trace g' = trace g ++ (ELock <$> l) /\
    forall j, slot j (vMeta g') =
              if decide (j ∈ l) then with_lock true <$> slot j t else slot j t.
Proof.
  intros He Ht Hnd Hfree Hbody.
  destruct (for_each_inv
    (fun l1 g' => env g' = [] /\ hist g' = hist g /\ next_addr g' = next_addr g /\
       trace g' = trace g ++ (ELock <$> l1) /\
       forall j, slot j (vMeta g') =
                 if decide (j ∈ l1) then with_lock true <$> slot j t else slot j t)
    body l g) as (g' & E & HI).
  - repeat split; try done.
    + by rewrite app_nil_r.
    + intros j. rewrite decide_False by apply not_elem_of_nil. by rewrite Ht.
  - intros l1 x l2 g1 El (He1 & Hh1 & Ha1 & Htr1 & Hpt1).
    assert (x ∈ l) as Hx by (rewrite El; apply elem_of_mid).
    assert (x ∉ l1) as Hx1 by (rewrite El in Hnd; by eapply NoDup_mid).
    destruct (Hfree x Hx) as (m & Hm & Hl).
    assert (slot x (vMeta g1) = Some m) as Hm1.
    { rewrite Hpt1. by rewrite decide_False. }
    rewrite (Hbody x g1 Hx He1) by congruence.
    rewrite (lock_ok x m g1 He1 Hm1 Hl).
    eexists. split; [reflexivity|]. gsimpl. repeat split; try done.
    + rewrite Htr1, fmap_app. by rewrite <- app_assoc.
    + intros j. rewrite slot_upd' by by eapply slot_in_table.
      rewrite Hpt1. destruct (decide (j = x)) as [->|Hne].
      * rewrite decide_True by (apply elem_of_app; right; left). by rewrite Hm.
      * destruct (decide (j ∈ l1)) as [Hj|Hj].
        -- rewrite decide_True; [done|]. apply elem_of_app. by left.
        -- rewrite decide_False; [done|]. rewrite elem_of_app, list_elem_of_singleton.
           tauto.
  - exists g'. tauto.
Qed.

Lemma acquire_lock vid seq x g m :
  env g = [] -> slot x (vMeta g) = Some m -> vertexLocks m = false ->
  is_Some (idxToVertex m) ->
  acquire vid seq x g = lock x g.
Proof.
  intros He Hm Hl [v Hv]. unfold acquire.
  rewrite (bindG_ret_eq _ _ _ _ _ (lock_ok x m g He Hm Hl)).
  pose proof (slot_in_table _ _ _ Hm) as Ix.
  step vertex_ok. cbn [idxToVertex with_lock]. rewrite Hv. cbn [is_null].
  by rewrite (lock_ok x m g He Hm Hl).
Qed.

Lemma for_each_delete l g :
  exists g', for_each l delete_Relation g = Ret tt g' /\ env g' = env g /\
    hist g' = hist g /\ vMeta g' = vMeta g /\ next_addr g' = next_addr g.
Proof.
  revert g. induction l as [|r l IH]; intros g.
  - by exists g.
  - destruct (IH (log (EDelete (addr r)) g)) as (g' & E & H).
    exists g'. split; [|exact H]. simpl.
    by rewrite (bindG_ret_eq _ _ _ _ _ (delete_Relation_ok r g)).
Qed.

(** Releasing a list of held locks, after the action [pre] on the slot. *)
Lemma release_all_ok (f : VertexMeta -> VertexMeta) (pre : Z -> M unit) l t g :
  env g = [] -> vMeta g = t -> NoDup l ->
  (forall m, idxToVertex (f m) = idxToVertex m /\ vertexLocks (f m) = vertexLocks m) ->
  (forall x, x ∈ l -> exists m, slot x t = Some m /\ vertexLocks m = true) ->
  (forall x g' m, x ∈ l -> slot x (vMeta g') = Some m -> same_vtx (vMeta g') t ->
     pre x g' = Ret tt (set_vMeta (upd x (f m) (vMeta g')) g')) ->
  exists g', for_each l (fun x => pre x ;; unlock x) g = Ret tt g' /\ env g' = [] /\
    next_addr g' = next_addr g /\
    grows (fun t' => same_vtx t' t) g g' /\
    forall j, slot j (vMeta g') =
              if decide (j ∈ l) then (fun m => with_lock false (f m)) <$> slot j t
              else slot j t.
Proof.
  intros He Ht Hnd Hf Hheld Hpre.
  destruct (for_each_inv
    (fun l1 g' => env g' = [] /\ next_addr g' = next_addr g /\
       grows (fun t' => same_vtx t' t) g g' /\
       forall j, slot j (vMeta g') =
                 if decide (j ∈ l1) then (fun m => with_lock false (f m)) <$> slot j t
                 else slot j t)
    (fun x => pre x ;; unlock x) l g) as (g' & E & HI).
  - repeat split; try done.
    + exists []. split; [by rewrite app_nil_r|done].
    + intros j. rewrite decide_False by apply not_elem_of_nil. by rewrite Ht.
  - intros l1 x l2 g1 El (He1 & Ha1 & (h1 & Hh1 & Hall1) & Hpt1).
    assert (x ∈ l) as Hx by (rewrite El; apply elem_of_mid).
    assert (x ∉ l1) as Hx1 by (rewrite El in Hnd; by eapply NoDup_mid).
    destruct (Hheld x Hx) as (m & Hm & Hl).
    assert (slot x (vMeta g1) = Some m) as Hm1.
    { rewrite Hpt1. by rewrite decide_False. }
    pose proof (slot_in_table _ _ _ Hm1) as Ix.
    destruct (Hf m) as [Hfv Hfl].
    assert (same_vtx (vMeta g1) t) as Hsv.
    { intros u. unfold vtx. rewrite Hpt1. case_decide; [|done].
      destruct (slot u t) as [mu|]; [|done]. simpl. apply Hf. }
    rewrite (bindG_ret_eq _ _ _ _ _ (Hpre x g1 m Hx Hm1 Hsv)).
    erewrite unlock_ok; [| slot_goal | congruence].
    eexists. split; [reflexivity|]. gsimpl. repeat split; try done.
    + unfold grows. gsimpl.
      eexists. split; [rewrite Hh1; by rewrite <- app_assoc|].
      apply Forall_app. split; [done|]. apply Forall_cons_2; [|done].
      intros u. rewrite vtx_upd by done. case_decide as Hc.
      * subst u. rewrite Hfv. unfold vtx. by rewrite Hm.
      * unfold vtx. rewrite Hpt1. case_decide; [|done].
        destruct (slot u t) as [mu|]; [|done]. simpl. apply Hf.
    + intros j. rewrite upd_upd. rewrite slot_upd' by done.
      rewrite Hpt1. destruct (decide (j = x)) as [->|Hne].
      * rewrite decide_True by (apply elem_of_app; right; left). by rewrite Hm.
      * destruct (decide (j ∈ l1)) as [Hj|Hj].
        -- rewrite decide_True; [done|]. apply elem_of_app. by left.
        -- rewrite decide_False; [done|]. rewrite elem_of_app, list_elem_of_singleton.
           tauto.
  - exists g'. tauto.
Qed.

Lemma detach_all_ok vid l t g :
  env g = [] -> vMeta g = t -> NoDup l ->
  (forall x, x ∈ l -> x <> vid ->
     exists m v, slot x t = Some m /\ idxToVertex m = Some v /\
       (is_Some (adjacency_list v !! (x, vid)) \/ is_Some (dest_list v !! (vid, x)))) ->
  exists g', for_each l (detach vid) g = Ret tt g' /\ env g' = [] /\
    hist g' = hist g /\ next_addr g' = next_addr g /\
    forall j, slot j (vMeta g') =
              if decide (j ∈ l /\ j <> vid) then stripm vid j <$> slot j t
              else slot j t.
Proof.
  intros He Ht Hnd Hnb.
  destruct (for_each_inv
    (fun l1 g' => env g' = [] /\ hist g' = hist g /\ next_addr g' = next_addr g /\
       forall j, slot j (vMeta g') =
                 if decide (j ∈ l1 /\ j <> vid) then stripm vid j <$> slot j t
                 else slot j t)
    (detach vid) l g) as (g' & E & HI).
  - repeat split; try done.
    intros j. rewrite decide_False; [by rewrite Ht|].
    intros [H _]. by apply not_elem_of_nil in H.
  - intros l1 x l2 g1 El (He1 & Hh1 & Ha1 & Hpt1).
    assert (x ∈ l) as Hx by (rewrite El; apply elem_of_mid).
    assert (x ∉ l1) as Hx1 by (rewrite El in Hnd; by eapply NoDup_mid).
    unfold detach. destruct (Z.eqb_spec x vid) as [->|Hxv].
    + exists g1. split; [done|]. repeat split; try done.
      intros j. rewrite Hpt1. destruct (decide (j ∈ l1 /\ j <> vid)) as [Hj|Hj].
      * rewrite decide_True; [done|]. split; [|tauto]. apply elem_of_app. tauto.
      * rewrite decide_False; [done|].
        rewrite elem_of_app, list_elem_of_singleton. tauto.
    + destruct (Hnb x Hx Hxv) as (m & v & Hm & Hv & Hrel).
      assert (slot x (vMeta g1) = Some m) as Hm1.
      { rewrite Hpt1. rewrite decide_False; [done|]. tauto. }
      pose proof (slot_in_table _ _ _ Hm1) as Ix.
      step has_relation_ok. cbn [get_set].
      change (rkey (local_Relation x vid (-1))) with (x, vid).
      change (rkey (local_Relation vid x (-1))) with (vid, x).
      assert (forall (k : M unit),
        (hd <- (if bool_decide (is_Some (adjacency_list v !! (x, vid)))
                then ret true
                else has_relation (destination x) (local_Relation vid x (-1))) ;;
         (if negb (bool_decide (is_Some (adjacency_list v !! (x, vid)))) && negb hd
          then abort else ret tt) ;; k) g1 = k g1) as Hk.
      { intros k. destruct (bool_decide (is_Some (adjacency_list v !! (x, vid)))) eqn:Eb.
        - done.
        - step has_relation_ok. cbn [get_set].
          change (rkey (local_Relation vid x (-1))) with (vid, x).
          destruct Hrel as [Hrel|Hrel].
          + apply bool_decide_eq_false in Eb. done.
          + rewrite bool_decide_eq_true_2 by done. done. }
      rewrite Hk. clear Hk.
      step remove_relation_ok. step remove_relation_ok.
      cbn [get_set put_set adjacency_list dest_list].
      change (rkey (local_Relation x vid (-1))) with (x, vid).
      change (rkey (local_Relation vid x (-1))) with (vid, x).
      assert (forall gx, (match adjacency_list v !! (x, vid) with
                          | Some r1 => delete_Relation r1
                          | None => ret tt
                          end) gx =
                         Ret tt (match adjacency_list v !! (x, vid) with
                                 | Some r1 => log (EDelete (addr r1)) gx
                                 | None => gx
                                 end)) as Hdel.
      { intros gx. by destruct (adjacency_list v !! (x, vid)). }
      rewrite (bindG_ret_eq _ _ _ _ _ (Hdel _)). clear Hdel.
      set (gy := match adjacency_list v !! (x, vid) with
                 | Some r1 => log (EDelete (addr r1)) _
                 | None => _
                 end).
      assert (env gy = [] /\ hist gy = hist g /\ next_addr gy = next_addr g /\
              vMeta gy = upd x (stripm vid x m) (vMeta g1)) as (He2 & Hh2 & Ha2 & Hv2).
      { unfold gy. destruct (adjacency_list v !! (x, vid)); gsimpl;
          repeat split; try done; rewrite upd_upd; unfold stripm, strip;
          by rewrite Hv. }
      clearbody gy.
      assert (slot x (vMeta gy) = Some (stripm vid x m)) as Hm2.
      { rewrite Hv2. rewrite slot_upd' by done. by rewrite decide_True. }
      assert (idxToVertex (stripm vid x m) = Some (strip vid x v)) as Hv2'.
      { unfold stripm. simpl. by rewrite Hv. }
      step has_relation_ok. cbn [get_set strip adjacency_list].
      change (rkey (local_Relation x vid (-1))) with (x, vid).
      rewrite lookup_delete_eq.
      rewrite (bool_decide_eq_false_2 (is_Some None)) by (intros [? ?]; done).
      step has_relation_ok. cbn [get_set strip dest_list].
      change (rkey (local_Relation vid x (-1))) with (vid, x).
      rewrite lookup_delete_eq.
      rewrite (bool_decide_eq_false_2 (is_Some None)) by (intros [? ?]; done).
      cbn [negb andb assert].
      exists gy. split; [done|]. repeat split; try done.
      intros j. rewrite Hv2. rewrite slot_upd' by done. rewrite Hpt1.
      destruct (decide (j = x)) as [->|Hne].
      * rewrite decide_True; [by rewrite Hm|]. split; [|done].
        apply elem_of_app. right. left.
      * destruct (decide (j ∈ l1 /\ j <> vid)) as [Hj|Hj].
        -- rewrite decide_True; [done|]. split; [|tauto]. apply elem_of_app. tauto.
        -- rewrite decide_False; [done|].
           rewrite elem_of_app, list_elem_of_singleton. tauto.
  - exists g'. tauto.
Qed.

Lemma destroy_ok idx m g :
  slot idx (vMeta g) = Some m -> is_Some (idxToVertex m) ->
  destroy idx g = Ret tt (set_vMeta (upd idx (with_vertex None m) (vMeta g)) g).
Proof.
  intros H Hv. unfold destroy.
  rewrite (bindG_ret_eq _ _ _ _ _ (vertex_ok _ _ _ H)).
  rewrite bool_decide_eq_true_2 by done. cbn [assert]. rewrite retG_bind.
  unfold set_vertex. by rewrite (modify_ok _ _ _ _ H).
Qed.

Lemma for_each_ext {A} (f f' : A -> M unit) l g :
  (forall x g, f x g = f' x g) -> for_each l f g = for_each l f' g.
Proof.
  intros H. revert g. induction l as [|x l IH]; intros g; [done|].
  simpl. unfold bind. rewrite H. destruct (f' x g); auto.
Qed.

Lemma elem_of_neighbours vid v0 x :
  x ∈ neighbours vid v0 <->
  (exists k r, adjacency_list v0 !! k = Some r /\ dest r = x) \/
  (exists k r, dest_list v0 !! k = Some r /\ src r = x) \/ x = vid.
Proof.
  unfold neighbours. rewrite elem_of_sort_unique, !elem_of_app.
  rewrite !list_elem_of_fmap, list_elem_of_singleton.
  split.
  - intros [(r & Hx & Hr)|[(r & Hx & Hr)|Hx]].
    + left. apply list_elem_of_fmap in Hr as ([k r'] & Hr' & Hkr).
      simpl in Hr'. subst r'. apply elem_of_map_to_list in Hkr. eauto.
    + right. left. apply list_elem_of_fmap in Hr as ([k r'] & Hr' & Hkr).
      simpl in Hr'. subst r'. apply elem_of_map_to_list in Hkr. eauto.
    + right; by right.
  - intros [(k & r & Hr & Hx)|[(k & r & Hr & Hx)|Hx]].
    + left. exists r. split; [done|]. apply list_elem_of_fmap.
      exists (k, r). split; [done|]. by apply elem_of_map_to_list.
    + right. left. exists r. split; [done|]. apply list_elem_of_fmap.
      exists (k, r). split; [done|]. by apply elem_of_map_to_list.
    + right; by right.
Qed.

Lemma inc_lookup t x k r :
  inc t x !! k = Some r ->
  exists m v, slot x t = Some m /\ idxToVertex m = Some v /\ dest_list v !! k = Some r.
Proof.
  unfold inc, vtx. destruct (slot x t) as [m|]; [|done]. simpl.
  destruct (idxToVertex m) as [v|] eqn:E; [|done]. simpl. eauto.
Qed.

Lemma adj_lookup t x k r :
  adj t x !! k = Some r ->
  exists m v, slot x t = Some m /\ idxToVertex m = Some v /\ adjacency_list v !! k = Some r.
Proof.
  unfold adj, vtx. destruct (slot x t) as [m|]; [|done]. simpl.
  destruct (idxToVertex m) as [v|] eqn:E; [|done]. simpl. eauto.
Qed.

Lemma neighbour_linked t vid m0 v0 x :
  wf t -> slot vid t = Some m0 -> idxToVertex m0 = Some v0 ->
  x ∈ neighbours vid v0 -> x <> vid ->
  exists m v, slot x t = Some m /\ idxToVertex m = Some v /\
    (is_Some (adjacency_list v !! (x, vid)) \/ is_Some (dest_list v !! (vid, x))).
Proof.
  intros Hwf Hs Hv Hx Hne. apply wf_view in Hwf as (_ & _ & Hout & Hin).
  apply elem_of_neighbours in Hx as [(k & r & Hr & <-)|[(k & r & Hr & <-)|?]];
    [| |done].
  - rewrite <- (slot_adj _ _ _ _ Hs Hv) in Hr.
    destruct (Hout _ _ _ Hr) as (Hk & Hsr & _ & Hi).
    destruct (inc_lookup _ _ _ _ Hi) as (m & v & Hm & Hmv & Hl).
    exists m, v. repeat split; try done. right.
    rewrite Hk in Hl. unfold rkey in Hl. rewrite Hsr in Hl. eauto.
  - rewrite <- (slot_inc _ _ _ _ Hs Hv) in Hr.
    destruct (Hin _ _ _ Hr) as (Hk & Hds & _ & Hi).
    destruct (adj_lookup _ _ _ _ Hi) as (m & v & Hm & Hmv & Hl).
    exists m, v. repeat split; try done. left.
    rewrite Hk in Hl. unfold rkey in Hl. rewrite Hds in Hl. eauto.
Qed.

Lemma neighbours_self vid v0 : vid ∈ neighbours vid v0.
Proof. apply elem_of_neighbours. right; by right. Qed.

Lemma neighbours_NoDup vid v0 : NoDup (neighbours vid v0).
Proof. apply sort_unique_NoDup. Qed.

Lemma scan_ok vid g m0 :
  env g = [] -> slot vid (vMeta g) = Some m0 -> vertexLocks m0 = false ->
  exists g1, scan vid g = Ret (scanned vid m0) g1 /\ env g1 = [] /\
    vMeta g1 = vMeta g /\ next_addr g1 = next_addr g /\
    hist g1 = hist g ++ [upd vid (with_lock true m0) (vMeta g)].
Proof.
  intros He Hs Hl. pose proof (slot_in_table _ _ _ Hs) as Is.
  assert (upd vid (with_lock false (with_lock true m0))
            (upd vid (with_lock true m0) (vMeta g)) = vMeta g) as Hback.
  { rewrite upd_upd, with_lock_twice, with_lock_id by done. by apply upd_id. }
  unfold scan, scanned. step lock_ok. step vertex_ok. cbn [idxToVertex with_lock].
  destruct (idxToVertex m0) as [v0|] eqn:Ev; cbn [is_null].
  - step get_seq_ok. step elements_ok. step elements_ok. step unlock_ok.
    cbn [get_set vertexSeqs with_lock]. rewrite Hback.
    eexists. split; [reflexivity|]. by gsimpl.
  - step unlock_ok. rewrite Hback.
    eexists. split; [reflexivity|]. by gsimpl.
Qed.

Lemma commit_ok vid g2 t m0 v0 :
  env g2 = [] -> wf t -> slot vid t = Some m0 -> idxToVertex m0 = Some v0 ->
  (forall j, slot j (vMeta g2) =
             if decide (j ∈ neighbours vid v0) then with_lock true <$> slot j t
             else slot j t) ->
  exists g', commit vid (neighbours vid v0) g2 = Ret tt g' /\ env g' = [] /\
    (forall j, slot j (vMeta g') =
       if decide (j = vid) then Some (bump (with_vertex None m0))
       else if decide (j ∈ neighbours vid v0)
            then (fun m => bump (stripm vid j m)) <$> slot j t
            else slot j t) /\
    grows (fun t' => same_vtx t' (vMeta g')) g2 g'.
Proof.
  intros He2 Hwf Hs Hv Hpt2.
  pose proof (proj1 (wf_view _) Hwf) as (_ & Hlock & _ & _).
  assert (vertexLocks m0 = false) as Hl0.
  { specialize (Hlock vid). unfold lock_of in Hlock. by rewrite Hs in Hlock. }
  unfold commit.
  destruct (detach_all_ok vid (neighbours vid v0) (vMeta g2) g2)
    as (g3 & E3 & He3 & Hh3 & Ha3 & Hpt3); try done.
  { apply neighbours_NoDup. }
  { intros x Hx Hne.
    destruct (neighbour_linked _ _ _ _ _ Hwf Hs Hv Hx Hne) as (m & v & Hm & Hmv & Hr).
    exists (with_lock true m), v. rewrite Hpt2, decide_True by done.
    rewrite Hm. done. }
  rewrite (bindG_ret_eq _ _ _ _ _ E3).
  assert (slot vid (vMeta g3) = Some (with_lock true m0)) as Hs3.
  { rewrite Hpt3, decide_False by tauto.
    rewrite Hpt2, decide_True by apply neighbours_self. by rewrite Hs. }
  pose proof (slot_in_table _ _ _ Hs3) as Is3.
  step elements_ok. step set_clear_ok. step set_clear_ok.
  step destroy_ok. cbn [get_set put_set].
  edestruct for_each_delete as (g5 & E5 & He5 & Hh5 & Hv5 & Ha5).
  rewrite (bindG_ret_eq _ _ _ _ _ E5). gsimpl.
  set (t4 := upd vid _ _) in Hv5.
  assert (forall j, slot j t4 =
            if decide (j = vid) then Some (with_lock true (with_vertex None m0))
            else slot j (vMeta g3)) as Hpt4.
  { intros j. unfold t4. rewrite !upd_upd. rewrite slot_upd' by done.
    by case_decide. }
  clearbody t4.
  destruct (release_all_ok bump inc_seq (reverse (neighbours vid v0)) t4 g5)
    as (g6 & E6 & He6 & Ha6 & Hg6 & Hpt6); try done.
  { congruence. }
  { rewrite reverse_Permutation. apply neighbours_NoDup. }
  { intros x Hx. rewrite elem_of_reverse in Hx. rewrite Hpt4.
    case_decide as Hc; [by eexists|].
    destruct (neighbour_linked _ _ _ _ _ Hwf Hs Hv Hx Hc) as (m & v & Hm & Hmv & Hr).
    rewrite Hpt3, decide_True by done. rewrite Hpt2, decide_True by done.
    rewrite Hm. simpl. by eexists. }
  { intros x gx m Hx Hm _. by apply inc_seq_ok. }
  exists g6. split; [done|]. split; [done|].
  assert (forall j, slot j (vMeta g6) =
       if decide (j = vid) then Some (bump (with_vertex None m0))
       else if decide (j ∈ neighbours vid v0)
            then (fun m => bump (stripm vid j m)) <$> slot j t
            else slot j t) as Hfin.
  { intros j. rewrite Hpt6, Hpt4. destruct (decide (j = vid)) as [->|Hne].
    - rewrite decide_True by (apply elem_of_reverse, neighbours_self).
      simpl. f_equal. destruct m0. simpl in *. by subst.
    - rewrite Hpt3, Hpt2.
      destruct (decide (j ∈ neighbours vid v0)) as [Hj|Hj].
      + rewrite decide_True by by apply elem_of_reverse.
        rewrite decide_True by done.
        destruct (neighbour_linked _ _ _ _ _ Hwf Hs Hv Hj Hne)
          as (m & v & Hm & Hmv & Hr).
        rewrite Hm. simpl. f_equal.
        specialize (Hlock j). unfold lock_of in Hlock. rewrite Hm in Hlock.
        destruct m. simpl in *. by subst.
      + rewrite decide_False by by rewrite elem_of_reverse.
        rewrite decide_False by tauto. done. }
  split; [done|].
  destruct Hg6 as (h & Hh & Hall). exists h. split; [congruence|].
  eapply Forall_impl; [exact Hall|]. intros t' Ht'. simpl in Ht'.
  eapply same_vtx_trans; [exact Ht'|]. intros u. unfold vtx.
  rewrite Hpt6. case_decide; [|done]. by destruct (slot u t4).
Qed.

Lemma remove_vertex_spec fuel vid g m0 :
  GWF g -> slot vid (vMeta g) = Some m0 ->
  exists g', remove_vertex (S fuel) vid g =
               Ret (bool_decide (is_Some (idxToVertex m0))) g' /\
    env g' = [] /\
    (forall j, slot j (vMeta g') = removed vid m0 (vMeta g) j) /\
    grows (fun t' => same_vtx t' (vMeta g) \/ same_vtx t' (vMeta g')) g g'.
Proof.
  intros [He Hwf] Hs.
  pose proof (proj1 (wf_view _) Hwf) as (_ & Hlock & _ & _).
  assert (vertexLocks m0 = false) as Hl0.
  { specialize (Hlock vid). unfold lock_of in Hlock. by rewrite Hs in Hlock. }
  destruct (scan_ok vid g m0 He Hs Hl0) as (g1 & E1 & He1 & Hv1 & Ha1 & Hh1).
  cbn [remove_vertex]. rewrite (bindG_ret_eq _ _ _ _ _ E1).
  unfold scanned, removed. destruct (idxToVertex m0) as [v0|] eqn:Ev.
  - rewrite bool_decide_eq_true_2 by by eexists.
    destruct (lock_all_ok (acquire vid (vertexSeqs m0)) (neighbours vid v0)
                (vMeta g) g1) as (g2 & E2 & He2 & Hh2 & Ha2 & Htr2 & Hpt2);
      try done.
    { apply neighbours_NoDup. }
    { intros x Hx. destruct (decide (x = vid)) as [->|Hne]; [by eauto|].
      destruct (neighbour_linked _ _ _ _ _ Hwf Hs Ev Hx Hne) as (m & v & Hm & _).
      exists m. split; [done|].
      specialize (Hlock x). unfold lock_of in Hlock. by rewrite Hm in Hlock. }
    { intros x gx Hx Hex Hsx.
      assert (exists m, slot x (vMeta g) = Some m /\ vertexLocks m = false /\
                        is_Some (idxToVertex m)) as (m & Hm & Hl & Hv).
      { destruct (decide (x = vid)) as [->|Hne]; [by eauto 6|].
        destruct (neighbour_linked _ _ _ _ _ Hwf Hs Ev Hx Hne) as (m & v & Hm & Hmv & _).
        exists m. repeat split; [done| |by eauto].
        specialize (Hlock x). unfold lock_of in Hlock. by rewrite Hm in Hlock. }
      apply (acquire_lock vid _ x gx m); try done. congruence. }
    rewrite (bindG_ret_eq _ _ _ _ _ E2).
    assert (slot vid (vMeta g2) = Some (with_lock true m0)) as Hs2.
    { rewrite Hpt2, decide_True by apply neighbours_self. by rewrite Hs. }
    rewrite (bindG_ret_eq _ _ _ _ _ (get_seq_ok _ _ _ Hs2)).
    cbn [vertexSeqs with_lock]. rewrite Z.eqb_refl. cbn [negb].
    destruct (commit_ok vid g2 (vMeta g) m0 v0) as (g3 & E3 & He3 & Hpt3 & Hg3);
      try done.
    rewrite (bindG_ret_eq _ _ _ _ _ E3). exists g3. repeat split; try done.
    destruct Hg3 as (h & Hh & Hall). eexists. split.
    + rewrite Hh, Hh2, Hh1. by rewrite <- app_assoc.
    + apply Forall_cons_2.
      * left. by eapply same_vtx_upd.
      * eapply Forall_impl; [exact Hall|]. intros t' Ht'. by right.
  - rewrite bool_decide_eq_false_2 by (intros [? ?]; done).
    exists g1. repeat split; try done.
    + intros j. by rewrite Hv1.
    + eexists. split; [exact Hh1|]. apply Forall_cons_2; [|done].
      left. by eapply same_vtx_upd.
Qed.

(** ** Adding a vertex *)

Lemma link_all_ok vid l t g m0 :
  env g = [] -> vMeta g = t -> NoDup l ->
  slot vid t = Some m0 -> idxToVertex m0 = Some (mkVertex ∅ ∅ vid vid) ->
  (forall x, x ∈ l -> is_Some (slot x t)) ->
  (forall x v, x <> vid -> vtx t x = Some v -> dest_list v !! (vid, x) = None) ->
  exists g' A rho, for_each l (link vid) g = Ret tt g' /\ env g' = [] /\
    hist g' = hist g /\ links_of vid l t rho A /\
    (forall u, src (rho u) = vid /\ dest (rho u) = u) /\
    forall j, slot j (vMeta g') =
      if decide (j = vid) then Some (with_vertex (Some (mkVertex A ∅ vid vid)) m0)
      else if decide (j ∈ l) then link_in_m (rho j) <$> slot j t
      else slot j t.
Proof.
  intros He Ht Hnd Hs Hv Hin Hfresh.
  destruct (for_each_inv
    (fun l1 g' => env g' = [] /\ hist g' = hist g /\
       exists A rho, links_of vid l1 t rho A /\
         (forall u, src (rho u) = vid /\ dest (rho u) = u) /\
         forall j, slot j (vMeta g') =
           if decide (j = vid) then Some (with_vertex (Some (mkVertex A ∅ vid vid)) m0)
           else if decide (j ∈ l1) then link_in_m (rho j) <$> slot j t
           else slot j t)
    (link vid) l g) as (g' & E & HI).
  - repeat split; try done.
    exists ∅, (fun u => mkRelation 0 vid u (-1)). repeat split; try done.
    + intros (u & Hu & _). by apply not_elem_of_nil in Hu.
    + intros j. rewrite Ht. case_decide as Hc.
      * subst j. rewrite Hs. f_equal. destruct m0. simpl in *. by subst.
      * by rewrite decide_False by apply not_elem_of_nil.
  - intros l1 x l2 g1 El (He1 & Hh1 & A & rho & HA & Hrho & Hpt1).
    assert (x ∈ l) as Hx by (rewrite El; apply elem_of_mid).
    assert (x ∉ l1) as Hx1 by (rewrite El in Hnd; by eapply NoDup_mid).
    assert (forall j, j ∈ l1 ++ [x] <-> j ∈ l1 \/ j = x) as Hsnoc.
    { intros j. by rewrite elem_of_app, list_elem_of_singleton. }
    unfold link.
    destruct (decide (x = vid)) as [->|Hxv].
    + assert (slot vid (vMeta g1) =
              Some (with_vertex (Some (mkVertex A ∅ vid vid)) m0)) as Hs1.
      { rewrite Hpt1. by rewrite decide_True. }
      step vertex_ok. cbn [idxToVertex with_vertex is_null].
      rewrite Z.eqb_refl. exists g1. split; [done|]. repeat split; try done.
      exists A, rho. repeat split; try apply Hrho.
      * intros HAk. apply HA in HAk as (u & Hu & Hne & Hrest).
        exists u. split; [apply Hsnoc; by left|done].
      * intros (u & Hu & Hne & Hrest). apply HA. exists u.
        apply Hsnoc in Hu as [Hu|Hu]; [done|congruence].
      * intros j. rewrite Hpt1. case_decide as Hc; [done|].
        destruct (decide (j ∈ l1)) as [Hj|Hj].
        -- rewrite decide_True; [done|]. apply Hsnoc. by left.
        -- rewrite decide_False; [done|]. rewrite Hsnoc. tauto.
    + destruct (Hin x Hx) as [mx Hmx].
      assert (slot x (vMeta g1) = Some mx) as Hm1.
      { rewrite Hpt1. rewrite decide_False by done. by rewrite decide_False. }
      pose proof (slot_in_table _ _ _ Hm1) as Ix.
      step vertex_ok. destruct (idxToVertex mx) as [vx|] eqn:Evx; cbn [is_null].
      * rewrite (proj2 (Z.eqb_neq x vid)) by done.
        step new_Relation_ok.
        set (r := mkRelation (next_addr g1) vid x (-1)).
        assert (slot vid (vMeta g1) =
                Some (with_vertex (Some (mkVertex A ∅ vid vid)) m0)) as Hs1.
        { rewrite Hpt1. by rewrite decide_True. }
        pose proof (slot_in_table _ _ _ Hs1) as Iv.
        assert (A !! (vid, x) = None) as HAx.
        { destruct (A !! (vid, x)) as [r0|] eqn:E0; [|done].
          apply HA in E0 as (u & Hu & _ & _ & Hk & _). congruence. }
        assert (dest_list vx !! (vid, x) = None) as Hdx.
        { apply (Hfresh x vx Hxv). unfold vtx. rewrite Hmx. done. }
        step set_insert_ok. step set_insert_ok. retb.
        eexists. split; [reflexivity|]. gsimpl. repeat split; try done.
        exists (<[(vid, x) := r]> A), (fun u => if decide (u = x) then r else rho u).
        repeat split.
        -- intros HAk. destruct (decide (k = (vid, x))) as [->|Hk].
           ++ rewrite lookup_insert_eq in HAk. injection HAk as <-.
              exists x. rewrite decide_True by done. repeat split; try done.
              ** apply Hsnoc. by right.
              ** unfold vtx. rewrite Hmx. simpl. by eexists.
           ++ rewrite lookup_insert_ne in HAk by done.
              apply HA in HAk as (u & Hu & Hne & Hp & Hku & Hr).
              exists u. rewrite decide_False by congruence.
              repeat split; try done. apply Hsnoc. by left.
        -- intros (u & Hu & Hne & Hp & Hku & Hr). apply Hsnoc in Hu as [Hu|Hu].
           ++ rewrite decide_False in Hr by congruence.
              rewrite lookup_insert_ne by congruence. apply HA. by exists u.
           ++ subst u. rewrite decide_True in Hr by done. subst k r0.
              by rewrite lookup_insert_eq.
        -- case_decide; [by subst|apply Hrho].
        -- case_decide; [by subst|apply Hrho].
        -- intros j. sl. change (rkey r) with (vid, x). cbn [get_set put_set].
           destruct (decide (j = x)) as [->|Hjx].
           ++ rewrite decide_False by done.
              rewrite decide_True by (apply Hsnoc; by right).
              rewrite Hmx. simpl. unfold link_in_m. rewrite Evx. simpl. done.
           ++ destruct (decide (j = vid)) as [->|Hjv]; [done|].
              rewrite Hpt1. rewrite decide_False by done.
              destruct (decide (j ∈ l1)) as [Hj|Hj].
              ** rewrite decide_True by (apply Hsnoc; by left). done.
              ** rewrite decide_False; [done|]. rewrite Hsnoc. tauto.
      * exists g1. split; [done|]. repeat split; try done.
        exists A, rho. repeat split; try apply Hrho.
        -- intros HAk. apply HA in HAk as (u & Hu & Hne & Hrest).
           exists u. split; [apply Hsnoc; by left|done].
        -- intros (u & Hu & Hne & Hp & Hrest). apply HA. exists u.
           apply Hsnoc in Hu as [Hu|Hu]; [done|]. subst u.
           unfold vtx in Hp. rewrite Hmx in Hp. simpl in Hp. rewrite Evx in Hp.
           by destruct Hp.
        -- intros j. rewrite Hpt1. case_decide as Hc; [done|].
           destruct (decide (j ∈ l1)) as [Hj|Hj].
           ++ rewrite decide_True; [done|]. apply Hsnoc. by left.
           ++ destruct (decide (j = x)) as [->|Hjx].
              ** rewrite decide_True by (apply Hsnoc; by right).
                 rewrite Hmx. simpl. unfold link_in_m. rewrite Evx. simpl.
                 f_equal. symmetry. by apply with_vertex_id.
              ** rewrite decide_False; [done|]. rewrite Hsnoc. tauto.
  - destruct HI as (He' & Hh' & A & rho & HA & Hrho & Hpt).
    exists g', A, rho. tauto.
Qed.

Lemma vtx_lookup t u v :
  vtx t u = Some v -> exists m, slot u t = Some m /\ idxToVertex m = Some v.
Proof.
  unfold vtx. destruct (slot u t) as [m|]; [|done]. simpl. eauto.
Qed.

Lemma set_vMeta_id g : set_vMeta (vMeta g) g = g.
Proof. by destruct g. Qed.

Lemma bump_linked_ok vid u g mv m :
  slot vid (vMeta g) = Some mv -> is_Some (idxToVertex mv) ->
  slot u (vMeta g) = Some m ->
  bump_linked vid u g = Ret tt (set_vMeta (upd u (cond_bump m) (vMeta g)) g).
Proof.
  intros Hv [v Ev] Hm. unfold bump_linked.
  step vertex_ok. rewrite Ev. cbn [is_null negb andb].
  step vertex_ok. unfold cond_bump.
  destruct (idxToVertex m) as [vu|] eqn:Eu; cbn [is_null negb].
  - by apply inc_seq_ok.
  - unfold ret. by rewrite upd_id, set_vMeta_id.
Qed.

Lemma cond_bump_same m :
  idxToVertex (cond_bump m) = idxToVertex m /\
  vertexLocks (cond_bump m) = vertexLocks m.
Proof. unfold cond_bump. by destruct (is_null (idxToVertex m)). Qed.

Section AddVertex.

Variable meanEdgesPerVertex : Z.
Variable vertexLoad : Z.

Local Abbreviation sampled := (TGraph.sampled meanEdgesPerVertex vertexLoad).

Lemma add_vertex_spec rng vid g m0 :
  GWF g ->
  (forall u, u ∈ sampled rng vid -> in_table u (vMeta g)) ->
  slot vid (vMeta g) = Some m0 ->
  exists g',
    add_vertex meanEdgesPerVertex vertexLoad rng vid g =
      Ret (is_null (idxToVertex m0)) g' /\
    env g' = [] /\
    (is_Some (idxToVertex m0) ->
     forall j, slot j (vMeta g') =
               if decide (j ∈ sampled rng vid) then cond_bump <$> slot j (vMeta g)
               else slot j (vMeta g)) /\
    (idxToVertex m0 = None ->
     exists A rho, links_of vid (sampled rng vid) (vMeta g) rho A /\
       (forall u, src (rho u) = vid /\ dest (rho u) = u) /\
       forall j, slot j (vMeta g') =
                 added vid m0 (sampled rng vid) (vMeta g) A rho j) /\
    grows (fun t' => same_vtx t' (vMeta g')) g g'.
Proof.
  intros [He Hwf] Hin Hs.
  pose proof (proj1 (wf_view _) Hwf) as (_ & Hlock & Hout & Hinc).
  assert (forall x m, slot x (vMeta g) = Some m -> vertexLocks m = false) as Hfree.
  { intros x m Hm. specialize (Hlock x). unfold lock_of in Hlock.
    by rewrite Hm in Hlock. }
  assert (vid ∈ sampled rng vid) as Hvid.
  { apply elem_of_sort_unique, elem_of_app. right. left. }
  pose proof (sort_unique_NoDup (sample meanEdgesPerVertex vertexLoad rng ++ [vid]))
    as Hnd. fold (sampled rng vid) in Hnd.
  unfold add_vertex. fold (sampled rng vid).
  destruct (lock_all_ok lock (sampled rng vid) (vMeta g) g)
    as (g2 & E2 & He2 & Hh2 & Ha2 & Htr2 & Hpt2); try done.
  { intros x Hx. destruct (in_table_slot _ _ (Hin x Hx)) as [m Hm]. eauto. }
  rewrite (bindG_ret_eq _ _ _ _ _ E2).
  assert (slot vid (vMeta g2) = Some (with_lock true m0)) as Hs2.
  { rewrite Hpt2, decide_True by done. by rewrite Hs. }
  pose proof (slot_in_table _ _ _ Hs2) as Is2.
  step vertex_ok. cbn [idxToVertex with_lock].
  destruct (idxToVertex m0) as [v0|] eqn:Ev; cbn [is_null].
  - retb.
    destruct (release_all_ok cond_bump (bump_linked vid) (reverse (sampled rng vid))
                (vMeta g2) g2) as (g3 & E3 & He3 & Ha3 & Hg3 & Hpt3); try done.
    { by rewrite reverse_Permutation. }
    { apply cond_bump_same. }
    { intros x Hx. rewrite elem_of_reverse in Hx.
      destruct (in_table_slot _ _ (Hin x Hx)) as [m Hm].
      exists (with_lock true m). rewrite Hpt2, decide_True by done. by rewrite Hm. }
    { intros x gx m Hx Hm Hsv.
      assert (vtx (vMeta gx) vid = Some v0) as Hvv.
      { rewrite Hsv. unfold vtx. rewrite Hs2. done. }
      apply vtx_lookup in Hvv as (mv & Hmv & Hmvv).
      eapply bump_linked_ok; eauto. }
    rewrite (bindG_ret_eq _ _ _ _ _ E3).
    exists g3. split; [done|]. split; [done|].
    assert (forall j, slot j (vMeta g3) =
              if decide (j ∈ sampled rng vid) then cond_bump <$> slot j (vMeta g)
              else slot j (vMeta g)) as Hfin.
    { intros j. rewrite Hpt3, Hpt2.
      destruct (decide (j ∈ sampled rng vid)) as [Hj|Hj].
      - rewrite decide_True by by rewrite elem_of_reverse.
        destruct (slot j (vMeta g)) as [m|] eqn:Em; [|done]. simpl. f_equal.
        pose proof (Hfree _ _ Em) as Hl. unfold cond_bump. simpl.
        destruct m as [mv ml ms]; simpl in *; subst. by destruct mv.
      - by rewrite decide_False by by rewrite elem_of_reverse. }
    split; [done|]. split; [done|].
    destruct Hg3 as (h & Hh & Hall). exists h. split; [congruence|].
    eapply Forall_impl; [exact Hall|]. intros t' Ht'. simpl in Ht'.
    eapply same_vtx_trans; [exact Ht'|]. intros u. unfold vtx.
    rewrite Hpt3. case_decide; [|done].
    destruct (slot u (vMeta g2)) as [mu|]; [|done]. simpl.
    symmetry. apply cond_bump_same.
  - unfold set_vertex. step modify_ok.
    set (m1 := with_vertex (Some (mkVertex ∅ ∅ vid vid)) (with_lock true m0)).
    set (t3 := upd vid m1 (vMeta g2)).
    assert (forall j, slot j t3 = if decide (j = vid) then Some m1
                                  else slot j (vMeta g2)) as Hpt3.
    { intros j. unfold t3. by rewrite slot_upd' by done. }
    assert (forall x, x <> vid -> vtx t3 x = vtx (vMeta g) x) as Hvx.
    { intros x Hx. unfold vtx. rewrite Hpt3, decide_False by done. rewrite Hpt2.
      case_decide; [|done]. by destruct (slot x (vMeta g)). }
    destruct (link_all_ok vid (sampled rng vid) t3 (set_vMeta t3 g2) m1)
      as (g4 & A & rho & E4 & He4 & Hh4 & HA & Hrho & Hpt4); try done.
    { by rewrite Hpt3, decide_True. }
    { intros x Hx. rewrite Hpt3. case_decide; [by eexists|].
      rewrite Hpt2, decide_True by done.
      destruct (in_table_slot _ _ (Hin x Hx)) as [m Hm]. rewrite Hm. by eexists. }
    { intros x v Hx Hv. rewrite Hvx in Hv by done.
      destruct (dest_list v !! (vid, x)) as [r0|] eqn:E0; [|done].
      assert (inc (vMeta g) x !! (vid, x) = Some r0) as Hi.
      { unfold inc. by rewrite Hv. }
      destruct (Hinc _ _ _ Hi) as (Hk & _ & _ & Ha).
      assert (src r0 = vid) as Hsr by (unfold rkey in Hk; congruence).
      rewrite Hsr in Ha. unfold adj, vtx in Ha. rewrite Hs in Ha. simpl in Ha.
      by rewrite Ev in Ha. }
    rewrite bindG_assoc. rewrite (bindG_ret_eq _ _ _ _ _ E4). retb.
    destruct (release_all_ok cond_bump (bump_linked vid) (reverse (sampled rng vid))
                (vMeta g4) g4) as (g5 & E5 & He5 & Ha5 & Hg5 & Hpt5); try done.
    { by rewrite reverse_Permutation. }
    { apply cond_bump_same. }
    { intros x Hx. rewrite elem_of_reverse in Hx. rewrite Hpt4.
      case_decide; [by eexists|]. rewrite decide_True by done.
      rewrite Hpt3, decide_False by done. rewrite Hpt2, decide_True by done.
      destruct (in_table_slot _ _ (Hin x Hx)) as [m Hm]. rewrite Hm. by eexists. }
    { intros x gx m Hx Hm Hsv.
      assert (vtx (vMeta gx) vid = Some (mkVertex A ∅ vid vid)) as Hvv.
      { rewrite Hsv. unfold vtx. rewrite Hpt4, decide_True by done. done. }
      apply vtx_lookup in Hvv as (mv & Hmv & Hmvv).
      eapply bump_linked_ok; eauto. }
    rewrite (bindG_ret_eq _ _ _ _ _ E5).
    exists g5. split; [done|]. split; [done|].
    split; [by intros [? ?]|].
    assert (forall j, slot j (vMeta g5) =
              added vid m0 (sampled rng vid) (vMeta g) A rho j) as Hfin.
    { intros j. unfold added. rewrite Hpt5, Hpt4.
      destruct (decide (j = vid)) as [->|Hjv].
      - rewrite decide_True by by rewrite elem_of_reverse.
        simpl. f_equal. pose proof (Hfree _ _ Hs) as Hl.
        unfold cond_bump, m1, bump, with_seq, with_vertex, with_lock. simpl.
        by rewrite Hl.
      - rewrite Hpt3, (decide_False (P := j = vid)) by done. rewrite Hpt2.
        destruct (decide (j ∈ sampled rng vid)) as [Hj|Hj].
        + rewrite decide_True by by rewrite elem_of_reverse.
          destruct (slot j (vMeta g)) as [m|] eqn:Em; [|done]. simpl. f_equal.
          pose proof (Hfree _ _ Em) as Hl.
          unfold cond_bump, link_in_m, bump, with_seq, with_vertex, with_lock.
          simpl. rewrite Hl. by destruct (idxToVertex m).
        + by rewrite decide_False by by rewrite elem_of_reverse. }
    split.
    { intros _. exists A, rho. repeat split; try apply Hrho; try done.
      - intros HAk. apply HA in HAk as (u & Hu & Hne & Hp & Hrest).
        exists u. rewrite <- Hvx by done. done.
      - intros (u & Hu & Hne & Hp & Hrest). apply HA.
        exists u. rewrite Hvx by done. done. }
    destruct Hg5 as (h & Hh & Hall). exists h. simpl in Hh4.
    split; [congruence|].
    eapply Forall_impl; [exact Hall|]. intros t' Ht'. simpl in Ht'.
    eapply same_vtx_trans; [exact Ht'|]. intros u. unfold vtx.
    rewrite Hpt5. case_decide; [|done].
    destruct (slot u (vMeta g4)) as [mu|]; [|done]. simpl.
    symmetry. apply cond_bump_same.
Qed.

End AddVertex.

(** ** The table after a vertex is removed *)

Section Removed.

Variables (vid : Z) (m0 : VertexMeta) (v0 : Vertex) (t t' : list VertexMeta).
Hypothesis Hwf : wf t.
Hypothesis Hs : slot vid t = Some m0.
Hypothesis Hv : idxToVertex m0 = Some v0.
Hypothesis Hpt : forall j, slot j t' = removed vid m0 t j.

Lemma removed_slot j :
  slot j t' =
  if decide (j = vid) then Some (bump (with_vertex None m0))
  else if decide (j ∈ neighbours vid v0)
       then (fun m => bump (stripm vid j m)) <$> slot j t
       else slot j t.
Proof. rewrite Hpt. unfold removed. by rewrite Hv. Qed.

Lemma not_neighbour_out j :
  j ∉ neighbours vid v0 -> adj t j !! (j, vid) = None.
Proof.
  intros Hj. destruct (adj t j !! (j, vid)) as [r|] eqn:E; [|done].
  apply wf_view in Hwf as (_ & _ & Hout & _).
  destruct (Hout _ _ _ E) as (Hk & Hsr & _ & Hi).
  assert (dest r = vid) as Hd by (unfold rkey in Hk; congruence).
  rewrite Hd in Hi. rewrite (slot_inc _ _ _ _ Hs Hv) in Hi.
  destruct Hj. apply elem_of_neighbours. right. left. eauto.
Qed.

Lemma not_neighbour_in j :
  j ∉ neighbours vid v0 -> inc t j !! (vid, j) = None.
Proof.
  intros Hj. destruct (inc t j !! (vid, j)) as [r|] eqn:E; [|done].
  apply wf_view in Hwf as (_ & _ & _ & Hin).
  destruct (Hin _ _ _ E) as (Hk & Hd & _ & Hi).
  assert (src r = vid) as Hsr by (unfold rkey in Hk; congruence).
  rewrite Hsr in Hi. rewrite (slot_adj _ _ _ _ Hs Hv) in Hi.
  destruct Hj. apply elem_of_neighbours. left. eauto.
Qed.

Lemma removed_vtx j :
  vtx t' j = if decide (j = vid) then None else strip vid j <$> vtx t j.
Proof.
  unfold vtx. rewrite removed_slot. case_decide as Hc; [done|].
  case_decide as Hn.
  - destruct (slot j t) as [m|]; [|done]. done.
  - destruct (slot j t) as [m|] eqn:Em; [|done]. simpl.
    destruct (idxToVertex m) as [v|] eqn:Ev; [|done]. simpl. f_equal.
    pose proof (not_neighbour_out j Hn) as Ho.
    pose proof (not_neighbour_in j Hn) as Hi.
    rewrite (slot_adj _ _ _ _ Em Ev) in Ho.
    rewrite (slot_inc _ _ _ _ Em Ev) in Hi.
    unfold strip. rewrite !delete_id by done. by destruct v.
Qed.

Lemma removed_adj j :
  adj t' j = if decide (j = vid) then ∅ else delete (j, vid) (adj t j).
Proof.
  unfold adj. rewrite removed_vtx. case_decide; [done|].
  destruct (vtx t j) as [v|]; simpl; [done|]. by rewrite delete_empty.
Qed.

Lemma removed_inc j :
  inc t' j = if decide (j = vid) then ∅ else delete (vid, j) (inc t j).
Proof.
  unfold inc. rewrite removed_vtx. case_decide; [done|].
  destruct (vtx t j) as [v|]; simpl; [done|]. by rewrite delete_empty.
Qed.

Lemma removed_seq j :
  seq_of t' j =
  if decide (j ∈ neighbours vid v0) then (seq_of t j + 1) mod 2 ^ 32 else seq_of t j.
Proof.
  unfold seq_of. rewrite removed_slot. destruct (decide (j = vid)) as [->|Hc].
  - rewrite decide_True by apply neighbours_self. by rewrite Hs.
  - case_decide as Hn; [|done].
    destruct (neighbour_linked _ _ _ _ _ Hwf Hs Hv Hn Hc) as (m & v & Hm & _).
    by rewrite Hm.
Qed.

Lemma removed_lock j : lock_of t' j = false.
Proof.
  pose proof (proj1 (wf_view _) Hwf) as (_ & Hlock & _ & _).
  unfold lock_of. rewrite removed_slot. destruct (decide (j = vid)) as [->|Hc].
  - simpl. specialize (Hlock vid). unfold lock_of in Hlock. by rewrite Hs in Hlock.
  - specialize (Hlock j). unfold lock_of in Hlock. case_decide; [|done].
    by destruct (slot j t).
Qed.

Lemma removed_wf : wf t'.
Proof.
  pose proof (proj1 (wf_view _) Hwf) as (Hseq & Hlock & Hout & Hin).
  apply wf_view. split; [|split; [|split]].
  - intros u. rewrite removed_seq. case_decide; [|apply Hseq].
    apply Z.mod_pos_bound. lia.
  - apply removed_lock.
  - intros u k r. rewrite removed_adj. case_decide as Hc; [done|].
    rewrite lookup_delete_Some. intros [Hk Hr].
    destruct (Hout _ _ _ Hr) as (Hk0 & Hsr & Hdr & Hi).
    assert (dest r <> vid) as Hdv.
    { intros E. apply Hk. rewrite Hk0. unfold rkey. congruence. }
    repeat split; try done. rewrite removed_inc, decide_False by done.
    rewrite lookup_delete_ne; [done|]. rewrite Hk0. unfold rkey. congruence.
  - intros u k r. rewrite removed_inc. case_decide as Hc; [done|].
    rewrite lookup_delete_Some. intros [Hk Hr].
    destruct (Hin _ _ _ Hr) as (Hk0 & Hdr & Hsr & Hi).
    assert (src r <> vid) as Hsv.
    { intros E. apply Hk. rewrite Hk0. unfold rkey. congruence. }
    repeat split; try done. rewrite removed_adj, decide_False by done.
    rewrite lookup_delete_ne; [done|]. rewrite Hk0. unfold rkey. congruence.
Qed.

(** No relation that starts or ends at [vid] is left. *)
Lemma removed_clean u k r :
  adj t' u !! k = Some r \/ inc t' u !! k = Some r ->
  src r <> vid /\ dest r <> vid.
Proof.
  pose proof (proj1 (wf_view _) Hwf) as (_ & _ & Hout & Hin).
  rewrite removed_adj, removed_inc. case_decide as Hc; [by intros [?|?]|].
  rewrite !lookup_delete_Some. intros [[Hk Hr]|[Hk Hr]].
  - destruct (Hout _ _ _ Hr) as (Hk0 & Hsr & Hdr & Hi). split; [congruence|].
    intros E. apply Hk. rewrite Hk0. unfold rkey. congruence.
  - destruct (Hin _ _ _ Hr) as (Hk0 & Hdr & Hsr & Hi). split; [|congruence].
    intros E. apply Hk. rewrite Hk0. unfold rkey. congruence.
Qed.

End Removed.

(** ** The table after a vertex is added *)

Lemma wf_same_vtx t t' :
  wf t -> same_vtx t' t ->
  (forall u, 0 <= seq_of t' u < 2 ^ 32) -> (forall u, lock_of t' u = false) ->
  wf t'.
Proof.
  intros Hwf Hsv Hseq Hlock.
  apply wf_view in Hwf as (_ & _ & Hout & Hin).
  assert (forall u, adj t' u = adj t u) as Ha by (intros u; unfold adj; by rewrite Hsv).
  assert (forall u, inc t' u = inc t u) as Hi by (intros u; unfold inc; by rewrite Hsv).
  apply wf_view. split; [done|]. split; [done|].
  unfold out_ok, in_ok in *. split; intros u k r.
  - rewrite Ha, Hi. apply Hout.
  - rewrite Ha, Hi. apply Hin.
Qed.

Lemma cond_bump_range m :
  0 <= vertexSeqs m < 2 ^ 32 -> 0 <= vertexSeqs (cond_bump m) < 2 ^ 32.
Proof.
  intros H. unfold cond_bump. destruct (is_null (idxToVertex m)); [done|].
  apply bump_range.
Qed.

Section Refused.

Variables (vec : list Z) (t t' : list VertexMeta).
Hypothesis Hwf : wf t.
Hypothesis Hpt : forall j, slot j t' =
  if decide (j ∈ vec) then cond_bump <$> slot j t else slot j t.

Lemma refused_vtx : same_vtx t' t.
Proof.
  intros u. unfold vtx. rewrite Hpt. case_decide; [|done].
  destruct (slot u t) as [m|]; [|done]. simpl. apply cond_bump_same.
Qed.

Lemma refused_seq j :
  seq_of t' j =
  if decide (j ∈ vec /\ is_Some (vtx t j)) then (seq_of t j + 1) mod 2 ^ 32
  else seq_of t j.
Proof.
  unfold seq_of, vtx. rewrite Hpt. destruct (decide (j ∈ vec)) as [Hj|Hj].
  - destruct (slot j t) as [m|]; simpl.
    + unfold cond_bump. destruct (idxToVertex m) as [v|]; simpl.
      * rewrite decide_True; [done|]. split; [done|by eexists].
      * rewrite decide_False; [done|]. intros [_ [? ?]]. done.
    + rewrite decide_False; [done|]. intros [_ [? ?]]. done.
  - rewrite decide_False; [done|]. tauto.
Qed.

Lemma refused_wf : wf t'.
Proof.
  pose proof (proj1 (wf_view _) Hwf) as (Hseq & Hlock & _ & _).
  apply (wf_same_vtx t); [done|apply refused_vtx| |].
  - intros u. rewrite refused_seq. case_decide; [|apply Hseq].
    apply Z.mod_pos_bound. lia.
  - intros u. specialize (Hlock u). unfold lock_of in *. rewrite Hpt.
    case_decide; [|done]. destruct (slot u t) as [m|]; [|done]. simpl in *.
    by rewrite (proj2 (cond_bump_same m)).
Qed.

End Refused.

Section Added.

Variables (vid : Z) (m0 : VertexMeta) (vec : list Z) (t t' : list VertexMeta).
Variables (A : RelSet) (rho : Z -> Relation).
Hypothesis Hwf : wf t.
Hypothesis Hs : slot vid t = Some m0.
Hypothesis Hv : idxToVertex m0 = None.
Hypothesis HA : links_of vid vec t rho A.
Hypothesis Hrho : forall u, src (rho u) = vid /\ dest (rho u) = u.
Hypothesis Hpt : forall j, slot j t' = added vid m0 vec t A rho j.

Lemma added_vtx j :
  vtx t' j =
  if decide (j = vid) then Some (mkVertex A ∅ vid vid)
  else if decide (j ∈ vec) then link_in (rho j) <$> vtx t j
  else vtx t j.
Proof.
  unfold vtx. rewrite Hpt. unfold added. case_decide; [done|].
  case_decide; [|done]. destruct (slot j t) as [m|]; [|done]. simpl.
  rewrite (proj1 (cond_bump_same _)). done.
Qed.

Lemma added_adj j : adj t' j = if decide (j = vid) then A else adj t j.
Proof.
  unfold adj. rewrite added_vtx. case_decide; [done|].
  case_decide; [|done]. by destruct (vtx t j).
Qed.

Lemma added_inc j :
  inc t' j =
  if decide (j = vid) then ∅
  else if decide (j ∈ vec /\ is_Some (vtx t j))
       then <[(vid, j) := rho j]> (inc t j)
       else inc t j.
Proof.
  unfold inc. rewrite added_vtx. case_decide; [done|].
  destruct (decide (j ∈ vec)) as [Hj|Hj].
  - destruct (vtx t j) as [v|]; simpl.
    + rewrite decide_True by (split; [done|by eexists]).
      unfold rkey. by rewrite (proj1 (Hrho j)), (proj2 (Hrho j)).
    + rewrite decide_False; [done|]. intros [_ [? ?]]. done.
  - rewrite decide_False; [done|]. tauto.
Qed.

Lemma added_seq j :
  seq_of t' j =
  if decide (j = vid \/ (j ∈ vec /\ is_Some (vtx t j)))
  then (seq_of t j + 1) mod 2 ^ 32
  else seq_of t j.
Proof.
  unfold seq_of, vtx. rewrite Hpt. unfold added.
  destruct (decide (j = vid)) as [->|Hc].
  - rewrite decide_True by by left. by rewrite Hs.
  - destruct (decide (j ∈ vec)) as [Hj|Hj].
    + destruct (slot j t) as [m|]; simpl.
      * unfold cond_bump, link_in_m. simpl.
        destruct (idxToVertex m) as [v|]; simpl.
        -- rewrite decide_True; [done|]. right. split; [done|by eexists].
        -- rewrite decide_False; [done|]. intros [?|[_ [? ?]]]; done.
      * rewrite decide_False; [done|]. intros [?|[_ [? ?]]]; done.
    + rewrite decide_False; [done|]. tauto.
Qed.

Lemma added_lock j : lock_of t' j = false.
Proof.
  pose proof (proj1 (wf_view _) Hwf) as (_ & Hlock & _ & _).
  unfold lock_of. rewrite Hpt. unfold added. destruct (decide (j = vid)) as [->|Hc].
  - simpl. specialize (Hlock vid). unfold lock_of in Hlock. by rewrite Hs in Hlock.
  - specialize (Hlock j). unfold lock_of in Hlock. case_decide; [|done].
    destruct (slot j t) as [m|]; [|done]. simpl in *.
    by rewrite (proj2 (cond_bump_same _)).
Qed.

Lemma absent_adj : adj t vid = ∅.
Proof. unfold adj, vtx. rewrite Hs. simpl. by rewrite Hv. Qed.

Lemma absent_inc : inc t vid = ∅.
Proof. unfold inc, vtx. rewrite Hs. simpl. by rewrite Hv. Qed.

Lemma added_wf : wf t'.
Proof.
  pose proof (proj1 (wf_view _) Hwf) as (Hseq & Hlock & Hout & Hin).
  apply wf_view. split; [|split; [|split]].
  - intros u. rewrite added_seq. case_decide; [|apply Hseq].
    apply Z.mod_pos_bound. lia.
  - apply added_lock.
  - intros u k r. rewrite added_adj. unfold out_ok. case_decide as Hc.
    + subst u. intros Hr. apply HA in Hr as (x & Hx & Hne & Hp & -> & ->).
      destruct (Hrho x) as [Hsx Hdx]. unfold rkey. rewrite Hsx, Hdx.
      repeat split; try done. rewrite added_inc, decide_False by done.
      rewrite decide_True by done. by rewrite lookup_insert_eq.
    + intros Hr. destruct (Hout _ _ _ Hr) as (Hk0 & Hsr & Hdr & Hi).
      repeat split; try done.
      assert (dest r <> vid) as Hdv.
      { intros E. rewrite E, absent_inc in Hi. done. }
      rewrite added_inc, decide_False by done. case_decide; [|done].
      rewrite lookup_insert_ne; [done|]. rewrite Hk0. unfold rkey. congruence.
  - intros u k r. rewrite added_inc. unfold in_ok. case_decide as Hc; [done|].
    case_decide as Hl.
    + destruct (decide (k = (vid, u))) as [->|Hk].
      * rewrite lookup_insert_eq. intros [= <-].
        destruct (Hrho u) as [Hsx Hdx]. unfold rkey. rewrite Hsx, Hdx.
        repeat split; try done.
        rewrite added_adj, decide_True by done. apply HA. exists u. tauto.
      * rewrite lookup_insert_ne by done. intros Hr.
        destruct (Hin _ _ _ Hr) as (Hk0 & Hdr & Hsr & Hi).
        repeat split; try done.
        assert (src r <> vid) as Hsv.
        { intros E. rewrite E, absent_adj in Hi. done. }
        by rewrite added_adj, decide_False by done.
    + intros Hr. destruct (Hin _ _ _ Hr) as (Hk0 & Hdr & Hsr & Hi).
      repeat split; try done.
      assert (src r <> vid) as Hsv.
      { intros E. rewrite E, absent_adj in Hi. done. }
      by rewrite added_adj, decide_False by done.
Qed.

End Added.

(** ** Locks under interference *)

Lemma bindG_inv {A B} (m : M A) (k : A -> M B) g b g' :
  bind m k g = Ret b g' -> exists a g1, m g = Ret a g1 /\ k a g1 = Ret b g'.
Proof. unfold bind. destruct (m g) as [a g1| | | |]; try done. eauto. Qed.

Lemma lock_of_true t x : lock_of t x = true -> exists m, slot x t = Some m /\ vertexLocks m = true.
Proof. unfold lock_of. destruct (slot x t) as [m|]; [|done]. simpl. eauto. Qed.

Lemma apply_write_lock t x j : lock_of (apply_write t x) j = lock_of t j.
Proof.
  unfold apply_write. destruct (slot (w_idx x) t) as [m|] eqn:E; [|done].
  destruct (vertexLocks m) eqn:El; [done|].
  fold (upd (w_idx x) (mkVertexMeta (w_vertex x) false (w_seq x)) t).
  rewrite lock_of_upd by by eapply slot_in_table.
  case_decide; [|done]. subst j. unfold lock_of. by rewrite E.
Qed.

Lemma apply_writes_lock b t j : lock_of (foldl apply_write t b) j = lock_of t j.
Proof.
  revert t. induction b as [|x b IH]; intros t; [done|].
  simpl. by rewrite IH, apply_write_lock.
Qed.

Lemma interfere_inv g a g' :
  interfere g = Ret a g' ->
  trace g' = trace g /\ forall j, lock_of (vMeta g') j = lock_of (vMeta g) j.
Proof.
  unfold interfere. destruct (env g) as [|b rest]; intros [= <- <-]; [done|].
  split; [done|]. intros j. gsimpl. apply apply_writes_lock.
Qed.

Lemma read_meta_inv idx g m g' :
  read_meta idx g = Ret m g' -> g' = g /\ slot idx (vMeta g) = Some m.
Proof.
  unfold read_meta. destruct (slot idx (vMeta g)) as [m'|]; [|done].
  by intros [= <- <-].
Qed.

Lemma modify_inv idx f g a g' :
  modify idx f g = Ret a g' ->
  exists m, slot idx (vMeta g) = Some m /\
            g' = set_vMeta (upd idx (f m) (vMeta g)) g.
Proof.
  unfold modify. destruct (slot idx (vMeta g)) as [m|]; [|done].
  intros [= <- <-]. eauto.
Qed.

Lemma lock_inv x g a g' :
  lock x g = Ret a g' ->
  trace g' = trace g ++ [ELock x] /\
  lock_of (vMeta g) x = false /\
  forall j, lock_of (vMeta g') j = if decide (j = x) then true else lock_of (vMeta g) j.
Proof.
  unfold lock. intros H.
  apply bindG_inv in H as (? & g1 & H1 & H).
  apply interfere_inv in H1 as (Ht1 & Hl1).
  apply bindG_inv in H as (m & g2 & H2 & H).
  apply read_meta_inv in H2 as (-> & Hm).
  destruct (vertexLocks m) eqn:El; [done|].
  apply bindG_inv in H as (? & g3 & H3 & H).
  apply modify_inv in H3 as (m' & Hm' & ->).
  injection H as _ <-. gsimpl. split; [by rewrite Ht1|].
  split.
  - rewrite <- Hl1. unfold lock_of. by rewrite Hm.
  - intros j. rewrite lock_of_upd by by eapply slot_in_table.
    case_decide; [done|]. apply Hl1.
Qed.

Lemma vertex_inv idx g v g' : vertex idx g = Ret v g' -> g' = g.
Proof.
  unfold vertex. intros H. apply bindG_inv in H as (m & g1 & H1 & H).
  apply read_meta_inv in H1 as (-> & _). by injection H as _ <-.
Qed.

Lemma get_seq_inv idx g s g' :
  get_seq idx g = Ret s g' -> g' = g /\ s = seq_of (vMeta g) idx.
Proof.
  unfold get_seq. intros H. apply bindG_inv in H as (m & g1 & H1 & H).
  apply read_meta_inv in H1 as (-> & Hm). injection H as <- <-.
  split; [done|]. unfold seq_of. by rewrite Hm.
Qed.

Lemma acquire_inv vid seq x g a g' :
  acquire vid seq x g = Ret a g' ->
  trace g' = trace g ++ [ELock x] /\
  lock_of (vMeta g) x = false /\
  forall j, lock_of (vMeta g') j = if decide (j = x) then true else lock_of (vMeta g) j.
Proof.
  unfold acquire. intros H.
  apply bindG_inv in H as (? & g1 & H1 & H).
  apply lock_inv in H1 as (Ht1 & Hf1 & Hl1).
  apply bindG_inv in H as (v & g2 & H2 & H).
  apply vertex_inv in H2 as ->.
  destruct (is_null v).
  - apply bindG_inv in H as (s & g3 & H3 & H).
    apply get_seq_inv in H3 as (-> & _).
    destruct (s =? seq); [done|]. by injection H as _ <-.
  - by injection H as _ <-.
Qed.

Lemma acquire_all_inv vid seq l g g' :
  for_each l (acquire vid seq) g = Ret tt g' ->
  trace g' = trace g ++ (ELock <$> l) /\
  forall j, lock_of (vMeta g') j = if decide (j ∈ l) then true else lock_of (vMeta g) j.
Proof.
  revert g. induction l as [|x l IH]; intros g H.
  - injection H as <-. split; [by rewrite app_nil_r|].
    intros j. by rewrite decide_False by apply not_elem_of_nil.
  - simpl in H. apply bindG_inv in H as (? & g1 & H1 & H).
    apply acquire_inv in H1 as (Ht1 & _ & Hl1).
    apply IH in H as (Ht & Hl). split.
    + rewrite Ht, Ht1. by rewrite <- app_assoc.
    + intros j. rewrite Hl, Hl1.
      destruct (decide (j ∈ l)) as [Hj|Hj].
      * by rewrite decide_True by by right.
      * destruct (decide (j = x)) as [->|Hne].
        -- by rewrite decide_True by by left.
        -- rewrite decide_False; [done|]. rewrite elem_of_cons. tauto.
Qed.

Lemma unlock_all_ok l g :
  NoDup l -> (forall x, x ∈ l -> lock_of (vMeta g) x = true) ->
  exists g', for_each l unlock g = Ret tt g' /\ env g' = env g /\
    trace g' = trace g ++ (EUnlock <$> l) /\
    forall j, lock_of (vMeta g') j = if decide (j ∈ l) then false else lock_of (vMeta g) j.
Proof.
  revert g. induction l as [|x l IH]; intros g Hnd Hheld.
  - exists g. split; [done|]. split; [done|]. split; [by rewrite app_nil_r|].
    intros j. by rewrite decide_False by apply not_elem_of_nil.
  - apply NoDup_cons in Hnd as [Hx Hnd].
    destruct (lock_of_true _ _ (Hheld x ltac:(left))) as (m & Hm & Hl).
    pose proof (slot_in_table _ _ _ Hm) as Ix.
    destruct (IH (log (EUnlock x)
                   (set_vMeta (upd x (with_lock false m) (vMeta g)) (snapshot g))))
      as (g' & E & He & Ht & Hpt); [done| |].
    { intros y Hy. gsimpl. rewrite lock_of_upd by done.
      rewrite decide_False by (intros ->; done). apply Hheld. by right. }
    exists g'. split; [|split; [done|split]].
    + simpl. by rewrite (bindG_ret_eq _ _ _ _ _ (unlock_ok x m g Hm Hl)).
    + rewrite Ht. gsimpl. by rewrite <- app_assoc.
    + intros j. rewrite Hpt. gsimpl. rewrite lock_of_upd by done.
      destruct (decide (j ∈ l)) as [Hj|Hj].
      * by rewrite decide_True by by right.
      * destruct (decide (j = x)) as [->|Hne].
        -- by rewrite decide_True by by left.
        -- rewrite decide_False; [done|]. rewrite elem_of_cons. tauto.
Qed.

Lemma unlock_inv x g a g' :
  unlock x g = Ret a g' ->
  forall j, lock_of (vMeta g') j = if decide (j = x) then false else lock_of (vMeta g) j.
Proof.
  unfold unlock. intros H.
  apply bindG_inv in H as (m & g1 & H1 & H).
  apply read_meta_inv in H1 as (-> & Hm).
  destruct (vertexLocks m); [|done].
  apply bindG_inv in H as (? & g2 & H2 & H). injection H2 as _ <-.
  apply bindG_inv in H as (? & g3 & H3 & H).
  apply modify_inv in H3 as (m' & Hm' & ->).
  injection H as _ <-. gsimpl. intros j.
  by rewrite lock_of_upd by by eapply slot_in_table.
Qed.

Lemma read_set_inv s g x g' : read_set s g = Ret x g' -> g' = g.
Proof.
  unfold read_set. intros H. apply bindG_inv in H as (v & g1 & H1 & H).
  apply vertex_inv in H1 as ->. destruct v; [|done]. by injection H as _ <-.
Qed.

Lemma elements_inv s g x g' : elements s g = Ret x g' -> g' = g.
Proof.
  unfold elements. intros H. apply bindG_inv in H as (v & g1 & H1 & H).
  apply read_set_inv in H1 as ->. by injection H as _ <-.
Qed.

Lemma scan_inv vid g seq V g1 :
  scan vid g = Ret (Some (seq, V)) g1 ->
  (exists l, V = sort_unique (l ++ [vid])) /\
  lock_of (vMeta g) vid = false /\
  forall j, lock_of (vMeta g1) j = if decide (j = vid) then false else lock_of (vMeta g) j.
Proof.
  unfold scan. intros H.
  apply bindG_inv in H as (? & g2 & H2 & H).
  apply lock_inv in H2 as (_ & Hf & Hl2).
  apply bindG_inv in H as (v & g3 & H3 & H).
  apply vertex_inv in H3 as ->.
  destruct (is_null v).
  { apply bindG_inv in H as (? & g4 & _ & H). by injection H. }
  apply bindG_inv in H as (s & g4 & H4 & H).
  apply get_seq_inv in H4 as (-> & _).
  apply bindG_inv in H as (out & g5 & H5 & H).
  apply elements_inv in H5 as ->.
  apply bindG_inv in H as (inn & g6 & H6 & H).
  apply elements_inv in H6 as ->.
  apply bindG_inv in H as (? & g7 & H7 & H).
  pose proof (unlock_inv _ _ _ _ H7) as Hl7.
  injection H as _ <- <-. split.
  - exists ((dest <$> out) ++ (src <$> inn)). by rewrite <- app_assoc.
  - split; [done|]. intros j. rewrite Hl7. case_decide; [done|].
    rewrite Hl2. by rewrite decide_False.
Qed.

(** ** Shared consequences of the specifications *)

Lemma grows_symmetric g g' :
  wf (vMeta g') -> grows (fun t' => same_vtx t' (vMeta g')) g g' ->
  released_symmetric g g'.
Proof.
  intros Hwf (h & Hh & Hall). exists h. split; [done|].
  eapply Forall_impl; [exact Hall|]. intros t Ht. simpl in Ht.
  eapply symmetric_same_vtx; [exact Ht|]. by apply wf_symmetric.
Qed.

Lemma grows_symmetric2 g g' :
  wf (vMeta g) -> wf (vMeta g') ->
  grows (fun t' => same_vtx t' (vMeta g) \/ same_vtx t' (vMeta g')) g g' ->
  released_symmetric g g'.
Proof.
  intros Hwf Hwf' (h & Hh & Hall). exists h. split; [done|].
  eapply Forall_impl; [exact Hall|]. intros t [Ht|Ht].
  - eapply symmetric_same_vtx; [exact Ht|]. by apply wf_symmetric.
  - eapply symmetric_same_vtx; [exact Ht|]. by apply wf_symmetric.
Qed.

Lemma add_edge_self s w g : add_edge s s w g = Ret false g.
Proof. unfold add_edge. by rewrite Z.eqb_refl. Qed.

Lemma remove_edge_self s g : remove_edge s s g = Ret false g.
Proof. unfold remove_edge. by rewrite Z.eqb_refl. Qed.

Lemma grows_refl P g : grows P g g.
Proof. exists []. split; [by rewrite app_nil_r|done]. Qed.

Lemma add_edge_total s d w g :
  GWF g -> (s <> d -> in_table s (vMeta g) /\ in_table d (vMeta g)) ->
  exists b g', add_edge s d w g = Ret b g' /\ GWF g' /\ released_symmetric g g'.
Proof.
  intros HG Hin. destruct (decide (s = d)) as [->|Hne].
  { exists false, g. rewrite add_edge_self. repeat split; try apply HG.
    apply grows_refl. }
  destruct (Hin Hne) as [Is Id].
  destruct (in_table_slot _ _ Is) as [ms Hs].
  destruct (in_table_slot _ _ Id) as [md Hd].
  destruct (add_edge_spec s d w g ms md HG Hne Hs Hd) as (g' & E & He & Hv & Hg).
  exists (can_link ms md (s, d)), g'. split; [done|].
  assert (wf (vMeta g')) as Hwf'.
  { rewrite Hv. destruct (can_link ms md (s, d)) eqn:Ec; [|apply HG].
    apply can_link_true in Ec as (vs & vd & Evs & Evd & _).
    rewrite Evs, Evd. simpl. apply add_edge_wf; try done. apply HG. }
  split; [by split|]. by apply grows_symmetric.
Qed.

Lemma can_unlink_true ms md k :
  can_unlink ms md k = true ->
  exists vs vd, idxToVertex ms = Some vs /\ idxToVertex md = Some vd /\
                is_Some (adjacency_list vs !! k).
Proof.
  unfold can_unlink. destruct (idxToVertex ms) as [vs|]; [|done].
  destruct (idxToVertex md) as [vd|]; [|done].
  intros H. apply bool_decide_eq_true in H. eauto.
Qed.

Lemma remove_edge_total s d g :
  GWF g -> (s <> d -> in_table s (vMeta g) /\ in_table d (vMeta g)) ->
  exists b g', remove_edge s d g = Ret b g' /\ GWF g' /\ released_symmetric g g'.
Proof.
  intros HG Hin. destruct (decide (s = d)) as [->|Hne].
  { exists false, g. rewrite remove_edge_self. repeat split; try apply HG.
    apply grows_refl. }
  destruct (Hin Hne) as [Is Id].
  destruct (in_table_slot _ _ Is) as [ms Hs].
  destruct (in_table_slot _ _ Id) as [md Hd].
  destruct (remove_edge_spec s d g ms md HG Hne Hs Hd) as (g' & E & He & Hv & Hg).
  exists (can_unlink ms md (s, d)), g'. split; [done|].
  assert (wf (vMeta g')) as Hwf'.
  { rewrite Hv. destruct (can_unlink ms md (s, d)) eqn:Ec; [|apply HG].
    apply can_unlink_true in Ec as (vs & vd & Evs & Evd & _).
    rewrite Evs, Evd. simpl. apply remove_edge_wf; try done. apply HG. }
  split; [by split|]. by apply grows_symmetric.
Qed.

Lemma remove_vertex_total fuel vid g :
  GWF g -> in_table vid (vMeta g) ->
  exists g', remove_vertex (S fuel) vid g =
               Ret (bool_decide (is_Some (vtx (vMeta g) vid))) g' /\
    GWF g' /\ released_symmetric g g' /\
    (is_Some (vtx (vMeta g) vid) -> clean_of vid (vMeta g')).
Proof.
  intros HG Iv. destruct (in_table_slot _ _ Iv) as [m0 Hs].
  destruct (remove_vertex_spec fuel vid g m0 HG Hs) as (g' & E & He & Hpt & Hg).
  exists g'. rewrite (slot_vtx _ _ _ Hs). split; [done|].
  destruct (idxToVertex m0) as [v0|] eqn:Ev.
  - assert (wf (vMeta g')) as Hwf'.
    { apply (removed_wf vid m0 v0 (vMeta g) (vMeta g') (proj2 HG) Hs Ev Hpt). }
    split; [by split|]. split; [apply grows_symmetric2; [apply HG|done..]|].
    intros _ u k r.
    apply (removed_clean vid m0 v0 (vMeta g) (vMeta g') (proj2 HG) Hs Ev Hpt).
  - assert (vMeta g' = vMeta g) as Hsame.
    { apply slot_ext. intros j. rewrite Hpt. unfold removed. by rewrite Ev. }
    assert (wf (vMeta g')) as Hwf' by (rewrite Hsame; apply HG).
    split; [by split|]. split; [apply grows_symmetric2; [apply HG|done..]|].
    by intros [? ?].
Qed.

Lemma add_vertex_total mE vL rng vid g :
  GWF g -> (forall u, u ∈ sampled mE vL rng vid -> in_table u (vMeta g)) ->
  exists g', add_vertex mE vL rng vid g =
               Ret (negb (bool_decide (is_Some (vtx (vMeta g) vid)))) g' /\
    GWF g' /\ released_symmetric g g'.
Proof.
  intros HG Hin.
  assert (vid ∈ sampled mE vL rng vid) as Hvid.
  { apply elem_of_sort_unique, elem_of_app. right. left. }
  destruct (in_table_slot _ _ (Hin vid Hvid)) as [m0 Hs].
  destruct (add_vertex_spec mE vL rng vid g m0 HG Hin Hs)
    as (g' & E & He & Hold & Hnew & Hg).
  exists g'. rewrite (slot_vtx _ _ _ Hs).
  assert (negb (bool_decide (is_Some (idxToVertex m0))) = is_null (idxToVertex m0)) as ->.
  { destruct (idxToVertex m0); [by rewrite bool_decide_eq_true_2 by by eexists|].
    by rewrite bool_decide_eq_false_2 by by intros [? ?]. }
  split; [done|].
  assert (wf (vMeta g')) as Hwf'.
  { destruct (idxToVertex m0) as [v0|] eqn:Ev.
    - eapply refused_wf; [apply HG|]. apply Hold. by eexists.
    - destruct (Hnew eq_refl) as (A & rho & HA & Hrho & Hpt).
      apply (added_wf vid m0 _ (vMeta g) (vMeta g') A rho (proj2 HG) Hs Ev HA Hrho Hpt). }
  split; [by split|]. by apply grows_symmetric.
Qed.

Lemma unlocked_Forall t :
  Forall (fun m => vertexLocks m = false) t -> forall j, lock_of t j = false.
Proof.
  intros H j. unfold lock_of. destruct (slot j t) as [m|] eqn:E; [|done].
  apply slot_Some in E as [_ E]. simpl.
  rewrite Forall_forall in H. apply H. by eapply list_elem_of_lookup_2.
Qed.

Lemma wf_unlocked t : wf t -> forall j, lock_of t j = false.
Proof. intros H. by apply wf_view in H as (_ & H & _). Qed.

(** The restart of [remove_vertex], under any interference. *)
Lemma remove_vertex_restart fuel vid g seq V g1 g2 :
  (forall j, lock_of (vMeta g) j = false) ->
  scan vid g = Ret (Some (seq, V)) g1 ->
  for_each V (acquire vid seq) g1 = Ret tt g2 ->
  seq_of (vMeta g2) vid <> seq ->
  StronglySorted Z.lt V /\ trace g2 = trace g1 ++ (ELock <$> V) /\
  exists g3, for_each (reverse V) unlock g2 = Ret tt g3 /\
    trace g3 = trace g2 ++ (EUnlock <$> reverse V) /\
    (forall j, lock_of (vMeta g3) j = false) /\
    remove_vertex (S fuel) vid g = remove_vertex fuel vid g3.
Proof.
  intros Hfree Hscan Hacq Hneq.
  destruct (scan_inv _ _ _ _ _ Hscan) as ((l & HV) & _ & Hl1).
  destruct (acquire_all_inv _ _ _ _ _ Hacq) as (Ht2 & Hl2).
  assert (StronglySorted Z.lt V) as Hsorted by (rewrite HV; apply sort_unique_sorted).
  split; [done|]. split; [done|].
  assert (vid ∈ V) as Hvid.
  { rewrite HV. apply elem_of_sort_unique, elem_of_app. right. left. }
  destruct (unlock_all_ok (reverse V) g2) as (g3 & E3 & He3 & Ht3 & Hl3).
  { rewrite reverse_Permutation. by apply sorted_lt_NoDup. }
  { intros x Hx. rewrite elem_of_reverse in Hx. by rewrite Hl2, decide_True. }
  exists g3. split; [done|]. split; [done|]. split.
  - intros j. rewrite Hl3. case_decide as Hj; [done|]. rewrite Hl2.
    rewrite elem_of_reverse in Hj. rewrite decide_False by done.
    rewrite Hl1. case_decide; [done|apply Hfree].
  - cbn [remove_vertex]. rewrite (bindG_ret_eq _ _ _ _ _ Hscan).
    rewrite (bindG_ret_eq _ _ _ _ _ Hacq).
    assert (lock_of (vMeta g2) vid = true) as Hheld by by rewrite Hl2, decide_True.
    apply lock_of_true in Hheld as (m & Hm & _).
    rewrite (bindG_ret_eq _ _ _ _ _ (get_seq_ok _ _ _ Hm)).
    rewrite (slot_seq _ _ _ Hm) in Hneq.
    rewrite (proj2 (Z.eqb_neq _ _) Hneq). cbn [negb].
    by rewrite (bindG_ret_eq _ _ _ _ _ E3).
Qed.

Lemma lock_fault x g :
  env g = [] -> slot x (vMeta g) = None -> forall A (k : unit -> M A), bind (lock x) k g = Fault.
Proof.
  intros He Hs A k. unfold lock, bind, interfere, read_meta. by rewrite He, Hs.
Qed.

Lemma remove_vertex_returns fuel vid g b g' :
  GWF g -> remove_vertex fuel vid g = Ret b g' ->
  exists fuel', fuel = S fuel' /\ in_table vid (vMeta g).
Proof.
  intros [He _] H. destruct fuel as [|fuel']; [done|]. exists fuel'. split; [done|].
  destruct (slot vid (vMeta g)) as [m|] eqn:E; [by eapply slot_in_table|].
  cbn [remove_vertex] in H. unfold scan in H. rewrite bindG_assoc in H.
  by rewrite lock_fault in H.
Qed.

Lemma g_line_GWF : GWF g_line.
Proof. split; [reflexivity|]. apply (bool_decide_unpack _). vm_compute. exact I. Defined.

(** ** The properties of the specification *)

(** C5. In a table where no lock is held, [(u, v)] is in the adjacency
    set of [u] exactly when it is in the incoming set of [v]; each of
    [add_edge], [remove_edge], [add_vertex] and [remove_vertex] returns
    in a table where this holds again, and the table is symmetric each
    time the operation releases a lock. *)
Theorem symmetry_invariant g :
  GWF g ->
  symmetric (vMeta g) /\
  (forall s d w, (s <> d -> in_table s (vMeta g) /\ in_table d (vMeta g)) ->
     exists b g', add_edge s d w g = Ret b g' /\ GWF g' /\
       symmetric (vMeta g') /\ released_symmetric g g') /\
  (forall s d, (s <> d -> in_table s (vMeta g) /\ in_table d (vMeta g)) ->
     exists b g', remove_edge s d g = Ret b g' /\ GWF g' /\
       symmetric (vMeta g') /\ released_symmetric g g') /\
  (forall mE vL rng vid,
     (forall u, u ∈ sampled mE vL rng vid -> in_table u (vMeta g)) ->
     exists b g', add_vertex mE vL rng vid g = Ret b g' /\ GWF g' /\
       symmetric (vMeta g') /\ released_symmetric g g') /\
  (forall fuel vid, in_table vid (vMeta g) ->
     exists b g', remove_vertex (S fuel) vid g = Ret b g' /\ GWF g' /\
       symmetric (vMeta g') /\ released_symmetric g g').
Proof.
  intros HG. split; [apply wf_symmetric, HG|]. split; [|split; [|split]].
  - intros s d w Hin.
    destruct (add_edge_total s d w g HG Hin) as (b & g' & E & HG' & Hr).
    exists b, g'. split; [done|]. split; [done|].
    split; [apply wf_symmetric, HG'|done].
  - intros s d Hin.
    destruct (remove_edge_total s d g HG Hin) as (b & g' & E & HG' & Hr).
    exists b, g'. split; [done|]. split; [done|].
    split; [apply wf_symmetric, HG'|done].
  - intros mE vL rng vid Hin.
    destruct (add_vertex_total mE vL rng vid g HG Hin) as (g' & E & HG' & Hr).
    eexists _, g'. split; [done|]. split; [done|].
    split; [apply wf_symmetric, HG'|done].
  - intros fuel vid Hin.
    destruct (remove_vertex_total fuel vid g HG Hin) as (g' & E & HG' & Hr & _).
    eexists _, g'. split; [done|]. split; [done|].
    split; [apply wf_symmetric, HG'|done].
Qed.

Lemma symmetry_invariant_witness :
  symmetric (vMeta g_line) /\
  (exists b g', add_edge 1 2 9 g_line = Ret b g' /\ GWF g' /\
     symmetric (vMeta g') /\ released_symmetric g_line g') /\
  (exists b g', remove_vertex 1 0 g_line = Ret b g' /\ GWF g' /\
     symmetric (vMeta g') /\ released_symmetric g_line g').
Proof.
  destruct (symmetry_invariant g_line g_line_GWF) as (H0 & H1 & _ & _ & H4).
  split; [exact H0|]. split.
  - apply H1. intros _. split; apply (bool_decide_unpack _); vm_compute; exact I.
  - apply H4. apply (bool_decide_unpack _); vm_compute; exact I.
Defined.

Lemma addable_can_link t s d ms md :
  s <> d -> slot s t = Some ms -> slot d t = Some md ->
  addable t s d = can_link ms md (s, d).
Proof.
  intros Hne Hs Hd. unfold addable, can_link.
  rewrite (proj2 (Z.eqb_neq s d)) by done. cbn [negb andb].
  rewrite (slot_vtx _ _ _ Hs), (slot_vtx _ _ _ Hd).
  destruct (idxToVertex ms) as [vs|] eqn:Evs.
  - rewrite (bool_decide_eq_true_2 (is_Some (Some vs))) by by eexists.
    destruct (idxToVertex md) as [vd|] eqn:Evd.
    + rewrite (bool_decide_eq_true_2 (is_Some (Some vd))) by by eexists.
      by rewrite (slot_adj _ _ _ _ Hs Evs).
    + by rewrite (bool_decide_eq_false_2 (is_Some None)) by by intros [? ?].
  - by rewrite (bool_decide_eq_false_2 (is_Some None)) by by intros [? ?].
Qed.

(** C7. [add_edge(s, d, w)] returns false and leaves the table as it is
    when [s == d], when there is no vertex at [s] or at [d], or when
    [(s, d)] is in the adjacency set of [s]; otherwise it returns true
    with a relation [(s, d, w)] in the adjacency set of [s] and in the
    incoming set of [d], and [seq[s]] and [seq[d]] one step further. *)
Theorem add_edge_correct s d w g :
  GWF g -> (s <> d -> in_table s (vMeta g) /\ in_table d (vMeta g)) ->
  exists g', add_edge s d w g = Ret (addable (vMeta g) s d) g' /\
    if addable (vMeta g) s d then
      exists r, src r = s /\ dest r = d /\ weight r = w /\
        adj (vMeta g') s = <[(s, d) := r]> (adj (vMeta g) s) /\
        inc (vMeta g') d = <[(s, d) := r]> (inc (vMeta g) d) /\
        seq_of (vMeta g') s = (seq_of (vMeta g) s + 1) mod 2 ^ 32 /\
        seq_of (vMeta g') d = (seq_of (vMeta g) d + 1) mod 2 ^ 32
    else vMeta g' = vMeta g.
Proof.
  intros HG Hin. destruct (decide (s = d)) as [->|Hne].
  { exists g. rewrite add_edge_self. unfold addable. by rewrite Z.eqb_refl. }
  destruct (Hin Hne) as [Is Id].
  destruct (in_table_slot _ _ Is) as [ms Hs].
  destruct (in_table_slot _ _ Id) as [md Hd].
  destruct (add_edge_spec s d w g ms md HG Hne Hs Hd) as (g' & E & He & Hv & Hg).
  rewrite (addable_can_link _ _ _ _ _ Hne Hs Hd).
  exists g'. split; [done|].
  destruct (can_link ms md (s, d)) eqn:Ec; [|done].
  apply can_link_true in Ec as (vs & vd & Evs & Evd & _).
  exists (mkRelation (next_addr g) s d w). rewrite Hv, Evs, Evd. simpl.
  split; [done|]. split; [done|]. split; [done|].
  rewrite !adj_upd, !inc_upd, !seq_of_upd by in_tab.
  rewrite (slot_adj _ _ _ _ Hs Evs), (slot_inc _ _ _ _ Hd Evd).
  rewrite (slot_seq _ _ _ Hs), (slot_seq _ _ _ Hd).
  rewrite !(decide_True (P := s = s)) by done.
  rewrite !(decide_True (P := d = d)) by done.
  rewrite !(decide_False (P := d = s)) by congruence.
  done.
Qed.

Lemma add_edge_correct_witness :
  exists g', add_edge 1 2 9 g_line = Ret true g' /\
    exists r, src r = 1 /\ dest r = 2 /\ weight r = 9 /\
      adj (vMeta g') 1 = <[(1, 2) := r]> (adj (vMeta g_line) 1) /\
      inc (vMeta g') 2 = <[(1, 2) := r]> (inc (vMeta g_line) 2) /\
      seq_of (vMeta g') 1 = 5 /\ seq_of (vMeta g') 2 = 1.
Proof.
  refine (add_edge_correct 1 2 9 g_line g_line_GWF _).
  intros _. split; apply (bool_decide_unpack _); vm_compute; exact I.
Defined.

(** C6. [remove_vertex(v)] works in two phases.  When, with every lock
    of the scanned vertices taken in ascending order, [seq[v]] is not the
    value read by the scan, the locks are released in descending order
    and the operation starts over from the scan, whatever the other
    threads wrote in between.  Without interference the operation
    returns, true exactly when there was a vertex at [v], and after it
    returned true no adjacency or incoming set holds a relation with
    [src = v] or [dest = v]. *)
Theorem remove_vertex_two_phase fuel vid g :
  (forall j, lock_of (vMeta g) j = false) ->
  (forall seq V g1 g2,
     scan vid g = Ret (Some (seq, V)) g1 ->
     for_each V (acquire vid seq) g1 = Ret tt g2 ->
     seq_of (vMeta g2) vid <> seq ->
     StronglySorted Z.lt V /\ trace g2 = trace g1 ++ (ELock <$> V) /\
     exists g3, for_each (reverse V) unlock g2 = Ret tt g3 /\
       trace g3 = trace g2 ++ (EUnlock <$> reverse V) /\
       (forall j, lock_of (vMeta g3) j = false) /\
       remove_vertex (S fuel) vid g = remove_vertex fuel vid g3) /\
  (GWF g -> in_table vid (vMeta g) ->
     exists g', remove_vertex (S fuel) vid g =
                  Ret (bool_decide (is_Some (vtx (vMeta g) vid))) g' /\
                GWF g') /\
  (GWF g -> forall g', remove_vertex fuel vid g = Ret true g' ->
     clean_of vid (vMeta g') /\ vtx (vMeta g') vid = None).
Proof.
  intros Hfree. split; [|split].
  - intros seq V g1 g2. by apply remove_vertex_restart.
  - intros HG Hin.
    destruct (remove_vertex_total fuel vid g HG Hin) as (g' & E & HG' & _).
    by exists g'.
  - intros HG g' E.
    destruct (remove_vertex_returns _ _ _ _ _ HG E) as (fuel' & -> & Hin).
    destruct (in_table_slot _ _ Hin) as [m0 Hs].
    destruct (remove_vertex_spec fuel' vid g m0 HG Hs) as (g'' & E' & He & Hpt & Hg).
    rewrite E' in E. injection E as Hb <-.
    apply bool_decide_eq_true in Hb as [v0 Ev]. split.
    + intros u k r.
      apply (removed_clean vid m0 v0 (vMeta g) (vMeta g'') (proj2 HG) Hs Ev Hpt).
    + rewrite (removed_vtx vid m0 v0 (vMeta g) (vMeta g'') (proj2 HG) Hs Ev Hpt).
      by rewrite decide_True.
Qed.

Lemma remove_vertex_two_phase_witness :
  (exists g3, for_each (reverse [0; 1]) unlock
                (state_of (for_each [0; 1] (acquire 0 3)
                             (state_of (scan 0 g_raced) g_raced)) g_raced) =
                Ret tt g3 /\
     remove_vertex 2 0 g_raced = remove_vertex 1 0 g3) /\
  (exists g', remove_vertex 1 0 g_line = Ret true g' /\ GWF g') /\
  (clean_of 0 (vMeta (state_of (remove_vertex 1 0 g_line) g_line)) /\
   vtx (vMeta (state_of (remove_vertex 1 0 g_line) g_line)) 0 = None).
Proof.
  split; [|split].
  - destruct (remove_vertex_two_phase 1 0 g_raced) as (H & _).
    { apply unlocked_Forall. vm_compute. repeat constructor. }
    destruct (H 3 [0; 1] (state_of (scan 0 g_raced) g_raced)
                (state_of (for_each [0; 1] (acquire 0 3)
                             (state_of (scan 0 g_raced) g_raced)) g_raced))
      as (_ & _ & g3 & E3 & _ & _ & Eq).
    + vm_compute. reflexivity.
    + vm_compute. reflexivity.
    + vm_compute. discriminate.
    + exists g3. split; [exact E3|exact Eq].
  - destruct (remove_vertex_two_phase 0 0 g_line) as (_ & H & _).
    { apply wf_unlocked, g_line_GWF. }
    apply (H g_line_GWF). apply (bool_decide_unpack _). vm_compute. exact I.
  - destruct (remove_vertex_two_phase 1 0 g_line) as (_ & _ & H).
    { apply wf_unlocked, g_line_GWF. }
    apply (H g_line_GWF). vm_compute. reflexivity.
Defined.

(** ** Sequence numbers and changes *)

Lemma tracks_by (C : Z -> Prop) `{!forall v, Decision (C v)} t t' :
  (forall v, C v -> ~ unchanged t t' v) ->
  (forall v, ~ C v -> unchanged t t' v) ->
  (forall v, seq_of t' v = if decide (C v) then (seq_of t v + 1) mod 2 ^ 32
                           else seq_of t v) ->
  tracks t t'.
Proof.
  intros Hc Hu Hseq v. rewrite Hseq. destruct (decide (C v)) as [Hv|Hv].
  - right. split; [by apply Hc|done].
  - left. split; [by apply Hu|done].
Qed.

Lemma tracks_refl t : tracks t t.
Proof.
  intros v. left. split; [|done]. split; [done|]. done.
Qed.

Lemma tracks_add_edge s d r ms md vs vd t :
  wf t -> s <> d -> slot s t = Some ms -> slot d t = Some md ->
  idxToVertex ms = Some vs -> idxToVertex md = Some vd ->
  rkey r = (s, d) -> adjacency_list vs !! (s, d) = None ->
  tracks t (upd s (bump (with_vertex (Some (link_out r vs)) ms))
              (upd d (bump (with_vertex (Some (link_in r vd)) md)) t)).
Proof.
  intros Hwf Hne Hs Hd Evs Evd Hr Hnone.
  pose proof (slot_in_table _ _ _ Hs) as Is.
  pose proof (slot_in_table _ _ _ Hd) as Id.
  pose proof (slot_adj _ _ _ _ Hs Evs) as As.
  pose proof (slot_inc _ _ _ _ Hd Evd) as Bd.
  pose proof (slot_inc _ _ _ _ Hs Evs) as Bs.
  pose proof (slot_adj _ _ _ _ Hd Evd) as Ad.
  set (t' := upd s _ _).
  assert (forall u, adj t' u = if decide (u = s) then <[(s, d) := r]> (adj t s)
                               else adj t u) as Ha.
  { intros u. unfold t'. rewrite !adj_upd by in_tab. simpl. rewrite Hr, As.
    repeat case_decide; try done. by subst. }
  assert (forall u, inc t' u = if decide (u = d) then <[(s, d) := r]> (inc t d)
                               else inc t u) as Hi.
  { intros u. unfold t'. rewrite !inc_upd by in_tab. simpl. rewrite Hr, Bd.
    repeat case_decide; try done; subst; done. }
  assert (forall u, is_Some (vtx t u) <-> is_Some (vtx t' u)) as Hp.
  { intros u. unfold t'. rewrite !vtx_upd by in_tab. simpl.
    repeat case_decide; subst; rewrite ?(slot_vtx _ _ _ Hs), ?(slot_vtx _ _ _ Hd),
      ?Evs, ?Evd; try done; split; by eexists. }
  apply (tracks_by (fun v => v = s \/ v = d)).
  - intros v Hv [_ Hun].
    assert (touches v (s, d)) as Ht by (destruct Hv as [->| ->]; [by left|by right]).
    destruct (Hun s _ Ht) as [H1 _]. rewrite Ha, decide_True in H1 by done.
    rewrite lookup_insert_eq, As, Hnone in H1. done.
  - intros v Hv. split; [apply Hp|]. intros u k Ht. rewrite Ha, Hi.
    assert (k <> (s, d)) as Hk.
    { intros ->. destruct Hv. destruct Ht as [Ht|Ht]; simpl in Ht; subst; tauto. }
    split; case_decide; try done; subst; by rewrite lookup_insert_ne.
  - intros v. unfold t'. rewrite !seq_of_upd by in_tab. simpl.
    rewrite <- (slot_seq _ _ _ Hs), <- (slot_seq _ _ _ Hd).
    repeat case_decide; subst; try done; tauto.
Qed.

Lemma tracks_remove_edge s d ms md vs vd t :
  wf t -> s <> d -> slot s t = Some ms -> slot d t = Some md ->
  idxToVertex ms = Some vs -> idxToVertex md = Some vd ->
  is_Some (adjacency_list vs !! (s, d)) ->
  tracks t (upd s (bump (with_vertex (Some (unlink_out (s, d) vs)) ms))
              (upd d (bump (with_vertex (Some (unlink_in (s, d) vd)) md)) t)).
Proof.
  intros Hwf Hne Hs Hd Evs Evd Hsome.
  pose proof (slot_in_table _ _ _ Hs) as Is.
  pose proof (slot_in_table _ _ _ Hd) as Id.
  pose proof (slot_adj _ _ _ _ Hs Evs) as As.
  pose proof (slot_inc _ _ _ _ Hd Evd) as Bd.
  set (t' := upd s _ _).
  assert (forall u, adj t' u = if decide (u = s) then delete (s, d) (adj t s)
                               else adj t u) as Ha.
  { intros u. unfold t'. rewrite !adj_upd by in_tab. simpl. rewrite As.
    repeat case_decide; try done. subst.
    by rewrite (slot_adj _ _ _ _ Hd Evd). }
  assert (forall u, inc t' u = if decide (u = d) then delete (s, d) (inc t d)
                               else inc t u) as Hi.
  { intros u. unfold t'. rewrite !inc_upd by in_tab. simpl. rewrite Bd.
    repeat case_decide; try done; subst; try done.
    by rewrite (slot_inc _ _ _ _ Hs Evs). }
  assert (forall u, is_Some (vtx t u) <-> is_Some (vtx t' u)) as Hp.
  { intros u. unfold t'. rewrite !vtx_upd by in_tab. simpl.
    repeat case_decide; subst; rewrite ?(slot_vtx _ _ _ Hs), ?(slot_vtx _ _ _ Hd),
      ?Evs, ?Evd; try done; split; by eexists. }
  apply (tracks_by (fun v => v = s \/ v = d)).
  - intros v Hv [_ Hun].
    assert (touches v (s, d)) as Ht by (destruct Hv as [->| ->]; [by left|by right]).
    destruct (Hun s _ Ht) as [H1 _]. rewrite Ha, decide_True in H1 by done.
    rewrite lookup_delete_eq, As in H1. destruct Hsome as [r Hr]. congruence.
  - intros v Hv. split; [apply Hp|]. intros u k Ht. rewrite Ha, Hi.
    assert (k <> (s, d)) as Hk.
    { intros ->. destruct Hv. destruct Ht as [Ht|Ht]; simpl in Ht; subst; tauto. }
    split; case_decide; try done; subst; by rewrite lookup_delete_ne.
  - intros v. unfold t'. rewrite !seq_of_upd by in_tab. simpl.
    rewrite <- (slot_seq _ _ _ Hs), <- (slot_seq _ _ _ Hd).
    repeat case_decide; subst; try done; tauto.
Qed.

Lemma tracks_removed vid m0 v0 t t' :
  wf t -> slot vid t = Some m0 -> idxToVertex m0 = Some v0 ->
  (forall j, slot j t' = removed vid m0 t j) ->
  tracks t t'.
Proof.
  intros Hwf Hs Hv Hpt.
  pose proof (removed_vtx vid m0 v0 t t' Hwf Hs Hv Hpt) as Hvx.
  pose proof (removed_adj vid m0 v0 t t' Hwf Hs Hv Hpt) as Ha.
  pose proof (removed_inc vid m0 v0 t t' Hwf Hs Hv Hpt) as Hi.
  pose proof (proj1 (wf_view _) Hwf) as (_ & _ & Hout & Hin).
  apply (tracks_by (fun v => v ∈ neighbours vid v0)).
  - intros v Hn [Hp Hun]. destruct (decide (v = vid)) as [->|Hne].
    + rewrite Hvx, decide_True in Hp by done.
      rewrite (slot_vtx _ _ _ Hs), Hv in Hp.
      destruct (proj1 Hp ltac:(by eexists)) as [? ?]. done.
    + destruct (neighbour_linked _ _ _ _ _ Hwf Hs Hv Hn Hne)
        as (m & v1 & Hm & Hmv & [[r Hr]|[r Hr]]).
      * destruct (Hun v (v, vid) ltac:(by left)) as [H1 _].
        rewrite Ha, decide_False in H1 by done.
        rewrite lookup_delete_eq, (slot_adj _ _ _ _ Hm Hmv), Hr in H1. done.
      * destruct (Hun v (vid, v) ltac:(by right)) as [_ H1].
        rewrite Hi, decide_False in H1 by done.
        rewrite lookup_delete_eq, (slot_inc _ _ _ _ Hm Hmv), Hr in H1. done.
  - intros v Hn.
    assert (v <> vid) as Hne by (intros ->; apply Hn, neighbours_self).
    split.
    + rewrite Hvx, decide_False by done. destruct (vtx t v); simpl; split; try done;
        intros _; by eexists.
    + intros u k Ht. rewrite Ha, Hi. destruct (decide (u = vid)) as [->|Hu].
      * rewrite (slot_adj _ _ _ _ Hs Hv), (slot_inc _ _ _ _ Hs Hv). split.
        -- destruct (adjacency_list v0 !! k) as [r|] eqn:Er; [|done].
           rewrite <- (slot_adj _ _ _ _ Hs Hv) in Er.
           destruct (Hout _ _ _ Er) as (Hk & Hsr & _ & _).
           destruct Hn. rewrite Hk in Ht. destruct Ht as [Ht|Ht]; simpl in Ht.
           ++ congruence.
           ++ apply elem_of_neighbours. left.
              rewrite (slot_adj _ _ _ _ Hs Hv) in Er. eauto.
        -- destruct (dest_list v0 !! k) as [r|] eqn:Er; [|done].
           rewrite <- (slot_inc _ _ _ _ Hs Hv) in Er.
           destruct (Hin _ _ _ Er) as (Hk & Hdr & _ & _).
           destruct Hn. rewrite Hk in Ht. destruct Ht as [Ht|Ht]; simpl in Ht.
           ++ apply elem_of_neighbours. right. left.
              rewrite (slot_inc _ _ _ _ Hs Hv) in Er. eauto.
           ++ congruence.
      * split.
        -- destruct (decide (k = (u, vid))) as [->|Hk];
             [|by rewrite lookup_delete_ne].
           rewrite lookup_delete_eq.
           destruct Ht as [Ht|Ht]; simpl in Ht; [|congruence]. subst u.
           by apply (not_neighbour_out vid m0 v0 t).
        -- destruct (decide (k = (vid, u))) as [->|Hk];
             [|by rewrite lookup_delete_ne].
           rewrite lookup_delete_eq.
           destruct Ht as [Ht|Ht]; simpl in Ht; [congruence|]. subst u.
           by apply (not_neighbour_in vid m0 v0 t).
  - apply (removed_seq vid m0 v0 t t' Hwf Hs Hv Hpt).
Qed.

Lemma tracks_added vid m0 vec t t' A rho :
  wf t -> slot vid t = Some m0 -> idxToVertex m0 = None ->
  links_of vid vec t rho A ->
  (forall u, src (rho u) = vid /\ dest (rho u) = u) ->
  (forall j, slot j t' = added vid m0 vec t A rho j) ->
  tracks t t'.
Proof.
  intros Hwf Hs Hv HA Hrho Hpt.
  pose proof (added_vtx vid m0 vec t t' A rho Hpt) as Hvx.
  pose proof (added_adj vid m0 vec t t' A rho Hpt) as Ha.
  pose proof (added_inc vid m0 vec t t' A rho Hrho Hpt) as Hi.
  pose proof (absent_adj vid m0 t Hs Hv) as Ha0.
  pose proof (absent_inc vid m0 t Hs Hv) as Hi0.
  pose proof (proj1 (wf_view _) Hwf) as (_ & _ & Hout & Hin).
  apply (tracks_by (fun v => v = vid \/ (v ∈ vec /\ is_Some (vtx t v)))).
  - intros v Hc [Hp Hun]. destruct (decide (v = vid)) as [->|Hne].
    + rewrite Hvx, decide_True in Hp by done.
      rewrite (slot_vtx _ _ _ Hs), Hv in Hp.
      destruct (proj2 Hp ltac:(by eexists)) as [? ?]. done.
    + destruct Hc as [?|Hc]; [done|].
      destruct (Hun v (vid, v) ltac:(by right)) as [_ H1].
      rewrite Hi, decide_False in H1 by done. rewrite decide_True in H1 by done.
      rewrite lookup_insert_eq in H1.
      destruct (Hin _ _ _ H1) as (Hk & _ & _ & Hadj).
      rewrite (proj1 (Hrho v)), Ha0 in Hadj. done.
  - intros v Hc.
    assert (v <> vid) as Hne by tauto.
    split.
    + rewrite Hvx, decide_False by done. case_decide; [|done].
      destruct (vtx t v); simpl; split; try done; intros _; by eexists.
    + intros u k Ht. rewrite Ha, Hi. destruct (decide (u = vid)) as [->|Hu].
      * rewrite Ha0, Hi0. split; [|done].
        destruct (A !! k) as [r|] eqn:Er; [|done].
        apply HA in Er as (x & Hx & Hxv & Hp & -> & _).
        destruct Hc. destruct Ht as [Ht|Ht]; simpl in Ht; subst; tauto.
      * split; [done|]. case_decide as Hl; [|done].
        rewrite lookup_insert_ne; [done|]. intros <-.
        destruct Hc. destruct Ht as [Ht|Ht]; simpl in Ht; subst; tauto.
  - apply (added_seq vid m0 vec t t' A rho Hs Hpt).
Qed.

Lemma tracks_step t t' v :
  wf t -> tracks t t' ->
  seq_of t' v = seq_of t v \/
  seq_of t v < seq_of t' v \/ (seq_of t v = 2 ^ 32 - 1 /\ seq_of t' v = 0).
Proof.
  intros Hwf Ht. apply wf_view in Hwf as (Hseq & _).
  specialize (Hseq v). destruct (Ht v) as [[_ ->]|[_ ->]]; [by left|right].
  destruct (decide (seq_of t v = 2 ^ 32 - 1)) as [E|E].
  - right. rewrite E. done.
  - left. rewrite Z.mod_small by lia. lia.
Qed.

(** C8, as the code has it.  [seq[v]] is a 32-bit counter.  [add_edge],
    [remove_edge], [remove_vertex] and an [add_vertex] that installs its
    vertex leave [seq[v]] as it is when neither the vertex at [v] nor a
    relation with [v] at one end changed, and move it one step, to
    [(seq[v] + 1) mod 2^32], when one did; a step is an increase unless
    the counter was at [2^32 - 1]. *)
Theorem seq_tracks_changes g :
  GWF g ->
  (forall s d w, (s <> d -> in_table s (vMeta g) /\ in_table d (vMeta g)) ->
     exists b g', add_edge s d w g = Ret b g' /\ tracks (vMeta g) (vMeta g')) /\
  (forall s d, (s <> d -> in_table s (vMeta g) /\ in_table d (vMeta g)) ->
     exists b g', remove_edge s d g = Ret b g' /\ tracks (vMeta g) (vMeta g')) /\
  (forall fuel vid, in_table vid (vMeta g) ->
     exists b g', remove_vertex (S fuel) vid g = Ret b g' /\
       tracks (vMeta g) (vMeta g')) /\
  (forall mE vL rng vid,
     (forall u, u ∈ sampled mE vL rng vid -> in_table u (vMeta g)) ->
     vtx (vMeta g) vid = None ->
     exists g', add_vertex mE vL rng vid g = Ret true g' /\
       tracks (vMeta g) (vMeta g')) /\
  (forall t' v, tracks (vMeta g) t' ->
     seq_of t' v = seq_of (vMeta g) v \/
     seq_of (vMeta g) v < seq_of t' v \/
     (seq_of (vMeta g) v = 2 ^ 32 - 1 /\ seq_of t' v = 0)).
Proof.
  intros HG. split; [|split; [|split; [|split]]].
  - intros s d w Hin. destruct (decide (s = d)) as [->|Hne].
    { exists false, g. rewrite add_edge_self. split; [done|apply tracks_refl]. }
    destruct (Hin Hne) as [Is Id].
    destruct (in_table_slot _ _ Is) as [ms Hs].
    destruct (in_table_slot _ _ Id) as [md Hd].
    destruct (add_edge_spec s d w g ms md HG Hne Hs Hd) as (g' & E & He & Hv & Hg).
    exists (can_link ms md (s, d)), g'. split; [done|]. rewrite Hv.
    destruct (can_link ms md (s, d)) eqn:Ec; [|apply tracks_refl].
    apply can_link_true in Ec as (vs & vd & Evs & Evd & Hn).
    rewrite Evs, Evd. simpl. apply tracks_add_edge; try done. apply HG.
  - intros s d Hin. destruct (decide (s = d)) as [->|Hne].
    { exists false, g. rewrite remove_edge_self. split; [done|apply tracks_refl]. }
    destruct (Hin Hne) as [Is Id].
    destruct (in_table_slot _ _ Is) as [ms Hs].
    destruct (in_table_slot _ _ Id) as [md Hd].
    destruct (remove_edge_spec s d g ms md HG Hne Hs Hd) as (g' & E & He & Hv & Hg).
    exists (can_unlink ms md (s, d)), g'. split; [done|]. rewrite Hv.
    destruct (can_unlink ms md (s, d)) eqn:Ec; [|apply tracks_refl].
    apply can_unlink_true in Ec as (vs & vd & Evs & Evd & Hn).
    rewrite Evs, Evd. simpl. apply tracks_remove_edge; try done. apply HG.
  - intros fuel vid Hin. destruct (in_table_slot _ _ Hin) as [m0 Hs].
    destruct (remove_vertex_spec fuel vid g m0 HG Hs) as (g' & E & He & Hpt & Hg).
    eexists _, g'. split; [done|].
    destruct (idxToVertex m0) as [v0|] eqn:Ev.
    + apply (tracks_removed vid m0 v0); try done. apply HG.
    + assert (vMeta g' = vMeta g) as ->; [|apply tracks_refl].
      apply slot_ext. intros j. rewrite Hpt. unfold removed. by rewrite Ev.
  - intros mE vL rng vid Hin Hnone.
    assert (vid ∈ sampled mE vL rng vid) as Hvid.
    { apply elem_of_sort_unique, elem_of_app. right. left. }
    destruct (in_table_slot _ _ (Hin vid Hvid)) as [m0 Hs].
    rewrite (slot_vtx _ _ _ Hs) in Hnone.
    destruct (add_vertex_spec mE vL rng vid g m0 HG Hin Hs)
      as (g' & E & He & _ & Hnew & Hg).
    rewrite Hnone in E. exists g'. split; [done|].
    destruct (Hnew Hnone) as (A & rho & HA & Hrho & Hpt).
    apply (tracks_added vid m0 (sampled mE vL rng vid) _ _ A rho); try done.
    apply HG.
  - intros t' v Ht. apply tracks_step; [apply HG|done].
Qed.

Lemma seq_tracks_changes_witness :
  (exists b g', add_edge 1 2 9 g_line = Ret b g' /\
     tracks (vMeta g_line) (vMeta g')) /\
  (exists g', add_vertex 1 50 draws 3 g_line = Ret true g' /\
     tracks (vMeta g_line) (vMeta g')).
Proof.
  destruct (seq_tracks_changes g_line g_line_GWF) as (H1 & _ & _ & H4 & _).
  split.
  - apply H1. intros _. split; apply (bool_decide_unpack _); vm_compute; exact I.
  - apply H4; [|vm_compute; reflexivity].
    apply Forall_forall. apply (bool_decide_unpack _). vm_compute. exact I.
Defined.

Lemma same_vtx_fmap t t' :
  idxToVertex <$> t' = idxToVertex <$> t -> same_vtx t' t.
Proof.
  intros H u. unfold vtx, slot. destruct (u <? 0); [done|].
  assert ((idxToVertex <$> t') !! Z.to_nat u = (idxToVertex <$> t) !! Z.to_nat u) as E
    by by rewrite H.
  rewrite !list_lookup_fmap in E.
  destruct (t' !! Z.to_nat u), (t !! Z.to_nat u); simpl in *; congruence.
Qed.

Lemma unchanged_same_vtx t t' v : same_vtx t' t -> unchanged t t' v.
Proof.
  intros H. split; [by rewrite H|]. intros u k _. unfold adj, inc. by rewrite H.
Qed.

(** C8 as the specification states it fails twice.  A bump at
    [2^32 - 1] takes the sequence number back to [0]; and an
    [add_vertex] that finds its vertex in place changes no vertex and no
    relation, yet moves the sequence number of that vertex. *)
Lemma seq_bump_counterexample :
  GWF g_wrap /\
  (exists g', add_edge 1 2 9 g_wrap = Ret true g' /\
     seq_of (vMeta g') 1 < seq_of (vMeta g_wrap) 1) /\
  (exists g', add_vertex 1 50 draws 0 g_line = Ret false g' /\
     unchanged (vMeta g_line) (vMeta g') 0 /\
     seq_of (vMeta g') 0 = seq_of (vMeta g_line) 0 + 1).
Proof.
  split; [|split].
  - split; [reflexivity|]. apply (bool_decide_unpack _). vm_compute. exact I.
  - eexists. split; [vm_compute; reflexivity|]. vm_compute. reflexivity.
  - eexists. split; [vm_compute; reflexivity|]. split.
    + apply unchanged_same_vtx, same_vtx_fmap. vm_compute. reflexivity.
    + vm_compute. reflexivity.
Qed.

(** X1.  What [add_vertex] does when the vertex is there already: it
    returns false, no vertex and no relation changes, and the sequence
    number of every sampled vertex that exists moves one step. *)
Theorem add_vertex_refused mE vL rng vid g :
  GWF g ->
  (forall u, u ∈ sampled mE vL rng vid -> in_table u (vMeta g)) ->
  is_Some (vtx (vMeta g) vid) ->
  exists g', add_vertex mE vL rng vid g = Ret false g' /\ GWF g' /\
    same_vtx (vMeta g') (vMeta g) /\
    forall j, seq_of (vMeta g') j =
      if decide (j ∈ sampled mE vL rng vid /\ is_Some (vtx (vMeta g) j))
      then (seq_of (vMeta g) j + 1) mod 2 ^ 32
      else seq_of (vMeta g) j.
Proof.
  intros HG Hin Hp.
  assert (vid ∈ sampled mE vL rng vid) as Hvid.
  { apply elem_of_sort_unique, elem_of_app. right. left. }
  destruct (in_table_slot _ _ (Hin vid Hvid)) as [m0 Hs].
  rewrite (slot_vtx _ _ _ Hs) in Hp.
  destruct (add_vertex_spec mE vL rng vid g m0 HG Hin Hs)
    as (g' & E & He & Hold & _ & Hg).
  destruct Hp as [v0 Ev]. rewrite Ev in E. simpl in E.
  specialize (Hold ltac:(by eexists)).
  exists g'. split; [done|]. split; [|split].
  - split; [done|]. eapply refused_wf; [apply HG|exact Hold].
  - eapply refused_vtx. exact Hold.
  - eapply refused_seq. exact Hold.
Qed.

Lemma add_vertex_refused_witness :
  exists g', add_vertex 1 50 draws 0 g_line = Ret false g' /\ GWF g' /\
    same_vtx (vMeta g') (vMeta g_line) /\
    forall j, seq_of (vMeta g') j =
      if decide (j ∈ sampled 1 50 draws 0 /\ is_Some (vtx (vMeta g_line) j))
      then (seq_of (vMeta g_line) j + 1) mod 2 ^ 32
      else seq_of (vMeta g_line) j.
Proof.
  apply (add_vertex_refused 1 50 draws 0 g_line g_line_GWF).
  - apply Forall_forall. apply (bool_decide_unpack _). vm_compute. exact I.
  - vm_compute. by eexists.
Defined.

(** ** More of the graph: edges *)

Lemma relock_one s ms t :
  slot s t = Some ms -> vertexLocks ms = false ->
  upd s (with_lock false (with_lock true ms)) (upd s (with_lock true ms) t) = t.
Proof.
  intros Hs Hl. rewrite upd_upd, with_lock_twice, with_lock_id by done.
  by apply upd_id.
Qed.

Lemma has_edge_spec s d g ms :
  GWF g -> slot s (vMeta g) = Some ms ->
  exists g', has_edge s d g
               = Ret (bool_decide (is_Some (adj (vMeta g) s !! (s, d)))) g' /\
    env g' = [] /\ vMeta g' = vMeta g /\ next_addr g' = next_addr g /\
    trace g' = trace g ++ [ELock s; EUnlock s] /\
    hist g' = hist g ++ [upd s (with_lock true ms) (vMeta g)].
Proof.
  intros HG Hs.
  pose proof (slot_in_table _ _ _ Hs) as Is.
  destruct (GWF_slot _ _ _ HG Hs) as (Rs & Ls & Ws).
  destruct HG as [He Hwf].
  unfold has_edge. step lock_ok. step vertex_ok. cbn [idxToVertex with_lock].
  destruct (idxToVertex ms) as [vs|] eqn:Evs; cbn [is_null].
  - step has_relation_ok. cbn [get_set local_Relation rkey src dest].
    step unlock_ok. unfold ret. eexists. split.
    + rewrite (slot_adj _ _ _ _ Hs Evs). reflexivity.
    + gsimpl. rewrite relock_one by done. rewrite <- app_assoc. done.
  - step unlock_ok. unfold ret. eexists. split.
    + unfold adj. rewrite (slot_vtx _ _ _ Hs), Evs. simpl.
      rewrite lookup_empty.
      rewrite (bool_decide_eq_false_2 (is_Some None)) by (intros [? ?]; done).
      reflexivity.
    + gsimpl. rewrite relock_one by done. rewrite <- app_assoc. done.
Qed.

(** X10.  With no other thread at work, [has_edge(s, d)] returns true
    exactly when there is a vertex at [s] whose adjacency set holds
    [(s, d)], and false when there is no vertex at [s]; it takes and
    releases the lock of [s] only and leaves the table as it was. *)
Theorem has_edge_correct s d g :
  GWF g -> in_table s (vMeta g) ->
  exists g', has_edge s d g
               = Ret (bool_decide (is_Some (adj (vMeta g) s !! (s, d)))) g' /\
    GWF g' /\ vMeta g' = vMeta g /\
    trace g' = trace g ++ [ELock s; EUnlock s] /\
    (vtx (vMeta g) s = None ->
     bool_decide (is_Some (adj (vMeta g) s !! (s, d))) = false).
Proof.
  intros HG Is. destruct (in_table_slot _ _ Is) as [ms Hs].
  destruct (has_edge_spec s d g ms HG Hs) as (g' & E & He & Hv & _ & Ht & _).
  exists g'. split; [done|]. split; [|split; [done|split; [done|]]].
  - split; [done|]. rewrite Hv. apply HG.
  - intros Hn. unfold adj. rewrite Hn. simpl. rewrite lookup_empty.
    apply bool_decide_eq_false_2. intros [? ?]. done.
Qed.

Lemma has_edge_correct_witness :
  (exists g', has_edge 0 1 g_line = Ret true g' /\ vMeta g' = vMeta g_line) /\
  (exists g', has_edge 1 0 g_line = Ret false g' /\ vMeta g' = vMeta g_line) /\
  (exists g', has_edge 3 0 g_line = Ret false g' /\ vMeta g' = vMeta g_line).
Proof.
  split; [|split].
  - destruct (has_edge_correct 0 1 g_line g_line_GWF) as (g' & E & _ & Hv & _).
    { apply (bool_decide_unpack _). vm_compute. exact I. }
    exists g'. split; [exact E|exact Hv].
  - destruct (has_edge_correct 1 0 g_line g_line_GWF) as (g' & E & _ & Hv & _).
    { apply (bool_decide_unpack _). vm_compute. exact I. }
    exists g'. split; [exact E|exact Hv].
  - destruct (has_edge_correct 3 0 g_line g_line_GWF) as (g' & E & _ & Hv & _).
    { apply (bool_decide_unpack _). vm_compute. exact I. }
    exists g'. split; [exact E|exact Hv].
Defined.

Lemma removable_can_unlink t s d ms md :
  s <> d -> slot s t = Some ms -> slot d t = Some md ->
  removable t s d = can_unlink ms md (s, d).
Proof.
  intros Hne Hs Hd. unfold removable, can_unlink.
  rewrite (proj2 (Z.eqb_neq s d)) by done. cbn [negb andb].
  rewrite (slot_vtx _ _ _ Hs), (slot_vtx _ _ _ Hd).
  destruct (idxToVertex ms) as [vs|] eqn:Evs.
  - rewrite (bool_decide_eq_true_2 (is_Some (Some vs))) by by eexists.
    destruct (idxToVertex md) as [vd|] eqn:Evd.
    + rewrite (bool_decide_eq_true_2 (is_Some (Some vd))) by by eexists.
      by rewrite (slot_adj _ _ _ _ Hs Evs).
    + by rewrite (bool_decide_eq_false_2 (is_Some None)) by by intros [? ?].
  - by rewrite (bool_decide_eq_false_2 (is_Some None)) by by intros [? ?].
Qed.

(** X11.  With no other thread at work, [remove_edge(s, d)] returns
    false and leaves the table as it is when [s == d], when there is no
    vertex at [s] or at [d], or when [(s, d)] is not in the adjacency
    set of [s]; otherwise it returns true, [(s, d)] is gone from the
    adjacency set of [s] and from the incoming set of [d], every other
    set is as it was, and [seq[s]] and [seq[d]] are one step further.
    A following [has_edge(s, d)] returns false in both cases. *)
Theorem remove_edge_correct s d g :
  GWF g -> in_table s (vMeta g) -> in_table d (vMeta g) ->
  exists g', remove_edge s d g = Ret (removable (vMeta g) s d) g' /\ GWF g' /\
    (if removable (vMeta g) s d then
       adj (vMeta g') s = delete (s, d) (adj (vMeta g) s) /\
       inc (vMeta g') d = delete (s, d) (inc (vMeta g) d) /\
       (forall u, u <> s -> adj (vMeta g') u = adj (vMeta g) u) /\
       (forall u, u <> d -> inc (vMeta g') u = inc (vMeta g) u) /\
       seq_of (vMeta g') s = (seq_of (vMeta g) s + 1) mod 2 ^ 32 /\
       seq_of (vMeta g') d = (seq_of (vMeta g) d + 1) mod 2 ^ 32
     else vMeta g' = vMeta g) /\
    (s <> d -> exists g'', has_edge s d g' = Ret false g'').
Proof.
  intros HG Is Id.
  destruct (remove_edge_total s d g HG ltac:(done)) as (b & g1 & E1 & HG1 & _).
  destruct (decide (s = d)) as [->|Hne].
  { exists g. rewrite remove_edge_self. unfold removable. rewrite Z.eqb_refl.
    split; [done|]. split; [done|]. split; [done|]. intros H. by destruct H. }
  destruct (in_table_slot _ _ Is) as [ms Hs].
  destruct (in_table_slot _ _ Id) as [md Hd].
  destruct (remove_edge_spec s d g ms md HG Hne Hs Hd) as (g' & E & He & Hv & Hg).
  rewrite E in E1. injection E1 as <- <-.
  rewrite (removable_can_unlink _ _ _ _ _ Hne Hs Hd).
  exists g'. split; [done|]. split; [done|].
  assert (adj (vMeta g') s !! (s, d) = None) as Hgone.
  { rewrite Hv. destruct (can_unlink ms md (s, d)) eqn:Ec.
    - apply can_unlink_true in Ec as (vs & vd & Evs & Evd & _).
      rewrite Evs, Evd. simpl. rewrite adj_upd by in_tab.
      rewrite decide_True by done. simpl. apply lookup_delete_eq.
    - unfold can_unlink in Ec. unfold adj. rewrite (slot_vtx _ _ _ Hs).
      destruct (idxToVertex ms) as [vs|] eqn:Evs; [|apply lookup_empty]. simpl.
      destruct (idxToVertex md) as [vd|] eqn:Evd.
      + apply bool_decide_eq_false in Ec.
        destruct (adjacency_list vs !! (s, d)) eqn:El; [|done].
        exfalso. apply Ec. by eexists.
      + destruct (adjacency_list vs !! (s, d)) as [r|] eqn:El; [|done].
        exfalso. destruct (GWF_slot _ _ _ HG Hs) as (_ & _ & Ws).
        rewrite <- (slot_adj s (vMeta g) ms vs Hs Evs) in El.
        destruct HG as [_ Hwf]. apply wf_view in Hwf as (_ & _ & Hout & _).
        destruct (Hout _ _ _ El) as (Hk & _ & _ & Hin).
        assert (dest r = d) as Hdr by (unfold rkey in Hk; congruence).
        rewrite Hdr in Hin. unfold inc in Hin.
        rewrite (slot_vtx _ _ _ Hd), Evd in Hin. simpl in Hin.
        by rewrite lookup_empty in Hin. }
  split.
  - destruct (can_unlink ms md (s, d)) eqn:Ec; [|done].
    apply can_unlink_true in Ec as (vs & vd & Evs & Evd & _).
    rewrite Hv, Evs, Evd. simpl.
    rewrite !adj_upd, !inc_upd, !seq_of_upd by in_tab.
    rewrite (slot_adj _ _ _ _ Hs Evs), (slot_inc _ _ _ _ Hd Evd).
    rewrite (slot_seq _ _ _ Hs), (slot_seq _ _ _ Hd).
    rewrite !(decide_True (P := s = s)) by done.
    rewrite !(decide_True (P := d = d)) by done.
    rewrite !(decide_False (P := d = s)) by congruence.
    simpl. split; [done|]. split; [done|]. split; [|split; [|done]].
    + intros u Hu. rewrite !adj_upd by in_tab.
      rewrite (decide_False (P := u = s)) by done.
      destruct (decide (u = d)) as [->|]; [|done].
      simpl. by rewrite (slot_adj _ _ _ _ Hd Evd).
    + intros u Hu. rewrite !inc_upd by in_tab.
      rewrite (decide_False (P := u = d)) by done.
      destruct (decide (u = s)) as [->|]; [|done].
      simpl. by rewrite (slot_inc _ _ _ _ Hs Evs).
  - intros _.
    assert (in_table s (vMeta g')) as Is'.
    { rewrite Hv. destruct (can_unlink ms md (s, d)); [in_tab|done]. }
    destruct (in_table_slot _ _ Is') as [ms' Hs'].
    destruct (has_edge_spec s d g' ms' HG1 Hs') as (g'' & E' & _).
    exists g''. rewrite E', Hgone.
    by rewrite (bool_decide_eq_false_2 (is_Some None)) by by intros [? ?].
Qed.

Lemma remove_edge_correct_witness :
  (exists g', remove_edge 0 1 g_line = Ret true g' /\ GWF g' /\
     adj (vMeta g') 0 = ∅ /\ inc (vMeta g') 1 = ∅ /\
     seq_of (vMeta g') 0 = 4 /\ seq_of (vMeta g') 1 = 5 /\
     exists g'', has_edge 0 1 g' = Ret false g'') /\
  (exists g', remove_edge 1 0 g_line = Ret false g' /\ vMeta g' = vMeta g_line).
Proof.
  split.
  - destruct (remove_edge_correct 0 1 g_line g_line_GWF)
      as (g' & E & HG' & (Ha & Hi & _ & _ & Hs & Hd) & Hh).
    { apply (bool_decide_unpack _). vm_compute. exact I. }
    { apply (bool_decide_unpack _). vm_compute. exact I. }
    exists g'. split; [exact E|]. split; [exact HG'|].
    split; [rewrite Ha; reflexivity|]. split; [rewrite Hi; reflexivity|].
    split; [exact Hs|]. split; [exact Hd|]. apply Hh. discriminate.
  - destruct (remove_edge_correct 1 0 g_line g_line_GWF) as (g' & E & _ & Hv & _).
    { apply (bool_decide_unpack _). vm_compute. exact I. }
    { apply (bool_decide_unpack _). vm_compute. exact I. }
    exists g'. split; [exact E|exact Hv].
Defined.

Lemma unlink_link_out r v :
  adjacency_list v !! rkey r = None -> unlink_out (rkey r) (link_out r v) = v.
Proof.
  intros H. unfold unlink_out, link_out. simpl.
  rewrite delete_insert_id by done. by destruct v.
Qed.

Lemma unlink_link_in r v :
  dest_list v !! rkey r = None -> unlink_in (rkey r) (link_in r v) = v.
Proof.
  intros H. unfold unlink_in, link_in. simpl.
  rewrite delete_insert_id by done. by destruct v.
Qed.

(** X12.  With no other thread at work, an edge that [add_edge] adds is
    seen by [has_edge], and [remove_edge] then takes it away again: the
    three calls return true, every vertex is left with the sets it had
    before, and [seq[s]] and [seq[d]] are two steps further while every
    other sequence number is as it was. *)
Theorem edge_round_trip s d w g :
  GWF g -> in_table s (vMeta g) -> in_table d (vMeta g) ->
  addable (vMeta g) s d = true ->
  exists g1 g2 g3,
    add_edge s d w g = Ret true g1 /\
    has_edge s d g1 = Ret true g2 /\
    remove_edge s d g2 = Ret true g3 /\
    GWF g3 /\ same_vtx (vMeta g3) (vMeta g) /\
    forall u, seq_of (vMeta g3) u =
      if decide (u = s \/ u = d)
      then ((seq_of (vMeta g) u + 1) mod 2 ^ 32 + 1) mod 2 ^ 32
      else seq_of (vMeta g) u.
Proof.
  intros HG Is Id Hadd.
  assert (s <> d) as Hne.
  { intros ->. unfold addable in Hadd. by rewrite Z.eqb_refl in Hadd. }
  destruct (in_table_slot _ _ Is) as [ms Hs].
  destruct (in_table_slot _ _ Id) as [md Hd].
  rewrite (addable_can_link _ _ _ _ _ Hne Hs Hd) in Hadd.
  destruct (add_edge_spec s d w g ms md HG Hne Hs Hd) as (g1 & E1 & He1 & Hv1 & _).
  destruct (add_edge_total s d w g HG ltac:(done)) as (b1 & g1' & E1' & HG1 & _).
  rewrite E1 in E1'. injection E1' as <- <-. rewrite Hadd in E1, Hv1.
  pose proof Hadd as Hc. apply can_link_true in Hc as (vs & vd & Evs & Evd & Hnone).
  rewrite Evs, Evd in Hv1. simpl in Hv1.
  set (r := mkRelation (next_addr g) s d w) in *.
  change (s, d) with (rkey r) in Hnone.
  assert (dest_list vd !! rkey r = None) as Hnone'.
  { destruct (dest_list vd !! rkey r) as [r1|] eqn:Er1; [|done].
    destruct HG as [_ Hwf]. apply wf_view in Hwf as (_ & _ & _ & Hin).
    rewrite <- (slot_inc _ _ _ _ Hd Evd) in Er1.
    destruct (Hin _ _ _ Er1) as (Hk & _ & _ & Ha).
    assert (src r1 = s) as Hs1 by (unfold rkey in Hk; simpl in Hk; congruence).
    rewrite Hs1, (slot_adj _ _ _ _ Hs Evs) in Ha. congruence. }
  set (ms1 := bump (with_vertex (Some (link_out r vs)) ms)) in *.
  set (md1 := bump (with_vertex (Some (link_in r vd)) md)) in *.
  assert (slot s (vMeta g1) = Some ms1) as Hs1.
  { rewrite Hv1. sl. done. }
  assert (slot d (vMeta g1) = Some md1) as Hd1.
  { rewrite Hv1. sl. done. }
  destruct (has_edge_spec s d g1 ms1 HG1 Hs1) as (g2 & E2 & He2 & Hv2 & _).
  assert (GWF g2) as HG2 by (split; [done|rewrite Hv2; apply HG1]).
  assert (adj (vMeta g1) s !! (s, d) = Some r) as Hin1.
  { rewrite (slot_adj _ _ _ _ Hs1 eq_refl). simpl. apply lookup_insert_eq. }
  rewrite Hin1 in E2.
  rewrite (bool_decide_eq_true_2 (is_Some (Some r))) in E2 by by eexists.
  rewrite <- Hv2 in Hs1, Hd1.
  destruct (remove_edge_spec s d g2 ms1 md1 HG2 Hne Hs1 Hd1)
    as (g3 & E3 & He3 & Hv3 & _).
  destruct (remove_edge_total s d g2 HG2
              ltac:(intros _; split; eapply slot_in_table; eassumption))
    as (b3 & g3' & E3' & HG3 & _).
  rewrite E3 in E3'. injection E3' as <- <-.
  assert (can_unlink ms1 md1 (s, d) = true) as Hcu.
  { unfold can_unlink, ms1, md1. simpl. apply bool_decide_eq_true_2.
    change (s, d) with (rkey r). rewrite lookup_insert_eq. by eexists. }
  rewrite Hcu in E3, Hv3. simpl in Hv3.
  change (s, d) with (rkey r) in Hv3.
  rewrite unlink_link_out, unlink_link_in in Hv3 by done.
  exists g1, g2, g3. split; [done|]. split; [done|]. split; [done|]. split; [done|].
  assert (in_table s (vMeta g2)) as Is2 by (eapply slot_in_table; eauto).
  assert (in_table d (vMeta g2)) as Id2 by (eapply slot_in_table; eauto).
  split.
  - intros u. rewrite Hv3, !vtx_upd by in_tab. rewrite Hv2, Hv1, !vtx_upd by in_tab.
    simpl. repeat case_decide; subst;
      rewrite ?(slot_vtx _ _ _ Hs), ?(slot_vtx _ _ _ Hd); done.
  - intros u. rewrite Hv3, !seq_of_upd by in_tab. rewrite Hv2, Hv1, !seq_of_upd by in_tab.
    simpl. rewrite <- (slot_seq _ _ _ Hs), <- (slot_seq _ _ _ Hd).
    repeat case_decide; subst; try done; tauto.
Qed.

Lemma edge_round_trip_witness :
  exists g1 g2 g3,
    add_edge 1 2 9 g_line = Ret true g1 /\
    has_edge 1 2 g1 = Ret true g2 /\
    remove_edge 1 2 g2 = Ret true g3 /\
    GWF g3 /\ same_vtx (vMeta g3) (vMeta g_line) /\
    seq_of (vMeta g3) 1 = 6 /\ seq_of (vMeta g3) 2 = 2 /\ seq_of (vMeta g3) 0 = 3.
Proof.
  destruct (edge_round_trip 1 2 9 g_line g_line_GWF)
    as (g1 & g2 & g3 & E1 & E2 & E3 & HG & Hv & Hs).
  { apply (bool_decide_unpack _). vm_compute. exact I. }
  { apply (bool_decide_unpack _). vm_compute. exact I. }
  { vm_compute. reflexivity. }
  exists g1, g2, g3. split; [exact E1|]. split; [exact E2|]. split; [exact E3|].
  split; [exact HG|]. split; [exact Hv|].
  split; [rewrite Hs; reflexivity|]. split; rewrite Hs; reflexivity.
Defined.

(** ** More of the graph: vertices *)



(** X14.  With no other thread at work, [remove_vertex(vid)] on an
    index without a vertex returns false and leaves the table as it
    was.  On an index with a vertex it returns true and takes away the
    vertex and exactly the relations from and to [vid]: every other
    vertex stays, with every relation that does not touch [vid]. *)
Theorem remove_vertex_frame fuel vid g :
  GWF g -> in_table vid (vMeta g) ->
  exists g',
    remove_vertex (S fuel) vid g = Ret (bool_decide (is_Some (vtx (vMeta g) vid))) g' /\
    GWF g' /\
    (vtx (vMeta g) vid = None -> vMeta g' = vMeta g) /\
    (is_Some (vtx (vMeta g) vid) ->
       vtx (vMeta g') vid = None /\
       (forall u, u <> vid ->
          (is_Some (vtx (vMeta g') u) <-> is_Some (vtx (vMeta g) u)) /\
          (forall k, ~ touches vid k ->
             adj (vMeta g') u !! k = adj (vMeta g) u !! k /\
             inc (vMeta g') u !! k = inc (vMeta g) u !! k))).
Proof.
  intros HG Iv. destruct (in_table_slot _ _ Iv) as [m0 Hs].
  destruct (remove_vertex_total fuel vid g HG Iv) as (g1 & E1 & HG1 & _).
  destruct (remove_vertex_spec fuel vid g m0 HG Hs) as (g' & E & He & Hpt & _).
  rewrite (slot_vtx _ _ _ Hs) in *. rewrite E in E1. injection E1 as <-.
  exists g'. split; [done|]. split; [done|]. split.
  - intros Hn. apply slot_ext. intros j. rewrite Hpt. unfold removed. by rewrite Hn.
  - intros [v0 Ev]. destruct HG as [_ Hwf].
    split.
    { rewrite (removed_vtx _ _ _ _ _ Hwf Hs Ev Hpt). by rewrite decide_True. }
    intros u Hu. split.
    { rewrite (removed_vtx _ _ _ _ _ Hwf Hs Ev Hpt). rewrite decide_False by done.
      by rewrite fmap_is_Some. }
    intros k Hk. unfold touches in Hk.
    rewrite (removed_adj _ _ _ _ _ Hwf Hs Ev Hpt), (removed_inc _ _ _ _ _ Hwf Hs Ev Hpt).
    rewrite !decide_False by done.
    split; apply lookup_delete_ne; intros <-; apply Hk; simpl; tauto.
Qed.

Lemma remove_vertex_frame_witness :
  (exists g', remove_vertex 1 3 g_line = Ret false g' /\ vMeta g' = vMeta g_line) /\
  (exists g', remove_vertex 1 2 g_line = Ret true g' /\ GWF g' /\
     vtx (vMeta g') 2 = None /\
     adj (vMeta g') 0 !! (0, 1) = Some edge01 /\
     inc (vMeta g') 1 !! (0, 1) = Some edge01).
Proof.
  split.
  - destruct (remove_vertex_frame 0 3 g_line g_line_GWF) as (g' & E & _ & Hn & _).
    { apply (bool_decide_unpack _). vm_compute. exact I. }
    exists g'. split; [exact E|]. apply Hn. reflexivity.
  - destruct (remove_vertex_frame 0 2 g_line g_line_GWF) as (g' & E & HG & _ & Hs).
    { apply (bool_decide_unpack _). vm_compute. exact I. }
    destruct Hs as [Hv Hf]; [vm_compute; eexists; reflexivity|].
    exists g'. split; [exact E|]. split; [exact HG|]. split; [exact Hv|].
    split.
    + destruct (Hf 0 ltac:(discriminate)) as [_ Hk].
      destruct (Hk (0, 1)) as [-> _]; [|reflexivity].
      unfold touches. simpl. intros [|]; discriminate.
    + destruct (Hf 1 ltac:(discriminate)) as [_ Hk].
      destruct (Hk (0, 1)) as [_ ->]; [|reflexivity].
      unfold touches. simpl. intros [|]; discriminate.
Defined.

(** ** The order of locks *)

Lemma silent_ret {A} (a : A) : silent (ret a).
Proof. intros g a' g' [= _ <-]. done. Qed.

Lemma silent_bind {A B} (m : M A) (k : A -> M B) :
  silent m -> (forall a, silent (k a)) -> silent (bind m k).
Proof.
  intros Hm Hk g b g' H. apply bindG_inv in H as (a & g1 & H1 & H).
  rewrite (Hk _ _ _ _ H). by eapply Hm.
Qed.

Lemma silent_read_meta idx : silent (read_meta idx).
Proof. intros g a g' H. by apply read_meta_inv in H as [-> _]. Qed.

Lemma silent_modify idx f : silent (modify idx f).
Proof. intros g a g' H. by apply modify_inv in H as (m & _ & ->). Qed.

Lemma silent_vertex idx : silent (vertex idx).
Proof. intros g a g' H. by apply vertex_inv in H as ->. Qed.

Lemma silent_assert (c : bool) : silent (assert c).
Proof. destruct c; [apply silent_ret|]. intros g a g' H. done. Qed.

Lemma silent_read_set s : silent (read_set s).
Proof. intros g a g' H. by apply read_set_inv in H as ->. Qed.

Lemma silent_write_set s x : silent (write_set s x).
Proof.
  unfold write_set. apply silent_bind; [apply silent_vertex|].
  intros [v|]; [apply silent_modify|]. intros g a g' H. done.
Qed.

Lemma silent_has_relation s r : silent (has_relation s r).
Proof.
  unfold has_relation. apply silent_bind; [apply silent_read_set|].
  intros x. apply silent_ret.
Qed.

Lemma silent_set_insert s r : silent (set_insert s r).
Proof.
  unfold set_insert. apply silent_bind; [apply silent_read_set|].
  intros x. destruct (x !! rkey r); [apply silent_ret|].
  apply silent_bind; [apply silent_write_set|]. intros _. apply silent_ret.
Qed.

Lemma silent_remove_relation s r : silent (remove_relation s r).
Proof.
  unfold remove_relation. apply silent_bind; [apply silent_read_set|].
  intros x. destruct (x !! rkey r); [|apply silent_ret].
  apply silent_bind; [apply silent_write_set|]. intros _. apply silent_ret.
Qed.

Lemma silent_inc_seq idx : silent (inc_seq idx).
Proof. apply silent_modify. Qed.

Lemma silent_bump_linked vid u : silent (bump_linked vid u).
Proof.
  unfold bump_linked. apply silent_bind; [apply silent_vertex|]. intros vv.
  apply silent_bind.
  - destruct (is_null vv); [apply silent_ret|apply silent_vertex].
  - intros vu. destruct (_ && _); [apply silent_inc_seq|apply silent_ret].
Qed.

Lemma unlock_trace x g a g' :
  unlock x g = Ret a g' -> trace g' = trace g ++ [EUnlock x].
Proof.
  unfold unlock. intros H.
  apply bindG_inv in H as (m & g1 & H1 & H).
  apply read_meta_inv in H1 as (-> & Hm).
  destruct (vertexLocks m); [|done].
  apply bindG_inv in H as (? & g2 & H2 & H). injection H2 as _ <-.
  apply bindG_inv in H as (? & g3 & H3 & H).
  apply modify_inv in H3 as (m' & Hm' & ->).
  injection H as _ <-. done.
Qed.

Lemma lock_pair_trace s d g a g' :
  lock_pair s d g = Ret a g' -> s <> d ->
  trace g' = trace g ++ [ELock (Z.min s d); ELock (Z.max s d)].
Proof.
  unfold lock_pair. intros H Hne. destruct (Z.gtb_spec s d).
  - apply bindG_inv in H as (? & g1 & H1 & H).
    apply lock_inv in H1 as (H1 & _). apply lock_inv in H as (H & _).
    rewrite H, H1, <- app_assoc. rewrite Z.min_r, Z.max_l by lia. done.
  - apply bindG_inv in H as (? & g1 & H1 & H).
    apply lock_inv in H1 as (H1 & _). apply lock_inv in H as (H & _).
    rewrite H, H1, <- app_assoc. rewrite Z.min_l, Z.max_r by lia. done.
Qed.

Lemma unlock_pair_trace s d g a g' :
  unlock_pair s d g = Ret a g' -> s <> d ->
  trace g' = trace g ++ [EUnlock (Z.max s d); EUnlock (Z.min s d)].
Proof.
  unfold unlock_pair. intros H Hne. destruct (Z.gtb_spec s d).
  - apply bindG_inv in H as (? & g1 & H1 & H).
    apply unlock_trace in H1. apply unlock_trace in H.
    rewrite H, H1, <- app_assoc. rewrite Z.min_r, Z.max_l by lia. done.
  - apply bindG_inv in H as (? & g1 & H1 & H).
    apply unlock_trace in H1. apply unlock_trace in H.
    rewrite H, H1, <- app_assoc. rewrite Z.min_l, Z.max_r by lia. done.
Qed.

Lemma add_edge_trace s d w g b g' :
  add_edge s d w g = Ret b g' -> s <> d ->
  trace g' = trace g ++
    [ENew (next_addr g); ELock (Z.min s d); ELock (Z.max s d)] ++
    (if b then [] else [EDelete (next_addr g)]) ++
    [EUnlock (Z.max s d); EUnlock (Z.min s d)].
Proof.
  unfold add_edge. intros H Hne. rewrite (proj2 (Z.eqb_neq s d)) in H by done.
  apply bindG_inv in H as (r & g1 & H1 & H). injection H1 as <- <-.
  apply bindG_inv in H as (? & g2 & H2 & H).
  apply lock_pair_trace in H2; [|done]. gsimpl.
  apply bindG_inv in H as (vs & g3 & H3 & H). apply silent_vertex in H3.
  apply bindG_inv in H as (vd & g4 & H4 & H).
  assert (trace g4 = trace g3) as Ht4.
  { destruct (is_null vs); [by injection H4 as _ <-|by apply silent_vertex in H4]. }
  apply bindG_inv in H as (retval & g5 & H5 & H).
  assert (trace g5 = trace g4) as Ht5.
  { revert H5. generalize g4 retval g5. change (silent
      (if is_null vs || is_null vd then ret false
       else
         h <- has_relation (source s) (mkRelation (next_addr g) s d w) ;;
         if h then (h' <- has_relation (destination d) (mkRelation (next_addr g) s d w) ;;
                    assert h' ;; ret false)
         else
           ret1 <- set_insert (source s) (mkRelation (next_addr g) s d w) ;;
           ret2 <- set_insert (destination d) (mkRelation (next_addr g) s d w) ;;
           assert (eqb ret1 ret2) ;;
           if ret1 then (inc_seq s ;; inc_seq d ;; ret true)
           else ret false)).
    destruct (_ || _); [apply silent_ret|].
    apply silent_bind; [apply silent_has_relation|]. intros h. destruct h.
    - apply silent_bind; [apply silent_has_relation|]. intros h'.
      apply silent_bind; [apply silent_assert|]. intros _. apply silent_ret.
    - apply silent_bind; [apply silent_set_insert|]. intros ret1.
      apply silent_bind; [apply silent_set_insert|]. intros ret2.
      apply silent_bind; [apply silent_assert|]. intros _.
      destruct ret1; [|apply silent_ret].
      apply silent_bind; [apply silent_inc_seq|]. intros _.
      apply silent_bind; [apply silent_inc_seq|]. intros _. apply silent_ret. }
  apply bindG_inv in H as (? & g6 & H6 & H).
  apply bindG_inv in H as (? & g7 & H7 & H). injection H as <- <-.
  apply unlock_pair_trace in H7; [|done].
  rewrite H7. destruct retval.
  - injection H6 as _ <-. rewrite Ht5, Ht4, H3, H2. by rewrite <- !app_assoc.
  - injection H6 as _ <-. gsimpl. rewrite Ht5, Ht4, H3, H2. by rewrite <- !app_assoc.
Qed.

Lemma remove_edge_trace s d g b g' :
  remove_edge s d g = Ret b g' -> s <> d ->
  exists dels,
    (if b then exists a, dels = [EDelete a] else dels = []) /\
    trace g' = trace g ++ [ELock (Z.min s d); ELock (Z.max s d)] ++ dels ++
               [EUnlock (Z.max s d); EUnlock (Z.min s d)].
Proof.
  unfold remove_edge. intros H Hne. rewrite (proj2 (Z.eqb_neq s d)) in H by done.
  apply bindG_inv in H as (? & g2 & H2 & H).
  apply lock_pair_trace in H2; [|done].
  apply bindG_inv in H as (vs & g3 & H3 & H). apply silent_vertex in H3.
  apply bindG_inv in H as (vd & g4 & H4 & H).
  assert (trace g4 = trace g3) as Ht4.
  { destruct (is_null vs); [by injection H4 as _ <-|by apply silent_vertex in H4]. }
  apply bindG_inv in H as (retval & g5 & H5 & H).
  apply bindG_inv in H as (? & g7 & H7 & H). injection H as <- <-.
  apply unlock_pair_trace in H7; [|done].
  assert (exists dels, (if retval then exists a, dels = [EDelete a] else dels = []) /\
                       trace g5 = trace g4 ++ dels) as (dels & Hd & Ht5).
  { destruct (_ || _).
    - injection H5 as <- <-. exists []. split; [done|by rewrite app_nil_r].
    - apply bindG_inv in H5 as (ret1 & g8 & H8 & H5). apply silent_remove_relation in H8.
      apply bindG_inv in H5 as (ret2 & g9 & H9 & H5). apply silent_remove_relation in H9.
      apply bindG_inv in H5 as (? & g10 & H10 & H5). apply silent_assert in H10.
      destruct ret1 as [r1|].
      + apply bindG_inv in H5 as (? & g11 & H11 & H5). injection H11 as _ <-.
        apply bindG_inv in H5 as (? & g12 & H12 & H5). apply silent_inc_seq in H12.
        apply bindG_inv in H5 as (? & g13 & H13 & H5). apply silent_inc_seq in H13.
        injection H5 as <- <-. exists [EDelete (addr r1)]. split; [by eexists|].
        rewrite H13, H12. gsimpl. by rewrite H10, H9, H8.
      + injection H5 as <- <-. exists []. split; [done|].
        rewrite H10, H9, H8. by rewrite app_nil_r. }
  exists dels. split; [done|].
  rewrite H7, Ht5, Ht4, H3, H2. by rewrite <- !app_assoc.
Qed.

Lemma has_edge_trace s d g b g' :
  has_edge s d g = Ret b g' -> trace g' = trace g ++ [ELock s; EUnlock s].
Proof.
  unfold has_edge. intros H.
  apply bindG_inv in H as (? & g1 & H1 & H). apply lock_inv in H1 as (H1 & _).
  apply bindG_inv in H as (v & g2 & H2 & H). apply silent_vertex in H2.
  destruct (is_null v).
  - apply bindG_inv in H as (? & g3 & H3 & H). injection H as _ <-.
    apply unlock_trace in H3. rewrite H3, H2, H1. by rewrite <- app_assoc.
  - apply bindG_inv in H as (? & g3 & H3 & H). apply silent_has_relation in H3.
    apply bindG_inv in H as (? & g4 & H4 & H). injection H as _ <-.
    apply unlock_trace in H4. rewrite H4, H3, H2, H1. by rewrite <- app_assoc.
Qed.

Lemma lock_all_trace l : forall g g',
  for_each l lock g = Ret tt g' -> trace g' = trace g ++ (ELock <$> l).
Proof.
  induction l as [|x l IH]; intros g g' H.
  - injection H as <-. by rewrite app_nil_r.
  - simpl in H. apply bindG_inv in H as (? & g1 & H1 & H).
    apply lock_inv in H1 as (H1 & _). apply IH in H.
    rewrite H, H1. by rewrite <- app_assoc.
Qed.

Lemma release_all_trace vid l : forall g g',
  for_each l (fun u => bump_linked vid u ;; unlock u) g = Ret tt g' ->
  trace g' = trace g ++ (EUnlock <$> l).
Proof.
  induction l as [|x l IH]; intros g g' H.
  - injection H as <-. by rewrite app_nil_r.
  - simpl in H. apply bindG_inv in H as (? & g1 & H1 & H).
    apply bindG_inv in H1 as (? & g2 & H2 & H1).
    apply silent_bump_linked in H2. apply unlock_trace in H1. apply IH in H.
    rewrite H, H1, H2. by rewrite <- app_assoc.
Qed.

Lemma link_trace vid u g a g' :
  link vid u g = Ret a g' ->
  exists news, Forall is_new news /\ trace g' = trace g ++ news.
Proof.
  unfold link. intros H.
  apply bindG_inv in H as (vu & g1 & H1 & H). apply silent_vertex in H1.
  destruct (is_null vu).
  { injection H as _ <-. exists []. split; [done|by rewrite app_nil_r, H1]. }
  destruct (u =? vid).
  { injection H as _ <-. exists []. split; [done|by rewrite app_nil_r, H1]. }
  apply bindG_inv in H as (r & g2 & H2 & H). injection H2 as <- <-.
  apply bindG_inv in H as (? & g3 & H3 & H). apply silent_set_insert in H3.
  apply bindG_inv in H as (? & g4 & H4 & H). apply silent_set_insert in H4.
  injection H as _ <-. exists [ENew (next_addr g1)]. split; [by repeat constructor|].
  rewrite H4, H3. gsimpl. by rewrite H1.
Qed.

Lemma link_all_trace vid l : forall g g',
  for_each l (link vid) g = Ret tt g' ->
  exists news, Forall is_new news /\ trace g' = trace g ++ news.
Proof.
  induction l as [|x l IH]; intros g g' H.
  - injection H as <-. exists []. split; [done|by rewrite app_nil_r].
  - simpl in H. apply bindG_inv in H as (? & g1 & H1 & H).
    apply link_trace in H1 as (n1 & Hn1 & H1).
    apply IH in H as (n2 & Hn2 & H).
    exists (n1 ++ n2). split; [by apply Forall_app|].
    rewrite H, H1. by rewrite <- app_assoc.
Qed.

Lemma add_vertex_trace mE vL rng vid g b g' :
  add_vertex mE vL rng vid g = Ret b g' ->
  exists news, Forall is_new news /\
    trace g' = trace g ++ (ELock <$> sampled mE vL rng vid) ++ news ++
               (EUnlock <$> reverse (sampled mE vL rng vid)).
Proof.
  unfold add_vertex. fold (sampled mE vL rng vid). intros H.
  apply bindG_inv in H as (? & g1 & H1 & H). destruct x. apply lock_all_trace in H1.
  apply bindG_inv in H as (v & g2 & H2 & H). apply silent_vertex in H2.
  apply bindG_inv in H as (retval & g3 & H3 & H).
  apply bindG_inv in H as (? & g4 & H4 & H). destruct x. injection H as _ <-.
  apply release_all_trace in H4.
  assert (exists news, Forall is_new news /\ trace g3 = trace g2 ++ news)
    as (news & Hn & Ht3).
  { destruct (is_null v).
    - apply bindG_inv in H3 as (? & g5 & H5 & H3). apply silent_modify in H5.
      apply bindG_inv in H3 as (? & g6 & H6 & H3). destruct x0. injection H3 as _ <-.
      apply link_all_trace in H6 as (news & Hn & H6).
      exists news. split; [done|]. by rewrite H6, H5.
    - injection H3 as _ <-. exists []. split; [done|by rewrite app_nil_r]. }
  exists news. split; [done|].
  rewrite H4, Ht3, H2, H1. by rewrite <- !app_assoc.
Qed.

(** X15.  Whatever the other threads do, an operation that returns has
    taken its locks in ascending order of the index and released them
    all, in descending order: [add_edge] and [remove_edge] lock the
    smaller of [s] and [d] first, [has_edge] locks [s] only, and
    [add_vertex] locks its sorted sample.  [add_edge] deletes the
    relation it built exactly when it returns false, and [remove_edge]
    deletes one relation exactly when it returns true. *)
Theorem lock_order g g' :
  (forall s d w b, s <> d -> add_edge s d w g = Ret b g' ->
     trace g' = trace g ++
       [ENew (next_addr g); ELock (Z.min s d); ELock (Z.max s d)] ++
       (if b then [] else [EDelete (next_addr g)]) ++
       [EUnlock (Z.max s d); EUnlock (Z.min s d)]) /\
  (forall s d b, s <> d -> remove_edge s d g = Ret b g' ->
     exists dels,
       (if b then exists a, dels = [EDelete a] else dels = []) /\
       trace g' = trace g ++ [ELock (Z.min s d); ELock (Z.max s d)] ++ dels ++
                  [EUnlock (Z.max s d); EUnlock (Z.min s d)]) /\
  (forall s d b, has_edge s d g = Ret b g' ->
     trace g' = trace g ++ [ELock s; EUnlock s]) /\
  (forall mE vL rng vid b, add_vertex mE vL rng vid g = Ret b g' ->
     StronglySorted Z.lt (sampled mE vL rng vid) /\
     exists news, Forall is_new news /\
       trace g' = trace g ++ (ELock <$> sampled mE vL rng vid) ++ news ++
                  (EUnlock <$> reverse (sampled mE vL rng vid))).
Proof.
  split; [|split; [|split]].
  - intros s d w b Hne H. exact (add_edge_trace _ _ _ _ _ _ H Hne).
  - intros s d b Hne H. exact (remove_edge_trace _ _ _ _ _ H Hne).
  - intros s d b H. by eapply has_edge_trace.
  - intros mE vL rng vid b H. split; [apply sort_unique_sorted|].
    by eapply add_vertex_trace.
Qed.

Lemma lock_order_witness :
  trace (state_of (add_edge 2 1 9 g_raced) g_raced)
    = [ENew 100; ELock 1; ELock 2; EUnlock 2; EUnlock 1] /\
  trace (state_of (add_edge 0 1 9 g_line) g_line)
    = [ENew 100; ELock 0; ELock 1; EDelete 100; EUnlock 1; EUnlock 0].
Proof.
  split.
  - assert (E : add_edge 2 1 9 g_raced
                = Ret true (state_of (add_edge 2 1 9 g_raced) g_raced))
      by (vm_compute; reflexivity).
    apply (proj1 (lock_order g_raced _) 2 1 9 true ltac:(discriminate) E).
  - assert (E : add_edge 0 1 9 g_line
                = Ret false (state_of (add_edge 0 1 9 g_line) g_line))
      by (vm_compute; reflexivity).
    apply (proj1 (lock_order g_line _) 0 1 9 false ltac:(discriminate) E).
Defined.

(** ** The constructor *)

Lemma set_insert_dup s r r' m v g :
  slot (owner s) (vMeta g) = Some m -> idxToVertex m = Some v ->
  get_set s v !! rkey r = Some r' ->
  set_insert s r g = Ret false g.
Proof.
  intros H Hv Hn. unfold set_insert.
  by rewrite (bindG_ret_eq _ _ _ _ _ (read_set_ok _ _ _ _ H Hv)), Hn.
Qed.

Lemma elem_of_snoc {A} (l : list A) x y : y ∈ l ++ [x] <-> y ∈ l \/ y = x.
Proof. by rewrite elem_of_app, list_elem_of_singleton. Qed.

Lemma slot_replicate n m j :
  slot j (replicate n m) = if decide (0 <= j < Z.of_nat n) then Some m else None.
Proof.
  unfold slot. destruct (Z.ltb_spec j 0).
  - by rewrite decide_False by lia.
  - case_decide.
    + apply lookup_replicate_2. lia.
    + apply lookup_replicate_None. lia.
Qed.

Lemma fill_all vertexLoad coin (n : nat) g :
  vMeta g = replicate n blank_meta ->
  exists g', for_each (seqZ 0 (Z.of_nat n)) (fill_vertex vertexLoad coin) g = Ret tt g' /\
    env g' = env g /\ trace g' = trace g /\ hist g' = hist g /\
    next_addr g' = next_addr g /\
    forall j, slot j (vMeta g') =
              if decide (0 <= j < Z.of_nat n) then Some (filled vertexLoad coin j) else None.
Proof.
  intros Hv.
  destruct (for_each_inv
    (fun l g' => env g' = env g /\ trace g' = trace g /\ hist g' = hist g /\
       next_addr g' = next_addr g /\
       forall j, slot j (vMeta g') =
         if decide (0 <= j < Z.of_nat n)
         then Some (if decide (j ∈ l) then filled vertexLoad coin j else blank_meta)
         else None)
    (fill_vertex vertexLoad coin) (seqZ 0 (Z.of_nat n)) g) as (g' & E & HI).
  - repeat split; try done. intros j. rewrite Hv, slot_replicate.
    case_decide; [|done]. rewrite decide_False; [done|]. apply not_elem_of_nil.
  - intros l1 x l2 g1 El (He & Ht & Hh & Hn & Hs).
    assert (Hx : x ∈ seqZ 0 (Z.of_nat n)) by (rewrite El; apply elem_of_mid).
    apply elem_of_seqZ in Hx.
    assert (Hnd : x ∉ l1).
    { pose proof (NoDup_seqZ 0 (Z.of_nat n)) as ND. rewrite El in ND.
      by apply NoDup_mid in ND. }
    pose proof (Hs x) as Hsx. rewrite decide_True in Hsx by lia.
    rewrite decide_False in Hsx by done.
    pose proof (slot_in_table _ _ _ Hsx) as Ix.
    set (v := if coin x mod 2 ^ 64 <=? vertexLoad then Some (mkVertex ∅ ∅ x x) else None).
    assert (E1 : (if coin x mod 2 ^ 64 <=? vertexLoad
                  then set_vertex x (Some (mkVertex ∅ ∅ x x))
                  else set_vertex x None) g1
                 = Ret tt (set_vMeta (upd x (with_vertex v blank_meta) (vMeta g1)) g1)).
    { unfold v. destruct (_ <=? _); unfold set_vertex; by rewrite (modify_ok _ _ _ _ Hsx). }
    eexists. split.
    + unfold fill_vertex. rewrite (bindG_ret_eq _ _ _ _ _ E1).
      erewrite modify_ok; [reflexivity|]. gsimpl. rewrite slot_upd' by done.
      by rewrite decide_True.
    + gsimpl. repeat split; try done. intros j.
      rewrite upd_upd, slot_upd' by done. rewrite Hs.
      destruct (decide (j = x)) as [->|Hne].
      * rewrite decide_True by lia.
        rewrite decide_True by (apply elem_of_snoc; by right). reflexivity.
      * case_decide; [|done]. f_equal.
        destruct (decide (j ∈ l1)).
        -- rewrite decide_True by (apply elem_of_snoc; by left). done.
        -- rewrite decide_False; [done|]. rewrite elem_of_snoc. tauto.
  - exists g'. destruct HI as (He & Ht & Hh & Hn & Hs).
    repeat split; try done. intros j. rewrite Hs. case_decide; [|done].
    rewrite decide_True; [done|]. apply elem_of_seqZ. lia.
Qed.

Lemma filled_wf vertexLoad coin t n :
  (forall j, slot j t =
             if decide (0 <= j < Z.of_nat n) then Some (filled vertexLoad coin j) else None) ->
  wf t /\ length t = n /\ (forall u, adj t u = ∅) /\ (forall u, inc t u = ∅) /\
  (forall u, seq_of t u = 0) /\
  (forall u, vtx t u = if decide (0 <= u < Z.of_nat n)
                       then idxToVertex (filled vertexLoad coin u) else None).
Proof.
  intros Hs.
  assert (Hv : forall u, vtx t u = if decide (0 <= u < Z.of_nat n)
                       then idxToVertex (filled vertexLoad coin u) else None).
  { intros u. unfold vtx. rewrite Hs. by case_decide. }
  assert (Ha : forall u, adj t u = ∅).
  { intros u. unfold adj. rewrite Hv. case_decide; [|done].
    unfold filled. simpl. by destruct (_ <=? _). }
  assert (Hi : forall u, inc t u = ∅).
  { intros u. unfold inc. rewrite Hv. case_decide; [|done].
    unfold filled. simpl. by destruct (_ <=? _). }
  assert (Hq : forall u, seq_of t u = 0).
  { intros u. unfold seq_of. rewrite Hs. by case_decide. }
  split; [|split; [|done]].
  - apply wf_view. split; [|split; [|split]].
    + intros u. rewrite Hq. lia.
    + intros u. unfold lock_of. rewrite Hs. by case_decide.
    + intros u k r. by rewrite Ha.
    + intros u k r. by rewrite Hi.
  - destruct (Nat.lt_trichotomy (length t) n) as [H|[H|H]]; [|done|].
    + pose proof (Hs (Z.of_nat (length t))) as H1. rewrite slot_of_nat in H1.
      rewrite decide_True in H1 by lia.
      rewrite lookup_ge_None_2 in H1 by lia. done.
    + pose proof (Hs (Z.of_nat n)) as H1. rewrite slot_of_nat in H1.
      rewrite decide_False in H1 by lia.
      apply lookup_ge_None in H1. lia.
Qed.

Lemma name_of_upd i m m' t :
  slot i t = Some m ->
  (fun v => (id v, lbl v)) <$> idxToVertex m' = (fun v => (id v, lbl v)) <$> idxToVertex m ->
  forall u, name_of (upd i m' t) u = name_of t u.
Proof.
  intros Hs E u. unfold name_of. rewrite vtx_upd by by eapply slot_in_table.
  case_decide; [subst|done]. unfold vtx. by rewrite Hs.
Qed.

Lemma preload_edge_ok t1 i k g :
  env g = [] -> preloaded t1 (vMeta g) ->
  is_Some (vtx (vMeta g) i) -> in_table k (vMeta g) ->
  exists g', preload_edge i k g = Ret tt g' /\ env g' = [] /\
    preloaded t1 (vMeta g') /\ hist g' = hist g /\
    (forall a b, is_Some (adj (vMeta g') a !! (a, b)) <->
       is_Some (adj (vMeta g) a !! (a, b)) \/
       (a = i /\ b = k /\ k <> i /\ is_Some (vtx (vMeta g) k))).
Proof.
  intros He (Hwf & Hlen & Hseq & Hname & Hw) [vi Hvi] Ik.
  unfold preload_edge. destruct (Z.eqb_spec k i) as [->|Hne].
  { exists g. repeat split; try done; [tauto|]. intros [H|H]; [done|]. by destruct H as (_ & _ & ? & _). }
  destruct (in_table_slot _ _ Ik) as [mk Hk].
  rewrite (bindG_ret_eq _ _ _ _ _ (vertex_ok _ _ _ Hk)).
  pose proof (slot_vtx _ _ _ Hk) as Vk.
  destruct (idxToVertex mk) as [vk|] eqn:Evk; simpl.
  2:{ exists g. repeat split; try done; [tauto|]. intros [H|H]; [done|].
      destruct H as (_ & _ & _ & [? H]). rewrite Vk in H. done. }
  destruct (vtx_lookup _ _ _ Hvi) as (mi & Hi & Evi).
  pose proof (slot_in_table _ _ _ Hi) as Ii.
  rewrite (bindG_ret_eq _ _ _ _ _ (new_Relation_ok _ _ _ _)).
  set (r := mkRelation (next_addr g) i k (-1)).
  set (g1 := log (ENew (next_addr g)) (fresh_addr g)).
  assert (Hi1 : slot (owner (source i)) (vMeta g1) = Some mi) by exact Hi.
  pose proof (slot_adj _ _ _ _ Hi Evi) as Ai.
  pose proof (slot_inc _ _ _ _ Hk Evk) as Bk.
  pose proof Hwf as Hwf'. apply wf_view in Hwf' as (_ & Hlock & Hout & Hin).
  destruct (adjacency_list vi !! (i, k)) as [r'|] eqn:Er.
  - (* the edge is there: the new relation is deleted *)
    rewrite (bindG_ret_eq _ _ _ _ _ (set_insert_dup _ r r' _ _ _ Hi1 Evi Er)).
    assert (Er' : adj (vMeta g) i !! (i, k) = Some r') by (by rewrite Ai).
    destruct (Hout _ _ _ Er') as (Hk' & Hs' & _ & Hd').
    assert (dest r' = k) as Hdk by (unfold rkey in Hk'; congruence).
    rewrite Hdk, Bk in Hd'.
    assert (Hk1 : slot (owner (destination k)) (vMeta g1) = Some mk) by exact Hk.
    rewrite (bindG_ret_eq _ _ _ _ _ (set_insert_dup _ r r' _ _ _ Hk1 Evk Hd')).
    simpl. rewrite retG_bind. rewrite delete_Relation_ok.
    eexists. split; [reflexivity|]. unfold g1. gsimpl. repeat split; try done; [tauto|].
    intros [H|H]; [done|]. destruct H as (-> & -> & _). rewrite Er'. eauto.
  - (* the edge is new *)
    rewrite (bindG_ret_eq _ _ _ _ _ (set_insert_ok _ r _ _ _ Hi1 Evi Er)).
    assert (Hnd : dest_list vk !! (i, k) = None).
    { destruct (dest_list vk !! (i, k)) as [r'|] eqn:E; [|done].
      assert (E' : inc (vMeta g) k !! (i, k) = Some r') by (by rewrite Bk).
      destruct (Hin _ _ _ E') as (Hk' & _ & _ & Ha').
      assert (src r' = i) as Hsi by (unfold rkey in Hk'; congruence).
      rewrite Hsi, Ai, Er in Ha'. done. }
    gsimpl. simpl (owner _).
    set (mi' := with_vertex (Some (put_set (source i) (<[rkey r:=r]> (get_set (source i) vi)) vi)) mi).
    assert (Hk1 : slot (owner (destination k))
                    (vMeta (set_vMeta (upd i mi' (vMeta g)) g1)) = Some mk).
    { gsimpl. simpl. rewrite slot_upd' by done. by rewrite decide_False. }
    rewrite (bindG_ret_eq _ _ _ _ _ (set_insert_ok _ r _ _ _ Hk1 Evk Hnd)).
    simpl. rewrite retG_bind. gsimpl. simpl (owner _).
    set (mk' := with_vertex (Some (put_set (destination k)
                   (<[rkey r:=r]> (get_set (destination k) vk)) vk)) mk).
    eexists. split; [reflexivity|]. unfold g1 in *. gsimpl.
    set (t := vMeta g) in *. set (t' := upd k mk' (upd i mi' t)).
    assert (Ii' : in_table k (upd i mi' t)) by (by apply in_table_upd).
    assert (Sv : same_vtx t'
              (upd i (bump (with_vertex (Some (link_out r vi)) mi))
                 (upd k (bump (with_vertex (Some (link_in r vk)) mk)) t))).
    { intros u. unfold t'. rewrite !vtx_upd by (by rewrite ?in_table_upd).
      destruct (decide (u = k)) as [->|]; [by rewrite decide_False by done|].
      by destruct (decide (u = i)). }
    assert (Sq : forall u, seq_of t' u = seq_of t u).
    { intros u. unfold t'. rewrite !seq_of_upd by done.
      destruct (decide (u = k)) as [->|].
      - by rewrite (slot_seq _ _ _ Hk).
      - destruct (decide (u = i)) as [->|]; [|done]. by rewrite (slot_seq _ _ _ Hi). }
    assert (Lk : forall u, lock_of t' u = lock_of t u).
    { intros u. unfold t'. rewrite !lock_of_upd by done.
      destruct (decide (u = k)) as [->|].
      - unfold lock_of. by rewrite Hk.
      - destruct (decide (u = i)) as [->|]; [|done]. unfold lock_of. by rewrite Hi. }
    assert (Ad : forall u, adj t' u = if decide (u = i) then <[(i, k) := r]> (adj t i) else adj t u).
    { intros u. unfold t'. rewrite !adj_upd by done.
      destruct (decide (u = k)) as [->|].
      - rewrite decide_False by done. simpl. unfold adj. by rewrite Vk.
      - destruct (decide (u = i)) as [->|]; [|done]. simpl. by rewrite Ai. }
    split; [done|]. split; [|split; [done|]].
    + split; [|split; [|split; [|split]]].
      * eapply wf_same_vtx; [|exact Sv| |].
        -- eapply (add_edge_wf i k r); eauto.
        -- intros u. rewrite Sq, Hseq. lia.
        -- intros u. rewrite Lk. apply Hlock.
      * unfold t', upd. by rewrite !length_insert.
      * intros u. by rewrite Sq.
      * intros u. rewrite <- Hname. unfold t'.
        rewrite (name_of_upd k mk mk' (upd i mi' t)).
        -- rewrite (name_of_upd i mi mi' t); [done|done|].
           unfold mi'. simpl. by rewrite Evi.
        -- rewrite slot_upd' by done. by rewrite decide_False.
        -- unfold mk'. simpl. by rewrite Evk.
      * intros u k0 r0. rewrite Ad. case_decide; [|apply Hw]. subst u.
        destruct (decide (k0 = (i, k))) as [->|].
        -- rewrite lookup_insert_eq. by intros [= <-].
        -- rewrite lookup_insert_ne by done. apply Hw.
    + intros a b. rewrite Ad. destruct (decide (a = i)) as [->|Ha].
      * destruct (decide (b = k)) as [->|Hb].
        -- rewrite lookup_insert_eq. split; [|eauto]. intros _. right.
           repeat split; try done.
        -- rewrite lookup_insert_ne by congruence. split; [tauto|].
           intros [H|H]; [done|]. destruct H as (_ & ? & _). done.
      * split; [tauto|]. intros [H|H]; [done|]. destruct H as (? & _). done.
Qed.

Lemma name_of_present t t1 :
  (forall u, name_of t u = name_of t1 u) ->
  forall u, is_Some (vtx t u) <-> is_Some (vtx t1 u).
Proof.
  intros H u. specialize (H u). unfold name_of in H.
  rewrite <- (fmap_is_Some (fun v => (id v, lbl v)) (vtx t u)).
  rewrite <- (fmap_is_Some (fun v => (id v, lbl v)) (vtx t1 u)).
  by rewrite H.
Qed.

Lemma preloaded_in_table t1 t i : preloaded t1 t -> in_table i t1 -> in_table i t.
Proof. intros (_ & Hl & _). unfold in_table. by rewrite Hl. Qed.

Lemma preloaded_present t1 t u :
  preloaded t1 t -> is_Some (vtx t u) <-> is_Some (vtx t1 u).
Proof. intros (_ & _ & _ & Hn & _). by apply name_of_present. Qed.

Section Preload.

Variable meanEdgesPerVertex vertexLoad : Z.
Variable pick : Z -> nat -> Z.
Variable t1 : list VertexMeta.
Hypothesis pick_range : forall i j, in_table (pick i j) t1.

Local Abbreviation present := (fun u => is_Some (vtx t1 u)).
Local Abbreviation is_drawn := (drawn meanEdgesPerVertex vertexLoad pick).
Local Abbreviation preload := (preload_vertex meanEdgesPerVertex vertexLoad pick).

Lemma preload_vertex_ok i g :
  env g = [] -> preloaded t1 (vMeta g) -> in_table i t1 ->
  exists g', preload i g = Ret tt g' /\ env g' = [] /\
    preloaded t1 (vMeta g') /\ hist g' = hist g /\
    (forall a b, is_Some (adj (vMeta g') a !! (a, b)) <->
       is_Some (adj (vMeta g) a !! (a, b)) \/
       (a = i /\ b <> i /\ present i /\ present b /\ is_drawn i b)).
Proof.
  intros He HP Ii.
  pose proof (preloaded_in_table _ _ _ HP Ii) as Ii'.
  destruct (in_table_slot _ _ Ii') as [mi Hi].
  unfold preload_vertex.
  rewrite (bindG_ret_eq _ _ _ _ _ (vertex_ok _ _ _ Hi)).
  pose proof (slot_vtx _ _ _ Hi) as Vi.
  destruct (idxToVertex mi) as [vi|] eqn:Evi; simpl.
  2:{ exists g. split; [done|]. split; [done|]. split; [done|]. split; [done|].
      intros a b. split; [tauto|]. intros [H|H]; [done|].
      destruct H as (_ & _ & H & _). apply (preloaded_present _ _ _ HP) in H.
      rewrite Vi in H. by destruct H. }
  destruct (for_each_inv
    (fun l g' => env g' = [] /\ preloaded t1 (vMeta g') /\ hist g' = hist g /\
       forall a b, is_Some (adj (vMeta g') a !! (a, b)) <->
         is_Some (adj (vMeta g) a !! (a, b)) \/
         (a = i /\ b <> i /\ present b /\ exists j, j ∈ l /\ pick i j = b))
    (fun j => preload_edge i (pick i j))
    (seq 0 (sample_count meanEdgesPerVertex vertexLoad)) g) as (g' & E & HI).
  - split; [done|]. split; [done|]. split; [done|].
    intros a b. split; [tauto|]. intros [H|H]; [done|].
    destruct H as (_ & _ & _ & j & Hj & _). by apply elem_of_nil in Hj.
  - intros l1 x l2 g1 El (He1 & HP1 & Hh1 & HE1).
    destruct (preload_edge_ok t1 i (pick i x) g1 He1 HP1) as (g2 & E2 & He2 & HP2 & Hh2 & HE2).
    { apply (preloaded_present _ _ _ HP1). apply (preloaded_present _ _ _ HP).
      rewrite Vi. eauto. }
    { apply (preloaded_in_table _ _ _ HP1), pick_range. }
    exists g2. split; [done|]. split; [done|]. split; [done|].
    split; [congruence|]. intros a b. rewrite HE2, HE1.
    rewrite (preloaded_present _ _ _ HP1). split.
    + intros [[H|H]|H]; [by left| |].
      * right. destruct H as (? & ? & ? & j & Hj & ?).
        repeat split; try done. exists j. split; [|done]. apply elem_of_snoc. by left.
      * right. destruct H as (-> & -> & ? & ?). repeat split; try done.
        exists x. split; [|done]. apply elem_of_snoc. by right.
    + intros [H|H]; [by left; left|].
      destruct H as (-> & ? & ? & j & Hj & Hp). apply elem_of_snoc in Hj as [Hj| ->].
      * left. right. repeat split; try done. eauto.
      * right. subst b. done.
  - destruct HI as (He' & HP' & Hh' & HE'). exists g'.
    split; [done|]. split; [done|]. split; [done|]. split; [done|].
    intros a b. rewrite HE'. split.
    + intros [H|H]; [by left|]. right. destruct H as (-> & ? & ? & j & Hj & Hp).
      repeat split; try done.
      * apply (preloaded_present _ _ _ HP). rewrite Vi. eauto.
      * exists j. split; [|done]. apply elem_of_seq in Hj. lia.
    + intros [H|H]; [by left|]. right. destruct H as (-> & ? & _ & ? & j & Hj & Hp).
      repeat split; try done. exists j. split; [|done]. apply elem_of_seq. lia.
Qed.

Lemma preload_all l g :
  env g = [] -> preloaded t1 (vMeta g) -> (forall i, i ∈ l -> in_table i t1) ->
  (forall a b, adj (vMeta g) a !! (a, b) = None) ->
  exists g', for_each l preload g = Ret tt g' /\ env g' = [] /\
    preloaded t1 (vMeta g') /\ hist g' = hist g /\
    (forall a b, is_Some (adj (vMeta g') a !! (a, b)) <->
       a ∈ l /\ b <> a /\ present a /\ present b /\ is_drawn a b).
Proof.
  intros He HP Hl H0.
  destruct (for_each_inv
    (fun l' g' => env g' = [] /\ preloaded t1 (vMeta g') /\ hist g' = hist g /\
       forall a b, is_Some (adj (vMeta g') a !! (a, b)) <->
         a ∈ l' /\ b <> a /\ present a /\ present b /\ is_drawn a b)
    preload l g) as (g' & E & HI).
  - split; [done|]. split; [done|]. split; [done|]. intros a b. split.
    + rewrite H0. by intros [? ?].
    + intros (H & _). by apply elem_of_nil in H.
  - intros l1 x l2 g1 El (He1 & HP1 & Hh1 & HE1).
    destruct (preload_vertex_ok x g1 He1 HP1) as (g2 & E2 & He2 & HP2 & Hh2 & HE2).
    { apply Hl. rewrite El. apply elem_of_mid. }
    exists g2. split; [done|]. split; [done|]. split; [done|]. split; [congruence|].
    intros a b. rewrite HE2, HE1, elem_of_snoc. split.
    + intros [H|H]; [tauto|]. destruct H as (-> & ?). tauto.
    + intros ([H| ->] & ?); [tauto|]. right. tauto.
  - exists g'. tauto.
Qed.

End Preload.

(** X16.  The constructor builds a graph that satisfies the invariant of
    the operations.  On a table of [numVertices] slots it installs the
    vertex [i], with identifier and label [i], exactly where the coin of
    [i] is at most [vertexLoad], with every sequence number at 0; and it
    holds an edge from [a] to [b], of weight -1, exactly when both are
    installed, differ, and [b] is one of the draws made for [a]. *)
Theorem constructor_builds (numVertices : nat) meanEdgesPerVertex vertexLoad coin pick g :
  env g = [] -> Z.of_nat numVertices < 2 ^ 31 -> 0 < vertexLoad ->
  (forall i j, 0 <= pick i j < Z.of_nat numVertices) ->
  exists g',
    TGraph_ctor numVertices meanEdgesPerVertex vertexLoad coin pick g = Ret tt g' /\
    GWF g' /\ length (vMeta g') = numVertices /\ hist g' = hist g /\
    (forall u, seq_of (vMeta g') u = 0) /\
    (forall u, vtx (vMeta g') u <> None <->
       0 <= u < Z.of_nat numVertices /\ coin u mod 2 ^ 64 <= vertexLoad) /\
    (forall u v, vtx (vMeta g') u = Some v -> id v = u /\ lbl v = u) /\
    (forall a b, is_Some (adj (vMeta g') a !! (a, b)) <->
       vtx (vMeta g') a <> None /\ vtx (vMeta g') b <> None /\ a <> b /\
       drawn meanEdgesPerVertex vertexLoad pick a b) /\
    (forall u k r, adj (vMeta g') u !! k = Some r -> weight r = -1).
Proof.
  intros He _ _ Hpick. unfold TGraph_ctor.
  set (g0 := set_vMeta (replicate numVertices blank_meta) g).
  assert (E0 : new_vMeta numVertices g = Ret tt g0) by reflexivity.
  rewrite (bindG_ret_eq _ _ _ _ _ E0).
  destruct (fill_all vertexLoad coin numVertices g0 eq_refl)
    as (g1 & E1 & He1 & _ & Hh1 & _ & Hs1).
  rewrite (bindG_ret_eq _ _ _ _ _ E1).
  destruct (filled_wf _ _ _ _ Hs1) as (Hwf1 & Hl1 & Ha1 & Hi1 & Hq1 & Hv1).
  set (t1 := vMeta g1) in *.
  assert (HP1 : preloaded t1 t1).
  { split; [done|]. split; [done|]. split; [done|]. split; [done|].
    intros u k r. by rewrite Ha1. }
  destruct (preload_all meanEdgesPerVertex vertexLoad pick t1
              ltac:(intros i j; unfold in_table; rewrite Hl1; apply Hpick)
              (seqZ 0 (Z.of_nat numVertices)) g1)
    as (g2 & E2 & He2 & HP2 & Hh2 & HE2).
  - rewrite He1. exact He.
  - exact HP1.
  - intros i Hi. apply elem_of_seqZ in Hi. unfold in_table. rewrite Hl1. lia.
  - intros a b. fold t1. by rewrite Ha1.
  - exists g2. split; [exact E2|].
    pose proof HP2 as (Hwf2 & Hl2 & Hq2 & Hn2 & Hw2).
    assert (Hpres : forall u, vtx (vMeta g2) u <> None <->
       0 <= u < Z.of_nat numVertices /\ coin u mod 2 ^ 64 <= vertexLoad).
    { intros u. rewrite not_eq_None_Some, (name_of_present _ _ Hn2), Hv1.
      unfold filled. simpl. case_decide.
      - destruct (Z.leb_spec (coin u mod 2 ^ 64) vertexLoad).
        + split; [done|eauto].
        + split; [by intros [? ?]|lia].
      - split; [by intros [? ?]|tauto]. }
    split; [by split|]. split; [congruence|]. split; [by rewrite Hh2, Hh1|].
    split; [done|]. split; [done|]. split; [|split; [|done]].
    + intros u v Hv. specialize (Hn2 u). unfold name_of in Hn2.
      rewrite Hv, Hv1 in Hn2. simpl in Hn2. case_decide; [|done].
      unfold filled in Hn2. simpl in Hn2.
      destruct (_ <=? _); [|done]. simpl in Hn2. by injection Hn2.
    + intros a b. rewrite HE2, !not_eq_None_Some, !(name_of_present _ _ Hn2).
      rewrite elem_of_seqZ. split.
      * intros (_ & ? & ? & ? & ?). split; [done|]. split; [done|]. split; [congruence|done].
      * intros (Ha & ? & ? & ?). split; [|split; [congruence|done]].
        rewrite Hv1 in Ha. case_decide; [lia|]. by destruct Ha.
Qed.

Lemma constructor_builds_witness :
  exists g',
    TGraph_ctor 3 1 50 (fun i => if i =? 1 then 80 else 10)
      (fun i j => (i + Z.of_nat j + 1) mod 3) (mkGraph [] 100 [] [] []) = Ret tt g' /\
    GWF g' /\ vtx (vMeta g') 1 = None /\
    is_Some (adj (vMeta g') 0 !! (0, 2)) /\ is_Some (adj (vMeta g') 2 !! (2, 0)) /\
    adj (vMeta g') 0 !! (0, 1) = None.
Proof.
  destruct (constructor_builds 3 1 50 (fun i => if i =? 1 then 80 else 10)
              (fun i j => (i + Z.of_nat j + 1) mod 3) (mkGraph [] 100 [] [] []) eq_refl
              ltac:(reflexivity) ltac:(lia)
              ltac:(intros i j; apply Z.mod_pos_bound; lia))
    as (g' & E & HG & _ & _ & _ & Hp & _ & HE & _).
  exists g'. split; [exact E|]. split; [exact HG|].
  assert (P0 : vtx (vMeta g') 0 <> None) by (apply Hp; vm_compute; split; [split|]; congruence).
  assert (P2 : vtx (vMeta g') 2 <> None) by (apply Hp; vm_compute; split; [split|]; congruence).
  assert (P1 : vtx (vMeta g') 1 = None).
  { destruct (vtx (vMeta g') 1) eqn:E1; [|done].
    assert (H : vtx (vMeta g') 1 <> None) by congruence.
    apply Hp in H as [_ H]. vm_compute in H. by destruct H. }
  split; [exact P1|]. split; [|split].
  - apply HE. repeat split; try done. exists 1%nat. split; [vm_compute; lia|reflexivity].
  - apply HE. repeat split; try done. exists 0%nat. split; [vm_compute; lia|reflexivity].
  - apply eq_None_not_Some. intros H. apply HE in H as (_ & H & _). by rewrite P1 in H.
Defined.

(** ** Statistics *)

Lemma to_int_id x : - 2 ^ 31 <= x < 2 ^ 31 -> to_int x = x.
Proof. intros H. unfold to_int. rewrite Z.mod_small; lia. Qed.

Lemma set_size_ok s m v g :
  slot (owner s) (vMeta g) = Some m -> idxToVertex m = Some v ->
  set_size s g = Ret (Z.of_nat (size (get_set s v))) g.
Proof.
  intros H Hv. unfold set_size.
  by rewrite (bindG_ret_eq _ _ _ _ _ (read_set_ok _ _ _ _ H Hv)).
Qed.

Lemma sumZ_app l1 l2 : sumZ (l1 ++ l2) = sumZ l1 + sumZ l2.
Proof. unfold sumZ. induction l1 as [|x l1 IH]; simpl; [done|]. rewrite IH. lia. Qed.

Lemma sumZ_add {A} (f h : A -> Z) l :
  sumZ ((fun i => f i + h i) <$> l) = sumZ (f <$> l) + sumZ (h <$> l).
Proof.
  unfold sumZ. induction l as [|x l IH]; [done|].
  rewrite !fmap_cons. cbn [foldr]. rewrite IH. lia.
Qed.

Lemma sumZ_cons x l : sumZ (x :: l) = x + sumZ l.
Proof. reflexivity. Qed.

Lemma sumZ_nonneg l : Forall (fun x => 0 <= x) l -> 0 <= sumZ l.
Proof. unfold sumZ. induction 1; simpl; lia. Qed.

Lemma absent_sets t i : vtx t i = None -> adj t i = ∅ /\ inc t i = ∅.
Proof. intros H. unfold adj, inc. by rewrite H. Qed.

Lemma stats_step_ok t i nv ne dg g :
  vMeta g = t -> in_table i t ->
  0 <= ne -> ne + Z.of_nat (size (adj t i)) < 2 ^ 31 ->
  Z.of_nat (size (adj t i)) + Z.of_nat (size (inc t i)) < 2 ^ 31 ->
  stats_step i (nv, ne, dg) g =
  Ret (nv + (if decide (is_Some (vtx t i)) then 1 else 0),
       ne + Z.of_nat (size (adj t i)),
       <[Z.to_nat i := Z.of_nat (size (adj t i)) + Z.of_nat (size (inc t i))]> dg) g.
Proof.
  intros <- Ii Hne Hb1 Hb2. destruct (in_table_slot _ _ Ii) as [m Hm].
  unfold stats_step. rewrite (bindG_ret_eq _ _ _ _ _ (vertex_ok _ _ _ Hm)).
  pose proof (slot_vtx _ _ _ Hm) as Hv.
  destruct (idxToVertex m) as [v|] eqn:Ev; simpl.
  - assert (Hs : slot (owner (source i)) (vMeta g) = Some m) by exact Hm.
    assert (Hd : slot (owner (destination i)) (vMeta g) = Some m) by exact Hm.
    rewrite (bindG_ret_eq _ _ _ _ _ (set_size_ok _ _ _ _ Hs Ev)).
    rewrite (bindG_ret_eq _ _ _ _ _ (set_size_ok _ _ _ _ Hs Ev)).
    rewrite (bindG_ret_eq _ _ _ _ _ (set_size_ok _ _ _ _ Hd Ev)).
    simpl. rewrite (slot_adj _ _ _ _ Hm Ev), (slot_inc _ _ _ _ Hm Ev) in *.
    rewrite decide_True by (rewrite Hv; eauto).
    rewrite !to_int_id by lia. reflexivity.
  - destruct (absent_sets _ _ Hv) as [-> ->]. rewrite decide_False by (rewrite Hv; by intros [? ?]).
    rewrite !map_size_empty. unfold ret. f_equal; f_equal; f_equal; lia.
Qed.

Lemma stats_loop_ok t g : vMeta g = t -> forall l nv ne dg,
  (forall i, i ∈ l -> in_table i t) ->
  0 <= ne -> ne + sumZ ((fun i => Z.of_nat (size (adj t i))) <$> l) < 2 ^ 31 ->
  (forall i, Z.of_nat (size (adj t i)) + Z.of_nat (size (inc t i)) < 2 ^ 31) ->
  stats_loop l (nv, ne, dg) g =
  Ret (nv + Z.of_nat (length (filter (fun i => is_Some (vtx t i)) l)),
       ne + sumZ ((fun i => Z.of_nat (size (adj t i))) <$> l),
       foldl (fun d i => <[Z.to_nat i :=
                Z.of_nat (size (adj t i)) + Z.of_nat (size (inc t i))]> d) dg l) g.
Proof.
  intros Ht. induction l as [|i l IH]; intros nv ne dg Hl Hne Hb1 Hb2.
  - simpl. unfold ret. f_equal; f_equal; f_equal; lia.
  - cbn [stats_loop]. rewrite fmap_cons, sumZ_cons in Hb1.
    assert (0 <= sumZ ((fun i => Z.of_nat (size (adj t i))) <$> l)).
    { apply sumZ_nonneg. apply Forall_fmap, Forall_forall. intros x _. simpl. lia. }
    rewrite (bindG_ret_eq _ _ _ _ _ (stats_step_ok t i nv ne dg g Ht
               ltac:(apply Hl; left) Hne ltac:(lia) (Hb2 i))).
    rewrite IH.
    + rewrite filter_cons, fmap_cons, sumZ_cons. cbn [foldl].
      destruct (decide (is_Some (vtx t i))); cbn [length]; unfold ret;
        f_equal; f_equal; f_equal; lia.
    + intros j Hj. apply Hl. by right.
    + lia.
    + lia.
    + done.
Qed.

Lemma adj_key t i k : wf t -> k ∈ dom (adj t i) -> k.1 = i.
Proof.
  intros Hwf Hk. apply wf_view in Hwf as (_ & _ & Hout & _).
  apply elem_of_dom in Hk as [r Hr]. destruct (Hout _ _ _ Hr) as (-> & <- & _). done.
Qed.

Lemma inc_key t i k : wf t -> k ∈ dom (inc t i) -> k.2 = i.
Proof.
  intros Hwf Hk. apply wf_view in Hwf as (_ & _ & _ & Hin).
  apply elem_of_dom in Hk as [r Hr]. destruct (Hin _ _ _ Hr) as (-> & <- & _). done.
Qed.

Lemma sum_sizes (f : Z -> RelSet) (p : Z * Z -> Z) l :
  (forall i k, k ∈ dom (f i) -> p k = i) -> NoDup l ->
  sumZ ((fun i => Z.of_nat (size (f i))) <$> l) =
  Z.of_nat (size (⋃ ((fun i => dom (f i)) <$> l) : gset (Z * Z))).
Proof.
  intros Hp. induction 1 as [|i l Hi ND IH]; [done|].
  rewrite !fmap_cons, sumZ_cons, union_list_cons, IH.
  rewrite size_union, size_dom; [lia|].
  intros k Hk1 Hk2. apply elem_of_union_list in Hk2 as (X & HX & Hk2).
  apply list_elem_of_fmap in HX as (j & -> & Hj).
  apply Hp in Hk1, Hk2. congruence.
Qed.

Lemma set_in_table t i k : k ∈ dom (adj t i) \/ k ∈ dom (inc t i) -> in_table i t.
Proof.
  intros H. destruct (vtx t i) as [v|] eqn:E.
  - apply vtx_lookup in E as (m & Hm & _). by eapply slot_in_table.
  - destruct (absent_sets _ _ E) as [Ha Hi]. rewrite Ha, Hi in H.
    rewrite !dom_empty_L in H. destruct H as [H|H]; by apply elem_of_empty in H.
Qed.

Lemma elem_of_edge_set t k :
  wf t -> k ∈ edge_set t <-> is_Some (adj t k.1 !! k).
Proof.
  intros Hwf. unfold edge_set. rewrite elem_of_union_list. split.
  - intros (X & HX & Hk). apply list_elem_of_fmap in HX as (j & -> & Hj).
    rewrite <- (adj_key _ _ _ Hwf Hk) in Hk. by apply elem_of_dom.
  - intros Hk. apply elem_of_dom in Hk. eexists. split; [|exact Hk].
    apply list_elem_of_fmap. exists k.1. split; [done|]. apply elem_of_seqZ.
    pose proof (set_in_table t k.1 k (or_introl Hk)) as Hi. unfold in_table in Hi. lia.
Qed.

Lemma edge_set_inc t :
  wf t ->
  (⋃ ((fun i => dom (inc t i)) <$> seqZ 0 (Z.of_nat (length t))) : gset (Z * Z)) = edge_set t.
Proof.
  intros Hwf. apply set_eq. intros k. rewrite (elem_of_edge_set _ _ Hwf).
  pose proof Hwf as Hv. apply wf_view in Hv as (_ & _ & Hout & Hin).
  rewrite elem_of_union_list. split.
  - intros (X & HX & Hk). apply list_elem_of_fmap in HX as (j & -> & Hj).
    apply elem_of_dom in Hk as [r Hr]. destruct (Hin _ _ _ Hr) as (-> & _ & _ & Ha).
    simpl. eauto.
  - intros [r Hr]. destruct (Hout _ _ _ Hr) as (Hk & _ & _ & Hi).
    assert (Hd : k ∈ dom (inc t (dest r))) by (apply elem_of_dom; eauto).
    eexists. split; [|exact Hd]. apply list_elem_of_fmap. exists (dest r).
    split; [done|]. apply elem_of_seqZ.
    pose proof (set_in_table t (dest r) k (or_intror Hd)) as Hi'. unfold in_table in Hi'. lia.
Qed.

Lemma fill_degrees (f : Z -> Z) (numVertices : nat) :
  foldl (fun d i => <[Z.to_nat i := f i]> d) (replicate numVertices 0)
        (seqZ 0 (Z.of_nat numVertices))
  = f <$> seqZ 0 (Z.of_nat numVertices).
Proof.
  enough (forall n, (n <= numVertices)%nat ->
    foldl (fun d i => <[Z.to_nat i := f i]> d) (replicate numVertices 0)
          (seqZ 0 (Z.of_nat n))
    = (f <$> seqZ 0 (Z.of_nat n)) ++ replicate (numVertices - n) 0) as H.
  { rewrite (H numVertices) by lia. by rewrite Nat.sub_diag, app_nil_r. }
  induction n as [|n IH]; intros Hn.
  - simpl. by rewrite Nat.sub_0_r.
  - rewrite seqZ_S, foldl_app, IH by lia. cbn [foldl]. rewrite Z.add_0_l, Nat2Z.id.
    rewrite fmap_app. cbn [fmap list_fmap]. rewrite <- app_assoc.
    replace (numVertices - n)%nat with (S (numVertices - S n)) by lia.
    cbn [replicate].
    rewrite insert_app_r_alt by (rewrite length_fmap, length_seqZ; lia).
    rewrite length_fmap, length_seqZ, Nat2Z.id, Nat.sub_diag. reflexivity.
Qed.

(** X18.  On a graph between two operations [grab_stats] returns the
    number of vertices, the number of edges, their quotient, the degree
    of every index (the sizes of its two sets together) and the number
    of indices; it changes nothing, and the degrees add up to twice the
    number of edges.  The counts are [int]s: twice the number of edges
    is below [2 ^ 31]. *)
Theorem grab_stats_counts {double : Type} (fdiv : Z -> Z -> double) t g :
  vMeta g = t -> wf t -> Z.of_nat (length t) < 2 ^ 31 ->
  2 * Z.of_nat (size (edge_set t)) < 2 ^ 31 ->
  exists degrees,
    grab_stats fdiv (length t) g =
      Ret (Z.of_nat (vertex_count t), Z.of_nat (size (edge_set t)),
           fdiv (Z.of_nat (size (edge_set t))) (Z.of_nat (vertex_count t)),
           degrees, Z.of_nat (length t)) g /\
    (forall a b, (a, b) ∈ edge_set t <-> is_Some (adj t a !! (a, b))) /\
    degrees = (fun i => Z.of_nat (size (adj t i)) + Z.of_nat (size (inc t i)))
                <$> seqZ 0 (Z.of_nat (length t)) /\
    sumZ degrees = 2 * Z.of_nat (size (edge_set t)).
Proof.
  intros Ht Hwf HN HE.
  pose proof (sum_sizes (adj t) fst (seqZ 0 (Z.of_nat (length t)))
                (fun i k => adj_key t i k Hwf) (NoDup_seqZ _ _)) as Sa.
  pose proof (sum_sizes (inc t) snd (seqZ 0 (Z.of_nat (length t)))
                (fun i k => inc_key t i k Hwf) (NoDup_seqZ _ _)) as Si.
  rewrite (edge_set_inc _ Hwf) in Si. fold (edge_set t) in Sa.
  assert (Hsub : forall i, Z.of_nat (size (adj t i)) + Z.of_nat (size (inc t i)) < 2 ^ 31).
  { intros i.
    assert ((size (adj t i) <= size (edge_set t))%nat).
    { rewrite <- size_dom. apply subseteq_size. intros k Hk.
      apply (elem_of_edge_set _ _ Hwf). rewrite (adj_key _ _ _ Hwf Hk).
      by apply elem_of_dom. }
    assert ((size (inc t i) <= size (edge_set t))%nat).
    { rewrite <- size_dom. apply subseteq_size. intros k Hk.
      rewrite <- (edge_set_inc _ Hwf). apply elem_of_union_list.
      eexists. split; [|exact Hk]. apply list_elem_of_fmap. exists i. split; [done|].
      apply elem_of_seqZ.
      pose proof (set_in_table t i k (or_intror Hk)) as Hi. unfold in_table in Hi. lia. }
    lia. }
  eexists. split; [|split; [|split; [reflexivity|]]].
  - unfold grab_stats.
    rewrite (bindG_ret_eq _ _ _ _ _
               (stats_loop_ok t g Ht (seqZ 0 (Z.of_nat (length t))) 0 0
                  (replicate (length t) 0)
                  ltac:(intros i Hi; apply elem_of_seqZ in Hi; unfold in_table; lia)
                  ltac:(lia) ltac:(rewrite Sa; lia) Hsub)).
    rewrite fill_degrees, Sa, !Z.add_0_l. rewrite to_int_id by lia. reflexivity.
  - intros a b. apply (elem_of_edge_set t (a, b) Hwf).
  - rewrite sumZ_add, Sa, Si. lia.
Qed.

Lemma grab_stats_counts_witness :
  grab_stats (fun a b : Z => (a, b)) 4 g_line = Ret (3, 1, (1, 3), [1; 1; 0; 0], 4) g_line /\
  sumZ [1; 1; 0; 0] = 2 * 1.
Proof.
  destruct (grab_stats_counts (fun a b : Z => (a, b)) (vMeta g_line) g_line eq_refl
              (proj2 g_line_GWF)
              ltac:(vm_compute; reflexivity) ltac:(vm_compute; reflexivity))
    as (dg & E & _ & Hd & Hs).
  assert (Hdg : dg = [1; 1; 0; 0]) by (rewrite Hd; vm_compute; reflexivity).
  rewrite Hdg in *. split; [|exact Hs].
  etransitivity; [exact E|]. vm_compute. reflexivity.
Defined.

(** ** A vertex added and removed *)




(** ** Operations among other threads *)

Lemma lock_view x g a g' :
  lock x g = Ret a g' ->
  exists g0 m, interfere g = Ret tt g0 /\ slot x (vMeta g0) = Some m /\
    vertexLocks m = false /\
    g' = log (ELock x) (set_vMeta (upd x (with_lock true m) (vMeta g0)) g0).
Proof.
  unfold lock. intros H.
  apply bindG_inv in H as ([] & g0 & H0 & H).
  apply bindG_inv in H as (m & g2 & H2 & H).
  apply read_meta_inv in H2 as (-> & Hm).
  destruct (vertexLocks m) eqn:El; [done|].
  apply bindG_inv in H as (? & g3 & H3 & H).
  apply modify_inv in H3 as (m' & Hm' & ->).
  injection H as _ <-. exists g0, m. repeat split; try done. congruence.
Qed.

Lemma interfere_hist g a g' : interfere g = Ret a g' -> hist g' = hist g.
Proof. unfold interfere. destruct (env g); by intros [= _ <-]. Qed.

(** X20.  Whatever the other threads do, the answer of a [has_edge(s,
    d)] that returns is true of the table as it is while the call holds
    the lock of [s], which is the table at the moment it releases the
    lock: the call returns true exactly when that table has the edge,
    and it leaves every vertex, relation and sequence number of that
    table as it is. *)
Theorem has_edge_linearizes s d g b g' :
  has_edge s d g = Ret b g' ->
  exists t,
    hist g' = hist g ++ [t] /\ lock_of t s = true /\
    b = bool_decide (is_Some (adj t s !! (s, d))) /\
    same_vtx (vMeta g') t /\
    (forall j, seq_of (vMeta g') j = seq_of t j) /\
    (forall j, lock_of (vMeta g') j = if decide (j = s) then false else lock_of t j).
Proof.
  unfold has_edge. intros H.
  apply bindG_inv in H as ([] & g1 & H1 & H).
  apply lock_view in H1 as (g0 & m & Hi & Hm & Hl & ->).
  apply interfere_hist in Hi.
  pose proof (slot_in_table _ _ _ Hm) as Is.
  set (t := upd s (with_lock true m) (vMeta g0)) in *.
  assert (Hs : slot s t = Some (with_lock true m)).
  { unfold t. rewrite slot_upd' by done. by rewrite decide_True. }
  set (g1 := log (ELock s) (set_vMeta t g0)) in *.
  assert (Hs1 : slot s (vMeta g1) = Some (with_lock true m)) by exact Hs.
  assert (Hu : unlock s g1 =
    Ret tt (log (EUnlock s)
              (set_vMeta (upd s (with_lock false (with_lock true m)) t) (snapshot g1))))
    by (by apply unlock_ok).
  assert (Hfin : forall (b0 : bool),
    b0 = bool_decide (is_Some (adj t s !! (s, d))) ->
    (unlock s ;; ret b0) g1 = Ret b g' ->
    exists t0, hist g' = hist g ++ [t0] /\ lock_of t0 s = true /\
      b = bool_decide (is_Some (adj t0 s !! (s, d))) /\
      same_vtx (vMeta g') t0 /\
      (forall j, seq_of (vMeta g') j = seq_of t0 j) /\
      (forall j, lock_of (vMeta g') j = if decide (j = s) then false else lock_of t0 j)).
  { intros b0 Hb H0. rewrite (bindG_ret_eq _ _ _ _ _ Hu) in H0. injection H0 as <- <-.
    exists t. unfold g1. gsimpl. split; [by rewrite Hi|]. split; [unfold lock_of; by rewrite Hs|].
    split; [done|]. split; [|split].
    - by apply (same_vtx_upd s (with_lock true m)).
    - intros j. rewrite seq_of_upd by (unfold t; by rewrite in_table_upd).
      case_decide; [subst|done]. by rewrite (slot_seq _ _ _ Hs).
    - intros j. rewrite lock_of_upd by (unfold t; by rewrite in_table_upd).
      by case_decide. }
  rewrite (bindG_ret_eq _ _ _ _ _ (vertex_ok _ _ _ Hs1)) in H.
  cbn [idxToVertex with_lock] in H.
  destruct (idxToVertex m) as [v|] eqn:Ev; cbn [is_null] in H.
  - assert (Hr : has_relation (source s) (local_Relation s d (-1)) g1 =
                 Ret (bool_decide (is_Some (adjacency_list v !! (s, d)))) g1).
    { exact (has_relation_ok (source s) (local_Relation s d (-1)) (with_lock true m)
               v g1 Hs1 Ev). }
    rewrite (bindG_ret_eq _ _ _ _ _ Hr) in H.
    refine (Hfin _ _ H). by rewrite (slot_adj _ _ _ _ Hs Ev).
  - refine (Hfin false _ H).
    assert (adj t s = ∅) as -> by (unfold adj, vtx; rewrite Hs; simpl; by rewrite Ev).
    rewrite lookup_empty. symmetry. apply bool_decide_eq_false_2. by intros [? ?].
Qed.

Lemma has_edge_linearizes_witness :
  exists g' t,
    has_edge 0 2 g_late = Ret true g' /\ adj (vMeta g_late) 0 !! (0, 2) = None /\
    hist g' = [t] /\ is_Some (adj t 0 !! (0, 2)).
Proof.
  assert (E : has_edge 0 2 g_late = Ret true (state_of (has_edge 0 2 g_late) g_late))
    by (vm_compute; reflexivity).
  destruct (has_edge_linearizes 0 2 g_late _ _ E) as (t & Hh & _ & Hb & _).
  exists (state_of (has_edge 0 2 g_late) g_late), t.
  split; [exact E|]. split; [reflexivity|]. split; [exact Hh|].
  symmetry in Hb. by apply bool_decide_eq_true_1 in Hb.
Defined.

Lemma lock_pair_locked s d g a g' :
  lock_pair s d g = Ret a g' -> s <> d ->
  hist g' = hist g /\ next_addr g' = next_addr g /\
  (exists ms, slot s (vMeta g') = Some ms /\ vertexLocks ms = true) /\
  (exists md, slot d (vMeta g') = Some md /\ vertexLocks md = true).
Proof.
  assert (L : forall x g a g', lock x g = Ret a g' ->
            hist g' = hist g /\ next_addr g' = next_addr g).
  { intros x h b h' H. apply lock_view in H as (g0 & m & Hi & _ & _ & ->). gsimpl.
    unfold interfere in Hi. destruct (env h); by injection Hi as <-. }
  unfold lock_pair. intros H Hne. destruct (s >? d).
  - apply bindG_inv in H as (? & g1 & H1 & H2).
    destruct (L _ _ _ _ H1) as [Hh1 Ha1]. destruct (L _ _ _ _ H2) as [Hh2 Ha2].
    apply lock_inv in H1 as (_ & _ & L1). apply lock_inv in H2 as (_ & _ & L2).
    split; [congruence|]. split; [congruence|]. split; apply lock_of_true.
    + rewrite L2. by rewrite decide_True.
    + rewrite L2, decide_False, L1 by done. by rewrite decide_True.
  - apply bindG_inv in H as (? & g1 & H1 & H2).
    destruct (L _ _ _ _ H1) as [Hh1 Ha1]. destruct (L _ _ _ _ H2) as [Hh2 Ha2].
    apply lock_inv in H1 as (_ & _ & L1). apply lock_inv in H2 as (_ & _ & L2).
    split; [congruence|]. split; [congruence|]. split; apply lock_of_true.
    + rewrite L2, decide_False, L1 by done. by rewrite decide_True.
    + rewrite L2. by rewrite decide_True.
Qed.

Lemma add_edge_locked s d w g g1 ms md :
  s <> d ->
  lock_pair s d (log (ENew (next_addr g)) (fresh_addr g)) = Ret tt g1 ->
  slot s (vMeta g1) = Some ms -> slot d (vMeta g1) = Some md ->
  vertexLocks ms = true -> vertexLocks md = true ->
  add_edge s d w g = Abort \/
  exists g', add_edge s d w g = Ret (can_link ms md (s, d)) g' /\
    vMeta g' =
      (if can_link ms md (s, d) then
         upd s (with_lock false
                  (bump (with_vertex (link_out (mkRelation (next_addr g) s d w)
                                        <$> idxToVertex ms) ms)))
           (upd d (with_lock false
                     (bump (with_vertex (link_in (mkRelation (next_addr g) s d w)
                                           <$> idxToVertex md) md)))
              (vMeta g1))
       else upd s (with_lock false ms) (upd d (with_lock false md) (vMeta g1))).
Proof.
  intros Hne E1 Hs Hd Ls Ld.
  pose proof (slot_in_table _ _ _ Hs) as Is.
  pose proof (slot_in_table _ _ _ Hd) as Id.
  set (r := mkRelation (next_addr g) s d w).
  assert (Hexit : forall g2 : Graph, vMeta g2 = vMeta g1 ->
    exists g', (unlock_pair s d ;; ret false) g2 = Ret false g' /\
      vMeta g' = upd s (with_lock false ms) (upd d (with_lock false md) (vMeta g1))).
  { intros g2 Hv.
    destruct (unlock_pair_ok s d ms md g2) as (g3 & E3 & _ & _ & Hv3 & _);
      try done; try (by rewrite Hv).
    exists g3. rewrite (bindG_ret_eq _ _ _ _ _ E3). split; [done|]. by rewrite Hv3, Hv. }
  unfold add_edge. rewrite (proj2 (Z.eqb_neq s d)) by done.
  step new_Relation_ok. fold r. rewrite (bindG_ret_eq _ _ _ _ _ E1).
  step vertex_ok. unfold can_link.
  destruct (idxToVertex ms) as [vs|] eqn:Evs; cbn [is_null orb].
  2:{ right. retb. cbn [orb]. retb. step delete_Relation_ok. by apply Hexit. }
  step vertex_ok.
  destruct (idxToVertex md) as [vd|] eqn:Evd; cbn [is_null orb].
  2:{ right. retb. step delete_Relation_ok. by apply Hexit. }
  step has_relation_ok. cbn [get_set]. change (rkey r) with (s, d).
  destruct (adjacency_list vs !! (s, d)) as [r0|] eqn:Er0.
  - rewrite (bool_decide_eq_true_2 (is_Some (Some r0))) by eauto.
    rewrite (bool_decide_eq_false_2 (Some r0 = None)) by done.
    step has_relation_ok. change (rkey r) with (s, d). cbn [get_set].
    destruct (dest_list vd !! (s, d)) as [r1|] eqn:Er1.
    + right. rewrite bool_decide_eq_true_2 by eauto. cbn [assert]. retb.
      step delete_Relation_ok. by apply Hexit.
    + left. rewrite bool_decide_eq_false_2 by (by intros [? ?]). reflexivity.
  - rewrite (bool_decide_eq_false_2 (is_Some None)) by (intros [? ?]; done).
    rewrite (bool_decide_eq_true_2 (None = None)) by done.
    step set_insert_ok.
    destruct (dest_list vd !! (s, d)) as [r1|] eqn:Er1.
    + left. step (set_insert_dup (destination d) r r1). reflexivity.
    + right. step set_insert_ok. cbn [eqb assert]. retb.
      step inc_seq_ok. step inc_seq_ok. retb.
      edestruct (unlock_pair_ok s d) as (g3 & E3 & _ & _ & Hv3 & _);
        [exact Hne| | | | |rewrite (bindG_ret_eq _ _ _ _ _ E3)].
      * slot_goal.
      * slot_goal.
      * done.
      * done.
      * eexists. split; [reflexivity|]. rewrite Hv3. gsimpl.
        apply slot_ext. intros j. sl.
        repeat case_decide; try congruence; try done;
          destruct ms, md; simpl in *; subst; reflexivity.
Qed.

Lemma remove_edge_locked s d g g1 ms md :
  s <> d -> lock_pair s d g = Ret tt g1 ->
  slot s (vMeta g1) = Some ms -> slot d (vMeta g1) = Some md ->
  vertexLocks ms = true -> vertexLocks md = true ->
  remove_edge s d g = Abort \/
  exists g', remove_edge s d g = Ret (can_unlink ms md (s, d)) g' /\
    vMeta g' =
      (if can_unlink ms md (s, d) then
         upd s (with_lock false
                  (bump (with_vertex (unlink_out (s, d) <$> idxToVertex ms) ms)))
           (upd d (with_lock false
                     (bump (with_vertex (unlink_in (s, d) <$> idxToVertex md) md)))
              (vMeta g1))
       else upd s (with_lock false ms) (upd d (with_lock false md) (vMeta g1))).
Proof.
  intros Hne E1 Hs Hd Ls Ld.
  pose proof (slot_in_table _ _ _ Hs) as Is.
  pose proof (slot_in_table _ _ _ Hd) as Id.
  assert (Hexit : forall g2 : Graph, vMeta g2 = vMeta g1 ->
    exists g', (unlock_pair s d ;; ret false) g2 = Ret false g' /\
      vMeta g' = upd s (with_lock false ms) (upd d (with_lock false md) (vMeta g1))).
  { intros g2 Hv.
    destruct (unlock_pair_ok s d ms md g2) as (g3 & E3 & _ & _ & Hv3 & _);
      try done; try (by rewrite Hv).
    exists g3. rewrite (bindG_ret_eq _ _ _ _ _ E3). split; [done|]. by rewrite Hv3, Hv. }
  unfold remove_edge. rewrite (proj2 (Z.eqb_neq s d)) by done.
  rewrite (bindG_ret_eq _ _ _ _ _ E1).
  step vertex_ok. unfold can_unlink.
  destruct (idxToVertex ms) as [vs|] eqn:Evs; cbn [is_null orb].
  2:{ right. retb. cbn [orb]. retb. by apply Hexit. }
  step vertex_ok.
  destruct (idxToVertex md) as [vd|] eqn:Evd; cbn [is_null orb].
  2:{ right. retb. by apply Hexit. }
  step remove_relation_ok. step remove_relation_ok.
  cbn [get_set]. change (rkey (local_Relation s d (-1))) with (s, d).
  destruct (adjacency_list vs !! (s, d)) as [r0|] eqn:Er0;
    destruct (dest_list vd !! (s, d)) as [r1|] eqn:Er1.
  - rewrite (bool_decide_eq_true_2 (is_Some (Some r0))) by eauto.
    destruct (decide (addr <$> Some r0 = addr <$> Some r1)) as [Ha|Ha].
    + right. rewrite bool_decide_eq_true_2 by done. cbn [assert]. retb.
      step delete_Relation_ok. step inc_seq_ok. step inc_seq_ok. retb.
      edestruct (unlock_pair_ok s d) as (g3 & E3 & _ & _ & Hv3 & _);
        [exact Hne| | | | |rewrite (bindG_ret_eq _ _ _ _ _ E3)].
      * slot_goal.
      * slot_goal.
      * done.
      * done.
      * eexists. split; [reflexivity|]. rewrite Hv3. gsimpl.
        apply slot_ext. intros j. sl.
        repeat case_decide; try congruence; try done;
          destruct ms, md; simpl in *; subst; reflexivity.
    + left. rewrite bool_decide_eq_false_2 by done. reflexivity.
  - left. rewrite bool_decide_eq_false_2 by done. reflexivity.
  - left. rewrite bool_decide_eq_false_2 by done. reflexivity.
  - right. rewrite (bool_decide_eq_false_2 (is_Some None)) by (intros [? ?]; done).
    rewrite bool_decide_eq_true_2 by done. cbn [assert]. retb.
    edestruct (unlock_pair_ok s d) as (g3 & E3 & _ & _ & Hv3 & _);
      [exact Hne| | | | |rewrite (bindG_ret_eq _ _ _ _ _ E3)].
    + slot_goal.
    + slot_goal.
    + done.
    + done.
    + eexists. split; [reflexivity|]. rewrite Hv3. gsimpl.
      apply slot_ext. intros j. sl. cbn [put_set get_set].
      rewrite !delete_id by done.
      repeat case_decide; try congruence; try done; subst; rewrite ?Hs, ?Hd;
        destruct ms, md, vs, vd; simpl in *; simplify_eq; reflexivity.
Qed.

Section TwoSlots.

Variables (s d : Z) (ms' md' : VertexMeta) (t : list VertexMeta).
Hypothesis Hne : s <> d.
Hypothesis Is : in_table s t.
Hypothesis Id : in_table d t.

Local Abbreviation t' := (upd s ms' (upd d md' t)).

Lemma two_vtx u :
  vtx t' u = if decide (u = s) then idxToVertex ms'
             else if decide (u = d) then idxToVertex md' else vtx t u.
Proof. rewrite !vtx_upd by (by rewrite ?in_table_upd). done. Qed.

Lemma two_seq u :
  seq_of t' u = if decide (u = s) then vertexSeqs ms'
                else if decide (u = d) then vertexSeqs md' else seq_of t u.
Proof. rewrite !seq_of_upd by (by rewrite ?in_table_upd). done. Qed.

Lemma two_lock u :
  lock_of t' u = if decide (u = s) then vertexLocks ms'
                 else if decide (u = d) then vertexLocks md' else lock_of t u.
Proof. rewrite !lock_of_upd by (by rewrite ?in_table_upd). done. Qed.

End TwoSlots.

(** X21.  Whatever the other threads do, an [add_edge] or a
    [remove_edge] that returns has acted on the table as it is once the
    call holds both locks.  [add_edge] returns true exactly when that
    table has a vertex at [s] and at [d] and no edge [(s, d)]; it has
    then put its relation into the adjacency set of [s] and the incoming
    set of [d] and moved [seq[s]] and [seq[d]] by one step.
    [remove_edge] returns true exactly when that table has both vertices
    and the edge; it has then taken [(s, d)] out of the two sets and
    moved the two sequence numbers.  Every other set and sequence number
    of that table is as it was, a call that returns false changes none,
    and both locks are released. *)
Theorem edge_updates_atomic s d g b g' :
  s <> d ->
  (forall w, add_edge s d w g = Ret b g' ->
     exists g1,
       lock_pair s d (log (ENew (next_addr g)) (fresh_addr g)) = Ret tt g1 /\
       b = addable (vMeta g1) s d /\
       (forall u, lock_of (vMeta g') u =
                  if decide (u = s \/ u = d) then false else lock_of (vMeta g1) u) /\
       if b then
         adj (vMeta g') s = <[(s, d) := mkRelation (next_addr g) s d w]> (adj (vMeta g1) s) /\
         inc (vMeta g') d = <[(s, d) := mkRelation (next_addr g) s d w]> (inc (vMeta g1) d) /\
         (forall u, u <> s -> adj (vMeta g') u = adj (vMeta g1) u) /\
         (forall u, u <> d -> inc (vMeta g') u = inc (vMeta g1) u) /\
         (forall u, seq_of (vMeta g') u =
                    if decide (u = s \/ u = d) then (seq_of (vMeta g1) u + 1) mod 2 ^ 32
                    else seq_of (vMeta g1) u)
       else same_vtx (vMeta g') (vMeta g1) /\
            forall u, seq_of (vMeta g') u = seq_of (vMeta g1) u) /\
  (remove_edge s d g = Ret b g' ->
     exists g1,
       lock_pair s d g = Ret tt g1 /\
       b = removable (vMeta g1) s d /\
       (forall u, lock_of (vMeta g') u =
                  if decide (u = s \/ u = d) then false else lock_of (vMeta g1) u) /\
       if b then
         adj (vMeta g') s = delete (s, d) (adj (vMeta g1) s) /\
         inc (vMeta g') d = delete (s, d) (inc (vMeta g1) d) /\
         (forall u, u <> s -> adj (vMeta g') u = adj (vMeta g1) u) /\
         (forall u, u <> d -> inc (vMeta g') u = inc (vMeta g1) u) /\
         (forall u, seq_of (vMeta g') u =
                    if decide (u = s \/ u = d) then (seq_of (vMeta g1) u + 1) mod 2 ^ 32
                    else seq_of (vMeta g1) u)
       else same_vtx (vMeta g') (vMeta g1) /\
            forall u, seq_of (vMeta g') u = seq_of (vMeta g1) u).
Proof.
  intros Hne.
  assert (Hlocks : forall (t : list VertexMeta) ms md ms' md',
    slot s t = Some ms -> slot d t = Some md ->
    vertexLocks ms' = false -> vertexLocks md' = false ->
    forall u, lock_of (upd s ms' (upd d md' t)) u =
              if decide (u = s \/ u = d) then false else lock_of t u).
  { intros t ms md ms' md' Hs Hd Ls Ld u.
    rewrite two_lock by (by eapply slot_in_table).
    destruct (decide (u = s)); [by rewrite decide_True by tauto|].
    destruct (decide (u = d)); [by rewrite decide_True by tauto|].
    by rewrite decide_False by tauto. }
  assert (Hidle : forall (t : list VertexMeta) ms md,
    slot s t = Some ms -> slot d t = Some md ->
    same_vtx (upd s (with_lock false ms) (upd d (with_lock false md) t)) t /\
    forall u, seq_of (upd s (with_lock false ms) (upd d (with_lock false md) t)) u
              = seq_of t u).
  { intros t ms md Hs Hd. split; intros u.
    - rewrite two_vtx by (by eapply slot_in_table).
      repeat case_decide; subst; unfold vtx; by rewrite ?Hs, ?Hd.
    - rewrite two_seq by (by eapply slot_in_table).
      repeat case_decide; subst; unfold seq_of; by rewrite ?Hs, ?Hd. }
  assert (Hseq : forall (t : list VertexMeta) ms md vs vd,
    slot s t = Some ms -> slot d t = Some md ->
    forall u, seq_of (upd s (with_lock false (bump (with_vertex vs ms)))
                        (upd d (with_lock false (bump (with_vertex vd md))) t)) u
              = if decide (u = s \/ u = d) then (seq_of t u + 1) mod 2 ^ 32
                else seq_of t u).
  { intros t ms md vs vd Hs Hd u. rewrite two_seq by (by eapply slot_in_table).
    destruct (decide (u = s)) as [->|].
    { rewrite decide_True by tauto. by rewrite (slot_seq _ _ _ Hs). }
    destruct (decide (u = d)) as [->|].
    { rewrite decide_True by tauto. by rewrite (slot_seq _ _ _ Hd). }
    by rewrite decide_False by tauto. }
  split.
  - intros w H.
    assert (exists g1, lock_pair s d (log (ENew (next_addr g)) (fresh_addr g)) = Ret tt g1)
      as [g1 E1].
    { unfold add_edge in H. rewrite (proj2 (Z.eqb_neq s d)) in H by done.
      apply bindG_inv in H as (r & g0 & H0 & H). injection H0 as <- <-.
      apply bindG_inv in H as ([] & g1 & H1 & _). eauto. }
    destruct (lock_pair_locked _ _ _ _ _ E1 Hne) as (_ & _ & (ms & Hs & Ls) & (md & Hd & Ld)).
    pose proof (slot_in_table _ _ _ Hs) as Is.
    pose proof (slot_in_table _ _ _ Hd) as Id.
    destruct (add_edge_locked s d w g g1 ms md Hne E1 Hs Hd Ls Ld)
      as [Ha|(g2 & E2 & Hv)]; [congruence|].
    rewrite E2 in H. injection H as <- <-.
    exists g1. split; [exact E1|].
    split; [symmetry; by apply addable_can_link|].
    unfold can_link in *.
    destruct (idxToVertex ms) as [vs|] eqn:Evs;
      [destruct (idxToVertex md) as [vd|] eqn:Evd|].
    2,3: rewrite Hv; split; [by apply (Hlocks _ ms md)|by apply Hidle].
    destruct (bool_decide (adjacency_list vs !! (s, d) = None)); rewrite Hv.
    2: split; [by apply (Hlocks _ ms md)|by apply Hidle].
    split; [by apply (Hlocks _ ms md)|].
    split; [|split; [|split; [|split]]].
    + unfold adj. rewrite two_vtx, decide_True by done. simpl.
      by rewrite (slot_vtx _ _ _ Hs), Evs.
    + unfold inc. rewrite two_vtx, decide_False, decide_True by done. simpl.
      by rewrite (slot_vtx _ _ _ Hd), Evd.
    + intros u Hu. unfold adj. rewrite two_vtx, decide_False by done.
      case_decide; [subst u|done]. simpl. by rewrite (slot_vtx _ _ _ Hd), Evd.
    + intros u Hu. unfold inc. rewrite two_vtx by done.
      case_decide; [subst u|by rewrite decide_False by done].
      simpl. by rewrite (slot_vtx _ _ _ Hs), Evs.
    + by apply Hseq.
  - intros H.
    assert (exists g1, lock_pair s d g = Ret tt g1) as [g1 E1].
    { unfold remove_edge in H. rewrite (proj2 (Z.eqb_neq s d)) in H by done.
      apply bindG_inv in H as ([] & g1 & H1 & _). eauto. }
    destruct (lock_pair_locked _ _ _ _ _ E1 Hne) as (_ & _ & (ms & Hs & Ls) & (md & Hd & Ld)).
    pose proof (slot_in_table _ _ _ Hs) as Is.
    pose proof (slot_in_table _ _ _ Hd) as Id.
    destruct (remove_edge_locked s d g g1 ms md Hne E1 Hs Hd Ls Ld)
      as [Ha|(g2 & E2 & Hv)]; [congruence|].
    rewrite E2 in H. injection H as <- <-.
    exists g1. split; [exact E1|].
    split; [symmetry; by apply removable_can_unlink|].
    unfold can_unlink in *.
    destruct (idxToVertex ms) as [vs|] eqn:Evs;
      [destruct (idxToVertex md) as [vd|] eqn:Evd|].
    2,3: rewrite Hv; split; [by apply (Hlocks _ ms md)|by apply Hidle].
    destruct (bool_decide (is_Some (adjacency_list vs !! (s, d)))); rewrite Hv.
    2: split; [by apply (Hlocks _ ms md)|by apply Hidle].
    split; [by apply (Hlocks _ ms md)|].
    split; [|split; [|split; [|split]]].
    + unfold adj. rewrite two_vtx, decide_True by done. simpl.
      by rewrite (slot_vtx _ _ _ Hs), Evs.
    + unfold inc. rewrite two_vtx, decide_False, decide_True by done. simpl.
      by rewrite (slot_vtx _ _ _ Hd), Evd.
    + intros u Hu. unfold adj. rewrite two_vtx, decide_False by done.
      case_decide; [subst u|done]. simpl. by rewrite (slot_vtx _ _ _ Hd), Evd.
    + intros u Hu. unfold inc. rewrite two_vtx by done.
      case_decide; [subst u|by rewrite decide_False by done].
      simpl. by rewrite (slot_vtx _ _ _ Hs), Evs.
    + by apply Hseq.
Qed.

Lemma edge_updates_atomic_witness :
  addable (vMeta g_gone) 0 2 = true /\
  exists g' g1,
    add_edge 0 2 9 g_gone = Ret false g' /\
    lock_pair 0 2 (log (ENew (next_addr g_gone)) (fresh_addr g_gone)) = Ret tt g1 /\
    vtx (vMeta g1) 2 = None /\ same_vtx (vMeta g') (vMeta g1).
Proof.
  split; [reflexivity|].
  assert (E : add_edge 0 2 9 g_gone = Ret false (state_of (add_edge 0 2 9 g_gone) g_gone))
    by (vm_compute; reflexivity).
  destruct (edge_updates_atomic 0 2 g_gone false
              (state_of (add_edge 0 2 9 g_gone) g_gone) ltac:(lia)) as [H _].
  destruct (H 9 E) as (g1 & E1 & Hb & _ & Hv & _).
  exists (state_of (add_edge 0 2 9 g_gone) g_gone), g1.
  split; [exact E|]. split; [exact E1|]. split; [|exact Hv].
  assert (Eg : g1 = state_of (lock_pair 0 2 (log (ENew (next_addr g_gone)) (fresh_addr g_gone)))
                      g_gone) by (rewrite E1; reflexivity).
  rewrite Eg. vm_compute. reflexivity.
Defined.

End TGraph_proofs.
